(* ===== verification/_CoqProject ===== *)
-Q . S2P
Prelude.v
MachineInt.v
TagRegistry.v
DBQueue.v
DBQueueConc.v
Serializer.v
Double.v
Sha1.v
Bloom.v
Cusum.v
Heap.v
Timers.v
Flow.v
FlowMeter.v
PeriodFlowMeter.v
Payload.v
TopN.v
Xml.v
SerStream.v
Msg.v
Alloc.v
Filters.v
Packet.v
Gates.v
Block.v
StdMap.v
BlockVariable.v
Scheduler.v
Composition.v
StatMsg.v
Features.v
PerUser.v
Binning.v
HistoCalc.v
Divergence.v
Pruning.v
ADTest.v
Dissect.v
Jsmn.v
Json.v
Trending.v
Dns.v
UhPacket.v
NetTypes.v
Hashes.v
MsgIds.v
Counters.v
Cdf.v
PacketBlocks.v
Tewma.v
