(* ===== verification/Prelude.v ===== *)
(** * Blockmon: a verification development (root file)

    Blockmon runs network measurement as a composition of blocks: a block has
    input and output gates, links between gates carry messages, and a scheduler
    of a thread pool runs the blocks that do not run in their sender's thread.
    This library models the C++ code under [src/] as executable definitions and
    proves what makes each part correct.

    ** Parts, and the files that model them

    Foundations.
    - [Prelude]: outcomes ([Ret] or an exception, undefined behaviour and a failed
      [assert] included), the state-and-exception monad, notation and tactics;
    - [MachineInt]: the integer types with their wrap-around, byte order;
    - [Heap], [StdMap], [Xml]: the library containers and the configuration nodes
      the sources use, as interfaces with an instance each.

    Messages.
    - [TagRegistry], [Msg]: [core/message/TagRegistry.hpp], [Msg.hpp], the blocks
      [AppendTag.cpp] and [SyncTag.cpp]: layout, building, reading and ownership of
      tags;
    - [Alloc]: [core/SliceAllocator.hpp], [MemoryBatch.hpp]: the allocators that give
      out pieces of shared arenas;
    - [Serializer]: [core/message/BufferSerializer.hpp], [Serializer.hpp];
    - [Packet]: [messages/Packet.hpp], [Packet.cpp]: the lazy header parsers;
    - [Dissect]: [core/dissectors], [messages/NewPacket.hpp]: the packet whose headers
      are pointers found on demand, in one buffer or sliced;
    - [Flow], [Payload]: [messages/Flow.hpp], [Flow.cpp]: flow keys, flow records and
      the reassembly of a flow's payload;
    - [SerStream]: [messages/WordRecord], [Tweet], [blocks/SerExporter.cpp],
      [SerSource.cpp]: records sent over TCP and received again.

    Blocks and what connects and runs them.
    - [DBQueue], [DBQueueConc]: [core/block/DBQueue.hpp], the queue of an input gate,
      as run by one thread and under every interleaving of producers and consumer;
    - [Gates], [Block]: [core/block/InGate], [OutGate], [Block]: links, invocation,
      locking and delivery;
    - [BlockVariable]: [core/block/BlockVariable.hpp]: the variables a block shows to
      the control plane;
    - [Scheduler]: [core/MpMcQueue.hpp], [core/scheduler]: task queues, thread pools and
      the threads' loop;
    - [Composition]: [core/composition], the factory: installing a configuration;
    - [Timers]: [core/time]: clocks, timers and the timer thread.

    Measurement blocks ([blocks/]).
    - [FlowMeter], [PeriodFlowMeter], [TopN], [Filters] (filters, demultiplexers,
      counter).

    Sketches and detectors ([lib/]).
    - [Sha1], [Bloom]: [lib/bloom]: SHA-1, the hash values cut out of its digests, the
      Bloom filter and the pair of filters;
    - [Double], [Cusum]: [lib/cusum]: change detection, over IEEE doubles.

    Statistical anomaly detection ([usr/app_Stat_AD]).
    - [StatMsg]: the application's messages;
    - [Features]: [FeaturesExtractor.cpp]: which packets count for which feature, on
      which side, and the configuration of features;
    - [PerUser]: [PerUserCounter.cpp]: counts of a feature per user and time interval;
    - [Binning]: the edges of a histogram's bins, looked for by bisection;
    - [HistoCalc]: [HistoCalc.cpp]: the histograms of every interval and time scale;
    - [Divergence]: the arithmetic of the test: divergences of histograms, matrices,
      percentiles, comparison of doubles;
    - [Pruning]: the choice of reference histograms by the pruning of a matrix of
      divergences, and the test itself;
    - [ADTest]: [ADTest.cpp]: learning, detection, the windows of past histograms.

    Twitter trends ([usr/app_twittertrending], [lib/jsmn]).
    - [Jsmn]: [jsmn.cpp]: the tokeniser as its loops do it, and a reference for them;
    - [Json]: printed JSON and the tokens it has;
    - [Trending]: [TweetReader.cpp], [TweetFinder.cpp], [WordCounter.cpp]: lines
      read and dealt to gates in turn, the first hashtag of a tweet, and the counts.

    Other messages, hashes and small blocks.
    - [Dns], [UhPacket]: [messages/DNSPacket.cpp], [UHPacket.cpp]: DNS packets with
      compressed names, and packets known by the header of the COMBO card;
    - [NetTypes]: [messages/NetTypes.cpp]: conversions of times and of IPv4 addresses;
    - [Hashes]: [lib/hash/khash.cpp], [ACHash31.cpp]: many hashes cut out of the digests
      of one, and the affine hash;
    - [Tewma]: [lib/bloom/tewma.cpp]: the rates of many keys in one array of counters;
    - [MsgIds]: [core/message/ClassId.hpp], [MsgRegistry.hpp], [core/MarshFactory.hpp]:
      identifiers of message classes, descriptors, marshalling;
    - [Counters]: [blocks/Counter], [PassthroughPacketCounter]: counts and rates;
    - [Cdf]: [blocks/CDFGenerator.cpp]: the distribution of packet sizes;
    - [PacketBlocks]: [blocks/IPDumbAnonymizer.cpp], [PacketOrFlowToObservation.cpp],
      [TouchPacket.cpp], [SynthSource.cpp], [messages/Observation.hpp].
    Each file opens with what it models and what it abstracts from; a definition has
    the name of the function or member it translates.

    ** How the code is modelled

    A member function is a definition in the monad [M state]: it takes the object's
    state and ends with [Ret] or [Throw], and the state it leaves; a block handler
    returns or logs the messages it sends.  Pointers are addresses in an explicit
    store where objects are shared, offsets where they point into a buffer.  Integers
    are [Z] reduced to the width of their type where the code reduces them.  Loops
    that are not structural have fuel.  A theorem about such a loop gives an amount
    that is enough, computed from the state or the input: one more than the length of
    the packet for the VLAN tags ([vlan_fuel]), two more than the size of the queue for
    a flow meter's timer ([run_fuel]), one more than the number of timers that are due,
    a thousandth of the packet time to make up for, the bytes waiting in the buffers of
    a record source, the rounds in which a digest yields its hash values, the halvings
    of the interval a bin's edge is looked for in, the intervals of time that a
    histogram is late, N * N rounds for the pruning of a matrix of N histograms, one more than
    the length of the text for the tokeniser, and one more than the length of a packet for
    the labels of a DNS name; the recursion for compressed names has the depth of the
    stack, and any deeper than the pointers of the message is enough.  Or it
    shows that no amount is ([flow_meter_zero_timeout_diverges]).  Threads are step relations
    or schedules of atomic steps, sequentially consistent.

    What the repository does not hold (the XML parser, [inet_pton], the system clock,
    random numbers, the order of an [unordered_map]) is an argument or an interface
    with an instance.

    ** What is proved

    - queues and links: the queue refines a bounded FIFO, also under interleaving as
      long as the counter of the claims stays within its bits; gate lists are kept
      symmetric; a message reaches every peer once; a composition's installation makes
      exactly the configured links;
    - running: a worker thread has a block to itself; gates take turns; delivery in an
      acyclic composition is free of deadlock and of recursion without end;
    - memory: tags do not overlap and come back as stored; tag buffers have one owner,
      and those that are lent are left alone;
      pieces given out by the allocators never overlap; no header is read outside a
      packet's bytes;
    - round trips: a message through the serialiser, a packet's header fields through
      the parsers (both packet classes, by the same frames), a tag through its buffer, a
      block variable through its strings;
    - refinement: a Bloom filter answers as the set of what was inserted, but for false
      positives; a pair of them as a pair of sets; SHA-1 over any pieces as FIPS 180-1;
    - end to end: records cut and interleaved in any way on the network arrive once,
      unchanged and in order;
    - accounting: every packet a flow meter receives is in exactly one flow, and the
      periodic one reports each interval by itself;
    - time: expired timers fire in order, each once per period (with assertions compiled
      in, while there is a timer that is not due);
    - errors: what each failure branch leaves behind, among them several defects of
      the code, listed as findings in the manifest with the lemma that shows each.
    - anomaly detection: the features counted are the configured ones that fit the
      packet; a histogram is sent for every interval, without holes, and counts every
      value once; the search for bin edges ends; pruning ends with a part of the
      matrix, and the test's verdict is what the divergences say; windows only fill;
      detection decides every histogram that can be compared with its candidates, and
      an anomalous one is not learnt.
    - trends: the tokeniser refines its reference, and gives for any printed JSON the
      tokens of its values; a counter behind a gate has
      counted every hashtag of the gate that was found, but for the batch still open.
    - other messages: a DNS message in a UDP frame, its names compressed or not, is
      decoded to its header, questions and addresses; identifiers of message classes are
      the hash of their names, stable and distinct; what is marshalled is unmarshalled
      to itself; the hashes of a key are the
      groups of bits of its digests whatever was hashed before; the
      distribution logged is that of the packets' sizes; an anonymised packet is the
      packet with other addresses; the rate sketch refines a table of cells.

    ** Not modelled

    The control plane in Python ([daemon/]), its glue and the command line program
    (they parse files and call the composition manager), signal handling, logging, the
    capture back ends (pcap, PFQ, the COMBO card: loops around calls of their drivers),
    the IPFIX and IDMEF bridges (they translate to an external library's types; alerts
    are read by them only), blocks and functions that print, the applications
    [app_bypass] and [app_tstat] (file formats of another program and calls of an
    external analyser), the hardware design under [fw-combo/], and the vendored hash
    code under [lib/hash/C] with the wrappers that only call it.
    Memory models weaker than sequential consistency, destruction of blocks and of
    compositions, and the cost of operations are not modelled either.

    ** Plan

    What could follow: the wrappers of the digests over interfaces to the vendored code,
    the records of the IPFIX bridges over an interface to their library, and a weak
    memory model for the queues. *)

From stdpp Require Export base tactics option list numbers gmap strings sorting.
From Stdlib Require Export ZArith Lia.

Declare Scope bm_scope.
Delimit Scope bm_scope with bm.

(** ** Outcomes and the state-and-exception monad *)

(** What a C++ function of Blockmon can end with, besides returning: the
    exceptions its code throws, a failed [assert], an [at()] out of range, a call
    of [exit], and the points where the C++ standard leaves the behaviour
    undefined. *)
Inductive exn :=
| runtime_error (what : string)
| logic_error (what : string)
| out_of_range (what : string)
| assert_failure (what : string)
| exit_program (status : Z)
| undefined_behaviour (what : string).

#[export] Instance exn_eq_dec : EqDecision exn.
Proof. solve_decision. Defined.

Inductive outcome (A : Type) :=
| Ret (a : A)
| Throw (e : exn).
Arguments Ret {A} _.
Arguments Throw {A} _.

#[export] Instance outcome_eq_dec `{EqDecision A} : EqDecision (outcome A).
Proof. solve_decision. Defined.

(** A C++ method on an object with state [S]: the state survives a throw
    with the writes made before it. *)
Definition M (S A : Type) : Type := S → outcome A * S.

#[export] Instance M_ret {S} : MRet (M S) := λ A a s, (Ret a, s).
#[export] Instance M_bind {S} : MBind (M S) := λ A B f m s,
  match m s with
  | (Ret a, s') => f a s'
  | (Throw e, s') => (Throw e, s')
  end.

Definition throw {S A} (e : exn) : M S A := λ s, (Throw e, s).
Definition gets {S A} (f : S → A) : M S A := λ s, (Ret (f s), s).
Definition modify {S} (f : S → S) : M S unit := λ s, (Ret tt, f s).

(** [if (!b) throw e;] *)
Definition ensure {S} (b : bool) (e : exn) : M S unit :=
  if b then mret tt else throw e.

(** Returning normally, whatever the value. *)
Definition returns {A} (o : outcome A) : bool :=
  match o with Ret _ => true | Throw _ => false end.

(** Run an operation on one part of a larger state. *)
Definition zoom {S T A} (get : S → T) (put : T → S → S) (m : M T A) : M S A :=
  λ s, let '(r, t) := m (get s) in (r, put t s).

Lemma bind_Ret {S A B} (m : M S A) (f : A → M S B) s a s' :
  m s = (Ret a, s') → (m ≫= f) s = f a s'.
Proof. intros H. unfold mbind, M_bind. by rewrite H. Qed.

Lemma bind_Throw {S A B} (m : M S A) (f : A → M S B) s e s' :
  m s = (Throw e, s') → (m ≫= f) s = (Throw e, s').
Proof. intros H. unfold mbind, M_bind. by rewrite H. Qed.

Lemma bind_inv_Ret {S A B} (m : M S A) (f : A → M S B) s b s2 :
  (m ≫= f) s = (Ret b, s2) → ∃ a s1, m s = (Ret a, s1) ∧ f a s1 = (Ret b, s2).
Proof.
  unfold mbind, M_bind. destruct (m s) as [[a|e] s1]; [eauto | discriminate].
Qed.

(** Unfold the monad's operations in the goal. *)
Ltac run_m :=
  unfold ensure, zoom, mbind, M_bind, mret, M_ret, throw, gets, modify, id;
  cbn beta iota zeta.

(** ** Booleans and decisions *)

(** Case analysis on the boolean comparisons of a goal, leaving facts lia reads. *)
Ltac destruct_cmp :=
  repeat match goal with
  | |- context [Z.eqb ?a ?b] => destruct (Z.eqb_spec a b)
  | |- context [Z.ltb ?a ?b] => destruct (Z.ltb_spec a b)
  | |- context [Z.leb ?a ?b] => destruct (Z.leb_spec a b)
  | |- context [Nat.eqb ?a ?b] => destruct (Nat.eqb_spec a b)
  | |- context [Nat.ltb ?a ?b] => destruct (Nat.ltb_spec a b)
  | |- context [Nat.leb ?a ?b] => destruct (Nat.leb_spec a b)
  end.

(** ** Lists *)

(** [v[i].field = x] on an array of structs; an index out of range changes
    nothing, so a caller whose code can go out of range says what happens. *)
Definition update {A} (i : nat) (f : A → A) (l : list A) : list A := alter f i l.

(** [std::remove] then [erase]: every occurrence of [x] leaves the list. *)
Definition remove_all {A} `{EqDecision A} (x : A) (l : list A) : list A :=
  filter (λ y, y ≠ x) l.

Section remove_all.
Context {A : Type} `{EqDecision A}.
Implicit Types (x y : A) (l : list A).

Lemma elem_of_remove_all x y l : y ∈ remove_all x l ↔ y ≠ x ∧ y ∈ l.
Proof. unfold remove_all. by rewrite list_elem_of_filter. Qed.

Lemma remove_all_not_elem x l : x ∉ l → remove_all x l = l.
Proof.
  intros Hx. unfold remove_all. induction l as [|y l IH]; [done|].
  rewrite filter_cons_True, IH by set_solver. done.
Qed.

Lemma remove_all_app x l1 l2 :
  remove_all x (l1 ++ l2) = remove_all x l1 ++ remove_all x l2.
Proof. unfold remove_all. by rewrite filter_app. Qed.

Lemma remove_all_singleton x : remove_all x [x] = [].
Proof. unfold remove_all. by rewrite filter_cons_False by naive_solver. Qed.
End remove_all.

(** Filters that keep everything, or part of what satisfies a predicate. *)
Section filters.
Context {A : Type} (P Q : A → Prop) `{∀ x, Decision (P x)}.

Lemma list_filter_all (l : list A) : Forall P l → filter P l = l.
Proof. induction 1 as [|x l Hx _ IH]; [done|]. by rewrite filter_cons_True, IH. Qed.

Lemma list_filter_none (l : list A) : Forall (λ x, ¬ P x) l → filter P l = [].
Proof. induction 1 as [|x l Hx _ IH]; [done|]. by rewrite filter_cons_False. Qed.

Lemma Forall_filter_keep (l : list A) : Forall Q l → Forall Q (filter P l).
Proof.
  induction 1 as [|x l Hx _ IH]; [constructor|].
  destruct (decide (P x)); [rewrite filter_cons_True by done|rewrite filter_cons_False by done]; auto.
Qed.
End filters.

(** Sums over lists of integers, used by the conservation theorems. *)
Definition sumZ {A} (f : A → Z) (l : list A) : Z :=
  foldr (λ x acc, (f x + acc)%Z) 0%Z l.

Section sumZ.
Context {A : Type} (f : A → Z).
Implicit Types l : list A.

Lemma sumZ_nil : sumZ f [] = 0%Z.
Proof. done. Qed.

Lemma sumZ_cons x l : sumZ f (x :: l) = (f x + sumZ f l)%Z.
Proof. done. Qed.

Lemma sumZ_app l1 l2 : sumZ f (l1 ++ l2) = (sumZ f l1 + sumZ f l2)%Z.
Proof. induction l1 as [|x l1 IH]; simpl; [done|]. rewrite IH. lia. Qed.

Lemma sumZ_permutation l1 l2 : l1 ≡ₚ l2 → sumZ f l1 = sumZ f l2.
Proof. induction 1; simpl in *; lia. Qed.

Lemma sumZ_nonneg l : (∀ x, 0 ≤ f x)%Z → (0 ≤ sumZ f l)%Z.
Proof. intros Hf. induction l as [|x l IH]; simpl; [lia|]. specialize (Hf x). lia. Qed.
End sumZ.

#[export] Instance sumZ_proper {A} (f : A → Z) : Proper ((≡ₚ) ==> (=)) (sumZ f).
Proof. intros l1 l2. apply sumZ_permutation. Qed.

Create HintDb bm discriminated.
Create Rewrite HintDb bm_rw.
#[export] Hint Rewrite @sumZ_nil @sumZ_cons @sumZ_app : bm_rw.
#[export] Hint Rewrite @length_insert @length_app @length_drop @length_take : bm_rw.
