(* ===== verification/MachineInt.v ===== *)
(** * Machine integers

    The integer types of the sources as [Z] with the wrap-around written out:
    [unsigned char], [uint16_t], [unsigned int] and [size_t]/[uint64_t] by
    [u8] .. [u64], the two's complement [int16_t], [int] and [long] by [s16]
    .. [s64].  A word in memory is a list of bytes, least significant first:
    the sources are built for x86-64, and the byte-swapping calls [htons],
    [htonl] are the reversal of those bytes. *)

From S2P Require Export Prelude.

Open Scope Z_scope.

Definition u8 (z : Z) : Z := z `mod` 2 ^ 8.
Definition u16 (z : Z) : Z := z `mod` 2 ^ 16.
Definition u32 (z : Z) : Z := z `mod` 2 ^ 32.
Definition u64 (z : Z) : Z := z `mod` 2 ^ 64.

(** Two's complement reading of the [w] low bits. *)
Definition to_signed (w : Z) (z : Z) : Z :=
  let m := z `mod` 2 ^ w in if m <? 2 ^ (w - 1) then m else m - 2 ^ w.
Definition s8 : Z → Z := to_signed 8.
Definition s16 : Z → Z := to_signed 16.
Definition s32 : Z → Z := to_signed 32.
Definition s64 : Z → Z := to_signed 64.

Lemma to_signed_range w z :
  0 < w → - 2 ^ (w - 1) ≤ to_signed w z < 2 ^ (w - 1).
Proof.
  intros Hw. unfold to_signed.
  assert (2 ^ w = 2 * 2 ^ (w - 1)) as E.
  { rewrite <- Z.pow_succ_r by lia. f_equal. lia. }
  pose proof (Z.mod_pos_bound z (2 ^ w) ltac:(lia)).
  destruct_cmp; lia.
Qed.

Lemma to_signed_id w z :
  0 < w → - 2 ^ (w - 1) ≤ z < 2 ^ (w - 1) → to_signed w z = z.
Proof.
  intros Hw Hz. unfold to_signed.
  assert (2 ^ w = 2 * 2 ^ (w - 1)) as E.
  { rewrite <- Z.pow_succ_r by lia. f_equal. lia. }
  destruct (Z.le_gt_cases 0 z).
  - rewrite Z.mod_small by lia. destruct_cmp; lia.
  - replace (z `mod` 2 ^ w) with (z + 2 ^ w); [destruct_cmp; lia|].
    symmetry. rewrite <- (Z.mod_add z 1 (2 ^ w)) by lia.
    rewrite Z.mod_small by lia. lia.
Qed.

Lemma to_signed_mod w z : 0 < w → to_signed w z `mod` 2 ^ w = z `mod` 2 ^ w.
Proof.
  intros Hw. unfold to_signed. destruct_cmp.
  - by rewrite Z.mod_mod by lia.
  - rewrite <- (Z.mod_add _ 1 (2 ^ w)) by lia.
    replace (z `mod` 2 ^ w - 2 ^ w + 1 * 2 ^ w) with (z `mod` 2 ^ w) by lia.
    by rewrite Z.mod_mod by lia.
Qed.

Lemma to_signed_of_mod w z : to_signed w (z `mod` 2 ^ w) = to_signed w z.
Proof.
  unfold to_signed. destruct (decide (2 ^ w = 0)) as [E|E].
  - rewrite E, !Z.mod_0_r. done.
  - by rewrite Z.mod_mod.
Qed.

Lemma u8_small z : 0 ≤ z < 2 ^ 8 → u8 z = z.
Proof. apply Z.mod_small. Qed.
Lemma u16_small z : 0 ≤ z < 2 ^ 16 → u16 z = z.
Proof. apply Z.mod_small. Qed.
Lemma u32_small z : 0 ≤ z < 2 ^ 32 → u32 z = z.
Proof. apply Z.mod_small. Qed.
Lemma u64_small z : 0 ≤ z < 2 ^ 64 → u64 z = z.
Proof. apply Z.mod_small. Qed.

Lemma u8_range z : 0 ≤ u8 z < 2 ^ 8.
Proof. apply Z.mod_pos_bound. lia. Qed.
Lemma u16_range z : 0 ≤ u16 z < 2 ^ 16.
Proof. apply Z.mod_pos_bound. lia. Qed.
Lemma u32_range z : 0 ≤ u32 z < 2 ^ 32.
Proof. apply Z.mod_pos_bound. lia. Qed.
Lemma u64_range z : 0 ≤ u64 z < 2 ^ 64.
Proof. apply Z.mod_pos_bound. lia. Qed.

(** Sums of wrapped numbers. *)
Lemma u64_add_sub a x y : u64 (a + u64 x - y) = u64 (a + x - y).
Proof.
  unfold u64. replace (a + x `mod` 2 ^ 64 - y) with (a - y + x `mod` 2 ^ 64) by lia.
  rewrite Z.add_mod_idemp_r by lia. f_equal. lia.
Qed.

Lemma u64_add_cong a b c : u64 a = u64 b → u64 (a + c) = u64 (b + c).
Proof. unfold u64. intros E. by rewrite <- Z.add_mod_idemp_l, E, Z.add_mod_idemp_l by lia. Qed.

(** Bring the ranges of the wrapped terms of the goal into the context. *)
Ltac wrap_ranges :=
  repeat match goal with
  | |- context [u8 ?z] => lazymatch goal with
      | _ : 0 ≤ u8 z < _ |- _ => fail | _ => pose proof (u8_range z) end
  | |- context [u16 ?z] => lazymatch goal with
      | _ : 0 ≤ u16 z < _ |- _ => fail | _ => pose proof (u16_range z) end
  | |- context [u32 ?z] => lazymatch goal with
      | _ : 0 ≤ u32 z < _ |- _ => fail | _ => pose proof (u32_range z) end
  | |- context [u64 ?z] => lazymatch goal with
      | _ : 0 ≤ u64 z < _ |- _ => fail | _ => pose proof (u64_range z) end
  end.

(** ** Words in memory *)

Fixpoint le_bytes (n : nat) (z : Z) : list Z :=
  match n with
  | O => []
  | S n => z `mod` 256 :: le_bytes n (z / 256)
  end.

Fixpoint le_value (bs : list Z) : Z :=
  match bs with
  | [] => 0
  | b :: bs => b + 256 * le_value bs
  end.

Definition is_byte (b : Z) : Prop := 0 ≤ b < 256.

Lemma length_le_bytes n z : length (le_bytes n z) = n.
Proof. revert z. induction n as [|n IH]; intros z; simpl; by rewrite ?IH. Qed.

Lemma le_bytes_are_bytes n z : Forall is_byte (le_bytes n z).
Proof.
  revert z. induction n as [|n IH]; intros z; simpl; constructor; [|done].
  apply Z.mod_pos_bound. lia.
Qed.

Lemma le_value_le_bytes n z : le_value (le_bytes n z) = z `mod` 2 ^ (8 * Z.of_nat n).
Proof.
  revert z. induction n as [|n IH]; intros z; cbn [le_bytes le_value].
  - by rewrite Z.mod_1_r.
  - rewrite IH.
    replace (8 * Z.of_nat (S n)) with (8 + 8 * Z.of_nat n) by lia.
    rewrite Z.pow_add_r, Z.rem_mul_r by lia. done.
Qed.

Lemma le_value_range bs :
  Forall is_byte bs → 0 ≤ le_value bs < 2 ^ (8 * Z.of_nat (length bs)).
Proof.
  induction 1 as [|b bs Hb _ IH]; [done|].
  cbn [le_value length].
  replace (8 * Z.of_nat (S (length bs))) with (8 + 8 * Z.of_nat (length bs)) by lia.
  rewrite Z.pow_add_r by lia. unfold is_byte in Hb. lia.
Qed.

Lemma le_bytes_le_value bs : Forall is_byte bs → le_bytes (length bs) (le_value bs) = bs.
Proof.
  induction 1 as [|b bs Hb _ IH]; [done|].
  cbn [le_value length le_bytes]. unfold is_byte in Hb.
  replace ((b + 256 * le_value bs) `mod` 256) with b.
  2:{ rewrite Z.mul_comm, Z.mod_add, Z.mod_small by lia. done. }
  replace ((b + 256 * le_value bs) / 256) with (le_value bs).
  2:{ rewrite Z.mul_comm, Z.div_add, Z.div_small by lia. lia. }
  by rewrite IH.
Qed.

Lemma le_bytes_mod n z : le_bytes n (z `mod` 2 ^ (8 * Z.of_nat n)) = le_bytes n z.
Proof.
  rewrite <- le_value_le_bytes.
  rewrite <- (length_le_bytes n z) at 1.
  apply le_bytes_le_value, le_bytes_are_bytes.
Qed.

(** [htons], [htonl] and [ntohs], [ntohl]: the bytes of the word reversed. *)
Definition bswap (n : nat) (z : Z) : Z := le_value (rev (le_bytes n z)).
Definition htons : Z → Z := bswap 2.
Definition htonl : Z → Z := bswap 4.
Definition ntohs : Z → Z := bswap 2.
Definition ntohl : Z → Z := bswap 4.

Lemma is_byte_rev bs : Forall is_byte bs → Forall is_byte (rev bs).
Proof.
  rewrite !Forall_forall. intros H x Hx. apply H.
  by apply list_elem_of_In, in_rev, list_elem_of_In.
Qed.

Lemma bswap_range n z : 0 ≤ bswap n z < 2 ^ (8 * Z.of_nat n).
Proof.
  pose proof (le_value_range (rev (le_bytes n z))
    (is_byte_rev _ (le_bytes_are_bytes n z))) as H.
  by rewrite length_rev, length_le_bytes in H.
Qed.

Lemma le_bytes_bswap n z : le_bytes n (bswap n z) = rev (le_bytes n z).
Proof.
  pose proof (le_bytes_le_value (rev (le_bytes n z))
    (is_byte_rev _ (le_bytes_are_bytes n z))) as H.
  by rewrite length_rev, length_le_bytes in H.
Qed.

Lemma bswap_bswap n z : bswap n (bswap n z) = z `mod` 2 ^ (8 * Z.of_nat n).
Proof.
  unfold bswap at 1. rewrite le_bytes_bswap, rev_involutive. apply le_value_le_bytes.
Qed.

Lemma bswap_mod n z : bswap n (z `mod` 2 ^ (8 * Z.of_nat n)) = bswap n z.
Proof. unfold bswap. by rewrite le_bytes_mod. Qed.

(** Loading back a word that was stored. *)
Lemma le_value_le_bytes_small n z :
  0 ≤ z < 2 ^ (8 * Z.of_nat n) → le_value (le_bytes n z) = z.
Proof. intros. rewrite le_value_le_bytes. by apply Z.mod_small. Qed.

#[export] Hint Rewrite length_le_bytes le_bytes_bswap bswap_bswap : bm_rw.
#[export] Hint Resolve u8_range u16_range u32_range u64_range bswap_range
  le_bytes_are_bytes : bm.
