(* ===== verification/TagRegistry.v ===== *)
(** * Message tags

    Models [core/message/TagRegistry.hpp]: the registry that lays the tags of a
    message type out in its tag buffer, and the functions that build and read a
    tag there.

    A type of tags is what the code uses of it: its size, its alignment and the
    [hash_code] of its [type_info].  A tag's value is the list of its bytes.  The
    layout of [tag_object<Tag>] is that of the x86-64 ABI: the flag [valid] in
    the first byte, the value at the next multiple of its alignment.  The tag
    buffer is the list of its bytes; writing or reading outside is undefined.
    The mutex of [register_tag] is not modelled: registrations come one after
    the other, as its documentation asks for. *)

From S2P Require Export MachineInt.

(** [std::numeric_limits<size_t>::max()] *)
Definition TAG_INVALID : Z := 2 ^ 64 - 1.

Record tag_type := TagType { t_size : Z; t_align : Z; t_hash : Z }.

(** A size is a positive multiple of the alignment. *)
Definition type_ok (t : tag_type) : Prop := 0 < t_align t ∧ 0 < t_size t ∧ t_size t `mod` t_align t = 0.

(** [tag_object<Tag>]: [sizeof] and the offset of [value]. *)
Definition value_offset (t : tag_type) : Z := t_align t.
Definition object_size (t : tag_type) : Z := t_align t + t_size t.

(** [c_str()]: the string up to its first NUL. *)
Fixpoint c_str (s : string) : string :=
  match s with
  | EmptyString => EmptyString
  | String c s => if decide (c = Ascii.zero) then EmptyString else String c (c_str s)
  end.

(** ** The registry *)

Record tag_metadata := TagMetadata { md_size : Z; md_offset : Z; hash_code : Z; tag_id : string }.

Record registry := Registry { next_offset : Z; tag_info : list tag_metadata }.

Definition registry_new : registry := Registry 0 [].

(** The loop of [find_tag_] from index [i]. *)
Fixpoint find_from (i : Z) (id : string) (info : list tag_metadata) : Z :=
  match info with
  | [] => TAG_INVALID
  | md :: info => if decide (tag_id md = id) then i else find_from (u64 (i + 1)) id info
  end.

Definition find_tag (id : string) (r : registry) : Z := find_from 0 (c_str id) (tag_info r).

Definition get_handle_by_name (name : string) : M registry Z :=
  h ← gets (find_tag name);
  if h =? TAG_INVALID then throw (runtime_error "TagRegistery::find_tag: No tags registered for this name")
  else mret h.

Definition get_info (h : Z) : M registry tag_metadata :=
  r ← gets id;
  if Z.of_nat (length (tag_info r)) <=? h then throw (runtime_error "TagRegistry::get_info: bad tag handler")
  else
    match tag_info r !! Z.to_nat h with
    | Some md => mret md
    | None => throw (undefined_behaviour "vector index")
    end.

(** The next offset that is a multiple of [sizeof(tag_object<Tag>)]. *)
Definition align_offset (t : tag_type) (o : Z) : Z :=
  let rem := o `mod` object_size t in
  if rem =? 0 then o else u64 (o + (object_size t - rem)).

Definition register_tag (t : tag_type) (name : string) : M registry Z :=
  r ← gets id;
  let tag_h := find_tag name r in
  if negb (tag_h =? TAG_INVALID) then
    md ← get_info tag_h;
    ensure (t_hash t =? hash_code md)
      (runtime_error "TagRegistry::register_tag: trying to register the same tag with different types");;
    mret tag_h
  else
    let tag_h := Z.of_nat (length (tag_info r)) in
    let offset := align_offset t (next_offset r) in
    modify (λ r, Registry (u64 (offset + object_size t))
      (tag_info r ++ [TagMetadata (t_size t) offset (t_hash t) name]));;
    mret tag_h.

Definition buffer_size (r : registry) : Z := next_offset r.

(** ** Building and reading a tag *)

(** [blockmon_assert]: compiled out, [assert], or an exception. *)
Inductive assert_mode := AssertOff | AssertAborts | AssertThrows.

(** The macro for a condition in parentheses. *)
Definition blockmon_assert {S} (am : assert_mode) (c : bool) (reason : string) : M S unit :=
  match am with
  | AssertOff => mret tt
  | AssertAborts => ensure c (assert_failure reason)
  | AssertThrows => ensure c (runtime_error reason)
  end.

(** The macro for the condition [x == y] without parentheses: the third form
    tests [!x == y]. *)
Definition blockmon_assert_eq {S} (am : assert_mode) (x y : Z) (reason : string) : M S unit :=
  match am with
  | AssertOff => mret tt
  | AssertAborts => ensure (x =? y) (assert_failure reason)
  | AssertThrows => ensure (negb ((if x =? 0 then 1 else 0) =? y)) (runtime_error reason)
  end.

(** What [new (ptr) tag_object<Tag>(value)] stores, in this order: the flag
    cleared, the value, the flag set (with release semantics). *)
Definition object_writes (t : tag_type) (offset : Z) (v : list Z) : list (Z * list Z) :=
  [(offset, [0]); (offset + value_offset t, v); (offset, [1])].

Definition store_bytes (w : Z * list Z) (buf : list Z) : list Z := list_inserts (Z.to_nat w.1) w.2 buf.

Definition run_writes (ws : list (Z * list Z)) (buf : list Z) : list Z :=
  foldl (λ buf w, store_bytes w buf) buf ws.

(** The object is inside the buffer. *)
Definition object_in (t : tag_type) (offset : Z) (buf : list Z) : bool :=
  offset + object_size t <=? Z.of_nat (length buf).

Definition load_bytes (offset n : Z) (buf : list Z) : list Z := take (Z.to_nat n) (drop (Z.to_nat offset) buf).

(** [ptr->valid.load()] *)
Definition load_valid (offset : Z) (buf : list Z) : bool :=
  match buf !! Z.to_nat offset with Some b => negb (b =? 0) | None => false end.

Section tags.
Context (am : assert_mode).

Definition check_tag (t : tag_type) (buf : list Z) (h : Z) (what : string) : M registry tag_metadata :=
  md ← get_info h;
  blockmon_assert am (u64 (md_offset md + md_size md) <=? Z.of_nat (length buf)) (what +:+ ": buffer overflow");;
  blockmon_assert_eq am (hash_code md) (t_hash t) (what +:+ ": Tag type mismatch");;
  mret md.

Definition emplace_tag (t : tag_type) (buf : list Z) (h : Z) (v : list Z) : M registry (list Z) :=
  md ← check_tag t buf h "emplace_tag";
  ensure (object_in t (md_offset md) buf) (undefined_behaviour "tag written outside its buffer");;
  mret (run_writes (object_writes t (md_offset md) v) buf).

Definition get_tag (t : tag_type) (buf : list Z) (h : Z) : M registry (option (list Z)) :=
  md ← check_tag t buf h "get_tag";
  ensure (object_in t (md_offset md) buf) (undefined_behaviour "tag read outside its buffer");;
  mret (if load_valid (md_offset md) buf
        then Some (load_bytes (md_offset md + value_offset t) (t_size t) buf) else None).

Definition is_available_tag (buf : list Z) (h : Z) : M registry bool :=
  md ← get_info h;
  blockmon_assert am (u64 (md_offset md + md_size md) <=? Z.of_nat (length buf)) "is_valid_tag: buffer overflow";;
  ensure (md_offset md <? Z.of_nat (length buf)) (undefined_behaviour "tag read outside its buffer");;
  mret (load_valid (md_offset md) buf).
End tags.

(** ** The specification of the registry

    The tags registered, in the order of their first registration. *)

Definition spec_register (x : tag_type * string) (L : list (tag_type * string)) :
    outcome Z * list (tag_type * string) :=
  match list_find (λ y, y.2 = x.2) L with
  | Some (k, y) =>
      if t_hash x.1 =? t_hash y.1 then (Ret (Z.of_nat k), L)
      else (Throw (runtime_error "TagRegistry::register_tag: trying to register the same tag with different types"), L)
  | None => (Ret (Z.of_nat (length L)), L ++ [x])
  end.

(** A sequence of registrations, of which some may throw, and their answers. *)
Fixpoint run_all {S} (step : tag_type * string → S → outcome Z * S) (xs : list (tag_type * string)) (s : S) :
    list (outcome Z) * S :=
  match xs with
  | [] => ([], s)
  | x :: xs =>
      let '(o, s) := step x s in
      let '(os, s) := run_all step xs s in (o :: os, s)
  end.

Definition register_pair (x : tag_type * string) : M registry Z := register_tag x.1 x.2.

Definition describes (md : tag_metadata) (x : tag_type * string) : Prop :=
  md_size md = t_size x.1 ∧ hash_code md = t_hash x.1 ∧ tag_id md = x.2.

(** The registry lists the tags of [L], each in a range of its own. *)
Record tags_rep (r : registry) (L : list (tag_type * string)) : Prop := TagsRep {
  rep_mds : Forall2 describes (tag_info r) L;
  rep_ok : Forall (λ x, type_ok x.1) L;
  rep_fit : ∀ i md x, tag_info r !! i = Some md → L !! i = Some x →
    0 ≤ md_offset md ∧ md_offset md `mod` object_size x.1 = 0 ∧ md_offset md + object_size x.1 ≤ next_offset r;
  rep_apart : ∀ i j md md' x, (i < j)%nat → tag_info r !! i = Some md → tag_info r !! j = Some md' →
    L !! i = Some x → md_offset md + object_size x.1 ≤ md_offset md';
  rep_names : NoDup L.*2;
  rep_length : Z.of_nat (length L) ≤ next_offset r
}.

Lemma registry_new_rep : tags_rep registry_new [].
Proof. split; cbn; try done; try constructor. Qed.

Lemma object_size_pos t : type_ok t → 1 < object_size t.
Proof. unfold type_ok, object_size. lia. Qed.

Lemma find_from_spec name info i :
  0 ≤ i → i + Z.of_nat (length info) < 2 ^ 64 →
  find_from i name info =
  match list_find (λ md, tag_id md = name) info with Some (k, _) => i + Z.of_nat k | None => TAG_INVALID end.
Proof.
  revert i. induction info as [|md info IH]; intros i Hi Hlen; [done|].
  cbn [find_from list_find]. cbn [length] in Hlen.
  destruct (decide (tag_id md = name)); [lia|].
  rewrite u64_small by lia. rewrite IH by lia. destruct (list_find _ info) as [[k md']|]; cbn; lia.
Qed.

(** Looking a name up in the metadata and in the list of tags. *)
Lemma list_find_describes name mds L :
  Forall2 describes mds L →
  match list_find (λ md, tag_id md = name) mds, list_find (λ x, x.2 = name) L with
  | Some (k, md), Some (k', x) => k = k' ∧ describes md x ∧ mds !! k = Some md ∧ L !! k = Some x
  | None, None => True
  | _, _ => False
  end.
Proof.
  induction 1 as [|md x mds L Hd HF IH]; [done|]. cbn [list_find]. pose proof Hd as (_ & _ & E). rewrite E.
  destruct (decide (x.2 = name)); [done|].
  destruct (list_find _ mds) as [[k md']|], (list_find _ L) as [[k' x']|]; cbn; try done.
  destruct IH as (-> & IH). by split.
Qed.

Lemma align_offset_spec t o :
  type_ok t → 0 ≤ o → o + object_size t < 2 ^ 64 →
  let a := align_offset t o in o ≤ a < o + object_size t ∧ a `mod` object_size t = 0.
Proof.
  intros Ht Ho Hb. pose proof (object_size_pos t Ht) as Hp. unfold align_offset.
  pose proof (Z.mod_pos_bound o (object_size t) ltac:(lia)) as Hm.
  pose proof (Z.div_mod o (object_size t) ltac:(lia)) as Hd.
  destruct (Z.eqb_spec (o `mod` object_size t) 0) as [E|E]; [lia|].
  rewrite u64_small by lia. split; [lia|].
  replace (o + (object_size t - o `mod` object_size t)) with ((o / object_size t + 1) * object_size t) by lia.
  apply Z.mod_mul. lia.
Qed.

Lemma get_info_at r i md h :
  tag_info r !! i = Some md → h = Z.of_nat i → get_info h r = (Ret md, r).
Proof.
  intros E ->. unfold get_info. run_m. pose proof (lookup_lt_Some _ _ _ E).
  rewrite (proj2 (Z.leb_gt _ _)) by lia. by rewrite Nat2Z.id, E.
Qed.

Lemma register_new r L t name :
  tags_rep r L → type_ok t → 0 ≤ next_offset r → next_offset r + 2 * object_size t < 2 ^ 64 →
  list_find (λ x, x.2 = name) L = None →
  let a := align_offset t (next_offset r) in
  let r' := Registry (a + object_size t) (tag_info r ++ [TagMetadata (t_size t) a (t_hash t) name]) in
  tags_rep r' (L ++ [(t, name)]) ∧ next_offset r ≤ next_offset r' ≤ next_offset r + 2 * object_size t.
Proof.
  intros [Hm Hok Hf Ha Hn Hl] Ht H0 Hb E a r'. pose proof (object_size_pos t Ht) as Hp.
  destruct (align_offset_spec t (next_offset r) Ht) as [Hge Hmod]; [lia|lia|].
  pose proof (Forall2_length _ _ _ Hm) as Elen. fold a in Hge, Hmod.
  split; [|cbn; lia]. split; cbn [r' tag_info next_offset].
  - apply Forall2_app; [done|]. by repeat constructor.
  - apply Forall_app. split; [done|]. by constructor.
  - intros i md x [Hi|[Hi Hi']]%lookup_app_Some Hx.
    + rewrite lookup_app_l in Hx by (rewrite <- Elen; by eapply lookup_lt_Some).
      destruct (Hf i md x Hi Hx) as (? & ? & ?). split_and!; [done|done|lia].
    + apply list_lookup_singleton_Some in Hi' as [Ei <-]. rewrite lookup_app_r in Hx by lia.
      replace (i - length L)%nat with 0%nat in Hx by lia. injection Hx as <-. cbn. split_and!; [lia|done|lia].
  - intros i j md md' x Hij [Hi|[Hi Hi']]%lookup_app_Some Hj Hx.
    2:{ apply lookup_lt_Some in Hj. rewrite length_app in Hj. cbn in Hj. lia. }
    rewrite lookup_app_l in Hx by (rewrite <- Elen; by eapply lookup_lt_Some).
    apply lookup_app_Some in Hj as [Hj|[Hj Hj']]; [by eapply Ha|].
    apply list_lookup_singleton_Some in Hj' as [_ <-]. cbn. destruct (Hf i md x Hi Hx) as (? & ? & ?). lia.
  - rewrite fmap_app. apply NoDup_app. split_and!; [done| |apply NoDup_singleton].
    intros n (x & -> & Hx)%list_elem_of_fmap Hn'. apply list_elem_of_singleton in Hn'. cbn in Hn'.
    apply list_find_None in E. rewrite Forall_forall in E. by apply (E x).
  - rewrite length_app. cbn. lia.
Qed.

Lemma register_tag_spec r L t name :
  tags_rep r L → type_ok t → c_str name = name → 0 ≤ next_offset r →
  next_offset r + 2 * object_size t < 2 ^ 64 →
  let '(o, L') := spec_register (t, name) L in
  ∃ r', register_tag t name r = (o, r') ∧ tags_rep r' L' ∧
    next_offset r ≤ next_offset r' ≤ next_offset r + 2 * object_size t.
Proof.
  intros HR Ht Hname H0 Hb. pose proof (object_size_pos t Ht) as Hp.
  pose proof (Forall2_length _ _ _ (rep_mds _ _ HR)) as Elen. pose proof (rep_length _ _ HR) as Hl.
  pose proof (list_find_describes name _ _ (rep_mds _ _ HR)) as Hfind.
  unfold register_tag, spec_register. run_m. cbn [fst snd]. unfold find_tag.
  rewrite Hname, find_from_spec by lia.
  destruct (list_find _ (tag_info r)) as [[k md]|], (list_find _ L) as [[k' x]|] eqn:EL; try done.
  - destruct Hfind as (<- & (_ & Eh & _) & Hmd & _). pose proof (lookup_lt_Some _ _ _ Hmd).
    rewrite (proj2 (Z.eqb_neq (0 + Z.of_nat k) TAG_INVALID)) by (unfold TAG_INVALID; lia). cbn [negb].
    rewrite (get_info_at r k md _ Hmd) by lia. rewrite Eh.
    destruct (t_hash t =? t_hash x.1); eexists; (split; [rewrite ?Z.add_0_l; done|]); (split; [done|cbn; lia]).
  - destruct (align_offset_spec t (next_offset r)) as [Hge _]; [done|lia|lia|].
    pose proof (register_new r L t name HR Ht H0 Hb EL) as [HR' Hn']. cbn [negb Z.eqb TAG_INVALID].
    rewrite Z.eqb_refl. cbn [negb]. rewrite (u64_small (_ + object_size t)) by lia.
    eexists. rewrite Elen. split; [done|]. by split.
Qed.

(** ** Tags in memory *)

Lemma length_run_writes ws buf : length (run_writes ws buf) = length buf.
Proof.
  revert buf. induction ws as [|w ws IH]; intros buf; [done|].
  change (run_writes (w :: ws) buf) with (run_writes ws (store_bytes w buf)). rewrite IH. apply length_inserts.
Qed.

Lemma store_bytes_lookup o bs buf k :
  0 ≤ o → o + Z.of_nat (length bs) ≤ Z.of_nat (length buf) →
  store_bytes (o, bs) buf !! k =
  if decide (o ≤ Z.of_nat k < o + Z.of_nat (length bs)) then bs !! (k - Z.to_nat o)%nat else buf !! k.
Proof.
  intros Ho Hlen. unfold store_bytes. cbn [fst snd]. case_decide as Hk.
  - apply list_lookup_inserts; lia.
  - destruct (decide (Z.of_nat k < o)); [apply list_lookup_inserts_lt|apply list_lookup_inserts_ge]; lia.
Qed.

Lemma load_bytes_lookup a n buf k :
  load_bytes a n buf !! k = if decide (k < Z.to_nat n)%nat then buf !! (Z.to_nat a + k)%nat else None.
Proof.
  unfold load_bytes. case_decide; [by rewrite lookup_take_lt, lookup_drop by lia|].
  apply lookup_take_ge. lia.
Qed.

Lemma load_bytes_ext a n buf buf' :
  (∀ k, (k < Z.to_nat n)%nat → buf !! (Z.to_nat a + k)%nat = buf' !! (Z.to_nat a + k)%nat) →
  load_bytes a n buf = load_bytes a n buf'.
Proof. intros H. apply list_eq. intros k. rewrite !load_bytes_lookup. case_decide; [by apply H|done]. Qed.

Section emplace.
Context (t : tag_type) (o : Z) (v buf : list Z).
Context (Hok : type_ok t) (Ho : 0 ≤ o) (Hin : object_in t o buf = true).
Context (Hv : Z.of_nat (length v) = t_size t).

Local Lemma in_bounds : o + t_align t + t_size t ≤ Z.of_nat (length buf).
Proof. unfold object_in, object_size in Hin. lia. Qed.

(** What the memory holds after the first [n] writes. *)
Lemma writes_lookup n k :
  run_writes (take n (object_writes t o v)) buf !! k =
  if decide (Z.of_nat k = o ∧ (0 < n)%nat) then Some (if decide (n < 3)%nat then 0 else 1)
  else if decide (o + t_align t ≤ Z.of_nat k < o + object_size t ∧ (1 < n)%nat)
  then v !! (k - Z.to_nat (o + t_align t))%nat else buf !! k.
Proof.
  pose proof in_bounds. destruct Hok as (? & ? & _). unfold object_size, object_writes, value_offset.
  destruct n as [|[|[|n]]]; cbn [take]; rewrite ?take_nil; cbn [run_writes foldl];
    rewrite ?store_bytes_lookup by (cbn [length]; unfold store_bytes; rewrite ?length_inserts; lia);
    cbn [length]; repeat case_decide; try lia; try done.
  all: by replace (k - Z.to_nat o)%nat with 0%nat by lia.
Qed.

Lemma writes_valid n :
  load_valid o (run_writes (take n (object_writes t o v)) buf) =
  if decide (n = 0%nat) then load_valid o buf else if decide (n < 3)%nat then false else true.
Proof.
  unfold load_valid. rewrite writes_lookup, Z2Nat.id by done. destruct Hok as (? & ? & _).
  repeat case_decide; try lia; done.
Qed.

Lemma writes_value n :
  (1 < n)%nat → load_bytes (o + value_offset t) (t_size t) (run_writes (take n (object_writes t o v)) buf) = v.
Proof.
  intros Hn. apply list_eq. intros k. rewrite load_bytes_lookup, writes_lookup. destruct Hok as (? & ? & _).
  unfold value_offset, object_size. repeat case_decide; try lia.
  - f_equal. lia.
  - symmetry. apply lookup_ge_None. lia.
Qed.

(** Memory outside the object. *)
Lemma writes_elsewhere n k :
  ¬ o ≤ Z.of_nat k < o + object_size t → run_writes (take n (object_writes t o v)) buf !! k = buf !! k.
Proof.
  intros Hk. rewrite writes_lookup. destruct Hok as (? & ? & _). unfold object_size in *.
  repeat case_decide; try lia; done.
Qed.
End emplace.

Lemma take_object_writes t o v : take 3 (object_writes t o v) = object_writes t o v.
Proof. done. Qed.

(** What [check_tag] and the operations answer for a registered tag. *)
Section registered.
Context (am : assert_mode) (r : registry) (L : list (tag_type * string)) (HR : tags_rep r L).
Context (buf : list Z) (Hbuf : next_offset r ≤ Z.of_nat (length buf)) (Hsmall : next_offset r < 2 ^ 64).

Lemma registered_tag i t name :
  L !! i = Some (t, name) → ∃ md, tag_info r !! i = Some md ∧ type_ok t ∧
    md_size md = t_size t ∧ hash_code md = t_hash t ∧
    0 ≤ md_offset md ∧ md_offset md + object_size t ≤ next_offset r.
Proof.
  intros Hx. destruct (Forall2_lookup_r _ _ _ _ _ (rep_mds _ _ HR) Hx) as (md & E & Es & Eh & _).
  pose proof (Forall_lookup_1 _ _ _ _ (rep_ok _ _ HR) Hx) as Hok.
  destruct (rep_fit _ _ HR i md (t, name) E Hx) as (? & _ & ?). exists md. by split_and!.
Qed.

Lemma blockmon_assert_true {S} reason (s : S) : blockmon_assert am true reason s = (Ret tt, s).
Proof. by destruct am. Qed.

Lemma check_registered i t name md what :
  L !! i = Some (t, name) → tag_info r !! i = Some md → check_tag am t buf (Z.of_nat i) what r = (Ret md, r).
Proof.
  intros Hx E. destruct (registered_tag i t name Hx) as (md' & E' & (? & ? & _) & Es & Eh & Ho & Hb).
  rewrite E in E'. injection E' as <-. unfold check_tag, object_size in *.
  rewrite (bind_Ret _ _ _ _ _ (get_info_at r i md _ E eq_refl)).
  rewrite u64_small, (proj2 (Z.leb_le _ _)) by lia.
  rewrite (bind_Ret _ _ _ _ _ (blockmon_assert_true _ r)). rewrite Eh.
  unfold blockmon_assert_eq. destruct am; run_m; [done|by rewrite Z.eqb_refl|].
  destruct (Z.eqb_spec (t_hash t) 0) as [->|Hz]; [done|]. by rewrite (proj2 (Z.eqb_neq 0 _)) by done.
Qed.

Lemma registered_in i t name md :
  L !! i = Some (t, name) → tag_info r !! i = Some md → object_in t (md_offset md) buf = true ∧ 0 ≤ md_offset md.
Proof.
  intros Hx E. destruct (registered_tag i t name Hx) as (md' & E' & _ & _ & _ & Ho & Hb).
  rewrite E in E'. injection E' as <-. unfold object_in. split; lia.
Qed.

Lemma emplace_tag_spec i t name md v :
  L !! i = Some (t, name) → tag_info r !! i = Some md →
  emplace_tag am t buf (Z.of_nat i) v r = (Ret (run_writes (object_writes t (md_offset md) v) buf), r).
Proof.
  intros Hx E. unfold emplace_tag. rewrite (bind_Ret _ _ _ _ _ (check_registered i t name md _ Hx E)).
  destruct (registered_in i t name md Hx E) as [-> _]. done.
Qed.

Lemma get_tag_spec i t name md :
  L !! i = Some (t, name) → tag_info r !! i = Some md →
  get_tag am t buf (Z.of_nat i) r =
  (Ret (if load_valid (md_offset md) buf
        then Some (load_bytes (md_offset md + value_offset t) (t_size t) buf) else None), r).
Proof.
  intros Hx E. unfold get_tag. rewrite (bind_Ret _ _ _ _ _ (check_registered i t name md _ Hx E)).
  destruct (registered_in i t name md Hx E) as [-> _]. done.
Qed.

Lemma is_available_tag_spec i t name md :
  L !! i = Some (t, name) → tag_info r !! i = Some md →
  is_available_tag am buf (Z.of_nat i) r = (Ret (load_valid (md_offset md) buf), r).
Proof.
  intros Hx E. destruct (registered_tag i t name Hx) as (md' & E' & (? & ? & _) & Es & Eh & Ho & Hb).
  rewrite E in E'. injection E' as <-. unfold is_available_tag, object_size in *.
  rewrite (bind_Ret _ _ _ _ _ (get_info_at r i md _ E eq_refl)).
  rewrite u64_small, (proj2 (Z.leb_le _ _)) by lia.
  rewrite (bind_Ret _ _ _ _ _ (blockmon_assert_true _ r)). run_m. by rewrite (proj2 (Z.ltb_lt _ _)) by lia.
Qed.
End registered.

(** The ranges of two tags do not meet. *)
Lemma registered_apart r L i j md md' x y :
  tags_rep r L → i ≠ j → tag_info r !! i = Some md → tag_info r !! j = Some md' →
  L !! i = Some x → L !! j = Some y →
  md_offset md + object_size x.1 ≤ md_offset md' ∨ md_offset md' + object_size y.1 ≤ md_offset md.
Proof.
  intros HR Hne E E' Hx Hy. destruct (decide (i < j)%nat).
  - left. by eapply (rep_apart _ _ HR i j).
  - right. eapply (rep_apart _ _ HR j i); try done. lia.
Qed.

Lemma run_register xs r L :
  Forall (λ x, type_ok x.1 ∧ c_str x.2 = x.2) xs → tags_rep r L → 0 ≤ next_offset r →
  next_offset r + sumZ (λ x, 2 * object_size x.1) xs < 2 ^ 64 →
  ∃ r', run_all register_pair xs r = ((run_all spec_register xs L).1, r') ∧
    tags_rep r' (run_all spec_register xs L).2 ∧ next_offset r' < 2 ^ 64.
Proof.
  intros Hxs. revert r L. induction Hxs as [|[t name] xs [Ht Hn] Hxs IH]; intros r L HR H0 Hb.
  { exists r. cbn in Hb. by split_and!; [..|lia]. }
  rewrite sumZ_cons in Hb. cbn [fst snd] in *.
  assert (0 ≤ sumZ (λ x : tag_type * string, 2 * object_size x.1) xs).
  { clear -Hxs. induction Hxs as [|x xs [Hx _] _ IH]; [done|]. rewrite sumZ_cons.
    pose proof (object_size_pos _ Hx). lia. }
  pose proof (register_tag_spec r L t name HR Ht Hn H0 ltac:(lia)) as Hstep.
  cbn [run_all]. unfold register_pair at 1. cbn [fst snd]. destruct (spec_register (t, name) L) as [o L'].
  destruct Hstep as (r1 & -> & HR1 & Hnext). destruct (IH r1 L' HR1) as (r' & E' & HR' & Hb'); [lia|lia|].
  rewrite E'. destruct (run_all spec_register xs L') as [os L2]. by exists r'.
Qed.

(** ** Properties *)

(** C15: whatever tags are registered, as long as their sizes add up to less than
    the address space, each call answers with the index of the tag among the
    distinct names seen so far (or refuses a second type for a name), and the
    tags' objects lie at aligned offsets, apart from each other, below
    [buffer_size]. *)
Theorem tag_registry_lays_out (xs : list (tag_type * string)) :
  Forall (λ x, type_ok x.1 ∧ c_str x.2 = x.2) xs → sumZ (λ x, 2 * object_size x.1) xs < 2 ^ 64 →
  let '(os, r) := run_all register_pair xs registry_new in
  let '(os', L) := run_all spec_register xs [] in
  os = os' ∧ tags_rep r L ∧
  ∀ i j md md' x y, i ≠ j → tag_info r !! i = Some md → tag_info r !! j = Some md' →
    L !! i = Some x → L !! j = Some y →
    md_offset md + object_size x.1 ≤ md_offset md' ∨ md_offset md' + object_size y.1 ≤ md_offset md.
Proof.
  intros Hxs Hb. destruct (run_register xs registry_new [] Hxs registry_new_rep) as (r & -> & HR & _); [done|done|].
  destruct (run_all spec_register xs []) as [os L]. split_and!; [done|done|].
  intros i j md md' x y. by apply registered_apart.
Qed.

Definition int_tag : tag_type := TagType 4 4 11.
Definition double_tag : tag_type := TagType 8 8 12.
Definition char_tag : tag_type := TagType 1 1 13.

Definition demo_tags : list (tag_type * string) :=
  [(char_tag, "c"); (int_tag, "i"); (double_tag, "d"); (int_tag, "i"); (double_tag, "c")].

Lemma demo_tags_ok : Forall (λ x, type_ok x.1 ∧ c_str x.2 = x.2) demo_tags.
Proof. repeat constructor. Qed.

Lemma tag_registry_lays_out_witness :
  let '(os, r) := run_all register_pair demo_tags registry_new in
  let '(os', L) := run_all spec_register demo_tags [] in
  os = os' ∧ tags_rep r L ∧
  ∀ i j md md' x y, i ≠ j → tag_info r !! i = Some md → tag_info r !! j = Some md' →
    L !! i = Some x → L !! j = Some y →
    md_offset md + object_size x.1 ≤ md_offset md' ∨ md_offset md' + object_size y.1 ≤ md_offset md.
Proof. apply (tag_registry_lays_out demo_tags); [apply demo_tags_ok|reflexivity]. Defined.

(** C19: in a buffer of [buffer_size] bytes a tag built through its handle is read
    back, in every mode of the assertions, and no other registered tag changes. *)
Theorem tag_roundtrip am r L buf i t name v :
  tags_rep r L → buffer_size r ≤ Z.of_nat (length buf) → buffer_size r < 2 ^ 64 →
  L !! i = Some (t, name) → Z.of_nat (length v) = t_size t →
  ∃ buf', emplace_tag am t buf (Z.of_nat i) v r = (Ret buf', r) ∧ length buf' = length buf ∧
    get_tag am t buf' (Z.of_nat i) r = (Ret (Some v), r) ∧
    is_available_tag am buf' (Z.of_nat i) r = (Ret true, r) ∧
    ∀ j t' name', j ≠ i → L !! j = Some (t', name') →
      get_tag am t' buf' (Z.of_nat j) r = get_tag am t' buf (Z.of_nat j) r.
Proof.
  intros HR Hbuf Hsmall Hx Hv. unfold buffer_size in *.
  destruct (registered_tag r L HR i t name Hx) as (md & E & Hok & _ & _ & Ho & _).
  destruct (registered_in r L HR buf Hbuf i t name md Hx E) as [Hin _].
  assert (length (run_writes (object_writes t (md_offset md) v) buf) = length buf) as Elen
    by apply length_run_writes.
  eexists. split; [by eapply emplace_tag_spec|]. split; [done|]. rewrite <- Elen in Hbuf.
  rewrite (get_tag_spec am r L HR _ Hbuf Hsmall i t name md Hx E).
  rewrite (is_available_tag_spec am r L HR _ Hbuf Hsmall i t name md Hx E).
  rewrite <- take_object_writes, (writes_valid t (md_offset md) v buf Hok Ho Hin Hv 3).
  rewrite (writes_value t (md_offset md) v buf Hok Ho Hin Hv 3) by lia. split_and!; [done|done|].
  intros j t' name' Hne Hy. destruct (registered_tag r L HR j t' name' Hy) as (md' & E' & (? & ? & _) & _).
  rewrite (get_tag_spec am r L HR (run_writes (take 3 (object_writes t (md_offset md) v)) buf)
    Hbuf Hsmall j t' name' md' Hy E').
  rewrite Elen in Hbuf. rewrite (get_tag_spec am r L HR _ Hbuf Hsmall j t' name' md' Hy E').
  destruct (registered_apart r L i j md md' _ _ HR (not_eq_sym Hne) E E' Hx Hy) as [Hap|Hap]; cbn in Hap;
    unfold object_size in Hap; destruct (registered_in r L HR buf Hbuf j t' name' md' Hy E') as [_ Ho'].
  all: unfold load_valid; rewrite (writes_elsewhere t (md_offset md) v buf Hok Ho Hin Hv) by (unfold object_size; lia).
  all: rewrite (load_bytes_ext _ _ _ buf); [done|]; intros k Hk; apply writes_elsewhere; try done;
    unfold object_size, value_offset; lia.
Qed.

Lemma tag_roundtrip_witness :
  let r := (run_all register_pair demo_tags registry_new).2 in
  let buf := replicate 32 0 in
  ∃ buf', emplace_tag AssertThrows int_tag buf 1 [1; 2; 3; 4] r = (Ret buf', r) ∧ length buf' = length buf ∧
    get_tag AssertThrows int_tag buf' 1 r = (Ret (Some [1; 2; 3; 4]), r) ∧
    is_available_tag AssertThrows buf' 1 r = (Ret true, r) ∧
    ∀ j t' name', j ≠ 1%nat → (run_all spec_register demo_tags []).2 !! j = Some (t', name') →
      get_tag AssertThrows t' buf' (Z.of_nat j) r = get_tag AssertThrows t' buf (Z.of_nat j) r.
Proof.
  cbv zeta.
  refine (tag_roundtrip AssertThrows _ (run_all spec_register demo_tags []).2 _ 1 int_tag "i" _ _ _ _ _ _).
  - destruct (run_register demo_tags registry_new [] demo_tags_ok registry_new_rep) as (r & E & HR & _);
      [done|reflexivity|]. by rewrite E.
  - vm_compute. discriminate.
  - reflexivity.
  - reflexivity.
  - reflexivity.
Defined.

(** Publication.  While a tag that was not there is built, a reader at any
    moment either finds it missing or finds it with its whole value, and the
    value stays while the remaining stores are made. *)
Theorem tag_publication t o v buf n n' :
  type_ok t → 0 ≤ o → object_in t o buf = true → Z.of_nat (length v) = t_size t → load_valid o buf = false →
  (n ≤ n')%nat →
  let at_ k := run_writes (take k (object_writes t o v)) buf in
  load_valid o (at_ n) = true → load_bytes (o + value_offset t) (t_size t) (at_ n') = v.
Proof.
  intros Hok Ho Hin Hv Hnot Hle at_ Hvalid. subst at_. cbn beta in *.
  rewrite (writes_valid t o v buf Hok Ho Hin Hv n) in Hvalid. rewrite Hnot in Hvalid.
  apply (writes_value t o v buf Hok Ho Hin Hv). repeat case_decide; try done. lia.
Qed.

Lemma tag_publication_witness :
  load_valid 8 (run_writes (take 2 (object_writes int_tag 8 [1; 2; 3; 4])) (replicate 16 0)) = false ∧
  load_bytes 12 4 (run_writes (take 3 (object_writes int_tag 8 [1; 2; 3; 4])) (replicate 16 0)) = [1; 2; 3; 4].
Proof.
  split; [reflexivity|].
  apply (tag_publication int_tag 8 [1; 2; 3; 4] (replicate 16 0) 3 3); try reflexivity; try done.
Defined.

(** The assertion on the bounds counts the bytes of the value only: a buffer that
    holds the value but not the whole object passes it. *)
Lemma bounds_assertion_too_weak :
  emplace_tag AssertAborts int_tag [0; 0; 0; 0] 0 [1; 2; 3; 4] (register_tag int_tag "i" registry_new).2 =
  (Throw (undefined_behaviour "tag written outside its buffer"), (register_tag int_tag "i" registry_new).2).
Proof. reflexivity. Qed.

(** In the form that throws, the assertion on the types does not fail for a
    different type. *)
Lemma type_assertion_never_throws {S} (x y : Z) reason (s : S) :
  y ≠ 0 → y ≠ 1 → blockmon_assert_eq AssertThrows x y reason s = (Ret tt, s).
Proof.
  intros H0 H1. unfold blockmon_assert_eq. run_m. destruct (x =? 0);
    rewrite (proj2 (Z.eqb_neq _ _)) by lia; done.
Qed.
