(* ===== verification/DBQueue.v ===== *)
(** * DBQueue: the double-buffered message queue of an input gate

    Models [core/block/DBQueue.hpp].  Producers claim slots of one buffer with
    a fetch-and-add on [m_pointer], whose two top bits name the buffer; the
    consumer drains the other buffer and exchanges the two when it is done.
    This file has the data, every operation as run by one thread at a time,
    the well-formedness invariant and the refinement of a bounded FIFO;
    [DBQueueConc] has the interleaved executions. *)

From S2P Require Export MachineInt.

(** [static const unsigned int MASK=0|(1<<31)|(1<<30);] *)
Definition MASK : Z := Z.lor (Z.shiftl 1 31) (Z.shiftl 1 30).
Definition not_MASK : Z := Z.ldiff (2 ^ 32 - 1) MASK.

(** [exchange_queue]; the assertion is the caller's invariant [q < 2]. *)
Definition exchange_queue (q : nat) : nat := if decide (q = 0%nat) then 1%nat else 0%nat.

Record slot (T : Type) := Slot { valid : bool; payload : T }.
Arguments Slot {T} _ _.
Arguments valid {T} _.
Arguments payload {T} _.

Record db_queue (T : Type) := DBQueue {
  m_queues : list (list (slot T));
  m_pointer : Z;
  m_read : nat;
  m_consumer_q : nat;
  m_full_slots : nat;
  m_full : bool
}.
Arguments DBQueue {T} _ _ _ _ _ _.
Arguments m_queues {T} _.
Arguments m_pointer {T} _.
Arguments m_read {T} _.
Arguments m_consumer_q {T} _.
Arguments m_full_slots {T} _.
Arguments m_full {T} _.

Section operations.
(** [dflt] is [T()], which is also what moving a payload out leaves behind. *)
Context {T : Type} (dflt : T) (Qlen : nat).
Implicit Types (s : db_queue T) (q i : nat) (x : T).

Definition get_slot s q i : slot T :=
  default (Slot false dflt) (m_queues s !! q ≫= λ b, b !! i).

Definition with_queues f s : db_queue T :=
  DBQueue (f (m_queues s)) (m_pointer s) (m_read s) (m_consumer_q s)
    (m_full_slots s) (m_full s).
Definition set_slot q i (f : slot T → slot T) s : db_queue T :=
  with_queues (alter (alter f i) q) s.
Definition store_valid q i (b : bool) : db_queue T → db_queue T :=
  set_slot q i (λ sl, Slot b (payload sl)).
Definition store_payload q i x : db_queue T → db_queue T :=
  set_slot q i (λ sl, Slot (valid sl) x).
Definition set_pointer (p : Z) s : db_queue T :=
  DBQueue (m_queues s) p (m_read s) (m_consumer_q s) (m_full_slots s) (m_full s).
Definition set_read (r : nat) s : db_queue T :=
  DBQueue (m_queues s) (m_pointer s) r (m_consumer_q s) (m_full_slots s) (m_full s).
Definition set_consumer (q : nat) s : db_queue T :=
  DBQueue (m_queues s) (m_pointer s) (m_read s) q (m_full_slots s) (m_full s).
Definition set_full_slots (n : nat) s : db_queue T :=
  DBQueue (m_queues s) (m_pointer s) (m_read s) (m_consumer_q s) n (m_full s).
Definition set_full (b : bool) s : db_queue T :=
  DBQueue (m_queues s) (m_pointer s) (m_read s) (m_consumer_q s) (m_full_slots s) b.

(** [DBQueue()] *)
Definition db_new : db_queue T :=
  DBQueue (replicate 2 (replicate Qlen (Slot false dflt))) 0 0 1 0 false.

(** [void swap_queues()] *)
Definition clear_valid (q n : nat) s : db_queue T :=
  foldr (λ i, store_valid q i false) s (seq 0 n).

Definition swap_queues s : db_queue T :=
  let s := clear_valid (m_consumer_q s) (m_full_slots s) s in
  let newpoint := u32 (Z.shiftl (Z.of_nat (m_consumer_q s)) 30) in
  let s := set_consumer (exchange_queue (m_consumer_q s)) s in
  let old_pointer := m_pointer s in
  let s := set_pointer newpoint s in
  let s := set_full false s in
  let old_pointer := Z.land old_pointer not_MASK in
  let s := set_full_slots (Z.to_nat (Z.min old_pointer (Z.of_nat Qlen))) s in
  set_read 0 s.

(** The hundred polls of one slot: nothing changes between two polls when
    no other thread runs. *)
Fixpoint poll (n : nat) (q i : nat) s : bool :=
  match n with
  | O => false
  | S n => if valid (get_slot s q i) then true else poll n q i s
  end.

(** [bool consume(T& in)]: the flag returned and the new value of [in].
    [fuel] bounds the [while]: [m_full_slots - m_read] iterations are enough. *)
Fixpoint consume_loop (fuel : nat) (inp : T) s : (bool * T) * db_queue T :=
  match fuel with
  | O => ((false, inp), s)
  | S fuel =>
      if decide (m_read s < m_full_slots s)%nat then
        if poll 100 (m_consumer_q s) (m_read s) s then
          let index := m_read s in
          let s := set_read (S index) s in
          let inp := payload (get_slot s (m_consumer_q s) index) in
          ((true, inp), store_payload (m_consumer_q s) index dflt s)
        else consume_loop fuel inp (set_read (S (m_read s)) s)
      else ((false, inp), s)
  end.

Definition consume (inp : T) s : (bool * T) * db_queue T :=
  consume_loop (m_full_slots s - m_read s) inp s.

(** [bool pop(T& in)] *)
Definition pop (inp : T) s : (bool * T) * db_queue T :=
  let '((ok, inp), s) := consume inp s in
  if ok then ((true, inp), s)
  else consume inp (swap_queues s).

(** [pop_notify_all], [pop_notify_one]: the last component counts the calls
    made on the condition variable. *)
Definition pop_notify (inp : T) s : (bool * T) * db_queue T * nat :=
  let '((ok, inp), s) := consume inp s in
  if ok then ((true, inp), s, 0%nat)
  else (consume inp (swap_queues s), 1%nat).

(** The decoding of a claimed pointer value: buffer and slot. *)
Definition claim_queue (cur_pointer : Z) : Z := Z.shiftr (Z.land cur_pointer MASK) 30.
Definition claim_slot (cur_pointer : Z) : Z := Z.land cur_pointer not_MASK.

(** [bool push(Tp&& in)] *)
Definition push (inp : T) : M (db_queue T) bool :=
  full ← gets m_full;
  if full : bool then mret false
  else
    cur_pointer ← gets m_pointer;
    modify (set_pointer (u32 (cur_pointer + 1)));;
    let cur_queue := claim_queue cur_pointer in
    ensure ((cur_queue =? 0) || (cur_queue =? 1))
      (assert_failure "(cur_queue==0)||(cur_queue==1)");;
    let my_slot := claim_slot cur_pointer in
    let store :=
      modify (store_payload (Z.to_nat cur_queue) (Z.to_nat my_slot) inp);;
      modify (store_valid (Z.to_nat cur_queue) (Z.to_nat my_slot) true);;
      mret true in
    if Z.of_nat Qlen - 1 <=? my_slot then
      if my_slot =? Z.of_nat Qlen - 1 then modify (set_full true);; store
      else mret false
    else store.

(** [bool is_full()] *)
Definition is_full s : bool := m_full s.

(** [void reset()]: a valid slot's payload is moved to a temporary. *)
Definition reset_slot (sl : slot T) : slot T :=
  if valid sl then Slot false dflt else sl.
Definition reset s : db_queue T :=
  DBQueue (map (map reset_slot) (m_queues s)) 0 0 1 0 false.

(** [DBQueue(DBQueue&& other)]: the valid slots move, the rest is fresh.
    Returns the new queue and what is left of [other]. *)
Definition move_slot (sl : slot T) : slot T :=
  if valid sl then sl else Slot false dflt.
Definition moved_from_slot (sl : slot T) : slot T :=
  if valid sl then Slot true dflt else sl.
Definition move_new (other : db_queue T) : db_queue T * db_queue T :=
  (with_queues (map (map move_slot)) other,
   with_queues (map (map moved_from_slot)) other).

(** [operator=(DBQueue&& other)]: a slot of [this] keeps its contents where
    the corresponding slot of [other] is not valid. *)
Definition assign_slot (mine other : slot T) : slot T :=
  if valid other then Slot true (payload other) else mine.
Definition move_assign (this other : db_queue T) : db_queue T * db_queue T :=
  (DBQueue (zip_with (zip_with assign_slot) (m_queues this) (m_queues other))
     (m_pointer other) (m_read other) (m_consumer_q other) (m_full_slots other)
     (m_full other),
   with_queues (map (map moved_from_slot)) other).
End operations.

(** ** The pointer word *)

Definition pack (q : nat) (n : Z) : Z := Z.of_nat q * 2 ^ 30 + n.

Lemma claim_queue_pack q n :
  (q < 2)%nat → 0 ≤ n < 2 ^ 30 → claim_queue (pack q n) = Z.of_nat q.
Proof.
  intros Hq Hn. unfold claim_queue, pack. rewrite Z.shiftr_land.
  replace (Z.shiftr (Z.of_nat q * 2 ^ 30 + n) 30) with (Z.of_nat q).
  - destruct q as [|[|q]]; [done|done|lia].
  - rewrite Z.shiftr_div_pow2 by lia. symmetry.
    rewrite Z.add_comm, Z.div_add, Z.div_small by lia. lia.
Qed.

Lemma claim_slot_pack q n : 0 ≤ n < 2 ^ 30 → claim_slot (pack q n) = n.
Proof.
  intros Hn. unfold claim_slot, pack. change not_MASK with (Z.ones 30).
  rewrite Z.land_ones by lia.
  rewrite Z.add_comm, Z.mod_add, Z.mod_small by lia. done.
Qed.

Lemma pack_succ q n :
  (q < 2)%nat → 0 ≤ n < 2 ^ 30 - 1 → u32 (pack q n + 1) = pack q (n + 1).
Proof. intros. unfold pack. rewrite u32_small; destruct q as [|[|q]]; lia. Qed.

Lemma newpoint_pack q : (q < 2)%nat → u32 (Z.shiftl (Z.of_nat q) 30) = pack q 0.
Proof. intros. destruct q as [|[|q]]; [done|done|lia]. Qed.

Lemma exchange_lt q : (exchange_queue q < 2)%nat.
Proof. unfold exchange_queue. case_decide; lia. Qed.

Lemma exchange_involutive q : (q < 2)%nat → exchange_queue (exchange_queue q) = q.
Proof. intros. destruct q as [|[|q]]; [done|done|lia]. Qed.

Lemma exchange_ne q : exchange_queue q ≠ q.
Proof. destruct q as [|q]; [done|]. unfold exchange_queue. case_decide; lia. Qed.

(** ** Reading slots back *)

Section slots.
Context {T : Type} (dflt : T) (Qlen : nat).
Implicit Types (s : db_queue T) (q i : nat) (x : T).

Definition shape s : Prop :=
  length (m_queues s) = 2%nat ∧ Forall (λ b, length b = Qlen) (m_queues s).

Lemma shape_set_slot q i f s : shape s → shape (set_slot q i f s).
Proof.
  intros [H1 H2]. split; simpl; [by rewrite length_alter|].
  apply Forall_alter; [done|]. intros b _ Hb. by rewrite length_alter.
Qed.

Lemma shape_buffer s q : shape s → (q < 2)%nat → ∃ b, m_queues s !! q = Some b ∧ length b = Qlen.
Proof.
  intros [H1 H2] Hq. destruct (lookup_lt_is_Some_2 (m_queues s) q) as [b Hb]; [lia|].
  exists b. split; [done|]. by eapply Forall_lookup_1 in H2.
Qed.

Lemma get_set_same q i f s :
  shape s → (q < 2)%nat → (i < Qlen)%nat →
  get_slot dflt (set_slot q i f s) q i = f (get_slot dflt s q i).
Proof.
  intros Hs Hq Hi. destruct (shape_buffer s q Hs Hq) as (b & Hb & Hl).
  unfold get_slot. simpl. rewrite list_lookup_alter_eq, Hb. simpl.
  rewrite list_lookup_alter_eq.
  destruct (lookup_lt_is_Some_2 b i) as [sl Hsl]; [lia|]. by rewrite Hsl.
Qed.

Lemma get_set_ne q i f s q' i' :
  (q, i) ≠ (q', i') → get_slot dflt (set_slot q i f s) q' i' = get_slot dflt s q' i'.
Proof.
  intros Hne. unfold get_slot. simpl.
  destruct (decide (q = q')) as [->|Hq].
  - rewrite list_lookup_alter_eq. destruct (m_queues s !! q') as [b|]; [|done]. simpl.
    rewrite list_lookup_alter_ne by congruence. done.
  - by rewrite list_lookup_alter_ne.
Qed.

Lemma get_store_valid q i b s :
  shape s → (q < 2)%nat → (i < Qlen)%nat →
  get_slot dflt (store_valid q i b s) q i = Slot b (payload (get_slot dflt s q i)).
Proof. apply get_set_same. Qed.
Lemma get_store_valid_ne q i b s q' i' :
  (q, i) ≠ (q', i') → get_slot dflt (store_valid q i b s) q' i' = get_slot dflt s q' i'.
Proof. apply get_set_ne. Qed.
Lemma get_store_payload q i x s :
  shape s → (q < 2)%nat → (i < Qlen)%nat →
  get_slot dflt (store_payload q i x s) q i = Slot (valid (get_slot dflt s q i)) x.
Proof. apply get_set_same. Qed.
Lemma get_store_payload_ne q i x s q' i' :
  (q, i) ≠ (q', i') → get_slot dflt (store_payload q i x s) q' i' = get_slot dflt s q' i'.
Proof. apply get_set_ne. Qed.

Lemma get_out s q i : shape s → (Qlen ≤ i)%nat → get_slot dflt s q i = Slot false dflt.
Proof.
  intros [H1 H2] Hi. unfold get_slot.
  destruct (m_queues s !! q) as [b|] eqn:E; [|done]. simpl.
  eapply Forall_lookup_1 in H2; [|done]. by rewrite lookup_ge_None_2 by lia.
Qed.

Lemma shape_stores q l s : shape s → shape (foldr (λ i, store_valid q i false) s l).
Proof. intros Hs. induction l; simpl; [done|]. by apply shape_set_slot. Qed.

Lemma clear_valid_shape q n s : shape s → shape (clear_valid q n s).
Proof. apply shape_stores. Qed.

Lemma clear_valid_frame q n s :
  m_pointer (clear_valid q n s) = m_pointer s ∧
  m_read (clear_valid q n s) = m_read s ∧
  m_consumer_q (clear_valid q n s) = m_consumer_q s ∧
  m_full_slots (clear_valid q n s) = m_full_slots s ∧
  m_full (clear_valid q n s) = m_full s.
Proof. unfold clear_valid. induction (seq 0 n) as [|i l IH]; simpl; auto. Qed.

Lemma clear_valid_other q n s q' i :
  q' ≠ q → get_slot dflt (clear_valid q n s) q' i = get_slot dflt s q' i.
Proof.
  intros Hq. unfold clear_valid. induction (seq 0 n) as [|j l IH]; simpl; [done|].
  by rewrite get_store_valid_ne by congruence.
Qed.

Lemma clear_valid_valid q n s i :
  shape s → (q < 2)%nat →
  valid (get_slot dflt (clear_valid q n s) q i) =
  if decide (i < n)%nat then false else valid (get_slot dflt s q i).
Proof.
  intros Hs Hq.
  assert (∀ l, valid (get_slot dflt (foldr (λ j, store_valid q j false) s l) q i) =
    if decide (i ∈ l) then false else valid (get_slot dflt s q i)) as H.
  { induction l as [|j l IH]; cbn [foldr].
    - rewrite decide_False; [done|]. apply not_elem_of_nil.
    - assert (shape (foldr (λ j, store_valid q j false) s l)) as Hsh.
      { by apply shape_stores. }
      destruct (decide (i = j)) as [->|Hij].
      + rewrite decide_True by set_solver.
        destruct (decide (j < Qlen)%nat).
        * by rewrite get_store_valid by done.
        * rewrite get_out; [done| |lia]. by apply shape_set_slot.
      + rewrite get_store_valid_ne by congruence. rewrite IH.
        destruct (decide (i ∈ j :: l)) as [Hd|Hd], (decide (i ∈ l)); try done.
        * by apply elem_of_cons in Hd as [->|?].
        * destruct Hd. by right. }
  unfold clear_valid. rewrite H.
  do 2 case_decide; try done; rewrite elem_of_seq in *; lia.
Qed.
End slots.

(** ** The well-formed states and the lists they hold *)

Section refinement.
Context {T : Type} (dflt : T) (Qlen : nat).
Implicit Types (s : db_queue T) (q i : nat) (x : T) (cl pl : list T).

Definition producer_q s : nat := exchange_queue (m_consumer_q s).

(** [db_rep s cl pl]: the consumer still has [cl] to read, in order, and the
    producers have published [pl] behind it. *)
Record db_rep s cl pl : Prop := {
  rep_shape : shape Qlen s;
  rep_consumer : (m_consumer_q s < 2)%nat;
  rep_pointer : m_pointer s = pack (producer_q s) (Z.of_nat (length pl));
  rep_count : (length pl ≤ Qlen)%nat;
  rep_full : m_full s = bool_decide (length pl = Qlen);
  rep_read : (m_read s + length cl = m_full_slots s)%nat;
  rep_slots : (m_full_slots s ≤ Qlen)%nat;
  rep_cons : ∀ i x, cl !! i = Some x →
    get_slot dflt s (m_consumer_q s) (m_read s + i) = Slot true x;
  rep_prod : ∀ i x, pl !! i = Some x → get_slot dflt s (producer_q s) i = Slot true x;
  rep_cons_free : ∀ i, (m_full_slots s ≤ i)%nat →
    valid (get_slot dflt s (m_consumer_q s) i) = false;
  rep_prod_free : ∀ i, (length pl ≤ i)%nat → valid (get_slot dflt s (producer_q s) i) = false
}.

(** The specification: a bounded buffer in front of the consumer's share. *)
Definition spec_push x (st : list T * list T) : bool * (list T * list T) :=
  if decide (length st.2 = Qlen) then (false, st) else (true, (st.1, st.2 ++ [x])).
Definition spec_pop (inp : T) (st : list T * list T) : (bool * T) * (list T * list T) :=
  match st with
  | (x :: cl, pl) => ((true, x), (cl, pl))
  | ([], x :: pl) => ((true, x), (pl, []))
  | ([], []) => ((false, inp), ([], []))
  end.

Hypothesis Qlen_pos : (0 < Qlen)%nat.
Hypothesis Qlen_small : Z.of_nat Qlen < 2 ^ 30 - 1.

Lemma get_new q i : get_slot dflt (db_new dflt Qlen) q i = Slot false dflt.
Proof.
  unfold get_slot, db_new. cbn [m_queues].
  destruct (replicate 2 _ !! q) as [b|] eqn:E; [|done].
  apply lookup_replicate in E as [-> _]. simpl.
  destruct (replicate Qlen _ !! i) as [sl|] eqn:E; [|done].
  by apply lookup_replicate in E as [-> _].
Qed.

Lemma db_new_rep : db_rep (db_new dflt Qlen) [] [].
Proof.
  split.
  - split; [done|]. apply Forall_replicate, length_replicate.
  - simpl. lia.
  - done.
  - simpl. lia.
  - simpl. rewrite bool_decide_false; [done|lia].
  - done.
  - simpl. lia.
  - intros i x. by rewrite lookup_nil.
  - intros i x. by rewrite lookup_nil.
  - intros i _. by rewrite get_new.
  - intros i _. by rewrite get_new.
Qed.

(** A push into a buffer that is not full. *)
Lemma push_rep x s cl pl :
  db_rep s cl pl → length pl ≠ Qlen →
  ∃ s', push Qlen x s = (Ret true, s') ∧ db_rep s' cl (pl ++ [x]).
Proof.
  intros [Hsh Hc Hp Hn Hf Hr Hs Hcons Hprod Hcf Hpf] Hne.
  set (n := length pl) in *. set (pq := producer_q s) in *.
  assert (pq < 2)%nat as Hpq by apply exchange_lt.
  assert (pq ≠ m_consumer_q s) as Hpc by apply exchange_ne.
  unfold push. run_m. rewrite Hf, bool_decide_false by done.
  rewrite Hp, claim_queue_pack, claim_slot_pack, pack_succ by lia.
  replace ((Z.of_nat pq =? 0) || (Z.of_nat pq =? 1)) with true by (destruct pq as [|[|]]; [done|done|lia]).
  rewrite !Nat2Z.id.
  set (s1 := set_pointer (pack pq (Z.of_nat n + 1)) s).
  set (s2 := if Z.of_nat n =? Z.of_nat Qlen - 1 then set_full true s1 else s1).
  exists (store_valid pq n true (store_payload pq n x s2)). split.
  { unfold s2. destruct_cmp; try lia; done. }
  assert (∀ q i, get_slot dflt s2 q i = get_slot dflt s q i) as Hg.
  { intros. unfold s2. by destruct (_ =? _). }
  assert (shape Qlen s2) as Hsh2 by (unfold s2; by destruct (_ =? _)).
  assert (shape Qlen (store_payload pq n x s2)) as Hsh3 by by apply shape_set_slot.
  assert (∀ q i, (pq, n) ≠ (q, i) →
    get_slot dflt (store_valid pq n true (store_payload pq n x s2)) q i =
    get_slot dflt s q i) as Ho.
  { intros q i Hqi. by rewrite get_store_valid_ne, get_store_payload_ne, Hg. }
  assert (m_consumer_q s2 = m_consumer_q s ∧ m_read s2 = m_read s ∧
          m_full_slots s2 = m_full_slots s ∧ m_pointer s2 = pack pq (Z.of_nat n + 1) ∧
          m_full s2 = bool_decide (S n = Qlen)) as (E1 & E2 & E3 & E4 & E5).
  { unfold s2. destruct_cmp; simpl; rewrite ?Hf; repeat split; symmetry;
      first [apply bool_decide_true; lia | rewrite !bool_decide_false by lia; done]. }
  split; unfold producer_q; simpl; rewrite ?E1, ?E2, ?E3, ?E4, ?E5; fold (producer_q s); fold pq;
    rewrite ?length_app; simpl; fold n; try done; try lia.
  - by apply shape_set_slot.
  - f_equal. lia.
  - apply bool_decide_ext. lia.
  - intros i y Hi. rewrite Ho; [by apply Hcons|]. congruence.
  - intros i y Hi. apply lookup_app_Some in Hi as [Hi|[Hi Hy]].
    + rewrite Ho; [by apply Hprod|]. apply lookup_lt_Some in Hi. fold n in Hi.
      intros [=]. lia.
    + fold n in Hi, Hy. apply list_lookup_singleton_Some in Hy as [Hy <-].
      assert (i = n) as -> by lia.
      rewrite (get_store_valid dflt Qlen), (get_store_payload dflt Qlen) by (done || lia). done.
  - intros i Hi. rewrite Ho; [by apply Hcf|]. congruence.
  - intros i Hi. rewrite Ho; [apply Hpf; lia|]. intros [=]. lia.
Qed.

Lemma push_full x s cl pl :
  db_rep s cl pl → length pl = Qlen → push Qlen x s = (Ret false, s).
Proof.
  intros Hrep Hl. unfold push. run_m.
  by rewrite (rep_full _ _ _ Hrep), bool_decide_true.
Qed.

(** Reading the next message of the consumer's share. *)
Lemma consume_cons inp x s cl pl :
  db_rep s (x :: cl) pl →
  ∃ s', consume dflt inp s = ((true, x), s') ∧ db_rep s' cl pl.
Proof.
  intros [Hsh Hc Hp Hn Hf Hr Hs Hcons Hprod Hcf Hpf]. simpl in Hr.
  pose proof (Hcons 0%nat x eq_refl) as Hx. rewrite Nat.add_0_r in Hx.
  unfold consume. replace (m_full_slots s - m_read s)%nat with (S (length cl)) by lia.
  cbn [consume_loop poll]. rewrite decide_True by lia. rewrite Hx. cbn [valid].
  replace (get_slot dflt (set_read (S (m_read s)) s) _ _) with (Slot true x) by done.
  eexists. split; [done|].
  assert (∀ q i, (m_consumer_q s, m_read s) ≠ (q, i) →
    get_slot dflt (store_payload (m_consumer_q s) (m_read s) dflt (set_read (S (m_read s)) s)) q i
    = get_slot dflt s q i) as Ho.
  { intros q i Hqi. by rewrite get_store_payload_ne. }
  pose proof (exchange_ne (m_consumer_q s)) as Hne.
  split; unfold producer_q; cbn; try done.
  - by apply shape_set_slot.
  - lia.
  - intros i y Hi. rewrite Ho; [|intros [=]; lia]. rewrite <- Nat.add_succ_r. by apply Hcons.
  - intros i y Hi. rewrite Ho; [by apply Hprod|congruence].
  - intros i Hi. rewrite Ho; [by apply Hcf|]. intros [=]. lia.
  - intros i Hi. rewrite Ho; [by apply Hpf|congruence].
Qed.

Lemma consume_nil inp s pl : db_rep s [] pl → consume dflt inp s = ((false, inp), s).
Proof.
  intros Hrep. pose proof (rep_read _ _ _ Hrep) as Hr. simpl in Hr.
  unfold consume. by replace (m_full_slots s - m_read s)%nat with 0%nat by lia.
Qed.

(** The exchange of the buffers once the consumer's share is exhausted. *)
Lemma swap_rep s pl : db_rep s [] pl → db_rep (swap_queues Qlen s) pl [].
Proof.
  intros [Hsh Hc Hp Hn Hf Hr Hs Hcons Hprod Hcf Hpf]. simpl in Hr.
  pose proof (clear_valid_frame (m_consumer_q s) (m_full_slots s) s) as (E1 & E2 & E3 & E4 & E5).
  unfold producer_q in *.
  pose proof (exchange_lt (m_consumer_q s)) as Hlt.
  pose proof (exchange_ne (m_consumer_q s)) as Hne.
  assert (Z.to_nat (Z.min (Z.land (m_pointer s) not_MASK) (Z.of_nat Qlen)) = length pl) as El.
  { rewrite Hp. fold (claim_slot (pack (exchange_queue (m_consumer_q s)) (Z.of_nat (length pl)))).
    rewrite claim_slot_pack by lia. lia. }
  split; unfold swap_queues, producer_q; cbn; rewrite ?E1, ?E3, ?El, ?exchange_involutive by done; try done.
  - by apply clear_valid_shape.
  - by rewrite newpoint_pack.
  - lia.
  - rewrite bool_decide_false; [done|lia].
  - intros i x Hi. etransitivity; [apply clear_valid_other; done|]. by apply Hprod.
  - intros i Hi. etransitivity; [eapply (f_equal valid), clear_valid_other; done|]. by apply Hpf.
  - intros i _. etransitivity; [apply (clear_valid_valid dflt Qlen); [exact Hsh|exact Hc]|].
    destruct (decide (i < m_full_slots s)%nat); [done|]. apply Hcf. lia.
Qed.

Lemma pop_rep inp s cl pl :
  db_rep s cl pl →
  ∃ s', pop dflt Qlen inp s = ((spec_pop inp (cl, pl)).1, s') ∧
        db_rep s' (spec_pop inp (cl, pl)).2.1 (spec_pop inp (cl, pl)).2.2.
Proof.
  intros Hrep. unfold pop. destruct cl as [|x cl].
  - rewrite (consume_nil _ _ _ Hrep).
    pose proof (swap_rep _ _ Hrep) as Hrep'. destruct pl as [|x pl].
    + rewrite (consume_nil _ _ _ Hrep'). eauto.
    + destruct (consume_cons inp _ _ _ _ Hrep') as (s' & E & Hr). rewrite E. eauto.
  - destruct (consume_cons inp _ _ _ _ Hrep) as (s' & E & Hr). rewrite E. eauto.
Qed.

(** ** Sequences of operations *)

Inductive op := Push (x : T) | Pop.

Definition run_op (o : op) s : bool * option T * db_queue T :=
  match o with
  | Push x => match push Qlen x s with
              | (Ret b, s') => (b, None, s')
              | (Throw _, s') => (false, None, s')
              end
  | Pop => let '((b, x), s') := pop dflt Qlen dflt s in (b, Some x, s')
  end.

Definition spec_op (o : op) (st : list T * list T) : bool * option T * (list T * list T) :=
  match o with
  | Push x => let '(b, st') := spec_push x st in (b, None, st')
  | Pop => let '((b, x), st') := spec_pop dflt st in (b, Some x, st')
  end.

Fixpoint run_ops (os : list op) s : list (bool * option T) :=
  match os with
  | [] => []
  | o :: os => let '(b, r, s') := run_op o s in (b, r) :: run_ops os s'
  end.
Fixpoint spec_ops (os : list op) (st : list T * list T) : list (bool * option T) :=
  match os with
  | [] => []
  | o :: os => let '(b, r, st') := spec_op o st in (b, r) :: spec_ops os st'
  end.

Lemma run_op_rep o s cl pl :
  db_rep s cl pl →
  (run_op o s).1 = (spec_op o (cl, pl)).1 ∧
  db_rep (run_op o s).2 (spec_op o (cl, pl)).2.1 (spec_op o (cl, pl)).2.2.
Proof.
  intros Hrep. destruct o as [x|]; cbn [run_op spec_op].
  - unfold spec_push. simpl. destruct (decide (length pl = Qlen)) as [Hl|Hl].
    + by rewrite (push_full _ _ _ _ Hrep Hl).
    + by destruct (push_rep x _ _ _ Hrep Hl) as (s' & -> & Hrep').
  - destruct (pop_rep dflt _ _ _ Hrep) as (s' & E & Hrep'). rewrite E.
    destruct (spec_pop dflt (cl, pl)) as [[b x] [cl' pl']]. by split.
Qed.

Lemma run_ops_spec os s cl pl :
  db_rep s cl pl → run_ops os s = spec_ops os (cl, pl).
Proof.
  revert s cl pl. induction os as [|o os IH]; intros s cl pl Hrep; simpl; [done|].
  destruct (run_op_rep o s cl pl Hrep) as [E Hrep'].
  destruct (run_op o s) as [[b r] s'], (spec_op o (cl, pl)) as [[b' r'] [cl' pl']].
  simpl in *. injection E as -> ->. by rewrite (IH _ _ _ Hrep').
Qed.

(** Never blocking and nothing lost between the specification's two lists:
    what is popped comes out in the order it went in. *)
Lemma spec_pop_fifo inp cl pl :
  match cl ++ pl with
  | [] => spec_pop inp (cl, pl) = ((false, inp), ([], []))
  | x :: l => (spec_pop inp (cl, pl)).1 = (true, x) ∧
              (spec_pop inp (cl, pl)).2.1 ++ (spec_pop inp (cl, pl)).2.2 = l
  end.
Proof. destruct cl as [|x cl], pl as [|y pl]; simpl; rewrite ?app_nil_r; auto. Qed.

(** ** Resetting and moving *)

Lemma get_map f s q i :
  f (Slot false dflt) = Slot false dflt →
  get_slot dflt (with_queues (map (map f)) s) q i = f (get_slot dflt s q i).
Proof.
  intros Hf. unfold get_slot. simpl.
  change (map (map f)) with (fmap (M:=list) (fmap (M:=list) f)).
  rewrite list_lookup_fmap. destruct (m_queues s !! q) as [b|]; simpl; [|by rewrite Hf].
  rewrite list_lookup_fmap. destruct (b !! i); simpl; [done|by rewrite Hf].
Qed.

Lemma shape_map f s : shape Qlen s → shape Qlen (with_queues (map (map f)) s).
Proof.
  intros [H1 H2]. split; simpl; [by rewrite length_map|].
  apply Forall_map. eapply Forall_impl; [done|]. intros b Hb. simpl. by rewrite length_map.
Qed.

(** [reset] empties the queue, whatever was in it. *)
Lemma reset_rep s cl pl : db_rep s cl pl → db_rep (reset dflt s) [] [].
Proof.
  intros HI.
  assert (∀ q i, valid (get_slot dflt (reset dflt s) q i) = false) as Hv.
  { intros q i. transitivity (valid (reset_slot dflt (get_slot dflt s q i))).
    - f_equal. by apply (get_map (reset_slot dflt) s).
    - by destruct (get_slot dflt s q i) as [[] x]. }
  pose proof (rep_shape _ _ _ HI) as Hsh.
  split; try done; cbn; try lia.
  - exact (shape_map (reset_slot dflt) s Hsh).
  - rewrite bool_decide_false; [done|lia].
Qed.

(** The move constructor carries the contents over. *)
Lemma move_new_rep s cl pl : db_rep s cl pl → db_rep (move_new dflt s).1 cl pl.
Proof.
  intros [Hsh Hc Hp Hn Hf Hr Hs Hcons Hprod Hcf Hpf].
  assert (∀ q i, get_slot dflt (move_new dflt s).1 q i = move_slot dflt (get_slot dflt s q i)) as E.
  { intros q i. by apply (get_map (move_slot dflt) s). }
  assert (∀ sl : slot T, valid (move_slot dflt sl) = valid sl) as Hv by by intros [[] x].
  split; try done; unfold producer_q in *; cbn [move_new fst with_queues m_consumer_q] in *.
  - by apply shape_map.
  - intros i x Hi. etransitivity; [apply E|]. exact (f_equal (move_slot dflt) (Hcons i x Hi)).
  - intros i x Hi. etransitivity; [apply E|]. exact (f_equal (move_slot dflt) (Hprod i x Hi)).
  - intros i Hi. etransitivity; [eapply (f_equal valid), E|]. rewrite Hv. by apply Hcf.
  - intros i Hi. etransitivity; [eapply (f_equal valid), E|]. rewrite Hv. by apply Hpf.
Qed.
End refinement.

Arguments Push {T} _.
Arguments Pop {T}.

(** ** Properties *)

(** C5: used by one thread at a time, a fresh queue answers every sequence of
    [push] and [pop] as the specification does: a list the consumer drains in
    order and a bounded list behind it, which becomes the consumer's when the
    first is empty. *)
Theorem dbqueue_refines_fifo {T} (dflt : T) (Qlen : nat) (os : list (op (T:=T))) :
  (0 < Qlen)%nat → Z.of_nat Qlen < 2 ^ 30 - 1 →
  run_ops dflt Qlen os (db_new dflt Qlen) = spec_ops dflt Qlen os ([], []).
Proof. intros Hpos Hsmall. by apply run_ops_spec, db_new_rep. Qed.

Lemma dbqueue_refines_fifo_witness :
  run_ops 0 3 [Pop; Push 1; Push 2; Push 3; Push 4; Pop; Push 5; Pop; Pop; Pop; Pop]
    (db_new 0 3) =
  [(false, Some 0); (true, None); (true, None); (true, None); (false, None);
   (true, Some 1); (true, None); (true, Some 2); (true, Some 3); (true, Some 5);
   (false, Some 0)].
Proof.
  rewrite (dbqueue_refines_fifo 0 3) by lia. vm_compute. reflexivity.
Defined.

(** After any operations, a [reset] queue answers like a fresh one, and a
    queue constructed by moving answers like the one it was moved from. *)
Theorem dbqueue_reset_move {T} (dflt : T) (Qlen : nat) s cl pl os :
  (0 < Qlen)%nat → Z.of_nat Qlen < 2 ^ 30 - 1 → db_rep dflt Qlen s cl pl →
  run_ops dflt Qlen os (reset dflt s) = run_ops dflt Qlen os (db_new dflt Qlen) ∧
  run_ops dflt Qlen os (move_new dflt s).1 = run_ops dflt Qlen os s.
Proof.
  intros Hpos Hsmall HI. split.
  - rewrite (run_ops_spec dflt Qlen) with (cl := []) (pl := []); try done.
    + symmetry. by apply run_ops_spec, db_new_rep.
    + by eapply reset_rep.
  - rewrite !(run_ops_spec dflt Qlen) with (cl := cl) (pl := pl); try done.
    by apply move_new_rep.
Qed.

Lemma dbqueue_reset_move_witness :
  run_ops 0 3 [Push 7; Pop; Pop] (reset 0 (db_new 0 3)) =
  [(true, None); (true, Some 7); (false, Some 0)].
Proof.
  destruct (dbqueue_reset_move 0 3 (db_new 0 3) [] [] [Push 7; Pop; Pop]) as [E _].
  - lia.
  - lia.
  - apply db_new_rep; lia.
  - rewrite E. vm_compute. reflexivity.
Defined.
