(* ===== verification/DBQueueConc.v ===== *)
(** * DBQueue under interleaving

    The executions of several producer threads calling [push] and one
    consumer thread calling [pop] on one [DBQueue] ([core/block/DBQueue.hpp]):
    each load, store, exchange and fetch-and-add of the code is one action,
    the accesses to the thread's own fields travel with the next one, and a
    schedule is a list of actions.  Memory is sequentially consistent here.
    Two ghost lists record the messages that were claimed a slot, in the order
    of the fetch-and-adds, and the messages handed to the consumer. *)

From S2P Require Export DBQueue.

Section concurrent.
Context {T : Type} (dflt : T) (Qlen : nat).
Implicit Types (s : db_queue T) (q i k : nat) (x : T).

(** Where a producer is in [push]. *)
Inductive ppc :=
| PIdle
| PCheck (x : T)              (** before [m_full.load] *)
| PAdd (x : T)                (** before [m_pointer.fetch_add] *)
| PSetFull (x : T) (q i : nat)  (** before [m_full.store(true)] *)
| PStore (x : T) (q i : nat)    (** before the payload is written *)
| PPublish (x : T) (q i : nat)  (** before [valid.store(true)] *)
| PFailed.                    (** the assertion on [cur_queue] failed *)

(** Where the consumer is in [pop]: [second] tells the [consume] that
    follows the exchange from the one before it, [polls] counts the polls
    already made of the current slot. *)
Inductive cpc :=
| CIdle
| CConsume (second : bool) (polls : nat)
| CTake (second : bool)       (** the slot was seen valid *)
| CClear (i : nat)            (** [swap_queues]: next flag to clear *)
| CExchange                   (** before [m_pointer.exchange] *)
| CUnfull (old : Z).          (** before [m_full.store(false)] *)

Record conc := Conc {
  shared : db_queue T;
  prods : gmap nat ppc;
  consumer : cpc;
  claimed : list T;
  delivered : list T;
  skips : nat
}.

Definition prod_step s (pc : ppc) : db_queue T * ppc * list T :=
  match pc with
  | PIdle => (s, PIdle, [])
  | PFailed => (s, PFailed, [])
  | PCheck x => if m_full s then (s, PIdle, []) else (s, PAdd x, [])
  | PAdd x =>
      let cur_pointer := m_pointer s in
      let s := set_pointer (u32 (cur_pointer + 1)) s in
      let cur_queue := claim_queue cur_pointer in
      let my_slot := claim_slot cur_pointer in
      if negb ((cur_queue =? 0) || (cur_queue =? 1)) then (s, PFailed, [])
      else if Z.of_nat Qlen - 1 <=? my_slot then
        if my_slot =? Z.of_nat Qlen - 1
        then (s, PSetFull x (Z.to_nat cur_queue) (Z.to_nat my_slot), [x])
        else (s, PIdle, [])
      else (s, PStore x (Z.to_nat cur_queue) (Z.to_nat my_slot), [x])
  | PSetFull x q i => (set_full true s, PStore x q i, [])
  | PStore x q i => (store_payload q i x s, PPublish x q i, [])
  | PPublish x q i => (store_valid q i true s, PIdle, [])
  end.

(** The consumer's next action: new state, new position, what it returned
    and whether it gave a slot up. *)
Definition cons_step s (pc : cpc) : db_queue T * cpc * list T * nat :=
  match pc with
  | CIdle => (s, CIdle, [], 0%nat)
  | CConsume second polls =>
      if decide (m_read s < m_full_slots s)%nat then
        if decide (polls < 100)%nat then
          if valid (get_slot dflt s (m_consumer_q s) (m_read s))
          then (s, CTake second, [], 0%nat)
          else (s, CConsume second (S polls), [], 0%nat)
        else (set_read (S (m_read s)) s, CConsume second 0, [], 1%nat)
      else if second then (s, CIdle, [], 0%nat)
      else (s, CClear 0, [], 0%nat)
  | CTake second =>
      let index := m_read s in
      let s := set_read (S index) s in
      let x := payload (get_slot dflt s (m_consumer_q s) index) in
      (store_payload (m_consumer_q s) index dflt s, CIdle, [x], 0%nat)
  | CClear i =>
      if decide (i < m_full_slots s)%nat
      then (store_valid (m_consumer_q s) i false s, CClear (S i), [], 0%nat)
      else (s, CExchange, [], 0%nat)
  | CExchange =>
      let newpoint := u32 (Z.shiftl (Z.of_nat (m_consumer_q s)) 30) in
      let s := set_consumer (exchange_queue (m_consumer_q s)) s in
      let old_pointer := m_pointer s in
      (set_pointer newpoint s, CUnfull old_pointer, [], 0%nat)
  | CUnfull old_pointer =>
      let s := set_full false s in
      let old_pointer := Z.land old_pointer not_MASK in
      let s := set_full_slots (Z.to_nat (Z.min old_pointer (Z.of_nat Qlen))) s in
      (set_read 0 s, CConsume true 0, [], 0%nat)
  end.

(** An action of the schedule: thread [k] calls [push x] or advances, the
    consumer calls [pop] or advances. *)
Inductive action := StartPush (k : nat) (x : T) | RunProducer (k : nat) | StartPop | RunConsumer.

Definition pc_of (c : conc) (k : nat) : ppc := default PIdle (prods c !! k).

Definition conc_step (a : action) (c : conc) : option conc :=
  match a with
  | StartPush k x =>
      match pc_of c k with
      | PIdle => Some (Conc (shared c) (<[k := PCheck x]> (prods c)) (consumer c)
                         (claimed c) (delivered c) (skips c))
      | _ => None
      end
  | RunProducer k =>
      let '(s, pc, l) := prod_step (shared c) (pc_of c k) in
      Some (Conc s (<[k := pc]> (prods c)) (consumer c) (claimed c ++ l) (delivered c) (skips c))
  | StartPop =>
      match consumer c with
      | CIdle => Some (Conc (shared c) (prods c) (CConsume false 0)
                         (claimed c) (delivered c) (skips c))
      | _ => None
      end
  | RunConsumer =>
      let '(s, pc, l, n) := cons_step (shared c) (consumer c) in
      Some (Conc s (prods c) pc (claimed c) (delivered c ++ l) (skips c + n))
  end.

Fixpoint conc_run (sched : list action) (c : conc) : option conc :=
  match sched with
  | [] => Some c
  | a :: sched => c ← conc_step a c; conc_run sched c
  end.

Definition conc_init : conc := Conc (db_new dflt Qlen) ∅ CIdle [] [] 0.

(** The thirty bits that count the [fetch_add]s since the last exchange are followed by
    the number of the buffer; nothing in the code keeps the one out of the other.  The
    condition on a schedule that they stay apart: no [fetch_add] is the
    [2^30 - 1]st of its exchange. *)
Definition adding (a : action) (c : conc) : bool :=
  match a with RunProducer k => match pc_of c k with PAdd _ => true | _ => false end | _ => false end.

Fixpoint counter_fits (sched : list action) (c : conc) : Prop :=
  match sched with
  | [] => True
  | a :: sched =>
      (adding a c = true → claim_slot (m_pointer (shared c)) < 2 ^ 30 - 2) ∧
      match conc_step a c with Some c' => counter_fits sched c' | None => True end
  end.
End concurrent.

Arguments PIdle {T}.
Arguments PCheck {T} _.
Arguments PAdd {T} _.
Arguments PSetFull {T} _ _ _.
Arguments PStore {T} _ _ _.
Arguments PPublish {T} _ _ _.
Arguments PFailed {T}.
Arguments Conc {T} _ _ _ _ _ _.
Arguments shared {T} _.
Arguments prods {T} _.
Arguments consumer {T} _.
Arguments claimed {T} _.
Arguments delivered {T} _.
Arguments skips {T} _.
Arguments StartPush {T} _ _.
Arguments RunProducer {T} _.
Arguments StartPop {T}.
Arguments RunConsumer {T}.
Arguments pc_of {T} _ _.

(** ** The invariant *)

Section invariant.
Context {T : Type} (dflt : T) (Qlen : nat).
Implicit Types (s : db_queue T) (c : conc (T:=T)) (q i k : nat) (x : T) (cl pl : list T).

(** The slot a producer has claimed and not yet published. *)
Definition holds (pc : ppc (T:=T)) : option (nat * nat * T) :=
  match pc with
  | PSetFull x q i | PStore x q i | PPublish x q i => Some (q, i, x)
  | _ => None
  end.

(** The bounds of the consumer's share, also in the middle of an exchange. *)
Definition share_start c : nat :=
  match consumer c with CUnfull _ => 0%nat | _ => m_read (shared c) end.
Definition share_end c : nat :=
  match consumer c with
  | CUnfull old => Z.to_nat (Z.min (Z.land old not_MASK) (Z.of_nat Qlen))
  | _ => m_full_slots (shared c)
  end.

(** Slot [i] of buffer [q] stands for message [x]: published, or claimed by
    a producer that will write it. *)
Definition stands_for c q i x : Prop :=
  get_slot dflt (shared c) q i = Slot true x ∨
  (valid (get_slot dflt (shared c) q i) = false ∧ ∃ k, holds (pc_of c k) = Some (q, i, x)).

Definition consumer_ok c cl : Prop :=
  let s := shared c in
  match consumer c with
  | CTake _ => (m_read s < m_full_slots s)%nat ∧
               valid (get_slot dflt s (m_consumer_q s) (m_read s)) = true
  | CClear j => cl = [] ∧ ∀ i, (i < j)%nat → valid (get_slot dflt s (m_consumer_q s) i) = false
  | CExchange => cl = [] ∧ ∀ i, valid (get_slot dflt s (m_consumer_q s) i) = false
  | _ => True
  end.

Record inv c cl pl : Prop := {
  inv_shape : shape Qlen (shared c);
  inv_consumer : (m_consumer_q (shared c) < 2)%nat;
  inv_pointer : ∃ n, 0 ≤ n < 2 ^ 30 - 1 ∧
    m_pointer (shared c) = pack (producer_q (shared c)) n ∧
    Z.of_nat (length pl) = Z.min n (Z.of_nat Qlen);
  inv_claimed : claimed c = delivered c ++ cl ++ pl;
  inv_share : (share_start c + length cl = share_end c)%nat;
  inv_end : (share_end c ≤ Qlen)%nat;
  inv_cons : ∀ i x, cl !! i = Some x →
    stands_for c (m_consumer_q (shared c)) (share_start c + i) x;
  inv_prod : ∀ i x, pl !! i = Some x → stands_for c (producer_q (shared c)) i x;
  inv_cons_free : ∀ i, (share_end c ≤ i)%nat →
    valid (get_slot dflt (shared c) (m_consumer_q (shared c)) i) = false;
  inv_prod_free : ∀ i, (length pl ≤ i)%nat →
    valid (get_slot dflt (shared c) (producer_q (shared c)) i) = false;
  inv_holds : ∀ k q i x, holds (pc_of c k) = Some (q, i, x) →
    valid (get_slot dflt (shared c) q i) = false ∧
    ((q = m_consumer_q (shared c) ∧ ∃ j, i = (share_start c + j)%nat ∧ cl !! j = Some x) ∨
     (q = producer_q (shared c) ∧ pl !! i = Some x));
  inv_unique : ∀ k k' q i x x', holds (pc_of c k) = Some (q, i, x) →
    holds (pc_of c k') = Some (q, i, x') → k = k';
  inv_written : ∀ k x q i, pc_of c k = PPublish x q i →
    payload (get_slot dflt (shared c) q i) = x;
  inv_not_failed : ∀ k, pc_of c k ≠ PFailed;
  inv_phase : consumer_ok c cl
}.
End invariant.

Section preservation.
Context {T : Type} (dflt : T) (Qlen : nat).
Hypothesis Qlen_pos : (0 < Qlen)%nat.
Hypothesis Qlen_small : Z.of_nat Qlen < 2 ^ 30 - 1.
Implicit Types (s : db_queue T) (c : conc (T:=T)) (q i k : nat) (x : T) (cl pl : list T).

Notation Inv := (inv dflt Qlen).
Notation get := (get_slot dflt).

Definition set_prod s k pc l c : conc (T:=T) :=
  Conc s (<[k := pc]> (prods c)) (consumer c) (claimed c ++ l) (delivered c) (skips c).

Lemma pc_of_set s k pc l c k' :
  pc_of (set_prod s k pc l c) k' = if decide (k = k') then pc else pc_of c k'.
Proof. unfold pc_of, set_prod. simpl. rewrite lookup_insert. by case_decide. Qed.

Lemma holds_set s k pc l c k' :
  holds (pc_of (set_prod s k pc l c) k') =
  if decide (k = k') then holds pc else holds (pc_of c k').
Proof. rewrite pc_of_set. by case_decide. Qed.

(** Steps of a producer that only touch [m_full]. *)
Lemma inv_producer_silent b k pc c cl pl :
  Inv c cl pl → holds pc = holds (pc_of c k) → pc ≠ PFailed →
  (∀ x q i, pc = PPublish x q i → pc_of c k = pc) →
  Inv (set_prod (set_full b (shared c)) k pc [] c) cl pl.
Proof.
  intros HI Hh Hf Hp.
  assert (∀ k', holds (pc_of (set_prod (set_full b (shared c)) k pc [] c) k') =
                holds (pc_of c k')) as Hk.
  { intros k'. rewrite holds_set. case_decide; by subst. }
  destruct HI as [H1 H2 H3 H4 H5 H6 H7 H8 H9 H10 H11 H12 H13 H14 H15].
  split; try done.
  - simpl. by rewrite app_nil_r.
  - intros i x Hi. destruct (H7 i x Hi) as [Hv|[Hv [k' Hk']]]; [by left|right].
    split; [done|]. exists k'. by rewrite Hk.
  - intros i x Hi. destruct (H8 i x Hi) as [Hv|[Hv [k' Hk']]]; [by left|right].
    split; [done|]. exists k'. by rewrite Hk.
  - intros k' q i x. rewrite Hk. apply H11.
  - intros k1 k2 q i x x'. rewrite !Hk. apply H12.
  - intros k' x q i. rewrite pc_of_set. case_decide as E; [|apply H13].
    intros ->. eapply (H13 k). by apply (Hp x q i).
  - intros k'. rewrite pc_of_set. by case_decide.
Qed.

Lemma inv_share_lt c cl pl j x :
  Inv c cl pl → cl !! j = Some x → (share_start c + j < Qlen)%nat.
Proof.
  intros HI Hj. apply lookup_lt_Some in Hj.
  pose proof (inv_share _ _ _ _ _ HI). pose proof (inv_end _ _ _ _ _ HI). lia.
Qed.

Lemma inv_prod_lt c cl pl i x : Inv c cl pl → pl !! i = Some x → (i < Qlen)%nat.
Proof.
  intros HI Hi. apply lookup_lt_Some in Hi.
  destruct (inv_pointer _ _ _ _ _ HI) as (n & _ & _ & Hl). lia.
Qed.

(** A held slot is inside one of the two buffers. *)
Lemma inv_held_range c cl pl k q i x :
  Inv c cl pl → holds (pc_of c k) = Some (q, i, x) → (q < 2)%nat ∧ (i < Qlen)%nat.
Proof.
  intros HI Hk. destruct (inv_holds _ _ _ _ _ HI k q i x Hk) as [_ [[-> (j & -> & Hj)]|[-> Hi]]].
  - split; [apply (inv_consumer _ _ _ _ _ HI)|by eapply inv_share_lt].
  - split; [apply exchange_lt|by eapply inv_prod_lt].
Qed.

(** The write to a held slot by its holder [k], [f] changing the slot and
    [pc] being where the holder goes. *)
Section write.
Context (k q i : nat) (x : T) (f : slot T → slot T) (pc : ppc (T:=T)).
Context (c : conc (T:=T)) (cl pl : list T).
Hypothesis HI : Inv c cl pl.
Hypothesis Hk : holds (pc_of c k) = Some (q, i, x).
Hypothesis Hf :
  f (get (shared c) q i) = Slot true x ∧ holds pc = None ∨
  f (get (shared c) q i) = Slot false x ∧ pc = PPublish x q i.

Let s' := set_slot q i f (shared c).
Let c' := set_prod s' k pc [] c.

Lemma write_same : get s' q i = f (get (shared c) q i).
Proof.
  pose proof (inv_held_range _ _ _ _ _ _ _ HI Hk) as [Hq Hi].
  apply (get_set_same _ Qlen); [apply (inv_shape _ _ _ _ _ HI)|done|done].
Qed.

Lemma write_other q' i' : (q, i) ≠ (q', i') → get s' q' i' = get (shared c) q' i'.
Proof. apply get_set_ne. Qed.

Lemma write_pc k' : k' ≠ k → pc_of c' k' = pc_of c k'.
Proof. intros. unfold c'. rewrite pc_of_set. by rewrite decide_False. Qed.

Lemma write_pc_same : pc_of c' k = pc.
Proof. unfold c'. rewrite pc_of_set. by rewrite decide_True. Qed.

Lemma write_stands q' i' y : stands_for dflt c q' i' y → stands_for dflt c' q' i' y.
Proof.
  pose proof write_same as Hsame.
  intros Hs. destruct (decide ((q, i) = (q', i'))) as [[= <- <-]|Hne].
  - destruct (inv_holds _ _ _ _ _ HI _ _ _ _ Hk) as [Hv _].
    assert (y = x) as ->.
    { destruct Hs as [Hs|[_ [k' Hk']]]; [by rewrite Hs in Hv|].
      pose proof (inv_unique _ _ _ _ _ HI _ _ _ _ _ _ Hk Hk') as <-. congruence. }
    destruct Hf as [[E _]|[E Epc]]; [left|right]; simpl; fold s'; rewrite Hsame, E; [done|].
    split; [done|]. exists k. by rewrite write_pc_same, Epc.
  - destruct Hs as [Hs|[Hv [k' Hk']]]; [left|right]; simpl; rewrite write_other by done; [done|].
    split; [done|]. exists k'. rewrite write_pc; [done|]. intros ->. congruence.
Qed.

Lemma write_holds k' q' i' y :
  holds (pc_of c' k') = Some (q', i', y) →
  holds (pc_of c k') = Some (q', i', y) ∧
  valid (get s' q' i') = valid (get (shared c) q' i').
Proof.
  destruct (decide (k' = k)) as [->|Hne].
  - rewrite write_pc_same. destruct Hf as [[_ ->]|[E ->]]; [done|]. cbn [holds]. intros [= <- <- <-].
    split; [done|]. rewrite write_same, E.
    by destruct (inv_holds _ _ _ _ _ HI _ _ _ _ Hk) as [-> _].
  - rewrite write_pc by done. intros Hk'. split; [done|]. rewrite write_other; [done|].
    intros [= <- <-]. by pose proof (inv_unique _ _ _ _ _ HI _ _ _ _ _ _ Hk Hk').
Qed.

(** A slot that is free in its buffer is not the one written. *)
Lemma write_free q' i' :
  (q' = m_consumer_q (shared c) → cl = [] ∨ (share_end Qlen c ≤ i')%nat) →
  (q' = producer_q (shared c) → (length pl ≤ i')%nat) →
  valid (get (shared c) q' i') = false → valid (get s' q' i') = false.
Proof.
  intros Hc Hp Hv. rewrite write_other; [done|]. intros [= <- <-].
  destruct (inv_holds _ _ _ _ _ HI _ _ _ _ Hk) as [_ [[E (j & Ej & Hj)]|[E Hl]]].
  - pose proof (inv_share _ _ _ _ _ HI). destruct (Hc E) as [->|?]; [done|].
    apply lookup_lt_Some in Hj. lia.
  - apply lookup_lt_Some in Hl. specialize (Hp E). lia.
Qed.

Lemma write_phase : consumer_ok dflt c' cl.
Proof.
  pose proof (inv_phase _ _ _ _ _ HI) as H15. unfold consumer_ok in *. simpl.
  pose proof (exchange_ne (m_consumer_q (shared c))) as Hne.
  destruct (consumer c); try done; destruct H15 as [H15 Hv].
  - split; [done|]. rewrite write_other; [done|]. intros [= E1 E2].
    destruct (inv_holds _ _ _ _ _ HI _ _ _ _ Hk) as [E' _]. subst q i. congruence.
  - split; [done|]. intros j Hj. apply write_free; [by left| |by apply Hv].
    unfold producer_q. congruence.
  - split; [done|]. intros j. apply write_free; [by left| |by apply Hv].
    unfold producer_q. congruence.
Qed.

Lemma inv_write : pc ≠ PFailed → Inv c' cl pl.
Proof.
  intros Hpf. pose proof (exchange_ne (m_consumer_q (shared c))) as Hne.
  split; try apply HI.
  - apply shape_set_slot, HI.
  - simpl. rewrite app_nil_r. apply HI.
  - intros j y Hj. by apply write_stands, HI.
  - intros j y Hj. by apply write_stands, HI.
  - intros j Hj. apply write_free; [by right| |by apply HI]. unfold producer_q. simpl. congruence.
  - intros j Hj. apply write_free; [|done|by apply HI]. unfold producer_q. simpl. congruence.
  - intros k' q' i' y Hk'. destruct (write_holds _ _ _ _ Hk') as [Hk0 Hv].
    simpl. fold s'. rewrite Hv. by apply (inv_holds _ _ _ _ _ HI k').
  - intros k1 k2 q' i' y y' Hk1 Hk2.
    destruct (write_holds _ _ _ _ Hk1) as [? _], (write_holds _ _ _ _ Hk2) as [? _].
    by eapply HI.
  - intros k' y q' i' Hk'. destruct (decide (k' = k)) as [->|Hnk].
    + rewrite write_pc_same in Hk'. destruct Hf as [[_ Hn]|[E Epc]]; [by rewrite Hk' in Hn|].
      rewrite Hk' in Epc. injection Epc as -> -> ->. simpl. fold s'. by rewrite write_same, E.
    + rewrite write_pc in Hk' by done. simpl. fold s'. rewrite write_other; [by eapply HI|].
      intros [= <- <-]. apply Hnk.
      apply (inv_unique _ _ _ _ _ HI k' k q i y x); [by rewrite Hk'|done].
  - intros k'. destruct (decide (k' = k)) as [->|Hnk]; [by rewrite write_pc_same|].
    rewrite write_pc by done. apply HI.
  - apply write_phase.
Qed.
End write.

(** The fetch-and-add. *)
Lemma stands_for_set s k pc l c q i x :
  (∀ q i, get s q i = get (shared c) q i) → holds (pc_of c k) = None →
  stands_for dflt c q i x → stands_for dflt (set_prod s k pc l c) q i x.
Proof.
  intros Hg Hk [Hs|[Hv [k' Hk']]]; [left|right]; simpl; rewrite Hg; [done|].
  split; [done|]. exists k'. rewrite holds_set. case_decide; [by subst; rewrite Hk in Hk'|done].
Qed.

Lemma inv_claim_overflow k n c cl pl :
  Inv c cl pl → holds (pc_of c k) = None →
  m_pointer (shared c) = pack (producer_q (shared c)) n →
  Z.of_nat Qlen ≤ n < 2 ^ 30 - 2 →
  Inv (set_prod (set_pointer (pack (producer_q (shared c)) (n + 1)) (shared c)) k PIdle [] c) cl pl.
Proof.
  intros HI Hk Hn Hr.
  assert (Z.of_nat (length pl) = Z.of_nat Qlen) as El.
  { destruct (inv_pointer _ _ _ _ _ HI) as (n' & ? & E & ?). unfold pack in *. lia. }
  split; try apply HI.
  - exists (n + 1). simpl. unfold producer_q. simpl. repeat split; lia.
  - simpl. rewrite app_nil_r. apply HI.
  - intros i x Hi. by apply stands_for_set, HI.
  - intros i x Hi. by apply stands_for_set, HI.
  - intros k' q i x. rewrite holds_set. case_decide; [done|]. apply HI.
  - intros k1 k2 q i x x'. rewrite !holds_set. do 2 case_decide; try done. apply HI.
  - intros k' x q i. rewrite pc_of_set. case_decide; [done|]. apply HI.
  - intros k'. rewrite pc_of_set. case_decide; [done|]. apply HI.
Qed.

Lemma inv_claim k x pc c cl pl :
  let s := shared c in
  Inv c cl pl → holds (pc_of c k) = None →
  m_pointer s = pack (producer_q s) (Z.of_nat (length pl)) → (length pl < Qlen)%nat →
  holds pc = Some (producer_q s, length pl, x) →
  (∀ y q i, pc ≠ PPublish y q i) → pc ≠ PFailed →
  Inv (set_prod (set_pointer (pack (producer_q s) (Z.of_nat (length pl) + 1)) s) k pc [x] c)
    cl (pl ++ [x]).
Proof.
  intros s HI Hk Hn Hl Hpc Hpub Hfail.
  assert (∀ k' q i y, holds (pc_of c k') = Some (q, i, y) → (q, i) ≠ (producer_q s, length pl)) as Hfresh.
  { intros k' q i y Hk' [= -> ->].
    destruct (inv_holds _ _ _ _ _ HI _ _ _ _ Hk') as [_ [[E _]|[_ Hi]]].
    - by destruct (exchange_ne (m_consumer_q s)).
    - apply lookup_lt_Some in Hi. lia. }
  split; try apply HI.
  - exists (Z.of_nat (length pl) + 1). simpl. unfold producer_q. simpl.
    rewrite length_app. simpl. repeat split; lia.
  - simpl. rewrite (inv_claimed _ _ _ _ _ HI). by rewrite <- !(assoc_L (++)).
  - intros i y Hi. by apply stands_for_set, HI.
  - intros i y Hi. apply lookup_app_Some in Hi as [Hi|[Hi Hy]]; [by apply stands_for_set, HI|].
    apply list_lookup_singleton_Some in Hy as [Hy <-]. assert (i = length pl) as -> by lia.
    right. split; [by apply HI|]. exists k. rewrite holds_set. by rewrite decide_True.
  - intros i Hi. rewrite length_app in Hi. apply HI. lia.
  - intros k' q i y. rewrite holds_set. case_decide.
    + rewrite Hpc. intros [= <- <- <-]. split; [by apply HI|]. right. split; [done|].
      by rewrite lookup_app_r, Nat.sub_diag.
    + intros Hk'. destruct (inv_holds _ _ _ _ _ HI _ _ _ _ Hk') as [Hv [?|[E Hi]]]; split; auto.
      right. split; [done|]. by apply lookup_app_l_Some.
  - intros k1 k2 q i y y'. rewrite !holds_set. do 2 case_decide; subst; try done.
    + intros E Hk2. rewrite Hpc in E. injection E as <- <- <-. by destruct (Hfresh _ _ _ _ Hk2).
    + intros Hk1 E. rewrite Hpc in E. injection E as <- <- <-. by destruct (Hfresh _ _ _ _ Hk1).
    + apply HI.
  - intros k' y q i. rewrite pc_of_set. case_decide; [by intros ->; destruct (Hpub y q i)|]. apply HI.
  - intros k'. rewrite pc_of_set. case_decide; [done|]. apply HI.
Qed.

Lemma inv_run_producer k c cl pl :
  Inv c cl pl →
  (adding (RunProducer k) c = true → claim_slot (m_pointer (shared c)) < 2 ^ 30 - 2) →
  ∃ pl', Inv (let '(s, pc, l) := prod_step Qlen (shared c) (pc_of c k) in set_prod s k pc l c) cl pl'.
Proof.
  intros HI Hroom. pose proof (inv_not_failed _ _ _ _ _ HI k) as Hnf.
  assert (set_full (m_full (shared c)) (shared c) = shared c) as Eself by by destruct (shared c).
  destruct (pc_of c k) as [|x|x|x q i|x q i|x q i|] eqn:Epc; cbn [prod_step]; try done.
  - exists pl. rewrite <- Eself at 1. apply inv_producer_silent; [done|by rewrite Epc|done|done].
  - exists pl. destruct (m_full (shared c)) eqn:Ef; rewrite <- Eself at 1;
      (apply inv_producer_silent; [done|by rewrite Epc|done|done]).
  - destruct (inv_pointer _ _ _ _ _ HI) as (n & Hn & Ep & El).
    pose proof (exchange_lt (m_consumer_q (shared c))) as Hq. fold (producer_q (shared c)) in Hq.
    unfold adding in Hroom. rewrite Epc, Ep, claim_slot_pack in Hroom by lia. specialize (Hroom eq_refl).
    rewrite Ep, claim_queue_pack, claim_slot_pack, pack_succ by lia.
    replace (negb _) with false by (destruct (producer_q (shared c)) as [|[|]]; [done|done|lia]).
    destruct (Z.leb_spec (Z.of_nat Qlen - 1) n) as [Hle|Hlt]; [destruct (Z.eqb_spec n (Z.of_nat Qlen - 1))|].
    + exists (pl ++ [x]). rewrite Nat2Z.id. assert (n = Z.of_nat (length pl)) as -> by lia.
      rewrite Nat2Z.id. apply inv_claim; try done; [by rewrite Epc|lia].
    + exists pl. apply inv_claim_overflow; [done|by rewrite Epc|done|lia].
    + exists (pl ++ [x]). rewrite Nat2Z.id. assert (n = Z.of_nat (length pl)) as -> by lia.
      rewrite Nat2Z.id. apply inv_claim; try done; [by rewrite Epc|lia].
  - exists pl. apply inv_producer_silent; [done|by rewrite Epc|done|done].
  - exists pl. apply (inv_write k q i x); [done|by rewrite Epc| |done]. right. split; [|done].
    f_equal. by eapply (inv_holds _ _ _ _ _ HI k); rewrite Epc.
  - exists pl. apply (inv_write k q i x); [done|by rewrite Epc| |done]. left. split; [|done].
    f_equal. by eapply (inv_written _ _ _ _ _ HI).
Qed.

(** ** The consumer *)

Definition set_cons s pc l n c : conc (T:=T) :=
  Conc s (prods c) pc (claimed c) (delivered c ++ l) (skips c + n).

(** Steps that only move the consumer. *)
Lemma inv_consumer_silent pc c cl pl :
  let c' := set_cons (shared c) pc [] 0 c in
  Inv c cl pl → share_start c' = share_start c → share_end Qlen c' = share_end Qlen c →
  consumer_ok dflt c' cl → Inv c' cl pl.
Proof.
  intros c' HI Es Ee Hok. split; try apply HI; rewrite ?Es, ?Ee; try apply HI; try done.
  simpl. rewrite app_nil_r. apply HI.
Qed.

(** Nobody holds a slot of the consumer's buffer once its share is read. *)
Lemma inv_not_held k q i x c pl :
  Inv c [] pl → holds (pc_of c k) = Some (q, i, x) → q = producer_q (shared c) ∧ pl !! i = Some x.
Proof.
  intros HI Hk. by destruct (inv_holds _ _ _ _ _ HI _ _ _ _ Hk) as [_ [[_ (j & _ & ?)]|?]].
Qed.

Lemma inv_clear i c pl :
  Inv c [] pl → consumer c = CClear i → (i < m_full_slots (shared c))%nat →
  Inv (set_cons (store_valid (m_consumer_q (shared c)) i false (shared c)) (CClear (S i)) [] 0 c) [] pl.
Proof.
  intros HI Hc Hi. set (cq := m_consumer_q (shared c)).
  set (s' := store_valid cq i false (shared c)).
  assert (∀ q j, q ≠ cq → get s' q j = get (shared c) q j) as Ho.
  { intros q j Hq. apply get_store_valid_ne. congruence. }
  assert (∀ j, valid (get s' cq j) = if decide (i = j) then false else valid (get (shared c) cq j)) as Hv.
  { intros j. case_decide as E; [subst j|].
    - unfold s'. rewrite (get_store_valid dflt Qlen); [done|apply HI|apply HI|].
      pose proof (inv_end _ _ _ _ _ HI) as He. unfold share_end in He. rewrite Hc in He. lia.
    - unfold s'. rewrite get_store_valid_ne by congruence. done. }
  assert (producer_q (shared c) ≠ cq) as Hne by apply exchange_ne.
  pose proof (inv_phase _ _ _ _ _ HI) as Hok. unfold consumer_ok in Hok. rewrite Hc in Hok.
  destruct Hok as [_ Hok].
  pose proof (inv_share _ _ _ _ _ HI) as Hsh. pose proof (inv_end _ _ _ _ _ HI) as Hend.
  pose proof (inv_cons_free _ _ _ _ _ HI) as Hcf.
  unfold share_start, share_end in Hsh, Hend, Hcf. rewrite Hc in Hsh, Hend, Hcf.
  split; try apply HI; try done.
  - apply shape_set_slot, HI.
  - simpl. rewrite app_nil_r. apply HI.
  - intros j x Hj. destruct (inv_prod _ _ _ _ _ HI j x Hj) as [E|[E Hk]]; [left|right];
      simpl; fold cq; fold s'; rewrite Ho by done; done.
  - intros j Hj. simpl. fold cq. fold s'. rewrite Hv. case_decide; [done|]. by apply Hcf.
  - intros j Hj. simpl. fold cq. fold s'. unfold producer_q. simpl. fold cq.
    rewrite Ho by done. by apply HI.
  - intros k q j x Hk. simpl. fold cq. fold s'.
    destruct (inv_not_held _ _ _ _ _ _ HI Hk) as [-> Hl]. rewrite Ho by done.
    split; [|by right]. by eapply (inv_holds _ _ _ _ _ HI k).
  - intros k x q j Hk. simpl. fold cq. fold s'. change (pc_of c k = PPublish x q j) in Hk.
    destruct (inv_not_held k q j x _ _ HI) as [-> Hl]; [by rewrite Hk|].
    rewrite Ho by done. by eapply (inv_written _ _ _ _ _ HI k).
  - unfold consumer_ok. simpl. fold cq. fold s'. split; [done|]. intros j Hj.
    rewrite Hv. case_decide; [done|]. apply Hok. lia.
Qed.

Lemma inv_take second x c cl pl :
  Inv c (x :: cl) pl → consumer c = CTake second →
  let s := set_read (S (m_read (shared c))) (shared c) in
  payload (get s (m_consumer_q s) (m_read (shared c))) = x ∧
  Inv (set_cons (store_payload (m_consumer_q s) (m_read (shared c)) dflt s) CIdle [x] 0 c) cl pl.
Proof.
  intros HI Hc s. set (cq := m_consumer_q (shared c)). set (r := m_read (shared c)).
  pose proof (inv_phase _ _ _ _ _ HI) as Hok. unfold consumer_ok in Hok. rewrite Hc in Hok.
  destruct Hok as [Hlt Hvalid].
  assert (share_start c = r ∧ share_end Qlen c = m_full_slots (shared c)) as [Es Ee]
    by (unfold share_start, share_end; by rewrite Hc).
  assert (get (shared c) cq r = Slot true x) as Hx.
  { destruct (inv_cons _ _ _ _ _ HI 0%nat x eq_refl) as [E|[E _]];
      rewrite Es, Nat.add_0_r in E; [done|]. unfold cq, r in E. congruence. }
  split; [change (payload (get (shared c) cq r) = x); by rewrite Hx|].
  set (s' := store_payload cq r dflt s).
  assert (∀ q j, (cq, r) ≠ (q, j) → get s' q j = get (shared c) q j) as Ho.
  { intros q j Hq. exact (get_store_payload_ne dflt cq r dflt s q j Hq). }
  assert (producer_q (shared c) ≠ cq) as Hne by apply exchange_ne.
  assert (∀ q j y, stands_for dflt c q j y → (cq, r) ≠ (q, j) →
    stands_for dflt (set_cons s' CIdle [x] 0 c) q j y) as Hst.
  { intros q j y [E|[E Hk]] Hqj; [left|right]; simpl; by rewrite Ho. }
  pose proof (inv_share _ _ _ _ _ HI) as Hsh. pose proof (inv_end _ _ _ _ _ HI) as Hend.
  rewrite Es, Ee in Hsh. rewrite Ee in Hend. simpl in Hsh.
  assert (∀ k q j y, holds (pc_of c k) = Some (q, j, y) → (cq, r) ≠ (q, j)) as Hnh.
  { intros k q j y Hk [= <- <-]. destruct (inv_holds _ _ _ _ _ HI _ _ _ _ Hk) as [Hv _].
    by rewrite Hx in Hv. }
  split; try apply HI; try done.
  - apply shape_set_slot. apply HI.
  - simpl. rewrite (inv_claimed _ _ _ _ _ HI). by rewrite <- (assoc_L (++)).
  - unfold share_start, share_end. simpl. fold r. lia.
  - intros j y Hj. unfold share_start. simpl. fold r cq s'. rewrite <- Nat.add_succ_r.
    pose proof (inv_cons _ _ _ _ _ HI (S j) y Hj) as H7. rewrite Es in H7.
    apply Hst; [done|]. intros [=]. lia.
  - intros j y Hj. apply Hst; [by apply HI|]. intros [= E _]. by apply Hne.
  - intros j Hj. simpl in *. fold r cq s'. rewrite Ho; [|intros [=]; unfold share_end in Hj; simpl in Hj; lia].
    apply HI. by rewrite Ee.
  - intros j Hj. simpl. fold r cq s'. unfold producer_q. simpl. fold cq.
    rewrite Ho; [by apply HI|]. intros [= E _]. by apply Hne.
  - intros k q j y Hk. simpl. fold r cq s'. rewrite Ho by by eapply (Hnh k).
    destruct (inv_holds _ _ _ _ _ HI _ _ _ _ Hk) as [Hv [[-> (j' & -> & Hj')]|Hp]]; (split; [done|]); [left|by right].
    split; [done|]. rewrite Es. unfold share_start. simpl. fold r. destruct j' as [|j'].
    + destruct (Hnh _ _ _ _ Hk). by rewrite Es, Nat.add_0_r.
    + exists j'. split; [lia|done].
  - intros k y q j Hk. simpl. fold r cq s'. rewrite Ho; [by eapply (inv_written _ _ _ _ _ HI k)|].
    eapply (Hnh k). change (pc_of c k = PPublish y q j) in Hk. by rewrite Hk.
Qed.

Lemma inv_exchange c pl :
  Inv c [] pl → consumer c = CExchange →
  Inv (let '(s, pc, l, n) := cons_step dflt Qlen (shared c) CExchange in set_cons s pc l n c) pl [].
Proof.
  intros HI Hc. cbn [cons_step].
  pose proof (inv_phase _ _ _ _ _ HI) as Hok. unfold consumer_ok in Hok. rewrite Hc in Hok.
  destruct Hok as [_ Hclear].
  pose proof (inv_consumer _ _ _ _ _ HI) as Hq.
  rewrite newpoint_pack by done.
  destruct (inv_pointer _ _ _ _ _ HI) as (n & Hn & Ep & El).
  set (c' := set_cons _ _ _ _ c).
  assert (share_start c' = 0%nat) as Es by done.
  assert (share_end Qlen c' = length pl) as Ee.
  { unfold share_end, c'. simpl. rewrite Ep.
    change (Z.land (pack (producer_q (shared c)) n) not_MASK) with (claim_slot (pack (producer_q (shared c)) n)).
    rewrite claim_slot_pack by lia. lia. }
  assert (producer_q (shared c') = m_consumer_q (shared c)) as Epq by by apply exchange_involutive.
  split; try apply HI; try done; rewrite ?Es, ?Ee, ?Epq.
  - apply exchange_lt.
  - exists 0. simpl. repeat split; lia.
  - simpl. rewrite (inv_claimed _ _ _ _ _ HI). by rewrite !app_nil_r.
  - lia.
  - intros i Hi. by apply (inv_prod_free _ _ _ _ _ HI).
  - intros i _. apply Hclear.
  - intros k q i x Hk. destruct (inv_not_held _ _ _ _ _ _ HI Hk) as [-> Hl].
    split; [by eapply (inv_holds _ _ _ _ _ HI k)|]. left. split; [done|]. by exists i.
Qed.

Lemma inv_run_consumer c cl pl :
  Inv c cl pl → (cons_step dflt Qlen (shared c) (consumer c)).2 = 0%nat →
  ∃ cl' pl', Inv (let '(s, pc, l, n) := cons_step dflt Qlen (shared c) (consumer c) in set_cons s pc l n c) cl' pl'.
Proof.
  intros HI Hskip. pose proof (inv_phase _ _ _ _ _ HI) as Hok. unfold consumer_ok in Hok.
  pose proof (inv_share _ _ _ _ _ HI) as Hsh.
  unfold share_start, share_end in Hsh.
  destruct (consumer c) as [|second polls|second|i| |old] eqn:Ec; cbn [cons_step] in *.
  - exists cl, pl. apply inv_consumer_silent; unfold share_start, share_end, consumer_ok; by rewrite ?Ec.
  - case_decide as Hlt; [case_decide; [|done]; destruct (valid _) eqn:Ev|].
    + exists cl, pl. by apply inv_consumer_silent; unfold share_start, share_end, consumer_ok; rewrite ?Ec.
    + exists cl, pl. by apply inv_consumer_silent; unfold share_start, share_end, consumer_ok; rewrite ?Ec.
    + assert (cl = []) as -> by (apply nil_length_inv; lia). exists [], pl.
      destruct second; apply inv_consumer_silent; unfold share_start, share_end, consumer_ok; rewrite ?Ec; try done.
      split; [done|]. intros j Hj. lia.
  - destruct cl as [|x cl]; [simpl in Hsh; lia|]. exists cl, pl.
    destruct (inv_take _ _ _ _ _ HI Ec) as [-> HI']. apply HI'.
  - destruct Hok as [-> Hcl]. exists [], pl. case_decide as Hlt; [by apply inv_clear|].
    apply inv_consumer_silent; unfold share_start, share_end, consumer_ok; rewrite ?Ec; try done.
    split; [done|]. intros j. destruct (decide (j < i)%nat); [by apply Hcl|].
    apply (inv_cons_free _ _ _ _ _ HI). unfold share_end. rewrite Ec. lia.
  - destruct Hok as [-> _]. exists pl, []. by apply inv_exchange.
  - exists cl, pl.
    assert (share_start c = 0%nat ∧
            share_end Qlen c = Z.to_nat (Z.min (Z.land old not_MASK) (Z.of_nat Qlen))) as [Es Ee]
      by (unfold share_start, share_end; by rewrite Ec).
    destruct HI as [H1 H2 H3 H4 H5 H6 H7 H8 H9 H10 H11 H12 H13 H14 H15].
    rewrite Es in H7, H11. rewrite Ee in H6, H9.
    split; try done. simpl. by rewrite app_nil_r.
Qed.
End preservation.

(** ** Schedules *)

Section schedules.
Context {T : Type} (dflt : T) (Qlen : nat).
Hypothesis Qlen_pos : (0 < Qlen)%nat.
Hypothesis Qlen_small : Z.of_nat Qlen < 2 ^ 30 - 1.
Implicit Types (c : conc (T:=T)) (sched : list (action (T:=T))).

Lemma conc_init_inv : inv dflt Qlen (conc_init dflt Qlen) [] [].
Proof.
  destruct (db_new_rep dflt Qlen Qlen_pos) as [H1 H2 H3 H4 H5 H6 H7 H8 H9 H10 H11].
  split; try done.
  exists 0. simpl in *. rewrite H3. repeat split; lia.
Qed.

Lemma conc_step_inv a c c' cl pl :
  inv dflt Qlen c cl pl → (adding a c = true → claim_slot (m_pointer (shared c)) < 2 ^ 30 - 2) →
  conc_step dflt Qlen a c = Some c' → skips c' = skips c →
  ∃ cl' pl', inv dflt Qlen c' cl' pl'.
Proof.
  intros HI Hroom Hstep Hskip. destruct a as [k x|k| |]; cbn [conc_step] in Hstep.
  - destruct (pc_of c k) eqn:E; try done. injection Hstep as <-. exists cl, pl.
    assert (set_full (m_full (shared c)) (shared c) = shared c) as Es by by destruct (shared c).
    pose proof (inv_producer_silent dflt Qlen (m_full (shared c)) k (PCheck x) c cl pl HI) as H.
    rewrite Es in H. unfold set_prod in H. rewrite app_nil_r in H.
    apply H; [by rewrite E|done|done].
  - destruct (inv_run_producer dflt Qlen Qlen_pos Qlen_small k c cl pl HI Hroom) as [pl' HI'].
    exists cl, pl'. destruct (prod_step _ _ _) as [[s pc] l]. by injection Hstep as <-.
  - destruct (consumer c) eqn:E; try done. injection Hstep as <-. exists cl, pl.
    pose proof (inv_consumer_silent dflt Qlen (CConsume false 0) c cl pl HI) as H.
    unfold set_cons in H. rewrite app_nil_r, Nat.add_0_r in H.
    apply H; unfold share_start, share_end, consumer_ok; by rewrite ?E.
  - assert ((cons_step dflt Qlen (shared c) (consumer c)).2 = 0%nat) as Hn.
    { destruct (cons_step _ _ _ _) as [[[s pc] l] n]. injection Hstep as <-. simpl in *. lia. }
    destruct (inv_run_consumer dflt Qlen Qlen_pos c cl pl HI Hn) as (cl' & pl' & HI').
    exists cl', pl'. destruct (cons_step _ _ _ _) as [[[s pc] l] n]. by injection Hstep as <-.
Qed.

Lemma conc_step_skips a c c' : conc_step dflt Qlen a c = Some c' → (skips c ≤ skips c')%nat.
Proof.
  destruct a as [k x|k| |]; cbn [conc_step].
  - destruct (pc_of c k); try done. by intros [= <-].
  - destruct (prod_step _ _ _) as [[s pc] l]. by intros [= <-].
  - destruct (consumer c); try done. by intros [= <-].
  - destruct (cons_step _ _ _ _) as [[[s pc] l] n]. intros [= <-]. simpl. lia.
Qed.

Lemma conc_run_skips sched c c' : conc_run dflt Qlen sched c = Some c' → (skips c ≤ skips c')%nat.
Proof.
  revert c. induction sched as [|a sched IH]; intros c; simpl; [by intros [= <-]|].
  destruct (conc_step _ _ a c) as [c1|] eqn:E; simpl; [|done].
  intros Hrun. apply conc_step_skips in E. apply IH in Hrun. lia.
Qed.

Lemma conc_run_inv sched c c' cl pl :
  inv dflt Qlen c cl pl → counter_fits dflt Qlen sched c → conc_run dflt Qlen sched c = Some c' → skips c' = skips c →
  ∃ cl' pl', inv dflt Qlen c' cl' pl'.
Proof.
  revert c cl pl. induction sched as [|a sched IH]; intros c cl pl HI; simpl.
  - intros _ [= <-] _. eauto.
  - intros [Hroom Hfits]. destruct (conc_step _ _ a c) as [c1|] eqn:E; simpl; [|done]. intros Hrun Hskip.
    pose proof (conc_step_skips _ _ _ E). pose proof (conc_run_skips _ _ _ Hrun).
    destruct (conc_step_inv _ _ _ _ _ HI Hroom E) as (cl1 & pl1 & HI1); [lia|].
    eapply IH; [done|done|done|lia].
Qed.
End schedules.

(** ** Properties *)

(** C1: in every interleaving of any number of producers and one consumer, for a
    capacity below [2^30 - 1], in which fewer than [2^30 - 1] places are taken between two
    exchanges of the buffers and the consumer never gives a slot up, the messages it
    received are a prefix of the messages in the order their slots were claimed (nothing
    lost, duplicated or reordered), at most two buffers' worth is on its way, and the
    assertion of [push] never fails. *)
Theorem dbqueue_concurrent_fifo {T} (dflt : T) (Qlen : nat) sched c :
  (0 < Qlen)%nat → Z.of_nat Qlen < 2 ^ 30 - 1 →
  counter_fits dflt Qlen sched (conc_init dflt Qlen) →
  conc_run dflt Qlen sched (conc_init dflt Qlen) = Some c → skips c = 0%nat →
  (∃ rest, claimed c = delivered c ++ rest ∧ (length rest ≤ 2 * Qlen)%nat) ∧
  ∀ k, pc_of c k ≠ PFailed.
Proof.
  intros Hpos Hsmall Hfits Hrun Hskip.
  destruct (conc_run_inv dflt Qlen Hpos Hsmall sched _ c [] []
    (conc_init_inv dflt Qlen Hpos) Hfits Hrun Hskip) as (cl & pl & HI).
  split; [|apply HI]. exists (cl ++ pl). split; [apply HI|].
  rewrite length_app. pose proof (inv_share _ _ _ _ _ HI). pose proof (inv_end _ _ _ _ _ HI).
  destruct (inv_pointer _ _ _ _ _ HI) as (n & _ & _ & Hl). lia.
Qed.

(** Two producers race for the last free slot of a two-slot buffer while the
    consumer swaps. *)
Definition race : list (action (T:=Z)) :=
  [StartPush 0 7; RunProducer 0; StartPush 1 8; RunProducer 1; StartPush 2 9;
   RunProducer 2; RunProducer 1; RunProducer 0; RunProducer 2; StartPop;
   RunConsumer; RunConsumer; RunProducer 0; RunConsumer; RunConsumer;
   RunProducer 1; RunProducer 0; RunConsumer; RunConsumer;
   RunProducer 1; RunProducer 0; RunConsumer; RunConsumer].

Lemma dbqueue_concurrent_fifo_witness :
  ∃ c, conc_run 0 2 race (conc_init 0 2) = Some c ∧
  (∃ rest, claimed c = delivered c ++ rest ∧ (length rest ≤ 4)%nat) ∧
  ∀ k, pc_of c k ≠ PFailed.
Proof.
  eexists. split; [vm_compute; reflexivity|].
  apply (dbqueue_concurrent_fifo 0 2 race); [lia|lia| |vm_compute; reflexivity|reflexivity].
  vm_compute. repeat (split; [done|]). exact I.
Defined.

(** A message accepted by [push] is lost when its producer is suspended
    between the claim and the publication for longer than the consumer's
    hundred polls: the schedule ends with every thread idle, the message
    claimed and never delivered, and no further [pop] finds it. *)
Definition slow_producer : list (action (T:=Z)) :=
  [StartPush 0 7; RunProducer 0; RunProducer 0;
   StartPush 1 8; RunProducer 1; RunProducer 1; RunProducer 1; RunProducer 1; StartPop]
  ++ replicate 107 RunConsumer ++ [RunProducer 0; RunProducer 0]
  ++ StartPop :: replicate 10 RunConsumer ++ StartPop :: replicate 10 RunConsumer.

Theorem dbqueue_slow_producer_loses_message :
  ∃ c, conc_run 0 4 slow_producer (conc_init 0 4) = Some c ∧
       claimed c = [7; 8] ∧ delivered c = [8] ∧ skips c = 1%nat ∧
       pc_of c 0 = PIdle ∧ pc_of c 1 = PIdle ∧ consumer c = CIdle ∧
       (pop 0 4 0 (shared c)).1 = (false, 0).
Proof. eexists. split; [vm_compute; reflexivity|]. repeat split. Qed.

(** Without the condition on the counter the buffers are confused.  One producer has taken
    the last place of a one-slot buffer and is suspended before it says so; each of the
    following pushes finds the queue not full, takes a place that does not exist and gives
    up, and counts on.  The push after [2^30] of them is given the consumer's buffer. *)
Section wrap.
Context {T : Type} (dflt x : T).

Definition vain_push : list (action (T:=T)) := [StartPush 1 x; RunProducer 1; RunProducer 1].

Definition counts (p : Z) (c : conc (T:=T)) : Prop :=
  pc_of c 1 = PIdle ∧ m_full (shared c) = false ∧ m_pointer (shared c) = p ∧ m_consumer_q (shared c) = 1%nat.

Lemma conc_run_app sched sched' c :
  conc_run dflt 1 (sched ++ sched') c = c' ← conc_run dflt 1 sched c; conc_run dflt 1 sched' c'.
Proof.
  revert c. induction sched as [|a sched IH]; intros c; [done|]. cbn [app conc_run].
  destruct (conc_step dflt 1 a c); [apply IH|done].
Qed.

Lemma vain_push_adds c p : counts p c → ∃ c',
  conc_run dflt 1 vain_push c = Some c' ∧ m_consumer_q (shared c') = 1%nat ∧
  let '(s, pc, _) := prod_step 1 (shared c) (PAdd x) in pc_of c' 1 = pc ∧ shared c' = s.
Proof.
  intros (Hpc & Hf & Hp & Hq).
  assert (∀ k c pc s pc' l, pc_of c k = pc → prod_step 1 (shared c) pc = (s, pc', l) →
    conc_step dflt 1 (RunProducer k) c = Some (set_prod s k pc' l c)) as Hstep
    by (intros ? ? ? ? ? ? <- E; cbn [conc_step]; by rewrite E).
  set (c1 := Conc (shared c) (<[1%nat := PCheck x]> (prods c)) (consumer c) (claimed c) (delivered c) (skips c)).
  assert (conc_step dflt 1 (StartPush 1 x) c = Some c1) as E1 by (cbn [conc_step]; by rewrite Hpc).
  assert (pc_of c1 1 = PCheck x) as Hpc1 by (unfold pc_of; cbn [prods c1]; by rewrite lookup_insert_eq).
  pose proof (Hstep 1%nat c1 _ (shared c) (PAdd x) [] Hpc1 ltac:(cbn [prod_step c1 shared]; by rewrite Hf)) as E2.
  destruct (prod_step 1 (shared c) (PAdd x)) as [[s pc] l] eqn:E.
  pose proof (Hstep 1%nat (set_prod (shared c) 1 (PAdd x) [] c1) (PAdd x) s pc l ltac:(by rewrite pc_of_set, decide_True) E) as E3.
  exists (set_prod s 1 pc l (set_prod (shared c) 1 (PAdd x) [] c1)).
  unfold vain_push. cbn [conc_run]. rewrite E1. cbn [mbind option_bind]. rewrite E2. cbn [mbind option_bind]. rewrite E3.
  split; [done|]. split.
  - cbn [shared set_prod]. revert E. cbn [prod_step]. repeat case_match; by intros [= <- _ _].
  - by rewrite pc_of_set, decide_True.
Qed.

Lemma vain_pushes n : ∀ c p, counts p c → 1 ≤ p → p + Z.of_nat n ≤ 2 ^ 30 →
  ∃ c', conc_run dflt 1 (concat (replicate n vain_push)) c = Some c' ∧ counts (p + Z.of_nat n) c'.
Proof.
  induction n as [|n IH]; intros c p Hc H1 Hn; [exists c; by rewrite Z.add_0_r|].
  destruct (vain_push_adds c p Hc) as (c1 & E & Hq & Hs). cbn [replicate concat]. rewrite conc_run_app, E. cbn [mbind option_bind].
  destruct Hc as (_ & Hf & Hp & _). revert Hs. cbn [prod_step]. rewrite Hp.
  assert (p = pack 0 p) as Epk by (unfold pack; lia).
  pose proof (claim_queue_pack 0 p ltac:(lia) ltac:(lia)) as Ecq. pose proof (claim_slot_pack 0 p ltac:(lia)) as Ecs.
  rewrite <- Epk in Ecq, Ecs. rewrite Ecq, Ecs, u32_small by lia.
  cbn [Z.of_nat Z.eqb orb negb]. change (Z.of_nat 1 - 1) with 0. rewrite (proj2 (Z.leb_le 0 p)), (proj2 (Z.eqb_neq p 0)) by lia.
  intros [E1 E2]. replace (p + Z.of_nat (S n)) with (p + 1 + Z.of_nat n) by lia. apply IH; [|lia|lia].
  unfold counts. rewrite E1, E2 in *. done.
Qed.

Theorem counter_runs_into_queue : ∃ sched c,
  conc_run dflt 1 sched (conc_init dflt 1) = Some c ∧ skips c = 0%nat ∧
  m_consumer_q (shared c) = 1%nat ∧ pc_of c 1 = PSetFull x 1 0.
Proof.
  set (start := [StartPush 0 x; RunProducer 0; RunProducer 0] : list (action (T:=T))).
  destruct (conc_run dflt 1 start (conc_init dflt 1)) as [c0|] eqn:E0; [|done].
  assert (counts 1 c0) as H0 by (cbn in E0; by injection E0 as <-).
  assert (∃ n, Z.of_nat n = 2 ^ 30 - 1) as [n Hn] by (exists (Z.to_nat (2 ^ 30 - 1)); by rewrite Z2Nat.id).
  destruct (vain_pushes n c0 1 H0) as (c1 & E1 & H1); [done|lia|].
  destruct (vain_push_adds c1 _ H1) as (c2 & E2 & Hq & Hs).
  exists (start ++ concat (replicate n vain_push) ++ vain_push), c2.
  assert (conc_run dflt 1 (start ++ concat (replicate n vain_push) ++ vain_push) (conc_init dflt 1) =
    Some c2) as E by (by rewrite conc_run_app, E0; cbn [mbind option_bind]; rewrite conc_run_app, E1; cbn [mbind option_bind]).
  split; [done|]. split; [|split; [done|]].
  - assert (∀ sched c c', Forall (λ a, match a with RunConsumer => False | _ => True end) sched →
      conc_run dflt 1 sched c = Some c' → skips c' = skips c) as Hskip.
    { clear. induction sched as [|a sched IH]; intros c c' Hno; [by intros [= <-]|]. cbn [conc_run].
      apply Forall_cons in Hno as [Ha Hno]. destruct (conc_step dflt 1 a c) as [c1|] eqn:E; [|done]. cbn [mbind option_bind].
      intros Er. rewrite (IH _ _ Hno Er). destruct a; cbn [conc_step] in E; try done.
      - destruct (pc_of c k); try done. by injection E as <-.
      - destruct (prod_step _ _ _) as [[? ?] ?]. by injection E as <-.
      - destruct (consumer c); try done. by injection E as <-. }
    refine (Hskip _ _ _ _ E). rewrite !Forall_app. split_and!; [by repeat constructor| |by repeat constructor].
    apply Forall_concat, Forall_forall. intros l [-> _]%elem_of_replicate. by repeat constructor.
  - destruct H1 as (_ & _ & Hp & _). revert Hs. cbn [prod_step]. rewrite Hp. replace (1 + Z.of_nat n) with (2 ^ 30) by lia.
    by intros [? _].
Qed.
End wrap.
