(* ===== verification/Serializer.v ===== *)
(** * The message serialiser

    Models [core/message/BufferSerializer.hpp] (a 64 KB array with four
    pointers into it, here offsets) and the [Serializer] of
    [core/message/Serializer.hpp] on top of it.  The round trip of a framed
    message is proved against an abstract view of the buffer: the list of
    bytes between [data] and [tail]. *)

From S2P Require Export MachineInt.

Definition MESSAGE_MAX_DATA : Z := 65536.

(** [struct InternalBuffer]: the pointers are offsets into [buf]. *)
Record buffer := Buffer {
  buf : list Z;
  head : Z;
  data : Z;
  tail : Z;
  end_ : Z
}.

Definition set_buf (l : list Z) (b : buffer) : buffer := Buffer l (head b) (data b) (tail b) (end_ b).
Definition set_data (d : Z) (b : buffer) : buffer := Buffer (buf b) (head b) d (tail b) (end_ b).
Definition set_tail (t : Z) (b : buffer) : buffer := Buffer (buf b) (head b) (data b) t (end_ b).

(** Reading and writing memory at an offset of the array; outside of it, or
    for a negative length, the program's behaviour is undefined. *)
Definition splice (pos : nat) (bs l : list Z) : list Z :=
  take pos l ++ bs ++ drop (pos + length bs) l.

Definition store (pos : Z) (bs : list Z) : M buffer unit := λ b,
  if (0 <=? pos) && (pos + Z.of_nat (length bs) <=? Z.of_nat (length (buf b)))
  then (Ret tt, set_buf (splice (Z.to_nat pos) bs (buf b)) b)
  else (Throw (undefined_behaviour "write outside of the buffer"), b).

Definition load (pos n : Z) : M buffer (list Z) := λ b,
  if (0 <=? pos) && (0 <=? n) && (pos + n <=? Z.of_nat (length (buf b)))
  then (Ret (take (Z.to_nat n) (drop (Z.to_nat pos) (buf b))), b)
  else (Throw (undefined_behaviour "read outside of the buffer"), b).

(** [ntohll]: only the two halves are exchanged, not the bytes in them. *)
Definition ntohll (val : Z) : Z :=
  let a := Z.land val 4294967295 in
  let b := Z.land (Z.shiftr val 32) 4294967295 in
  s64 (Z.lor (s64 (Z.shiftl a 32)) b).
Definition htonll (val : Z) : Z := ntohll val.

Module BufferSerializer.

Definition reset : M buffer unit :=
  modify (λ b, Buffer (buf b) 0 0 0 MESSAGE_MAX_DATA).

Definition compact : M buffer unit :=
  b ← gets id;
  let len := s32 (tail b - data b) in
  moved ← load (data b) len;
  store (head b) moved;;
  modify (set_data (head b));;
  modify (set_tail (head b + len)).

Definition put (offset : Z) : M buffer unit :=
  b ← gets id;
  ensure (tail b + offset <=? end_ b) (assert_failure "bf.tail + offset <= bf.end");;
  modify (set_tail (tail b + offset)).

Definition consume (offset : Z) : M buffer unit :=
  b ← gets id;
  ensure (head b + offset <=? tail b) (assert_failure "bf.head + offset <= bf.tail");;
  modify (set_data (data b + offset)).

(** The common body of [put_int16], [put_int32] and [put_int64]: the word [w]
    of [n] bytes is stored as the machine does, low byte first. *)
Definition put_word (n : nat) (w : Z) : M buffer unit :=
  b ← gets id;
  ensure (tail b + Z.of_nat n <=? end_ b) (assert_failure "bf.tail + n <= bf.end");;
  store (tail b) (le_bytes n w);;
  modify (set_tail (tail b + Z.of_nat n)).

Definition put_int32 (val : Z) : M buffer unit := put_word 4 (htonl (u32 val)).
Definition put_int64 (val : Z) : M buffer unit := put_word 8 (u64 (htonll (s64 val))).
Definition put_int16 (val : Z) : M buffer unit := put_word 2 (htons (u16 val)).

(** [data_bytes] is what the caller's pointer designates: copying more than
    that, or a negative length, is undefined. *)
Definition put_raw_data (data_bytes : list Z) (data_len : Z) : M buffer unit :=
  b ← gets id;
  ensure (tail b + data_len <=? end_ b) (assert_failure "bf.tail + data_len <= bf.end");;
  ensure ((0 <=? data_len) && (data_len <=? Z.of_nat (length data_bytes)))
    (undefined_behaviour "memcpy out of the source");;
  store (tail b) (take (Z.to_nat data_len) data_bytes);;
  modify (set_tail (tail b + data_len)).

Definition put_data (data_bytes : list Z) (data_len : Z) : M buffer unit :=
  put_int16 data_len;;
  put_raw_data data_bytes data_len.

Definition consume_word (n : nat) : M buffer Z :=
  b ← gets id;
  ensure (data b + Z.of_nat n <=? tail b) (assert_failure "bf.data + n <= bf.tail");;
  tmp ← load (data b) (Z.of_nat n);
  modify (set_data (data b + Z.of_nat n));;
  mret (le_value tmp).

Definition consume_int32 : M buffer Z := w ← consume_word 4; mret (s32 (ntohl w)).
Definition consume_int64 : M buffer Z := w ← consume_word 8; mret (ntohll (s64 w)).
Definition consume_int16 : M buffer Z := w ← consume_word 2; mret (s16 (ntohs w)).

(** The bytes copied to the caller's [data_buffer]. *)
Definition consume_raw_data (data_len : Z) : M buffer (list Z) :=
  b ← gets id;
  ensure (data b + data_len <=? tail b) (assert_failure "bf.data + data_len <= bf.tail");;
  bs ← load (data b) data_len;
  modify (set_data (data b + data_len));;
  mret bs.

Definition consume_all_data (max_data_len : Z) : M buffer (Z * list Z) :=
  data_raw_len ← consume_int16;
  ensure (data_raw_len <=? max_data_len) (assert_failure "data_raw_len <= max_data_len");;
  bs ← consume_raw_data data_raw_len;
  mret (data_raw_len, bs).

(** A negative length converts to a huge [size_t], which [std::string]
    refuses; a positive one is not compared with [tail]. *)
Definition consume_all_data_into_string : M buffer (list Z) :=
  data_raw_len ← consume_int16;
  b ← gets id;
  ensure (0 <=? data_raw_len) (logic_error "length_error");;
  str ← load (data b) data_raw_len;
  modify (set_data (data b + data_raw_len));;
  mret str.

Definition set_int16 (val offset : Z) : M buffer unit :=
  b ← gets id;
  let len := s32 (tail b - data b) in
  ensure ((0 <=? offset) && (offset + 2 <=? len))
    (assert_failure "offset >= 0 && offset + 2 <= len");;
  store (data b + offset) (le_bytes 2 (htons (u16 val))).

Definition get_int16 (offset : Z) : M buffer Z :=
  b ← gets id;
  let len := s32 (tail b - data b) in
  ensure ((0 <=? offset) && (offset + 2 <=? len))
    (assert_failure "offset >= 0 && offset + 2 <= len");;
  tmp ← load (data b + offset) 2;
  mret (s16 (ntohs (le_value tmp))).

Definition len : M buffer Z := gets (λ b, s32 (tail b - data b)).

End BufferSerializer.

Module Serializer.
Import BufferSerializer.

Definition reset : M buffer unit := BufferSerializer.reset;; put 2.
Definition empty : M buffer unit := BufferSerializer.reset.
Definition add_int16 (value : Z) : M buffer unit := put_int16 value.
Definition consume (offset : Z) : M buffer unit := BufferSerializer.consume offset.
Definition read_int16 : M buffer Z := BufferSerializer.get_int16 0.
Definition get_int16 : M buffer Z := consume_int16.
Definition add_int32 (value : Z) : M buffer unit := put_int32 value.
Definition get_int32 : M buffer Z := consume_int32.
Definition add_int64 (value : Z) : M buffer unit := put_int64 value.
Definition get_int64 : M buffer Z := consume_int64.
Definition add_data (bytes : list Z) (datalen : Z) : M buffer unit := put_data bytes datalen.
Definition get_data (dstbuffer_maxlen : Z) : M buffer (Z * list Z) :=
  consume_all_data dstbuffer_maxlen.
Definition get_string : M buffer (list Z) := consume_all_data_into_string.
Definition get_len : M buffer Z := BufferSerializer.len.

(** The bytes at the pointer handed out and the length returned. *)
Definition finalize : M buffer (list Z * Z) :=
  n ← BufferSerializer.len;
  BufferSerializer.set_int16 n 0;;
  b ← gets id;
  n ← BufferSerializer.len;
  mret (drop (Z.to_nat (data b)) (buf b), n).

Definition next : M buffer unit := compact.
Definition add_raw_data (data_bytes : list Z) (data_len : Z) : M buffer unit :=
  put_raw_data data_bytes data_len.

(** The constructor, on memory that holds [junk]. *)
Definition construct (junk : list Z) : outcome unit * buffer := reset (Buffer junk 0 0 0 0).

End Serializer.

(** ** The abstract view: the bytes between [data] and [tail] *)

Record holds (b : buffer) (bs : list Z) : Prop := {
  holds_split : ∃ pre post, buf b = pre ++ bs ++ post ∧ data b = Z.of_nat (length pre);
  holds_tail : tail b = data b + Z.of_nat (length bs);
  holds_end : end_ b = MESSAGE_MAX_DATA;
  holds_size : length (buf b) = Z.to_nat MESSAGE_MAX_DATA;
  holds_zero : head b = 0
}.

Lemma holds_room b bs : holds b bs → 0 ≤ data b ∧ data b ≤ tail b ≤ MESSAGE_MAX_DATA.
Proof.
  intros [(pre & post & Hb & Hd) Ht _ Hs _]. rewrite Hb, !length_app in Hs.
  unfold MESSAGE_MAX_DATA in *. lia.
Qed.

Lemma holds_len b bs : holds b bs → s32 (tail b - data b) = Z.of_nat (length bs).
Proof.
  intros HI. pose proof (holds_room _ _ HI). rewrite (holds_tail _ _ HI) in *.
  unfold MESSAGE_MAX_DATA in *. replace (data b + Z.of_nat (length bs) - data b) with (Z.of_nat (length bs)) by lia.
  apply to_signed_id; lia.
Qed.

Lemma length_splice pos bs l :
  (pos + length bs ≤ length l)%nat → length (splice pos bs l) = length l.
Proof. intros. unfold splice. rewrite !length_app, length_take, length_drop. lia. Qed.

Lemma splice_app pre old new post :
  length old = length new →
  splice (length pre) new (pre ++ old ++ post) = pre ++ new ++ post.
Proof.
  intros E. unfold splice. rewrite take_app_length. f_equal. f_equal.
  rewrite app_assoc, drop_app_length'; [done|]. rewrite length_app. lia.
Qed.

(** Storing past the contents and moving [tail] appends. *)
Lemma append_holds b bs new :
  holds b bs → tail b + Z.of_nat (length new) ≤ MESSAGE_MAX_DATA →
  ∃ b1, store (tail b) new b = (Ret tt, b1) ∧
        holds (set_tail (tail b + Z.of_nat (length new)) b1) (bs ++ new) ∧
        data b1 = data b.
Proof.
  intros HI Hroom. pose proof (holds_room _ _ HI) as Hr.
  destruct HI as [(pre & post & Hb & Hd) Ht He Hs H0].
  assert (length new ≤ length post)%nat as Hp.
  { rewrite Hb, !length_app in Hs. unfold MESSAGE_MAX_DATA in *. lia. }
  unfold store. rewrite Hs. unfold MESSAGE_MAX_DATA in *.
  replace ((0 <=? tail b) && (tail b + Z.of_nat (length new) <=? Z.of_nat (Z.to_nat 65536)))
    with true by (destruct_cmp; lia || done).
  eexists. split; [done|]. split; [|done]. split; simpl; try done.
  - exists pre, (drop (length new) post). split; [|done].
    replace (Z.to_nat (tail b)) with (length (pre ++ bs)) by (rewrite length_app; lia).
    rewrite Hb, <- (take_drop (length new) post) at 1. rewrite app_assoc, splice_app.
    + by rewrite <- !app_assoc.
    + rewrite length_take. lia.
  - rewrite length_app. lia.
  - unfold MESSAGE_MAX_DATA. rewrite length_splice; [lia|]. lia.
Qed.

(** Loading the first bytes of the contents and moving [data] takes them off. *)
Lemma take_holds b x bs :
  holds b (x ++ bs) →
  load (data b) (Z.of_nat (length x)) b = (Ret x, b) ∧
  holds (set_data (data b + Z.of_nat (length x)) b) bs ∧
  data b + Z.of_nat (length x) ≤ tail b.
Proof.
  intros HI. pose proof (holds_room _ _ HI) as Hr.
  destruct HI as [(pre & post & Hb & Hd) Ht He Hs H0]. rewrite length_app in Ht.
  split_and!; [| |lia].
  - unfold load. rewrite Hs. unfold MESSAGE_MAX_DATA in *.
    replace (_ && _ && _) with true by (symmetry; rewrite !andb_true_iff, !Z.leb_le; lia).
    rewrite Hb, Hd, !Nat2Z.id, drop_app_length, <- app_assoc, take_app_length. done.
  - split; simpl; try done; try lia.
    exists (pre ++ x), post. rewrite Hb, length_app, <- !app_assoc. split; [done|lia].
Qed.

Lemma store_same b x y bs :
  holds b (x ++ bs) → length y = length x →
  ∃ b', store (data b) y b = (Ret tt, b') ∧ holds b' (y ++ bs).
Proof.
  intros HI El. pose proof (holds_room _ _ HI) as Hr.
  destruct HI as [(pre & post & Hb & Hd) Ht He Hs H0]. rewrite length_app in Ht.
  unfold store. rewrite Hs. unfold MESSAGE_MAX_DATA in *.
  replace (_ && _) with true by (symmetry; rewrite !andb_true_iff, !Z.leb_le; lia).
  eexists. split; [done|]. rewrite Hd, Nat2Z.id in *.
  assert (splice (length pre) y (buf b) = pre ++ (y ++ bs) ++ post) as E.
  { rewrite Hb, <- !app_assoc. by apply splice_app. }
  split; simpl; rewrite ?length_app; try done; try lia.
  - exists pre, post. split; [done|lia].
  - rewrite length_splice; [done|]. unfold MESSAGE_MAX_DATA in *. lia.
Qed.

(** ** The operations on the abstract view *)

Lemma put_word_holds n w b bs :
  holds b bs → tail b + Z.of_nat n ≤ MESSAGE_MAX_DATA →
  ∃ b', BufferSerializer.put_word n w b = (Ret tt, b') ∧
        holds b' (bs ++ le_bytes n w) ∧ data b' = data b.
Proof.
  intros HI Hroom.
  destruct (append_holds b bs (le_bytes n w) HI) as (b1 & Hst & HI1 & Hd).
  { by rewrite length_le_bytes. }
  rewrite length_le_bytes in HI1. eexists. split; [|split; [exact HI1|exact Hd]].
  unfold BufferSerializer.put_word. run_m. rewrite (holds_end _ _ HI).
  rewrite (proj2 (Z.leb_le _ _) Hroom). cbn beta iota.
  by rewrite Hst.
Qed.

Lemma put_word_full n w b bs :
  holds b bs → MESSAGE_MAX_DATA < tail b + Z.of_nat n →
  BufferSerializer.put_word n w b = (Throw (assert_failure "bf.tail + n <= bf.end"), b).
Proof.
  intros HI Hroom. unfold BufferSerializer.put_word. run_m. rewrite (holds_end _ _ HI).
  by rewrite (proj2 (Z.leb_gt _ _) Hroom).
Qed.

Lemma consume_word_holds n w b bs :
  0 ≤ w < 2 ^ (8 * Z.of_nat n) → holds b (le_bytes n w ++ bs) →
  ∃ b', BufferSerializer.consume_word n b = (Ret w, b') ∧ holds b' bs.
Proof.
  intros Hw HI. destruct (take_holds _ _ _ HI) as (Hl & HI' & Hle).
  rewrite length_le_bytes in *. eexists. split; [|exact HI'].
  unfold BufferSerializer.consume_word. run_m.
  rewrite (proj2 (Z.leb_le _ _) Hle). cbn beta iota. rewrite Hl. cbn beta iota. rewrite le_value_le_bytes_small by done. done.
Qed.

Lemma put_raw_data_holds l b bs :
  holds b bs → tail b + Z.of_nat (length l) ≤ MESSAGE_MAX_DATA →
  ∃ b', BufferSerializer.put_raw_data l (Z.of_nat (length l)) b = (Ret tt, b') ∧
        holds b' (bs ++ l) ∧ data b' = data b.
Proof.
  intros HI Hroom. destruct (append_holds b bs l HI Hroom) as (b1 & Hst & HI1 & Hd).
  eexists. split; [|split; [exact HI1|exact Hd]].
  unfold BufferSerializer.put_raw_data. run_m. rewrite (holds_end _ _ HI).
  rewrite (proj2 (Z.leb_le _ _) Hroom), Nat2Z.id, firstn_all.
  replace (_ && _) with true by (symmetry; rewrite andb_true_iff, !Z.leb_le; lia).
  cbn beta iota.
  by rewrite Hst.
Qed.

(** The words as they come back. *)
Lemma bswap_range_n n z m : m = 2 ^ (8 * Z.of_nat n) → 0 ≤ bswap n z < m.
Proof. intros ->. apply bswap_range. Qed.

Lemma int32_back v : - 2 ^ 31 ≤ v < 2 ^ 31 → s32 (ntohl (htonl (u32 v))) = v.
Proof.
  intros Hv. unfold ntohl, htonl. rewrite bswap_bswap.
  change (2 ^ (8 * Z.of_nat 4)) with (2 ^ 32). unfold u32, s32.
  rewrite !to_signed_of_mod. by apply to_signed_id.
Qed.

Lemma int16_back v : - 2 ^ 15 ≤ v < 2 ^ 15 → s16 (ntohs (htons (u16 v))) = v.
Proof.
  intros Hv. unfold ntohs, htons. rewrite bswap_bswap.
  change (2 ^ (8 * Z.of_nat 2)) with (2 ^ 16). unfold u16, s16.
  rewrite !to_signed_of_mod. by apply to_signed_id.
Qed.

Lemma lor_halves a b : 0 ≤ b < 2 ^ 32 → Z.lor (Z.shiftl a 32) b = a * 2 ^ 32 + b.
Proof.
  intros Hb. rewrite <- Z.shiftl_mul_pow2 by lia.
  assert (Z.land (Z.shiftl a 32) b = 0) as E.
  { apply Z.bits_inj'. intros n Hn. rewrite Z.land_spec, Z.shiftl_spec, Z.bits_0 by done.
    destruct (Z.lt_ge_cases n 32).
    - by rewrite Z.testbit_neg_r by lia.
    - rewrite <- (Z.mod_small b (2 ^ 32)) by done.
      rewrite Z.mod_pow2_bits_high by lia. apply andb_false_r. }
  pose proof (Z.add_lor_land (Z.shiftl a 32) b). lia.
Qed.

Lemma ntohll_halves v :
  ntohll v = s64 ((v `mod` 2 ^ 32) * 2 ^ 32 + (v / 2 ^ 32) `mod` 2 ^ 32).
Proof.
  unfold ntohll. change 4294967295 with (Z.ones 32).
  rewrite !Z.land_ones, Z.shiftr_div_pow2 by lia.
  unfold s64. rewrite <- (to_signed_of_mod 64 (Z.lor _ _)).
  rewrite <- Z.land_ones, Z.land_lor_distr_l, !Z.land_ones by lia.
  rewrite to_signed_mod by lia.
  rewrite <- !Z.land_ones, <- Z.land_lor_distr_l, !Z.land_ones by lia.
  rewrite to_signed_of_mod. f_equal. apply lor_halves, Z.mod_pos_bound. lia.
Qed.

Lemma int64_back v : - 2 ^ 63 ≤ v < 2 ^ 63 → ntohll (s64 (u64 (htonll (s64 v)))) = v.
Proof.
  intros Hv. unfold htonll. replace (s64 v) with v by (symmetry; apply to_signed_id; lia).
  rewrite (ntohll_halves v). set (m := v `mod` 2 ^ 64).
  assert (0 ≤ m < 2 ^ 64) as Hm by (apply Z.mod_pos_bound; lia).
  assert (v `mod` 2 ^ 32 = m `mod` 2 ^ 32 ∧ (v / 2 ^ 32) `mod` 2 ^ 32 = m / 2 ^ 32) as [E1 E2].
  { unfold m. Z.to_euclidean_division_equations. lia. }
  rewrite E1, E2. set (lo := m `mod` 2 ^ 32). set (hi := m / 2 ^ 32).
  assert (0 ≤ lo < 2 ^ 32 ∧ 0 ≤ hi < 2 ^ 32 ∧ m = hi * 2 ^ 32 + lo) as (Hlo & Hhi & Em).
  { unfold lo, hi. pose proof (Z.div_mod m (2 ^ 32)). pose proof (Z.mod_pos_bound m (2 ^ 32)).
    Z.to_euclidean_division_equations. lia. }
  unfold u64, s64. rewrite to_signed_of_mod. rewrite (to_signed_id 64 (to_signed 64 _))
    by first [lia | apply to_signed_range; lia].
  rewrite ntohll_halves.
  assert (∃ k, to_signed 64 (lo * 2 ^ 32 + hi) = lo * 2 ^ 32 + hi + k * 2 ^ 64) as [k ->].
  { pose proof (to_signed_mod 64 (lo * 2 ^ 32 + hi) ltac:(lia)) as E.
    exists ((to_signed 64 (lo * 2 ^ 32 + hi) - (lo * 2 ^ 32 + hi)) / 2 ^ 64).
    Z.to_euclidean_division_equations. lia. }
  replace (lo * 2 ^ 32 + hi + k * 2 ^ 64) with (hi + (lo + k * 2 ^ 32) * 2 ^ 32) by lia.
  rewrite Z.mod_add, Z.div_add, Z.mod_small, Z.div_small by lia.
  rewrite Z.add_0_l, Z.mod_add, Z.mod_small by lia.
  rewrite <- Em. unfold m, s64. rewrite to_signed_of_mod. by apply to_signed_id.
Qed.

(** ** Framed messages *)

(** A field as the message formats use it, and how it is read back: a byte
    array either as a string or into an array of a given size. *)
Inductive field :=
| Int16 (v : Z)
| Int32 (v : Z)
| Int64 (v : Z)
| Data (bytes : list Z).
Inductive reader := RInt16 | RInt32 | RInt64 | RString | RData (max_len : Z).

Definition add_field (f : field) : M buffer unit :=
  match f with
  | Int16 v => Serializer.add_int16 v
  | Int32 v => Serializer.add_int32 v
  | Int64 v => Serializer.add_int64 v
  | Data bs => Serializer.add_data bs (Z.of_nat (length bs))
  end.
Definition get_field (r : reader) : M buffer field :=
  match r with
  | RInt16 => v ← Serializer.get_int16; mret (Int16 v)
  | RInt32 => v ← Serializer.get_int32; mret (Int32 v)
  | RInt64 => v ← Serializer.get_int64; mret (Int64 v)
  | RString => s ← Serializer.get_string; mret (Data s)
  | RData max_len => '(_, bs) ← Serializer.get_data max_len; mret (Data bs)
  end.

Fixpoint add_fields (fs : list field) : M buffer unit :=
  match fs with
  | [] => mret tt
  | f :: fs => add_field f;; add_fields fs
  end.
Fixpoint get_fields (rs : list reader) : M buffer (list field) :=
  match rs with
  | [] => mret []
  | r :: rs => f ← get_field r; fs ← get_fields rs; mret (f :: fs)
  end.

(** What the field occupies, and when a reader gives it back. *)
Definition enc (f : field) : list Z :=
  match f with
  | Int16 v => le_bytes 2 (htons (u16 v))
  | Int32 v => le_bytes 4 (htonl (u32 v))
  | Int64 v => le_bytes 8 (u64 (htonll (s64 v)))
  | Data bs => le_bytes 2 (htons (u16 (Z.of_nat (length bs)))) ++ bs
  end.
Definition reads (r : reader) (f : field) : Prop :=
  match r, f with
  | RInt16, Int16 v => - 2 ^ 15 ≤ v < 2 ^ 15
  | RInt32, Int32 v => - 2 ^ 31 ≤ v < 2 ^ 31
  | RInt64, Int64 v => - 2 ^ 63 ≤ v < 2 ^ 63
  | RString, Data bs => Z.of_nat (length bs) < 2 ^ 15
  | RData m, Data bs => Z.of_nat (length bs) < 2 ^ 15 ∧ Z.of_nat (length bs) ≤ m
  | _, _ => False
  end.

Lemma length_enc_data bs : length (enc (Data bs)) = (2 + length bs)%nat.
Proof. cbn [enc]. by rewrite length_app, length_le_bytes. Qed.

Lemma add_field_holds f b bs :
  holds b bs → tail b + Z.of_nat (length (enc f)) ≤ MESSAGE_MAX_DATA →
  ∃ b', add_field f b = (Ret tt, b') ∧ holds b' (bs ++ enc f) ∧ data b' = data b.
Proof.
  intros HI Hroom. destruct f as [v|v|v|l].
  1-3: apply put_word_holds; [done|]; cbn [enc] in Hroom; by rewrite length_le_bytes in Hroom.
  rewrite length_enc_data in Hroom.
  destruct (put_word_holds 2 (htons (u16 (Z.of_nat (length l)))) b bs HI)
    as (b1 & E1 & HI1 & Hd1); [lia|].
  destruct (put_raw_data_holds l b1 _ HI1) as (b2 & E2 & HI2 & Hd2).
  { rewrite (holds_tail _ _ HI1), Hd1, length_app, length_le_bytes.
    rewrite (holds_tail _ _ HI) in Hroom. lia. }
  rewrite <- app_assoc in HI2. exists b2. split_and!; [|exact HI2|congruence].
  cbn [add_field]. unfold Serializer.add_data, BufferSerializer.put_data.
  erewrite bind_Ret by exact E1. exact E2.
Qed.

Lemma add_fields_holds fs b bs :
  holds b bs →
  tail b + Z.of_nat (length (concat (map enc fs))) ≤ MESSAGE_MAX_DATA →
  ∃ b', add_fields fs b = (Ret tt, b') ∧ holds b' (bs ++ concat (map enc fs)) ∧ data b' = data b.
Proof.
  revert b bs. induction fs as [|f fs IH]; intros b bs HI Hroom; cbn [add_fields map concat] in *.
  { exists b. by rewrite app_nil_r. }
  rewrite length_app in Hroom.
  destruct (add_field_holds f b bs HI) as (b1 & E1 & HI1 & Hd1); [lia|].
  destruct (IH b1 _ HI1) as (b2 & E2 & HI2 & Hd2).
  { rewrite (holds_tail _ _ HI1), Hd1, length_app. rewrite (holds_tail _ _ HI) in Hroom. lia. }
  exists b2. split_and!; [|by rewrite app_assoc|congruence].
  erewrite bind_Ret by exact E1. exact E2.
Qed.

Lemma get_len_prefix l b bs :
  Z.of_nat (length l) < 2 ^ 15 → holds b (enc (Data l) ++ bs) →
  ∃ b', BufferSerializer.consume_int16 b = (Ret (Z.of_nat (length l)), b') ∧ holds b' (l ++ bs).
Proof.
  intros Hl HI. cbn [enc] in HI. rewrite <- app_assoc in HI.
  apply consume_word_holds in HI as (b1 & E1 & HI1); [|by apply bswap_range_n].
  exists b1. split; [|done]. unfold BufferSerializer.consume_int16.
  erewrite bind_Ret by exact E1. run_m. by rewrite int16_back by lia.
Qed.

Lemma get_field_holds r f b bs :
  reads r f → holds b (enc f ++ bs) →
  ∃ b', get_field r b = (Ret f, b') ∧ holds b' bs.
Proof.
  intros Hr HI. destruct r, f as [v|v|v|l]; try done; cbn [reads] in Hr.
  - apply consume_word_holds in HI as (b1 & E1 & HI1); [|by apply bswap_range_n].
    exists b1. split; [|done]. cbn [get_field]. unfold Serializer.get_int16, BufferSerializer.consume_int16.
    run_m. rewrite E1. by rewrite int16_back.
  - apply consume_word_holds in HI as (b1 & E1 & HI1); [|by apply bswap_range_n].
    exists b1. split; [|done]. cbn [get_field]. unfold Serializer.get_int32, BufferSerializer.consume_int32.
    run_m. rewrite E1. by rewrite int32_back.
  - apply consume_word_holds in HI as (b1 & E1 & HI1); [|apply u64_range].
    exists b1. split; [|done]. cbn [get_field]. unfold Serializer.get_int64, BufferSerializer.consume_int64.
    run_m. rewrite E1. by rewrite int64_back.
  - destruct (get_len_prefix l b bs Hr HI) as (b1 & E1 & HI1).
    destruct (take_holds _ _ _ HI1) as (El & HI2 & _).
    eexists. split; [|exact HI2]. cbn [get_field].
    unfold Serializer.get_string, BufferSerializer.consume_all_data_into_string.
    run_m. rewrite E1. rewrite (proj2 (Z.leb_le _ _)) by lia. cbn beta iota. by rewrite El.
  - destruct Hr as [Hr Hm]. destruct (get_len_prefix l b bs Hr HI) as (b1 & E1 & HI1).
    destruct (take_holds _ _ _ HI1) as (El & HI2 & Hle).
    eexists. split; [|exact HI2]. cbn [get_field].
    unfold Serializer.get_data, BufferSerializer.consume_all_data, BufferSerializer.consume_raw_data.
    run_m. rewrite E1. rewrite (proj2 (Z.leb_le _ max_len)) by lia. cbn beta iota.
    rewrite (proj2 (Z.leb_le _ (tail b1))) by lia. cbn beta iota. by rewrite El.
Qed.

Lemma get_fields_holds rs fs b bs :
  Forall2 reads rs fs → holds b (concat (map enc fs) ++ bs) →
  ∃ b', get_fields rs b = (Ret fs, b') ∧ holds b' bs.
Proof.
  intros Hr. revert b. induction Hr as [|r f rs fs Hrf _ IH]; intros b HI; cbn [map concat get_fields] in *.
  { by exists b. }
  rewrite <- app_assoc in HI. destruct (get_field_holds _ _ _ _ Hrf HI) as (b1 & E1 & HI1).
  destruct (IH _ HI1) as (b2 & E2 & HI2). exists b2. split; [|done].
  erewrite bind_Ret by exact E1. erewrite bind_Ret by exact E2. done.
Qed.

Lemma reset_holds b :
  length (buf b) = Z.to_nat MESSAGE_MAX_DATA →
  ∃ b' x, Serializer.reset b = (Ret tt, b') ∧ holds b' x ∧ length x = 2%nat ∧ tail b' = 2.
Proof.
  intros Hl. exists (Buffer (buf b) 0 0 2 MESSAGE_MAX_DATA), (take 2 (buf b)).
  assert (length (take 2 (buf b)) = 2%nat) as E.
  { rewrite length_take, Hl. unfold MESSAGE_MAX_DATA. lia. }
  split_and!; [done| |done|done]. split; simpl; try done.
  - exists [], (drop 2 (buf b)). split; [|done]. simpl. by rewrite take_drop.
  - rewrite E. done.
Qed.

Lemma finalize_holds b x bs :
  holds b (x ++ bs) → length x = 2%nat →
  ∃ b' mem, Serializer.finalize b = (Ret (mem, Z.of_nat (length (x ++ bs))), b') ∧
    holds b' (le_bytes 2 (htons (u16 (Z.of_nat (length (x ++ bs))))) ++ bs).
Proof.
  intros HI Hx. set (w := htons _).
  destruct (store_same b x (le_bytes 2 w) bs HI) as (b' & E & HI'); [by rewrite length_le_bytes|].
  pose proof (holds_len _ _ HI) as El. pose proof (holds_len _ _ HI') as El'.
  rewrite length_app, length_le_bytes, <- Hx, <- length_app in El'.
  eexists b', _. split; [|exact HI'].
  unfold Serializer.finalize, BufferSerializer.len, BufferSerializer.set_int16.
  run_m. rewrite El. fold w.
  replace (_ && _) with true
    by (symmetry; rewrite andb_true_iff, !Z.leb_le, length_app; lia).
  cbn beta iota. rewrite Z.add_0_r, E. cbn beta iota. rewrite El'. done.
Qed.

Lemma read_int16_holds n b bs :
  holds b (le_bytes 2 (htons (u16 n)) ++ bs) → Serializer.read_int16 b = (Ret (s16 n), b).
Proof.
  intros HI. pose proof (holds_len _ _ HI) as El.
  destruct (take_holds _ _ _ HI) as (E & _ & _). rewrite length_le_bytes in E.
  rewrite length_app, length_le_bytes in El.
  unfold Serializer.read_int16, BufferSerializer.get_int16. run_m. rewrite El.
  replace (_ && _) with true by (symmetry; rewrite andb_true_iff, !Z.leb_le; lia).
  cbn beta iota. rewrite Z.add_0_r. change 2 with (Z.of_nat 2). rewrite E. cbn beta iota.
  rewrite le_value_le_bytes_small by (by apply bswap_range_n).
  unfold ntohs, htons. rewrite bswap_bswap.
  change (2 ^ (8 * Z.of_nat 2)) with (2 ^ 16). unfold u16, s16. by rewrite !to_signed_of_mod.
Qed.

Lemma consume_holds b x bs :
  holds b (x ++ bs) →
  ∃ b', Serializer.consume (Z.of_nat (length x)) b = (Ret tt, b') ∧ holds b' bs.
Proof.
  intros HI. destruct (take_holds _ _ _ HI) as (_ & HI' & Hle).
  eexists. split; [|exact HI'].
  unfold Serializer.consume, BufferSerializer.consume. run_m.
  pose proof (holds_room _ _ HI). rewrite (holds_zero _ _ HI).
  by rewrite (proj2 (Z.leb_le _ _)) by lia.
Qed.

Lemma compact_holds b bs :
  holds b bs → ∃ b', Serializer.next b = (Ret tt, b') ∧ holds b' bs ∧ data b' = 0.
Proof.
  intros HI. pose proof (holds_len _ _ HI) as El. pose proof (holds_room _ _ HI) as Hr.
  destruct (take_holds b bs []) as (E & _ & _); [by rewrite app_nil_r|].
  destruct HI as [(pre & post & Hb & Hd) Ht He Hs H0].
  assert (length (splice 0 bs (buf b)) = length (buf b)) as Esp.
  { apply length_splice. rewrite Hb, !length_app. lia. }
  exists (Buffer (splice 0 bs (buf b)) 0 0 (Z.of_nat (length bs)) MESSAGE_MAX_DATA).
  split_and!; [| |done].
  - unfold Serializer.next, BufferSerializer.compact. run_m. rewrite El, E. cbn beta iota.
    unfold store. rewrite H0.
    replace (_ && _) with true
      by (symmetry; rewrite andb_true_iff, !Z.leb_le, Hb, !length_app; lia).
    unfold set_tail, set_data, set_buf. simpl. by rewrite H0, He.
  - split; simpl; try done; [|congruence].
    exists [], (drop (length bs) (buf b)). done.
Qed.

(** An array of zeros of which the first [k] bytes are in use. *)
Definition zeros_buffer (k : nat) : buffer :=
  Buffer (replicate k 0 ++ replicate (Z.to_nat MESSAGE_MAX_DATA - k) 0) 0 0
    (Z.of_nat (length (replicate k 0))) MESSAGE_MAX_DATA.

Lemma array_holds pre post :
  length (pre ++ post) = Z.to_nat MESSAGE_MAX_DATA →
  holds (Buffer (pre ++ post) 0 0 (Z.of_nat (length pre)) MESSAGE_MAX_DATA) pre.
Proof. intros Hl. split; try done. by exists [], post. Qed.

Lemma zeros_buffer_holds k :
  (k ≤ Z.to_nat MESSAGE_MAX_DATA)%nat → holds (zeros_buffer k) (replicate k 0).
Proof.
  intros Hk. apply array_holds. rewrite length_app, !length_replicate. lia.
Qed.

(** One message through the serialiser: the sender's [reset], the fields and
    [finalize]; the receiver reads the length, skips it and reads the fields.
    The results are the length returned, the length read, the fields and what
    is left. *)
Definition exchange_message (fs : list field) (rs : list reader) :
    M buffer (Z * Z * list field * Z) :=
  Serializer.reset;;
  add_fields fs;;
  '(_, n) ← Serializer.finalize;
  h ← Serializer.read_int16;
  Serializer.consume 2;;
  l ← get_fields rs;
  r ← Serializer.get_len;
  mret (n, h, l, r).

(** ** Properties *)

(** C3: a framed message survives the serialiser.  Whatever the memory held,
    when the fields fit in the 64 KB and each reader matches its field, the
    receiver gets the fields that were added, nothing is left, [finalize]
    returns the length of header and fields and the header carries that
    length, truncated to a signed 16-bit integer. *)
Theorem serializer_roundtrip b fs rs :
  length (buf b) = Z.to_nat MESSAGE_MAX_DATA →
  Forall2 reads rs fs →
  let total := 2 + Z.of_nat (length (concat (map enc fs))) in
  total ≤ MESSAGE_MAX_DATA →
  (exchange_message fs rs b).1 = Ret (total, s16 total, fs, 0).
Proof.
  intros Hl Hrs total Htot.
  destruct (reset_holds b Hl) as (b0 & x & E0 & HI0 & Hx & Ht0).
  destruct (add_fields_holds fs b0 x HI0) as (b1 & E1 & HI1 & _); [lia|].
  destruct (finalize_holds b1 x _ HI1 Hx) as (b2 & mem & E2 & HI2).
  assert (Z.of_nat (length (x ++ concat (map enc fs))) = total) as Et.
  { rewrite length_app, Hx. lia. }
  rewrite Et in E2, HI2.
  pose proof (read_int16_holds _ _ _ HI2) as E3.
  destruct (consume_holds _ _ _ HI2) as (b4 & E4 & HI4). rewrite length_le_bytes in E4.
  destruct (get_fields_holds rs fs b4 [] Hrs) as (b5 & E5 & HI5); [by rewrite app_nil_r|].
  unfold exchange_message.
  do 3 (erewrite bind_Ret by eassumption). cbn beta iota. do 3 (erewrite bind_Ret by eassumption).
  run_m. unfold Serializer.get_len, BufferSerializer.len. run_m.
  by rewrite (holds_len _ _ HI5).
Qed.

Lemma serializer_roundtrip_witness :
  (exchange_message [Int16 (-7); Int32 123456789; Data [104; 105]; Int64 (2 ^ 40 + 5); Data [1; 2; 3]]
     [RInt16; RInt32; RString; RInt64; RData 16] (Buffer (replicate (Z.to_nat 65536) 0) 0 0 0 0)).1
  = Ret (25, 25, [Int16 (-7); Int32 123456789; Data [104; 105]; Int64 (2 ^ 40 + 5); Data [1; 2; 3]], 0).
Proof.
  rewrite (serializer_roundtrip _ _ _); [vm_compute; reflexivity|..].
  - apply length_replicate.
  - repeat constructor; simpl; lia.
  - vm_compute. discriminate.
Defined.

(** C31: the bounds are kept by an assertion: a field that does not fit in the
    rest of the array makes [add_field] fail and leaves the bytes already
    written, readable, in place. *)
Theorem serializer_overflow b bs f :
  holds b bs → MESSAGE_MAX_DATA < tail b + Z.of_nat (length (enc f)) →
  ∃ what b', add_field f b = (Throw (assert_failure what), b') ∧
    ∃ more, holds b' (bs ++ more).
Proof.
  intros HI Hroom.
  assert (∀ n w, MESSAGE_MAX_DATA < tail b + Z.of_nat n →
    ∃ what b', BufferSerializer.put_word n w b = (Throw (assert_failure what), b') ∧
      ∃ more, holds b' (bs ++ more)) as Hfull.
  { intros n w Hn. eexists _, b. split; [by eapply put_word_full|].
    exists []. by rewrite app_nil_r. }
  destruct f as [v|v|v|l]; cbn [add_field enc] in *.
  1-3: apply Hfull; by rewrite length_le_bytes in Hroom.
  unfold Serializer.add_data, BufferSerializer.put_data.
  destruct (decide (tail b + 2 ≤ MESSAGE_MAX_DATA)) as [H2|H2].
  - rewrite length_app, length_le_bytes in Hroom.
    destruct (put_word_holds 2 (htons (u16 (Z.of_nat (length l)))) b bs HI)
      as (b1 & E1 & HI1 & Hd1); [lia|].
    eexists _, b1. split; [|by eexists].
    erewrite bind_Ret by exact E1. unfold BufferSerializer.put_raw_data. run_m.
    rewrite (holds_end _ _ HI1), (proj2 (Z.leb_gt _ _)); [done|].
    rewrite (holds_tail _ _ HI1), Hd1, length_app, length_le_bytes.
    rewrite (holds_tail _ _ HI) in Hroom. lia.
  - destruct (Hfull 2%nat (htons (u16 (Z.of_nat (length l))))) as (what & b' & E & HI'); [lia|].
    exists what, b'. split; [|done]. erewrite bind_Throw by exact E. done.
Qed.

Lemma serializer_overflow_witness :
  ∃ what b', add_field (Int32 1) (zeros_buffer (Z.to_nat 65534)) =
    (Throw (assert_failure what), b') ∧ ∃ more, holds b' (replicate (Z.to_nat 65534) 0 ++ more).
Proof.
  apply serializer_overflow.
  - apply zeros_buffer_holds. unfold MESSAGE_MAX_DATA. lia.
  - vm_compute. reflexivity.
Defined.

(** [put_data] takes any length that fits in the array, but the 16-bit
    length is read back signed: a byte array of 32768 bytes or more is
    accepted and cannot be read as a string any more, whose constructor gets a
    negative length. *)
Theorem serializer_long_data_unreadable b l :
  holds b [] → 2 ^ 15 ≤ Z.of_nat (length l) < 2 ^ 16 →
  tail b + 2 + Z.of_nat (length l) ≤ MESSAGE_MAX_DATA →
  ∃ b', Serializer.add_data l (Z.of_nat (length l)) b = (Ret tt, b') ∧
        (Serializer.get_string b').1 = Throw (logic_error "length_error").
Proof.
  intros HI Hl Hroom.
  destruct (add_field_holds (Data l) b [] HI) as (b1 & E1 & HI1 & _).
  { rewrite length_enc_data. lia. }
  exists b1. split; [exact E1|]. cbn [enc app] in HI1.
  apply consume_word_holds in HI1 as (b2 & E2 & HI2); [|by apply bswap_range_n].
  unfold Serializer.get_string, BufferSerializer.consume_all_data_into_string,
    BufferSerializer.consume_int16. run_m. rewrite E2.
  unfold ntohs, htons. rewrite bswap_bswap.
  assert (s16 (u16 (Z.of_nat (length l)) `mod` 2 ^ (8 * Z.of_nat 2)) = Z.of_nat (length l) - 2 ^ 16) as ->.
  { change (2 ^ (8 * Z.of_nat 2)) with (2 ^ 16). unfold s16, u16. rewrite !to_signed_of_mod.
    unfold to_signed. rewrite Z.mod_small by lia. destruct_cmp; lia. }
  by rewrite (proj2 (Z.leb_gt _ _)) by lia.
Qed.

Lemma serializer_long_data_unreadable_witness :
  ∃ b', Serializer.add_data (replicate (Z.to_nat 40000) 7)
      (Z.of_nat (length (replicate (Z.to_nat 40000) 7))) (zeros_buffer 0) = (Ret tt, b') ∧
    (Serializer.get_string b').1 = Throw (logic_error "length_error").
Proof.
  apply serializer_long_data_unreadable.
  - apply (zeros_buffer_holds 0). lia.
  - rewrite length_replicate. lia.
  - unfold zeros_buffer, MESSAGE_MAX_DATA. cbn [tail]. rewrite !length_replicate. lia.
Defined.
