(* ===== verification/Double.v ===== *)
(** * Double precision numbers

    The type [double] of the sources: IEEE 754 binary64 with rounding to nearest,
    as the Standard Library's executable specification of floating point
    arithmetic defines it.  A [float] of the sources is binary32. *)

From S2P Require Export MachineInt.
From Stdlib Require Export SpecFloat.

Definition double : Type := spec_float.

Definition dzero : double := S754_zero false.
Definition dnan : double := S754_nan.
Definition double_of_Z (z : Z) : double := binary_normalize 53 1024 z 0 false.
(** The number [z * 2 ^ e], rounded. *)
Definition double_of_dyadic (z e : Z) : double := binary_normalize 53 1024 z e false.

Definition dadd : double → double → double := SFadd 53 1024.
Definition dsub : double → double → double := SFsub 53 1024.
Definition dmul : double → double → double := SFmul 53 1024.
Definition ddiv : double → double → double := SFdiv 53 1024.
Definition dsqrt : double → double := SFsqrt 53 1024.
Definition dlt : double → double → bool := SFltb.
Definition dle : double → double → bool := SFleb.
Definition dgt (x y : double) : bool := dlt y x.
Definition dge (x y : double) : bool := dle y x.

#[export] Instance double_eq_dec : EqDecision double.
Proof. solve_decision. Defined.

(** [x + y] of two numbers as literals would have it. *)
Example double_tenths :
  dadd (ddiv (double_of_Z 1) (double_of_Z 10)) (ddiv (double_of_Z 2) (double_of_Z 10)) =
  double_of_dyadic 5404319552844596 (-54).
Proof. by vm_compute. Qed.

(** Nothing is above itself, and what is above zero is at least zero. *)
Lemma dle_refl_not_nan x : x ≠ dnan → dle x x = true.
Proof.
  unfold dle, SFleb, SFcompare. destruct x as [s|s| |s m e]; try done; try by destruct s.
  intros _. rewrite Z.compare_refl. unfold Pcompare. rewrite Pos.compare_cont_refl. by destruct s.
Qed.

Lemma dlt_zero_dle x : dlt dzero x = true → dle dzero x = true.
Proof. unfold dlt, dle, SFltb, SFleb. by destruct (SFcompare dzero x) as [[]|]. Qed.
