(* ===== verification/Sha1.v ===== *)
(** * The SHA-1 of the hash library

    Models the class [SHA1] of [lib/bloom/sha1.h] and [lib/bloom/sha1.cpp]: a
    message comes in pieces through [Input], is worked off in blocks of 64 bytes,
    and [Result] pads it.  The digest is proved to be that of the message as a
    whole, by the padding and block function of FIPS 180-1.

    [unsigned] has 32 bits, bytes are numbers.  The array [Message_Block] is a
    list of 64 bytes; storing outside is undefined. *)

From S2P Require Export MachineInt.

(** ** The object *)

Record sha1 := Sha1 {
  H : list Z;
  Length_Low : Z;
  Length_High : Z;
  Message_Block : list Z;
  Message_Block_Index : Z;
  Computed : bool;
  Corrupted : bool
}.

Definition H_init : list Z := [0x67452301; 0xEFCDAB89; 0x98BADCFE; 0x10325476; 0xC3D2E1F0].

Definition Reset (s : sha1) : sha1 := Sha1 H_init 0 0 (Message_Block s) 0 false false.

(** The constructor, on the bytes the array happens to hold. *)
Definition sha1_new (junk : list Z) : sha1 := Reset (Sha1 [] 0 0 junk 0 false false).

(** ** The block function *)

Definition CircularShift (bits word : Z) : Z :=
  Z.lor (u32 (Z.shiftl word bits)) (Z.shiftr word (32 - bits)).

Definition word_of (block : list Z) (t : nat) : Z :=
  let byte i := nth (t * 4 + i) block 0 in
  Z.lor (Z.lor (Z.lor (Z.shiftl (byte 0%nat) 24) (Z.shiftl (byte 1%nat) 16)) (Z.shiftl (byte 2%nat) 8)) (byte 3%nat).

(** [W[t]] for the next [n] values of [t]. *)
Fixpoint schedule (n : nat) (w : list Z) : list Z :=
  match n with
  | O => w
  | S n =>
      let t := length w in
      let x := Z.lxor (Z.lxor (Z.lxor (nth (t - 3) w 0) (nth (t - 8) w 0)) (nth (t - 14) w 0)) (nth (t - 16) w 0) in
      schedule n (w ++ [CircularShift 1 x])
  end.

Record registers := Registers { rA : Z; rB : Z; rC : Z; rD : Z; rE : Z }.

Definition unot (x : Z) : Z := u32 (Z.lnot x).
Definition f_ch (B C D : Z) : Z := Z.lor (Z.land B C) (Z.land (unot B) D).
Definition f_parity (B C D : Z) : Z := Z.lxor (Z.lxor B C) D.
Definition f_maj (B C D : Z) : Z := Z.lor (Z.lor (Z.land B C) (Z.land B D)) (Z.land C D).

Definition round (f : Z → Z → Z → Z) (K : Z) (r : registers) (w : Z) : registers :=
  let temp := u32 (CircularShift 5 (rA r) + f (rB r) (rC r) (rD r) + rE r + w + K) in
  Registers temp (rA r) (CircularShift 30 (rB r)) (rC r) (rD r).

Definition slice (from n : nat) (w : list Z) : list Z := take n (drop from w).

(** [ProcessMessageBlock] on the chaining values and a block. *)
Definition process_block (h block : list Z) : list Z :=
  let w := schedule 64 (word_of block <$> seq 0 16) in
  let r0 := Registers (nth 0 h 0) (nth 1 h 0) (nth 2 h 0) (nth 3 h 0) (nth 4 h 0) in
  let r1 := foldl (round f_ch 0x5A827999) r0 (slice 0 20 w) in
  let r2 := foldl (round f_parity 0x6ED9EBA1) r1 (slice 20 20 w) in
  let r3 := foldl (round f_maj 0x8F1BBCDC) r2 (slice 40 20 w) in
  let r4 := foldl (round f_parity 0xCA62C1D6) r3 (slice 60 20 w) in
  [u32 (nth 0 h 0 + rA r4); u32 (nth 1 h 0 + rB r4); u32 (nth 2 h 0 + rC r4); u32 (nth 3 h 0 + rD r4);
   u32 (nth 4 h 0 + rE r4)].

Definition ProcessMessageBlock : M sha1 unit :=
  modify (λ s, Sha1 (process_block (H s) (Message_Block s)) (Length_Low s) (Length_High s) (Message_Block s) 0
    (Computed s) (Corrupted s)).

(** ** Input *)

(** [Message_Block[Message_Block_Index++] = b;] *)
Definition store_byte (b : Z) : M sha1 unit :=
  s ← gets id;
  let i := Message_Block_Index s in
  ensure ((0 <=? i) && (i <? Z.of_nat (length (Message_Block s)))) (undefined_behaviour "Message_Block");;
  modify (λ s, Sha1 (H s) (Length_Low s) (Length_High s) (<[Z.to_nat i := b]> (Message_Block s)) (i + 1)
    (Computed s) (Corrupted s)).

Definition add_length (s : sha1) : sha1 :=
  let low := u32 (Length_Low s + 8) in
  let high := if low =? 0 then u32 (Length_High s + 1) else Length_High s in
  let corrupted := if low =? 0 then (high =? 0) || Corrupted s else Corrupted s in
  Sha1 (H s) low high (Message_Block s) (Message_Block_Index s) (Computed s) corrupted.

Definition set_corrupted (s : sha1) : sha1 :=
  Sha1 (H s) (Length_Low s) (Length_High s) (Message_Block s) (Message_Block_Index s) (Computed s) true.

Fixpoint input_loop (bytes : list Z) : M sha1 unit :=
  match bytes with
  | [] => mret tt
  | b :: bytes =>
      s ← gets id;
      if Corrupted s then mret tt
      else
        store_byte (Z.land b 0xFF);;
        modify add_length;;
        i ← gets Message_Block_Index;
        (if i =? 64 then ProcessMessageBlock else mret tt);;
        input_loop bytes
  end.

Definition Input (message : list Z) : M sha1 unit :=
  if bool_decide (message = []) then mret tt
  else
    s ← gets id;
    if Computed s || Corrupted s then modify set_corrupted
    else input_loop message.

(** ** Padding and result *)

(** [while (Message_Block_Index < upto) Message_Block[Message_Block_Index++] = 0;]
    for [n] rounds. *)
Fixpoint zero_loop (n : nat) (upto : Z) : M sha1 unit :=
  i ← gets Message_Block_Index;
  if i <? upto then
    match n with
    | O => throw (undefined_behaviour "does not return")
    | S n => store_byte 0;; zero_loop n upto
    end
  else mret tt.

Definition zero_upto (upto : Z) : M sha1 unit := zero_loop 64 upto.

Definition set_byte (i : nat) (b : Z) (s : sha1) : sha1 :=
  Sha1 (H s) (Length_Low s) (Length_High s) (<[i := b]> (Message_Block s)) (Message_Block_Index s) (Computed s)
    (Corrupted s).

Definition store_word (i : nat) (w : Z) (s : sha1) : sha1 :=
  set_byte (3 + i) (Z.land w 0xFF) (set_byte (2 + i) (Z.land (Z.shiftr w 8) 0xFF)
    (set_byte (1 + i) (Z.land (Z.shiftr w 16) 0xFF) (set_byte i (Z.land (Z.shiftr w 24) 0xFF) s))).

(** The last lines of [PadMessage]: the length and the last block. *)
Definition finish_padding : M sha1 unit :=
  modify (λ s, store_word 60 (Length_Low s) (store_word 56 (Length_High s) s));;
  ProcessMessageBlock.

Definition PadMessage : M sha1 unit :=
  i ← gets Message_Block_Index;
  (if 55 <? i then
     store_byte 0x80;;
     zero_upto 64;;
     ProcessMessageBlock;;
     zero_upto 56
   else
     store_byte 0x80;;
     zero_upto 56);;
  finish_padding.

Definition set_computed (s : sha1) : sha1 :=
  Sha1 (H s) (Length_Low s) (Length_High s) (Message_Block s) (Message_Block_Index s) true (Corrupted s).

(** [Result]: the digest, or nothing where the code returns false. *)
Definition Result : M sha1 (option (list Z)) :=
  s ← gets id;
  if Corrupted s then mret None
  else
    (if Computed s then mret tt else PadMessage;; modify set_computed);;
    s ← gets id;
    mret (Some (H s)).

Fixpoint input_all (pieces : list (list Z)) : M sha1 unit :=
  match pieces with
  | [] => mret tt
  | p :: pieces => Input p;; input_all pieces
  end.

(** Reset, the pieces of a message, the digest. *)
Definition digest_pieces (pieces : list (list Z)) : M sha1 (option (list Z)) :=
  modify Reset;;
  input_all pieces;;
  Result.

(** ** The standard *)

(** A number as [n] bytes, most significant first. *)
Definition be_bytes (n : nat) (v : Z) : list Z := rev (le_bytes n v).

(** The message padded to a multiple of 64 bytes. *)
Definition pad (m : list Z) : list Z :=
  m ++ [0x80] ++ replicate (Z.to_nat ((55 - Z.of_nat (length m)) `mod` 64)) 0 ++ be_bytes 8 (8 * Z.of_nat (length m)).

Fixpoint blocks (n : nat) (l : list Z) : list (list Z) :=
  match n with
  | O => []
  | S n => take 64 l :: blocks n (drop 64 l)
  end.

Definition digest (m : list Z) : list Z :=
  foldl process_block H_init (blocks (length (pad m) / 64) (pad m)).

Example digest_abc :
  digest [97; 98; 99] = [0xA9993E36; 0x4706816A; 0xBA3E2571; 0x7850C26C; 0x9CD0D89D].
Proof. by vm_compute. Qed.

Lemma process_block_words h b : length (process_block h b) = 5%nat ∧ Forall (λ w, 0 ≤ w < 2 ^ 32) (process_block h b).
Proof. split; [done|]. repeat constructor; apply u32_range. Qed.

Lemma digest_words m : length (digest m) = 5%nat ∧ Forall (λ w, 0 ≤ w < 2 ^ 32) (digest m).
Proof.
  unfold digest. generalize (blocks (length (pad m) / 64) (pad m)) as bs. intros bs. revert bs.
  apply rev_ind; [|intros b bs _; rewrite foldl_app; apply process_block_words].
  split; [done|]. repeat constructor; done.
Qed.

(** The proofs see the block function as a black box. *)
#[local] Opaque process_block.

(** ** Blocks *)

Lemma length_be_bytes n v : length (be_bytes n v) = n.
Proof. unfold be_bytes. by rewrite length_rev, length_le_bytes. Qed.

Lemma blocks_app k l1 l2 n :
  length l1 = (64 * k)%nat → blocks (k + n) (l1 ++ l2) = blocks k l1 ++ blocks n l2.
Proof.
  revert l1. induction k as [|k IH]; intros l1 Hl.
  - by rewrite (nil_length_inv l1 Hl).
  - cbn [Nat.add blocks app]. rewrite take_app_le, drop_app_le by lia. f_equal. apply IH. rewrite length_drop. lia.
Qed.

Lemma blocks_one l : length l = 64%nat → blocks 1 l = [l].
Proof. intros Hl. cbn [blocks]. by rewrite take_ge by lia. Qed.

Lemma digest_blocks m full tail k h :
  pad m = full ++ tail → length full = (64 * k)%nat → h = foldl process_block H_init (blocks k full) →
  ∀ n, length tail = (64 * n)%nat → digest m = foldl process_block h (blocks n tail).
Proof.
  intros E Hf -> n Ht. unfold digest. rewrite E, length_app, Hf, Ht.
  replace ((64 * k + 64 * n) / 64)%nat with (k + n)%nat.
  - by rewrite blocks_app, foldl_app by done.
  - symmetry. replace (64 * k + 64 * n)%nat with ((k + n) * 64)%nat by lia. by apply Nat.div_mul.
Qed.

(** ** The bytes of the block under construction *)

Definition meta (s : sha1) : Z * Z * bool * bool := (Length_Low s, Length_High s, Computed s, Corrupted s).

Record filled (h tail : list Z) (s : sha1) : Prop := Filled {
  filled_H : H s = h;
  filled_length : length (Message_Block s) = 64%nat;
  filled_index : Message_Block_Index s = Z.of_nat (length tail);
  filled_tail : take (length tail) (Message_Block s) = tail
}.

Lemma filled_room h tail s : filled h tail s → (length tail ≤ 64)%nat.
Proof.
  intros [_ Hl _ Ht]. assert (length (take (length tail) (Message_Block s)) = length tail) as E by (by rewrite Ht).
  rewrite length_take in E. lia.
Qed.

Lemma store_byte_filled h tail s b :
  filled h tail s → (length tail < 64)%nat →
  ∃ s', store_byte b s = (Ret tt, s') ∧ filled h (tail ++ [b]) s' ∧ meta s' = meta s.
Proof.
  intros [Hh Hl Hi Ht] Hlt. unfold store_byte. run_m. rewrite Hi, Hl.
  rewrite (proj2 (Z.leb_le _ _)), (proj2 (Z.ltb_lt _ _)) by lia. cbn [andb].
  eexists. split; [reflexivity|]. split; [|done].
  split; cbn [H Message_Block Message_Block_Index]; [done|by rewrite length_insert|rewrite length_app; cbn; lia|].
  rewrite length_app, Nat2Z.id. cbn [length]. rewrite Nat.add_1_r.
  rewrite (take_S_r _ _ b) by (rewrite list_lookup_insert_eq by lia; done).
  by rewrite take_insert_ge, Ht by lia.
Qed.

Lemma process_filled h tail s :
  filled h tail s → length tail = 64%nat →
  ∃ s', ProcessMessageBlock s = (Ret tt, s') ∧ filled (process_block h tail) [] s' ∧ meta s' = meta s.
Proof.
  intros [Hh Hl Hi Ht] Hlt. rewrite Hlt, take_ge in Ht by lia. subst h tail. unfold ProcessMessageBlock. run_m.
  eexists. split; [reflexivity|]. by repeat split.
Qed.

Lemma zero_loop_filled h tail s n upto :
  filled h tail s → (upto - length tail ≤ n)%nat → (length tail ≤ upto ≤ 64)%nat →
  ∃ s', zero_loop n (Z.of_nat upto) s = (Ret tt, s') ∧ filled h (tail ++ replicate (upto - length tail) 0) s' ∧
    meta s' = meta s.
Proof.
  revert tail s. induction n as [|n IH]; intros tail s Hf Hn Hu; cbn [zero_loop]; run_m; rewrite (filled_index _ _ _ Hf).
  - rewrite (proj2 (Z.ltb_ge _ _)) by lia. exists s. replace (upto - length tail)%nat with 0%nat by lia.
    by rewrite app_nil_r.
  - destruct (Z.ltb_spec (Z.of_nat (length tail)) (Z.of_nat upto)).
    + destruct (store_byte_filled h tail s 0 Hf ltac:(lia)) as (s1 & E1 & Hf1 & Hm1). rewrite E1.
      destruct (IH _ _ Hf1) as (s2 & E2 & Hf2 & Hm2); [rewrite length_app; cbn; lia..|].
      exists s2. split; [done|]. split; [|congruence].
      rewrite length_app, <- app_assoc in Hf2. cbn [length app] in Hf2.
      replace (upto - length tail)%nat with (S (upto - (length tail + 1))) by lia. done.
    + exists s. replace (upto - length tail)%nat with 0%nat by lia. by rewrite app_nil_r.
Qed.

Lemma be_bytes_8 v :
  be_bytes 8 v = be_bytes 4 (v / 2 ^ 32) ++ be_bytes 4 v.
Proof.
  unfold be_bytes. rewrite <- rev_app_distr. f_equal. cbn [le_bytes app]. by rewrite !Z.div_div by lia.
Qed.

Lemma be_bytes_4 w :
  be_bytes 4 w = [Z.land (Z.shiftr w 24) 0xFF; Z.land (Z.shiftr w 16) 0xFF; Z.land (Z.shiftr w 8) 0xFF; Z.land w 0xFF].
Proof.
  change 0xFF with (Z.ones 8). rewrite !Z.land_ones, !Z.shiftr_div_pow2 by lia. unfold be_bytes.
  cbn [le_bytes rev app]. by rewrite !Z.div_div by lia.
Qed.

Lemma store_word_app s w a x0 x1 x2 x3 b :
  Message_Block s = a ++ [x0; x1; x2; x3] ++ b →
  Message_Block (store_word (length a) w s) = a ++ be_bytes 4 w ++ b.
Proof.
  intros E. rewrite be_bytes_4. unfold store_word, set_byte. cbn [Message_Block]. rewrite E.
  rewrite !(Nat.add_comm _ (length a)). rewrite <- (Nat.add_0_r (length a)) at 4.
  by rewrite !insert_app_r.
Qed.

Lemma store_words_block s tail hi lo :
  length (Message_Block s) = 64%nat → length tail = 56%nat → take 56 (Message_Block s) = tail →
  Message_Block (store_word 60 lo (store_word 56 hi s)) = tail ++ be_bytes 4 hi ++ be_bytes 4 lo.
Proof.
  intros Hl Ht E. pose proof (take_drop 56 (Message_Block s)) as Es. rewrite E in Es.
  assert (length (drop 56 (Message_Block s)) = 8%nat) as Hd by (rewrite length_drop; lia).
  destruct (drop 56 (Message_Block s)) as [|x0 [|x1 [|x2 [|x3 [|x4 [|x5 [|x6 [|x7 [|]]]]]]]]]; try discriminate.
  pose proof (store_word_app s hi tail x0 x1 x2 x3 [x4; x5; x6; x7] (eq_sym Es)) as E1. rewrite Ht in E1.
  pose proof (store_word_app (store_word 56 hi s) lo (tail ++ be_bytes 4 hi) x4 x5 x6 x7 []) as E2.
  rewrite length_app, length_be_bytes, Ht, app_nil_r, <- !app_assoc in E2. apply E2. rewrite E1. done.
Qed.

(** ** Absorbing a message *)

(** The object after the bytes [m], of which [full] are worked off. *)
Record absorbed (full tail : list Z) (k : nat) (s : sha1) : Prop := Absorbed {
  absorbed_full : length full = (64 * k)%nat;
  absorbed_tail : (length tail < 64)%nat;
  absorbed_filled : filled (foldl process_block H_init (blocks k full)) tail s;
  absorbed_meta : ∃ lo hi, meta s = (lo, hi, false, false) ∧ 0 ≤ lo < 2 ^ 32 ∧ 0 ≤ hi < 2 ^ 32 ∧
    lo + 2 ^ 32 * hi = 8 * Z.of_nat (length (full ++ tail))
}.

Definition absorbs (m : list Z) (s : sha1) : Prop := ∃ full tail k, m = full ++ tail ∧ absorbed full tail k s.

Lemma reset_absorbs s : length (Message_Block s) = 64%nat → absorbs [] (Reset s).
Proof.
  intros Hl. exists [], [], 0%nat. split; [done|]. split; [done|cbn; lia|by split|].
  exists 0, 0. by repeat split.
Qed.

Lemma land_byte b : is_byte b → Z.land b 0xFF = b.
Proof. intros Hb. change 0xFF with (Z.ones 8). rewrite Z.land_ones by lia. apply Z.mod_small. apply Hb. Qed.

(** The length counter, as long as it does not overflow. *)
Lemma add_length_meta s lo hi n :
  meta s = (lo, hi, false, false) → 0 ≤ lo < 2 ^ 32 → 0 ≤ hi < 2 ^ 32 → lo + 2 ^ 32 * hi = 8 * n → 8 * (n + 1) < 2 ^ 64 →
  ∃ lo' hi', meta (add_length s) = (lo', hi', false, false) ∧ 0 ≤ lo' < 2 ^ 32 ∧ 0 ≤ hi' < 2 ^ 32 ∧
    lo' + 2 ^ 32 * hi' = 8 * (n + 1).
Proof.
  intros [= <- <- HC HK] Hlo Hhi E Hn. unfold add_length, meta. cbn [Length_Low Length_High Computed Corrupted].
  rewrite HC, HK. unfold u32. destruct (Z.eq_dec (Length_Low s + 8) (2 ^ 32)) as [El|El].
  - rewrite El, Z.mod_same by lia. cbn [Z.eqb].
    destruct (Z.eq_dec (Length_High s + 1) (2 ^ 32)) as [Eh|Eh]; [lia|].
    rewrite (Z.mod_small (Length_High s + 1)) by lia. destruct (Z.eqb_spec (Length_High s + 1) 0); [lia|].
    do 2 eexists. split; [reflexivity|]. lia.
  - rewrite (Z.mod_small (Length_Low s + 8)) by lia. destruct (Z.eqb_spec (Length_Low s + 8) 0); [lia|].
    do 2 eexists. split; [reflexivity|]. lia.
Qed.

Lemma add_length_filled h tail s : filled h tail s → filled h tail (add_length s).
Proof. by intros [? ? ? ?]. Qed.

(** A byte of input. *)
Lemma input_byte m b bs s :
  absorbs m s → is_byte b → 8 * (Z.of_nat (length m) + 1) < 2 ^ 64 →
  ∃ s', input_loop (b :: bs) s = input_loop bs s' ∧ absorbs (m ++ [b]) s'.
Proof.
  intros (full & tail & k & -> & [Hf Ht Hfill (lo & hi & Em & Hlo & Hhi & Hlen)]) Hb Hmax. cbn [input_loop]. run_m.
  assert (Corrupted s = false) as -> by (by injection Em). rewrite land_byte by done.
  destruct (store_byte_filled _ _ _ b Hfill Ht) as (s1 & E1 & Hf1 & Em1). rewrite E1.
  destruct (add_length_meta s1 lo hi (Z.of_nat (length (full ++ tail))) ltac:(by rewrite Em1) Hlo Hhi Hlen Hmax)
    as (lo' & hi' & Em2 & Hlo' & Hhi' & Hlen').
  apply add_length_filled in Hf1. rewrite (filled_index _ _ _ Hf1), length_app. cbn [length].
  replace (Z.of_nat (length (full ++ tail)) + 1) with (Z.of_nat (length ((full ++ tail) ++ [b]))) in Hlen'
    by (rewrite !length_app; cbn [length]; lia).
  destruct (Z.eqb_spec (Z.of_nat (length tail + 1)) 64) as [E64|E64].
  - destruct (process_filled _ _ _ Hf1) as (s3 & E3 & Hf3 & Em3); [rewrite length_app; cbn; lia|].
    rewrite E3. exists s3. split; [done|]. exists (full ++ tail ++ [b]), [], (k + 1)%nat.
    rewrite app_nil_r. split; [by rewrite app_assoc|].
    split; [rewrite !length_app; cbn [length]; lia|cbn; lia| |exists lo', hi'; by rewrite Em3, app_nil_r, app_assoc].
    rewrite blocks_app, foldl_app, blocks_one by (rewrite ?length_app; cbn; lia). done.
  - exists (add_length s1). split; [done|]. exists full, (tail ++ [b]), k. rewrite app_assoc. split; [done|].
    split; [done|rewrite length_app; cbn; lia|done|]. exists lo', hi'. by rewrite app_assoc.
Qed.

Lemma input_loop_absorbs bs m s :
  absorbs m s → Forall is_byte bs → 8 * Z.of_nat (length (m ++ bs)) < 2 ^ 64 →
  ∃ s', input_loop bs s = (Ret tt, s') ∧ absorbs (m ++ bs) s'.
Proof.
  intros Ha Hbs. revert m s Ha. induction Hbs as [|b bs Hb _ IH]; intros m s Ha Hmax.
  - exists s. by rewrite app_nil_r.
  - rewrite length_app in Hmax. cbn [length] in Hmax.
    destruct (input_byte m b bs s Ha Hb ltac:(lia)) as (s1 & E1 & Ha1). rewrite E1.
    destruct (IH _ _ Ha1) as (s2 & E2 & Ha2); [rewrite !length_app; cbn [length]; lia|].
    exists s2. by rewrite <- app_assoc in Ha2.
Qed.

Lemma input_absorbs bs m s :
  absorbs m s → Forall is_byte bs → 8 * Z.of_nat (length (m ++ bs)) < 2 ^ 64 →
  ∃ s', Input bs s = (Ret tt, s') ∧ absorbs (m ++ bs) s'.
Proof.
  intros Ha Hbs Hmax. unfold Input. case_bool_decide as E.
  - exists s. by rewrite E, app_nil_r.
  - destruct (input_loop_absorbs bs m s Ha Hbs Hmax) as (s' & E' & Ha'). exists s'. split; [|done].
    destruct Ha as (full & tail & k & _ & [_ _ _ (lo & hi & [= _ _ EC EK] & _)]). run_m. by rewrite EC, EK.
Qed.

Lemma input_all_absorbs ps m s :
  absorbs m s → Forall (Forall is_byte) ps → 8 * Z.of_nat (length (m ++ concat ps)) < 2 ^ 64 →
  ∃ s', input_all ps s = (Ret tt, s') ∧ absorbs (m ++ concat ps) s'.
Proof.
  intros Ha Hps. revert m s Ha. induction Hps as [|p ps Hp _ IH]; intros m s Ha Hmax; cbn [input_all concat] in *.
  - exists s. by rewrite app_nil_r.
  - destruct (input_absorbs p m s Ha Hp) as (s1 & E1 & Ha1); [rewrite !length_app in *; lia|].
    rewrite (bind_Ret _ _ _ _ _ E1), app_assoc. apply IH; [done|by rewrite <- app_assoc].
Qed.

(** ** Padding *)

Lemma store_word_id i w s : H (store_word i w s) = H s ∧ meta (store_word i w s) = meta s.
Proof. done. Qed.

Lemma pad_tail full tail k :
  length full = (64 * k)%nat → (length tail < 64)%nat →
  pad (full ++ tail) = full ++ tail ++ [0x80] ++
    replicate (if decide (length tail ≤ 55)%nat then 55 - length tail else 119 - length tail) 0 ++
    be_bytes 8 (8 * Z.of_nat (length (full ++ tail))).
Proof.
  intros Hf Ht. unfold pad. rewrite <- app_assoc. do 3 f_equal. do 2 f_equal. rewrite length_app, Hf.
  assert (Z.of_nat (64 * k + length tail) = Z.of_nat k * 64 + Z.of_nat (length tail)) as -> by lia.
  replace (55 - (Z.of_nat k * 64 + Z.of_nat (length tail))) with (55 - Z.of_nat (length tail) + (- Z.of_nat k) * 64) by lia.
  rewrite Z.mod_add by lia. case_decide.
  - rewrite Z.mod_small by lia. lia.
  - replace (55 - Z.of_nat (length tail)) with (119 - Z.of_nat (length tail) + (-1) * 64) by lia.
    rewrite Z.mod_add, Z.mod_small by lia. lia.
Qed.

(** The length goes in and the last block is worked off. *)
Lemma finish_padding_filled h tail s lo hi len :
  filled h tail s → length tail = 56%nat → meta s = (lo, hi, false, false) → 0 ≤ lo < 2 ^ 32 →
  lo + 2 ^ 32 * hi = len →
  ∃ s', finish_padding s = (Ret tt, s') ∧ H s' = process_block h (tail ++ be_bytes 8 len) ∧
    length (Message_Block s') = 64%nat ∧ Corrupted s' = false.
Proof.
  intros [Hh Hl Hi Ht] H56 [= <- <- _ HK] Hlo <-. unfold finish_padding, ProcessMessageBlock. run_m.
  eexists. split; [reflexivity|]. cbn [H Message_Block Corrupted].
  rewrite H56 in Ht. rewrite (store_words_block s tail) by done.
  split; [|split; [by rewrite !length_app, !length_be_bytes, H56|done]].
  change (H (store_word 60 (Length_Low s) (store_word 56 (Length_High s) s))) with (H s). rewrite Hh, be_bytes_8.
  assert (∀ a a' b b', a = a' → b = b' → process_block h (tail ++ a ++ b) = process_block h (tail ++ a' ++ b')) as Heq
    by (intros; by subst).
  apply Heq.
  - f_equal. replace (Length_Low s + 2 ^ 32 * Length_High s) with (Length_Low s + Length_High s * 2 ^ 32) by lia.
    rewrite Z.div_add, Z.div_small by lia. lia.
  - unfold be_bytes. f_equal. rewrite <- (le_bytes_mod 4 (_ + _)). f_equal.
    replace (Length_Low s + 2 ^ 32 * Length_High s) with (Length_Low s + Length_High s * 2 ^ 32) by lia.
    change (2 ^ (8 * Z.of_nat 4)) with (2 ^ 32). rewrite Z.mod_add, Z.mod_small by lia. done.
Qed.

Lemma pad_message_digest m s :
  absorbs m s → ∃ s', PadMessage s = (Ret tt, s') ∧ H s' = digest m ∧ length (Message_Block s') = 64%nat ∧
    Corrupted s' = false.
Proof.
  intros (full & tail & k & -> & [Hf Ht Hfill (lo & hi & Em & Hlo & Hhi & Hlen)]).
  pose proof (pad_tail full tail k Hf Ht) as Ep. unfold PadMessage, zero_upto. run_m.
  rewrite (filled_index _ _ _ Hfill).
  destruct (store_byte_filled _ _ _ 0x80 Hfill Ht) as (s1 & E1 & Hf1 & Em1).
  destruct (Z.ltb_spec 55 (Z.of_nat (length tail))); rewrite E1.
  - rewrite decide_False in Ep by lia.
    destruct (zero_loop_filled _ _ _ 64 64 Hf1) as (s2 & E2 & Hf2 & Em2); [rewrite length_app; cbn; lia..|].
    change (Z.of_nat 64) with 64 in E2. rewrite E2.
    destruct (process_filled _ _ _ Hf2) as (s3 & E3 & Hf3 & Em3).
    { rewrite !length_app, length_replicate. cbn. lia. }
    rewrite E3. destruct (zero_loop_filled _ _ _ 64 56 Hf3) as (s4 & E4 & Hf4 & Em4); [cbn; lia..|].
    change (Z.of_nat 56) with 56 in E4. rewrite E4.
    destruct (finish_padding_filled _ _ _ lo hi _ Hf4 ltac:(done) ltac:(congruence) Hlo Hlen) as (s5 & E5 & EH & HB & HK).
    exists s5. split; [done|]. split; [|done]. rewrite EH. symmetry.
    rewrite (digest_blocks _ _ _ k _ Ep Hf eq_refl 2).
    2:{ rewrite !length_app, length_replicate, length_be_bytes. cbn. lia. }
    replace (119 - length tail)%nat with ((63 - length tail) + 56)%nat by lia.
    rewrite replicate_add. replace (length (tail ++ [0x80])) with (S (length tail)) by (rewrite length_app; cbn; lia).
    replace (64 - S (length tail))%nat with (63 - length tail)%nat by lia.
    rewrite !app_assoc, <- (app_assoc _ (replicate 56 0)).
    change (blocks 2) with (blocks (1 + 1)). cbn [app length]. rewrite Nat.sub_0_r.
    assert (length ((tail ++ [0x80]) ++ replicate (63 - length tail) 0) = 64%nat) as H64.
    { rewrite !length_app, length_replicate. cbn [length]. lia. }
    rewrite blocks_app by (by rewrite H64). rewrite foldl_app, (blocks_one _ H64), blocks_one; [reflexivity|].
    by rewrite length_app, length_replicate, length_be_bytes.
  - rewrite decide_True in Ep by lia.
    destruct (zero_loop_filled _ _ _ 64 56 Hf1) as (s2 & E2 & Hf2 & Em2); [rewrite length_app; cbn; lia..|].
    change (Z.of_nat 56) with 56 in E2. rewrite E2.
    destruct (finish_padding_filled _ _ _ lo hi _ Hf2 ltac:(rewrite !length_app, length_replicate; cbn; lia)
      ltac:(congruence) Hlo Hlen) as (s5 & E5 & EH & HB & HK).
    exists s5. split; [done|]. split; [|done]. rewrite EH. symmetry.
    rewrite (digest_blocks _ _ _ k _ Ep Hf eq_refl 1).
    2:{ rewrite !length_app, length_replicate, length_be_bytes. cbn. lia. }
    replace (56 - length (tail ++ [0x80%Z]))%nat with (55 - length tail)%nat by (rewrite length_app; cbn [length]; lia).
    rewrite blocks_one by (rewrite !length_app, length_replicate, length_be_bytes; cbn; lia).
    cbn [foldl]. by rewrite <- !app_assoc.
Qed.

Lemma digest_pieces_digest (ps : list (list Z)) (s : sha1) :
  length (Message_Block s) = 64%nat → Forall (Forall is_byte) ps → 8 * Z.of_nat (length (concat ps)) < 2 ^ 64 →
  ∃ s', digest_pieces ps s = (Ret (Some (digest (concat ps))), s') ∧ length (Message_Block s') = 64%nat ∧
    Computed s' = true ∧ Corrupted s' = false ∧ H s' = digest (concat ps).
Proof.
  intros Hl Hps Hmax.
  destruct (input_all_absorbs ps [] _ (reset_absorbs s Hl) Hps Hmax) as (s1 & E1 & Ha). cbn [app] in Ha.
  destruct (pad_message_digest _ _ Ha) as (s2 & E2 & EH & HB & HK).
  assert (Computed s1 = false ∧ Corrupted s1 = false) as [HC1 HK1].
  { by destruct Ha as (? & ? & ? & _ & [_ _ _ (lo & hi & [= _ _ -> ->] & _)]). }
  exists (set_computed s2). split; [|done].
  unfold digest_pieces, Result. run_m. rewrite E1, HC1, HK1, E2. by rewrite <- EH.
Qed.

(** ** Properties *)

(** C36: a message of less than 2^61 bytes, given to a reset object in any pieces,
    has the digest of FIPS 180-1; asking again gives it again, and input behind the
    result makes the object unusable. *)
Theorem sha1_streams_digest (ps : list (list Z)) (s : sha1) :
  length (Message_Block s) = 64%nat → Forall (Forall is_byte) ps → 8 * Z.of_nat (length (concat ps)) < 2 ^ 64 →
  ∃ s', digest_pieces ps s = (Ret (Some (digest (concat ps))), s') ∧
    length (Message_Block s') = 64%nat ∧
    Result s' = (Ret (Some (digest (concat ps))), s') ∧
    ∀ p, p ≠ [] → ∃ s2, Input p s' = (Ret tt, s2) ∧ Result s2 = (Ret None, s2).
Proof.
  intros Hl Hps Hmax. destruct (digest_pieces_digest ps s Hl Hps Hmax) as (s' & E & HB & HC & HK & EH).
  exists s'. split; [done|]. split; [done|]. split.
  - unfold Result. run_m. by rewrite HK, HC, EH.
  - intros p Hp. exists (set_corrupted s'). split; [|done].
    unfold Input. rewrite bool_decide_eq_false_2 by done. run_m. by rewrite HC.
Qed.

Lemma sha1_streams_digest_witness :
  ∃ s', digest_pieces [[97]; []; [98; 99]] (sha1_new (replicate 64 7)) = (Ret (Some (digest (concat [[97]; []; [98; 99]]))), s') ∧
    length (Message_Block s') = 64%nat ∧
    Result s' = (Ret (Some (digest (concat [[97]; []; [98; 99]]))), s') ∧
    ∀ p, p ≠ [] → ∃ s2, Input p s' = (Ret tt, s2) ∧ Result s2 = (Ret None, s2).
Proof.
  apply (sha1_streams_digest [[97]; []; [98; 99]]); [done| |done].
  repeat constructor; unfold is_byte; lia.
Defined.
