(* ===== verification/Bloom.v ===== *)
(** * The Bloom filters of the hash library

    Models [lib/bloom/khash.h], [khash.cpp] ([nhash] short hashes cut out of SHA-1
    digests), [bloom.h], [bloom.cpp] (the filter) and [bloompair.h],
    [bloompair.cpp] (a filter that forgets: two filters, one learning behind the
    other).

    [res] has the entry 0, which the code does not use.  The loop of
    [khash::compute] ends only when enough different hashes were found, so it has
    fuel. *)

From S2P Require Export Sha1 Double.

(** ** [khash] *)

Record khash := KHash {
  nhash : Z;
  shash : Z;
  maxdigest : Z;
  res : list Z;
  norep : bool;
  sha : sha1
}.

(** The constructor, with its assertions; [junk] is what the arrays hold. *)
Definition khash_new (junk_block : list Z) (junk_res : Z) (_nhash _shash _norep : Z) : outcome khash :=
  if negb (1 <=? _nhash) then Throw (assert_failure "_nhash>=1")
  else if negb (1 <=? _shash) then Throw (assert_failure "_shash>=1")
  else if negb ((_norep =? 0) || (_norep =? 1)) then Throw (assert_failure "(_norep==0)||(_norep==1)")
  else if negb (_shash <? 32) then Throw (assert_failure "_shash<32")
  else if (_norep =? 1) && negb (_nhash <=? Z.shiftl 1 _shash) then Throw (assert_failure "nhash <= 1 << shash")
  else Ret (KHash _nhash _shash (Z.shiftl 1 _shash) (replicate (Z.to_nat (_nhash + 1)) junk_res) (_norep =? 1)
    (sha1_new junk_block)).

Definition set_sha (s : sha1) (h : khash) : khash := KHash (nhash h) (shash h) (maxdigest h) (res h) (norep h) s.
Definition set_res (r : list Z) (h : khash) : khash := KHash (nhash h) (shash h) (maxdigest h) r (norep h) (sha h).

(** [sha.Reset(); sha.Input(in, len); outcome = sha.Result(msgdig); assert(outcome);] *)
Definition sha_of (bytes : list Z) : M khash (list Z) :=
  r ← zoom sha set_sha (modify Reset;; Input bytes;; Result);
  match r with
  | Some d => mret d
  | None => throw (assert_failure "outcome")
  end.

(** [copy_sha]: a digest as bytes, the least significant of each word first. *)
Definition copy_sha (d : list Z) : list Z := concat (le_bytes 4 <$> d).

Definition bitmask (bit : Z) : M khash Z :=
  ensure ((0 <=? bit) && (bit <=? 32)) (assert_failure "(bit>=0)&&(bit<=32)");;
  mret (if bit =? 0 then 0 else if bit =? 32 then 0xFFFFFFFF else Z.land (u32 (Z.shiftl 1 bit - 1)) 0xFFFFFFFF).

(** [msgdig[s_blk]] *)
Definition digest_word (msgdig : list Z) (s_blk : Z) : M khash Z :=
  ensure ((0 <=? s_blk) && (s_blk <? Z.of_nat (length msgdig))) (undefined_behaviour "msgdig");;
  mret (nth (Z.to_nat s_blk) msgdig 0).

Definition read_res (k : Z) : M khash Z :=
  r ← gets res;
  ensure ((0 <=? k) && (k <? Z.of_nat (length r))) (undefined_behaviour "res");;
  mret (nth (Z.to_nat k) r 0).

Definition write_res (k v : Z) : M khash unit :=
  r ← gets res;
  ensure ((0 <=? k) && (k <? Z.of_nat (length r))) (undefined_behaviour "res");;
  modify (set_res (<[Z.to_nat k := v]> r)).

(** Where in the digests the next hash is cut out. *)
Record cursor := Cursor { msgdig : list Z; md : list Z; ptr : Z }.

(** The next digest, when the last word of this one is used up. *)
Definition next_block (carry s_blk : Z) (c : cursor) : M khash (cursor * Z) :=
  if (0 <=? carry) && (s_blk =? 4) then
    d ← sha_of (md c);
    mret (Cursor d (copy_sha d) (ptr c - 160), -1)
  else mret (c, s_blk).

(** The part of a hash that is in the next word. *)
Definition add_carry (k len carry s_blk : Z) (c : cursor) : M khash unit :=
  if 0 <? carry then
    w ← digest_word (msgdig c) (s_blk + 1);
    mask ← bitmask carry;
    low ← read_res k;
    write_res k (Z.lor low (u32 (Z.shiftl (Z.land w mask) (len - carry))))
  else mret tt.

(** The iteration of [compute] up to the assertion on [ptr]. *)
Definition extract (k : Z) (c : cursor) : M khash cursor :=
  len ← gets shash;
  let s_blk := ptr c / 32 in
  let s_bit := ptr c `mod` 32 in
  w ← digest_word (msgdig c) s_blk;
  mask ← bitmask len;
  write_res k (Z.land (Z.shiftr w s_bit) mask);;
  let carry := s_bit + len - 32 in
  p ← next_block carry s_blk c;
  let '(c, s_blk) := p : cursor * Z in
  add_carry k len carry s_blk c;;
  ensure ((0 <=? ptr c + len) && (ptr c + len <=? 160)) (assert_failure "(ptr>=0)&&(ptr<=160)");;
  mret (Cursor (msgdig c) (md c) (ptr c + len)).

(** [for(int i=1; i<k; i++) if (res[i]==res[k]) k--;] for at most [n] rounds. *)
Fixpoint norep_loop (n : nat) (i k : Z) : M khash Z :=
  if i <? k then
    match n with
    | O => throw (undefined_behaviour "does not return")
    | S n =>
        x ← read_res i;
        y ← read_res k;
        norep_loop n (i + 1) (if x =? y then k - 1 else k)
    end
  else mret k.

Fixpoint compute_loop (fuel : nat) (k : Z) (c : cursor) : M khash unit :=
  n ← gets nhash;
  if k <=? n then
    match fuel with
    | O => throw (undefined_behaviour "does not return")
    | S fuel =>
        c ← extract k c;
        once ← gets norep;
        k ← (if once : bool then norep_loop (Z.to_nat k) 1 k else mret k);
        compute_loop fuel (k + 1) c
    end
  else mret tt.

Definition compute (fuel : nat) (bytes : list Z) : M khash unit :=
  ensure (0 <? Z.of_nat (length bytes)) (assert_failure "len>0");;
  d ← sha_of bytes;
  compute_loop fuel 1 (Cursor d (copy_sha d) 0).

(** [H] *)
Definition hash_at (k : Z) : M khash Z :=
  n ← gets nhash;
  ensure ((1 <=? k) && (k <=? n)) (assert_failure "(k>=1)&&(k<=nhash)");;
  read_res k.

(** ** [bloomfilter] *)

Record bloomfilter := BloomFilter {
  kh : khash;
  m : list Z;
  mmax : Z;
  mmax_arr : Z;
  num_zeros : Z
}.

Definition set_kh (h : khash) (f : bloomfilter) : bloomfilter := BloomFilter h (m f) (mmax f) (mmax_arr f) (num_zeros f).

Definition clear (f : bloomfilter) : bloomfilter :=
  BloomFilter (kh f) (replicate (Z.to_nat (mmax_arr f)) 0) (mmax f) (mmax_arr f) (mmax f).

Definition bloom_new (junk_block : list Z) (junk_res : Z) (_nhash _shash _norep : Z) : outcome bloomfilter :=
  match khash_new junk_block junk_res _nhash _shash _norep with
  | Throw e => Throw e
  | Ret h =>
      if negb ((1 <=? shash h) && (shash h <=? 31)) then Throw (assert_failure "(shash>=1)&&(shash<=31)")
      else Ret (clear (BloomFilter h [] (Z.shiftl 1 (shash h)) (if shash h <? 3 then 1 else Z.shiftl 1 (shash h - 3)) 0))
  end.

(** The byte and the bit in it of a hash, with the assertions on them. *)
Definition place (v : Z) : M bloomfilter (Z * Z) :=
  size ← gets mmax_arr;
  let b := Z.shiftr v 3 in
  ensure (b <? size) (assert_failure "b<mmax_arr");;
  mask ← zoom kh set_kh (bitmask 3);
  let t := u8 (Z.land v mask) in
  ensure (t <? 8) (assert_failure "t<8");;
  mret (b, u8 (Z.shiftl 1 t)).

Definition read_byte (b : Z) : M bloomfilter Z :=
  l ← gets m;
  ensure ((0 <=? b) && (b <? Z.of_nat (length l))) (undefined_behaviour "m");;
  mret (nth (Z.to_nat b) l 0).

Definition write_byte (b v : Z) : M bloomfilter unit :=
  l ← gets m;
  ensure ((0 <=? b) && (b <? Z.of_nat (length l))) (undefined_behaviour "m");;
  modify (λ f, BloomFilter (kh f) (<[Z.to_nat b := v]> (m f)) (mmax f) (mmax_arr f) (num_zeros f)).

(** The loop of [insert] over the hashes [ks]: how many bits were set. *)
Fixpoint insert_loop (ks : list Z) (extra_ones : Z) : M bloomfilter Z :=
  match ks with
  | [] => mret extra_ones
  | k :: ks =>
      v ← zoom kh set_kh (hash_at k);
      p ← place v;
      byte ← read_byte p.1;
      if Z.land byte p.2 =? 0 then
        write_byte p.1 (Z.lor byte p.2);;
        insert_loop ks (extra_ones + 1)
      else insert_loop ks extra_ones
  end.

Definition hash_indices (f : bloomfilter) : list Z := seqZ 1 (nhash (kh f)).

Definition insert (fuel : nat) (bytes : list Z) : M bloomfilter bool :=
  zoom kh set_kh (compute fuel bytes);;
  ks ← gets hash_indices;
  extra_ones ← insert_loop ks 0;
  if extra_ones =? 0 then mret false
  else
    modify (λ f, BloomFilter (kh f) (m f) (mmax f) (mmax_arr f) (u32 (num_zeros f - extra_ones)));;
    mret true.

Fixpoint check_loop (ks : list Z) : M bloomfilter bool :=
  match ks with
  | [] => mret true
  | k :: ks =>
      v ← zoom kh set_kh (hash_at k);
      p ← place v;
      byte ← read_byte p.1;
      if Z.land byte p.2 =? 0 then mret false else check_loop ks
  end.

Definition check (fuel : nat) (bytes : list Z) : M bloomfilter bool :=
  zoom kh set_kh (compute fuel bytes);;
  ks ← gets hash_indices;
  check_loop ks.

Definition get_nzero : bloomfilter → Z := num_zeros.

(** ** [BloomPair] *)

Record bloom_pair := BloomPair {
  B_learning : bloomfilter;
  B_detecting : bloomfilter;
  pair_m : Z;
  threshold : double
}.

(** [double(m) / sqrt(2.0)] *)
Definition start_threshold (m : Z) : double := ddiv (double_of_Z m) (dsqrt (double_of_Z 2)).

Definition pair_new (junk_block : list Z) (junk_res : Z) (_nhash _shash : Z) : outcome bloom_pair :=
  match bloom_new junk_block junk_res _nhash _shash 1 with
  | Throw e => Throw e
  | Ret b =>
      let m := maxdigest (kh b) in
      if negb (m =? get_nzero b) then Throw (assert_failure "m==B_learning->get_nzero()")
      else Ret (BloomPair b b m (start_threshold m))
  end.

Definition pair_clear (p : bloom_pair) : bloom_pair :=
  BloomPair (clear (B_learning p)) (clear (B_detecting p)) (pair_m p) (start_threshold (pair_m p)).

Definition set_learning (b : bloomfilter) (p : bloom_pair) : bloom_pair :=
  BloomPair b (B_detecting p) (pair_m p) (threshold p).
Definition set_detecting (b : bloomfilter) (p : bloom_pair) : bloom_pair :=
  BloomPair (B_learning p) b (pair_m p) (threshold p).

(** The learning filter is full enough: it takes over. *)
Definition swap_filters (dd : double) (p : bloom_pair) : bloom_pair :=
  BloomPair (clear (B_detecting p)) (B_learning p) (pair_m p)
    (dmul (threshold p) (dsqrt (ddiv (ddiv (double_of_Z (pair_m p)) (double_of_Z 2)) dd))).

Definition add (fuel : nat) (bytes : list Z) : M bloom_pair bool :=
  res_l ← zoom B_learning set_learning (insert fuel bytes);
  res_d ← zoom B_detecting set_detecting (insert fuel bytes);
  ensure (negb res_d || (res_d && res_l)) (assert_failure "(res_d==false)||((res_d==true)&&(res_l==true))");;
  p ← gets id;
  let dd := double_of_Z (get_nzero (B_detecting p)) in
  let dl := double_of_Z (get_nzero (B_learning p)) in
  (if dlt dl (threshold p) then modify (swap_filters dd) else mret tt);;
  mret res_d.

(** ** The stream of bits the hashes are cut out of *)

Fixpoint digest_n (bytes : list Z) (n : nat) : list Z :=
  match n with
  | O => digest bytes
  | S n => digest (copy_sha (digest_n bytes n))
  end.

Definition stream_bit (bytes : list Z) (p : Z) : bool :=
  Z.testbit (nth (Z.to_nat ((p `mod` 160) / 32)) (digest_n bytes (Z.to_nat (p / 160))) 0) (p `mod` 32).

(** The number of the [n] bits from [p] on, the first the least significant. *)
Fixpoint cut (bytes : list Z) (p : Z) (n : nat) : Z :=
  match n with
  | O => 0
  | S n => Z.b2z (stream_bit bytes p) + 2 * cut bytes (p + 1) n
  end.

Definition stream_hash (bytes : list Z) (len : Z) (i : nat) : Z := cut bytes (Z.of_nat i * len) (Z.to_nat len).

Definition stream_hashes (bytes : list Z) (len : Z) (n : nat) : list Z := stream_hash bytes len <$> seq 0 n.

(** The different values of a list, by their first occurrence. *)
Definition uniq (l : list Z) : list Z := foldl (λ acc v, if bool_decide (v ∈ acc) then acc else acc ++ [v]) [] l.

Lemma uniq_snoc l v : uniq (l ++ [v]) = if bool_decide (v ∈ uniq l) then uniq l else uniq l ++ [v].
Proof. unfold uniq. by rewrite foldl_app. Qed.

Lemma uniq_NoDup l : NoDup (uniq l).
Proof.
  induction l as [|v l IH] using rev_ind; [constructor|]. rewrite uniq_snoc. case_bool_decide; [done|].
  apply NoDup_app. split; [done|]. split; [|apply NoDup_singleton]. set_solver.
Qed.

(** The candidates of the first [n] rounds. *)
Definition candidates (once : bool) (bytes : list Z) (len : Z) (n : nat) : list Z :=
  if once then uniq (stream_hashes bytes len n) else stream_hashes bytes len n.

Lemma stream_hashes_S bytes len n : stream_hashes bytes len (S n) = stream_hashes bytes len n ++ [stream_hash bytes len n].
Proof. unfold stream_hashes. by rewrite seq_S, fmap_app. Qed.

Lemma candidates_S once bytes len n :
  let v := stream_hash bytes len n in
  let l := candidates once bytes len n in
  candidates once bytes len (S n) = if once && bool_decide (v ∈ l) then l else l ++ [v].
Proof. unfold candidates. rewrite stream_hashes_S. destruct once; [apply uniq_snoc|done]. Qed.

Lemma testbit_cut bytes p n j : 0 ≤ j → Z.testbit (cut bytes p n) j = (j <? Z.of_nat n) && stream_bit bytes (p + j).
Proof.
  revert p j. induction n as [|n IH]; intros p j Hj; cbn [cut].
  - rewrite Z.testbit_0_l. destruct (Z.ltb_spec j (Z.of_nat 0)); [lia|done].
  - rewrite Z.add_comm. destruct (Z.eq_dec j 0) as [->|Hne].
    + rewrite Z.testbit_0_r. by rewrite Z.add_0_r.
    + replace j with (Z.succ (j - 1)) at 1 by lia. rewrite Z.testbit_succ_r, IH by lia.
      replace (p + 1 + (j - 1)) with (p + j) by lia. f_equal. destruct_cmp; lia || done.
Qed.

Lemma cut_range bytes p n : 0 ≤ cut bytes p n < 2 ^ Z.of_nat n.
Proof.
  revert p. induction n as [|n IH]; intros p; cbn [cut]; [done|]. specialize (IH (p + 1)).
  rewrite Nat2Z.inj_succ, Z.pow_succ_r by lia. destruct (stream_bit bytes p); cbn [Z.b2z]; lia.
Qed.

Lemma stream_hash_range bytes len i : 0 ≤ len → 0 ≤ stream_hash bytes len i < 2 ^ len.
Proof. intros Hl. pose proof (cut_range bytes (Z.of_nat i * len) (Z.to_nat len)) as Hc. by rewrite Z2Nat.id in Hc. Qed.

Lemma digest_n_words bytes n :
  length (digest_n bytes n) = 5%nat ∧ Forall (λ w, 0 ≤ w < 2 ^ 32) (digest_n bytes n).
Proof. destruct n; apply digest_words. Qed.

Lemma digest_n_word bytes n i : 0 ≤ nth i (digest_n bytes n) 0 < 2 ^ 32.
Proof.
  destruct (digest_n_words bytes n) as [Hl HF]. destruct (decide (i < 5)%nat) as [Hi|Hi].
  - rewrite Forall_forall in HF. apply HF. apply list_elem_of_In, nth_In. by rewrite Hl.
  - rewrite nth_overflow by lia. lia.
Qed.

Lemma testbit_high w n j : 0 ≤ w < 2 ^ n → n ≤ j → Z.testbit w j = false.
Proof.
  intros Hw Hj. destruct (Z.le_gt_cases 0 n) as [Hn|Hn].
  - rewrite <- (Z.mod_small w (2 ^ n)) by done. by apply Z.mod_pow2_bits_high.
  - rewrite Z.pow_neg_r in Hw by lia. lia.
Qed.

(** ** One hash *)

Record khash_ok (h : khash) : Prop := KHashOk {
  ok_nhash : 1 ≤ nhash h;
  ok_shash : 1 ≤ shash h ≤ 31;
  ok_res : Z.of_nat (length (res h)) = nhash h + 1;
  ok_sha : length (Message_Block (sha h)) = 64%nat
}.

(** The parameters of the object, which [compute] does not change. *)
Definition same_shape (h h' : khash) : Prop :=
  nhash h' = nhash h ∧ shash h' = shash h ∧ maxdigest h' = maxdigest h ∧ norep h' = norep h.

Lemma copy_sha_bytes d : Forall is_byte (copy_sha d).
Proof.
  unfold copy_sha. induction d as [|w d IH]; [constructor|]. cbn [fmap list_fmap concat].
  apply Forall_app. split; [apply le_bytes_are_bytes|done].
Qed.

Lemma length_copy_sha d : length (copy_sha d) = (4 * length d)%nat.
Proof.
  unfold copy_sha. induction d as [|w d IH]; [done|]. cbn [fmap list_fmap concat length].
  rewrite length_app, length_le_bytes. lia.
Qed.

Lemma sha_of_digest bytes h :
  khash_ok h → Forall is_byte bytes → Z.of_nat (length bytes) < 2 ^ 32 →
  ∃ h', sha_of bytes h = (Ret (digest bytes), h') ∧ khash_ok h' ∧ same_shape h h' ∧ res h' = res h.
Proof.
  intros [Hn Hs Hr HB] Hb Hl.
  destruct (digest_pieces_digest [bytes] (sha h) HB) as (s' & E & HB' & _); [by constructor| |].
  { cbn [concat]. rewrite app_nil_r. lia. }
  cbn [concat] in E. rewrite app_nil_r in E.
  exists (set_sha s' h). split; [|by split].
  unfold sha_of. unfold digest_pieces in E. cbn [input_all] in E. run_m. revert E. run_m.
  destruct (Input bytes (Reset (sha h))) as [[[]|e] s1]; [|done]. intros ->. done.
Qed.

Lemma digest_word_ok bytes n i h :
  0 ≤ i < 5 → digest_word (digest_n bytes n) i h = (Ret (nth (Z.to_nat i) (digest_n bytes n) 0), h).
Proof.
  intros Hi. unfold digest_word. run_m. rewrite (proj1 (digest_n_words bytes n)).
  rewrite (proj2 (Z.leb_le _ _)), (proj2 (Z.ltb_lt _ _)) by lia. done.
Qed.

Lemma bitmask_ok n h : 0 ≤ n ≤ 31 → bitmask n h = (Ret (Z.ones n), h).
Proof.
  intros Hn. unfold bitmask. run_m. rewrite !(proj2 (Z.leb_le _ _)) by lia. cbn [andb]. do 2 f_equal.
  destruct (Z.eqb_spec n 0) as [->|]; [done|]. destruct (Z.eqb_spec n 32); [lia|].
  assert (2 ^ n ≤ 2 ^ 31) by (apply Z.pow_le_mono_r; lia). assert (2 ≤ 2 ^ n) by (apply (Z.pow_le_mono_r 2 1 n); lia).
  rewrite Z.shiftl_1_l, u32_small by lia. change 0xFFFFFFFF with (Z.ones 32).
  rewrite Z.land_ones, Z.ones_equiv by lia. rewrite Z.mod_small; lia.
Qed.

Lemma write_res_ok k v h :
  khash_ok h → 1 ≤ k ≤ nhash h → write_res k v h = (Ret tt, set_res (<[Z.to_nat k := v]> (res h)) h).
Proof.
  intros [_ _ Hr _] Hk. unfold write_res. run_m. rewrite (proj2 (Z.leb_le _ _)), (proj2 (Z.ltb_lt _ _)) by lia. done.
Qed.

Lemma read_res_ok k h :
  khash_ok h → 1 ≤ k ≤ nhash h → read_res k h = (Ret (nth (Z.to_nat k) (res h) 0), h).
Proof.
  intros [_ _ Hr _] Hk. unfold read_res. run_m. rewrite (proj2 (Z.leb_le _ _)), (proj2 (Z.ltb_lt _ _)) by lia. done.
Qed.

Lemma set_res_ok k v h : khash_ok h → khash_ok (set_res (<[k := v]> (res h)) h).
Proof. intros [? ? ? ?]. split; try done. cbn [res set_res]. by rewrite length_insert. Qed.

(** Two pieces of the stream put together, as the code does it. *)
Lemma join_words bytes len w1 w2 bit p :
  0 ≤ bit < 32 → 1 ≤ len ≤ 31 → 0 ≤ w1 < 2 ^ 32 → 0 ≤ w2 < 2 ^ 32 →
  (∀ j, 0 ≤ j < 32 - bit → Z.testbit w1 (bit + j) = stream_bit bytes (p + j)) →
  (∀ j, 32 - bit ≤ j < len → Z.testbit w2 (bit + j - 32) = stream_bit bytes (p + j)) →
  let carry := bit + len - 32 in
  (if 0 <? carry then Z.lor (Z.land (Z.shiftr w1 bit) (Z.ones len)) (u32 (Z.shiftl (Z.land w2 (Z.ones carry)) (len - carry)))
   else Z.land (Z.shiftr w1 bit) (Z.ones len)) = cut bytes p (Z.to_nat len).
Proof.
  intros Hbit Hlen Hw1 Hw2 H1 H2 carry.
  assert (∀ j, 0 ≤ j → Z.testbit (Z.land (Z.shiftr w1 bit) (Z.ones len)) j =
    (j <? len) && (j <? 32 - bit) && stream_bit bytes (p + j)) as Hlow.
  { intros j Hj. rewrite Z.land_spec, Z.shiftr_spec, Z.testbit_ones_nonneg by lia.
    replace (j + bit) with (bit + j) by lia. destruct (Z.ltb_spec j len), (Z.ltb_spec j (32 - bit)); cbn [andb];
      rewrite ?andb_true_r, ?andb_false_r; try done.
    - by apply H1.
    - apply (testbit_high _ 32); [done|lia]. }
  destruct (Z.ltb_spec 0 carry) as [Hc|Hc]; apply Z.bits_inj'; intros j Hj; rewrite testbit_cut, Z2Nat.id by lia.
  - rewrite Z.lor_spec, Hlow by done. unfold u32. replace (len - carry) with (32 - bit) by lia.
    destruct (Z.lt_ge_cases j 32) as [H32|H32].
    + rewrite Z.mod_pow2_bits_low, Z.shiftl_spec by lia.
      destruct (Z.ltb_spec j len), (Z.ltb_spec j (32 - bit)); cbn [andb orb].
      * rewrite (Z.testbit_neg_r _ (j - (32 - bit))) by lia. by rewrite orb_false_r.
      * rewrite Z.land_spec, Z.testbit_ones_nonneg by lia. rewrite (proj2 (Z.ltb_lt _ _)) by lia.
        rewrite andb_true_r, <- H2 by lia. f_equal. lia.
      * rewrite (Z.testbit_neg_r _ (j - (32 - bit))) by lia. done.
      * rewrite Z.land_spec, Z.testbit_ones_nonneg by lia. rewrite (proj2 (Z.ltb_ge _ _)) by lia. by rewrite andb_false_r.
    + rewrite Z.mod_pow2_bits_high by lia. destruct (Z.ltb_spec j len); [lia|]. done.
  - rewrite Hlow by done. destruct (Z.ltb_spec j len); cbn [andb]; [|done].
    by rewrite (proj2 (Z.ltb_lt j (32 - bit))) by lia.
Qed.

(** The digest and the position in it at the bit [p] of the stream. *)
Definition cursor_at (bytes : list Z) (p : Z) (c : cursor) : Prop :=
  msgdig c = digest_n bytes (Z.to_nat (p / 160)) ∧ md c = copy_sha (msgdig c) ∧ ptr c = p `mod` 160.

Lemma stream_bit_at bytes q i j :
  0 ≤ q → 0 ≤ i < 5 → 0 ≤ j < 32 →
  Z.testbit (nth (Z.to_nat i) (digest_n bytes (Z.to_nat q)) 0) j = stream_bit bytes (160 * q + 32 * i + j).
Proof.
  intros Hq Hi Hj. unfold stream_bit.
  replace ((160 * q + 32 * i + j) / 160) with q.
  2:{ apply (Z.div_unique_pos _ _ _ (32 * i + j)); lia. }
  replace ((160 * q + 32 * i + j) `mod` 160) with (32 * i + j).
  2:{ apply (Z.mod_unique_pos _ _ q); lia. }
  replace ((160 * q + 32 * i + j) `mod` 32) with j.
  2:{ apply (Z.mod_unique_pos _ _ (5 * q + i)); lia. }
  replace ((32 * i + j) / 32) with i; [done|]. apply (Z.div_unique_pos _ _ _ j); lia.
Qed.

Lemma next_block_spec bytes h p len c q i bit :
  khash_ok h → 0 ≤ q → 0 ≤ i < 5 → 0 ≤ bit < 32 → p = 160 * q + 32 * i + bit → 1 ≤ len ≤ 31 → cursor_at bytes p c →
  let carry := bit + len - 32 in
  ∃ h' c' i', next_block carry i c h = (Ret (c', i'), h') ∧ khash_ok h' ∧ same_shape h h' ∧ res h' = res h ∧
    msgdig c' = digest_n bytes (Z.to_nat ((p + len) / 160)) ∧ md c' = copy_sha (msgdig c') ∧
    ptr c' + len = (p + len) `mod` 160 ∧
    (0 < carry → 0 ≤ i' + 1 < 5 ∧ 160 * ((p + len) / 160) + 32 * (i' + 1) = p - bit + 32).
Proof.
  intros Hok Hq Hi Hbit Ep Hlen (Ed & Emd & Eptr) carry.
  assert (p / 160 = q) as Epq by (symmetry; apply (Z.div_unique_pos _ _ _ (32 * i + bit)); lia).
  assert (p `mod` 160 = 32 * i + bit) as Epr by (symmetry; apply (Z.mod_unique_pos _ _ q); lia).
  rewrite Epq in Ed. rewrite Epr in Eptr. unfold next_block.
  destruct (Z.leb_spec 0 carry) as [Hc|Hc]; [destruct (Z.eqb_spec i 4) as [Hi4|Hi4]|]; cbn [andb].
  - destruct (sha_of_digest (md c) h Hok) as (h2 & E & Hok2 & Hsh & Er2).
    { rewrite Emd. apply copy_sha_bytes. }
    { rewrite Emd, length_copy_sha, Ed. rewrite (proj1 (digest_n_words bytes _)). lia. }
    rewrite (bind_Ret _ _ _ _ _ E). do 3 eexists. split; [reflexivity|]. do 3 (split; [done|]).
    assert ((p + len) / 160 = q + 1) as Eq by (symmetry; apply (Z.div_unique_pos _ _ _ carry); lia).
    rewrite Eq. cbn [msgdig md ptr]. rewrite Emd, Ed, Eptr.
    split; [by replace (Z.to_nat (q + 1)) with (S (Z.to_nat q)) by lia|]. split; [done|]. split; [|lia].
    apply (Z.mod_unique_pos _ _ (q + 1)); lia.
  - assert ((p + len) / 160 = q) as Eq by (symmetry; apply (Z.div_unique_pos _ _ _ (p `mod` 160 + len)); lia).
    exists h, c, i. rewrite Eq, Eptr. do 6 (split; [done|]). split; [apply (Z.mod_unique_pos _ _ q); lia|lia].
  - assert ((p + len) / 160 = q) as Eq by (symmetry; apply (Z.div_unique_pos _ _ _ (p `mod` 160 + len)); lia).
    exists h, c, i. rewrite Eq, Eptr. do 6 (split; [done|]). split; [apply (Z.mod_unique_pos _ _ q); lia|lia].
Qed.

Lemma add_carry_spec h k len carry low w2 n i c :
  khash_ok h → 1 ≤ k ≤ nhash h → carry ≤ 31 → msgdig c = n → res h !! Z.to_nat k = Some low →
  (0 < carry → digest_word n (i + 1) h = (Ret w2, h)) →
  add_carry k len carry i c h =
    (Ret tt, set_res (<[Z.to_nat k := if 0 <? carry then Z.lor low (u32 (Z.shiftl (Z.land w2 (Z.ones carry)) (len - carry)))
                                      else low]> (res h)) h).
Proof.
  intros Hok Hk Hc <- Hlow Hw. unfold add_carry. destruct (Z.ltb_spec 0 carry) as [H0|H0].
  - rewrite (bind_Ret _ _ _ _ _ (Hw H0)), (bind_Ret _ _ _ _ _ (bitmask_ok carry h ltac:(lia))).
    rewrite (bind_Ret _ _ _ _ _ (read_res_ok k h Hok Hk)), (nth_lookup_Some _ _ 0 _ Hlow). by apply write_res_ok.
  - rewrite list_insert_id by done. by destruct h.
Qed.

Lemma extract_spec bytes h p c k :
  khash_ok h → 1 ≤ k ≤ nhash h → 0 ≤ p → cursor_at bytes p c →
  ∃ h' c', extract k c h = (Ret c', h') ∧ cursor_at bytes (p + shash h) c' ∧ khash_ok h' ∧ same_shape h h' ∧
    res h' = <[Z.to_nat k := cut bytes p (Z.to_nat (shash h))]> (res h).
Proof.
  intros Hok Hk Hp Hc. pose proof Hc as (Ed & _ & Eptr). pose proof (ok_shash h Hok) as Hs. pose proof (ok_res h Hok) as Hr.
  set (q := p / 160). set (i := p `mod` 160 / 32). set (bit := p `mod` 160 `mod` 32). set (len := shash h) in *.
  pose proof (Z.div_mod p 160 ltac:(lia)) as Ep. fold q in Ep.
  pose proof (Z.mod_pos_bound p 160 ltac:(lia)) as Hp160.
  pose proof (Z.div_mod (p `mod` 160) 32 ltac:(lia)) as Er. fold i bit in Er.
  pose proof (Z.mod_pos_bound (p `mod` 160) 32 ltac:(lia)) as Hbit. fold bit in Hbit.
  assert (0 ≤ i < 5) as Hi by (split; [apply Z.div_pos; lia|apply Z.div_lt_upper_bound; lia]).
  assert (0 ≤ q) as Hq by (apply Z.div_pos; lia).
  set (w1 := nth (Z.to_nat i) (digest_n bytes (Z.to_nat q)) 0).
  set (low := Z.land (Z.shiftr w1 bit) (Z.ones len)). set (carry := bit + len - 32).
  set (h1 := set_res (<[Z.to_nat k := low]> (res h)) h).
  assert (khash_ok h1) as Hok1 by (by apply set_res_ok).
  destruct (next_block_spec bytes h1 p len c q i bit Hok1 Hq Hi Hbit ltac:(lia) Hs Hc)
    as (h2 & c2 & i2 & E2 & Hok2 & Hsh2 & Er2 & Ed2 & Emd2 & Ep2 & Hi2). fold carry in E2.
  set (w2 := nth (Z.to_nat (i2 + 1)) (digest_n bytes (Z.to_nat ((p + len) / 160))) 0).
  assert (0 ≤ (p + len) / 160) as Hq2 by (apply Z.div_pos; lia).
  pose proof (add_carry_spec h2 k len carry low w2 (msgdig c2) i2 c2 Hok2) as E3.
  destruct Hsh2 as (En & Es & Emx & Eno). cbn in En, Es, Emx, Eno. rewrite En, Er2, Ed2 in E3.
  specialize (E3 Hk ltac:(lia) eq_refl). cbn [res h1 set_res] in E3. rewrite list_lookup_insert_eq in E3 by lia.
  specialize (E3 eq_refl ltac:(intros H0; apply digest_word_ok; apply Hi2; lia)).
  rewrite list_insert_insert_eq in E3.
  pose proof (join_words bytes len w1 w2 bit p Hbit Hs (digest_n_word _ _ _) (digest_n_word _ _ _)) as EJ.
  cbn zeta in EJ. fold low carry in EJ. rewrite EJ in E3.
  2:{ intros j Hj. unfold w1. rewrite stream_bit_at by lia. f_equal. lia. }
  2:{ intros j Hj. unfold w2. rewrite stream_bit_at by (try apply Hi2; lia). f_equal. specialize (Hi2 ltac:(lia)). lia. }
  exists (set_res (<[Z.to_nat k := cut bytes p (Z.to_nat len)]> (res h)) h2), (Cursor (msgdig c2) (md c2) (ptr c2 + len)).
  split; [|split; [by repeat split|split; [|split; [by repeat split|done]]]].
  2:{ destruct Hok2 as [On Os Or Ob]. split; [done|done| |done]. cbn [res set_res nhash]. by rewrite length_insert, En. }
  unfold extract. rewrite (bind_Ret (gets shash) _ h len h eq_refl). rewrite Eptr, Ed. fold q i bit.
  rewrite (bind_Ret _ _ _ _ _ (digest_word_ok bytes _ i h Hi)). fold w1.
  rewrite (bind_Ret _ _ _ _ _ (bitmask_ok len h ltac:(lia))). fold low.
  rewrite (bind_Ret _ _ _ _ _ (write_res_ok k low h Hok Hk)). fold h1 carry.
  rewrite (bind_Ret _ _ _ _ _ E2). rewrite (bind_Ret _ _ _ _ _ E3), Ep2.
  pose proof (Z.mod_pos_bound (p + len) 160 ltac:(lia)). unfold ensure.
  rewrite !(proj2 (Z.leb_le _ _)) by lia. reflexivity.
Qed.

(** ** All hashes *)

(** The hashes found so far. *)
Definition holds (l : list Z) (h : khash) : Prop := ∀ j v, l !! j = Some v → res h !! S j = Some v.

Lemma holds_read l h j v :
  khash_ok h → holds l h → Z.of_nat (length l) ≤ nhash h → l !! j = Some v → read_res (Z.of_nat (S j)) h = (Ret v, h).
Proof.
  intros Hok Hl Hn Hj. pose proof (lookup_lt_Some _ _ _ Hj).
  rewrite read_res_ok by (done || lia). rewrite Nat2Z.id. by rewrite (nth_lookup_Some _ _ 0 v) by by apply Hl.
Qed.

(** After the repeated value the loop finds no other. *)
Lemma norep_loop_again l h n i :
  khash_ok h → holds l h → Z.of_nat (length l) ≤ nhash h → NoDup l → (length l - S i ≤ n)%nat →
  norep_loop n (Z.of_nat (S i)) (Z.of_nat (length l)) h = (Ret (Z.of_nat (length l)), h).
Proof.
  intros Hok Hl Hn Hd. revert i. induction n as [|n IH]; intros i Hi; cbn [norep_loop].
  - by rewrite (proj2 (Z.ltb_ge _ _)) by lia.
  - destruct (Z.ltb_spec (Z.of_nat (S i)) (Z.of_nat (length l))) as [Hlt|]; [|done].
    destruct (lookup_lt_is_Some_2 l i ltac:(lia)) as [x Hx].
    destruct (lookup_lt_is_Some_2 l (length l - 1) ltac:(lia)) as [y Hy].
    rewrite (bind_Ret _ _ _ _ _ (holds_read l h i x Hok Hl Hn Hx)).
    pose proof (holds_read l h _ y Hok Hl Hn Hy) as Ry. replace (S (length l - 1)) with (length l) in Ry by lia.
    rewrite (bind_Ret _ _ _ _ _ Ry). destruct (Z.eqb_spec x y) as [->|].
    + pose proof (NoDup_lookup l i (length l - 1) y Hd Hx Hy). lia.
    + replace (Z.of_nat (S i) + 1) with (Z.of_nat (S (S i))) by lia. apply IH. lia.
Qed.

Lemma norep_loop_spec l v h n i :
  khash_ok h → holds (l ++ [v]) h → Z.of_nat (length l) < nhash h → NoDup l → (i ≤ length l)%nat → (length l - i ≤ n)%nat →
  v ∉ take i l →
  norep_loop n (Z.of_nat (S i)) (Z.of_nat (S (length l))) h =
    (Ret (Z.of_nat (if bool_decide (v ∈ l) then length l else S (length l))), h).
Proof.
  intros Hok Hl Hn Hd. assert (holds l h) as Hl' by (intros j x Hj; apply Hl; by apply lookup_app_l_Some).
  revert i. induction n as [|n IH]; intros i Hi Hf Hv; cbn [norep_loop].
  - rewrite (proj2 (Z.ltb_ge _ _)) by lia. rewrite take_ge in Hv by lia. by rewrite bool_decide_eq_false_2.
  - destruct (Z.ltb_spec (Z.of_nat (S i)) (Z.of_nat (S (length l)))) as [Hlt|Hge].
    2:{ rewrite take_ge in Hv by lia. by rewrite bool_decide_eq_false_2. }
    destruct (lookup_lt_is_Some_2 l i ltac:(lia)) as [x Hx].
    rewrite (bind_Ret _ _ _ _ _ (holds_read l h i x Hok Hl' ltac:(lia) Hx)).
    assert ((l ++ [v]) !! length l = Some v) as Hlast by (by rewrite lookup_app_r, Nat.sub_diag by lia).
    rewrite (bind_Ret _ _ _ _ _ (holds_read (l ++ [v]) h _ v Hok Hl ltac:(rewrite length_app; cbn; lia) Hlast)).
    replace (Z.of_nat (S i) + 1) with (Z.of_nat (S (S i))) by lia. destruct (Z.eqb_spec x v) as [->|Hne].
    + rewrite bool_decide_eq_true_2 by by apply list_elem_of_lookup_2 in Hx.
      replace (Z.of_nat (S (length l)) - 1) with (Z.of_nat (length l)) by lia.
      apply norep_loop_again; try done; lia.
    + apply IH; [lia..|]. rewrite (take_S_r _ _ x Hx). set_solver.
Qed.

Lemma candidates_prefix once bytes len i n : candidates once bytes len i `prefix_of` candidates once bytes len (i + n).
Proof.
  induction n as [|n IH]; [by rewrite Nat.add_0_r|]. rewrite Nat.add_succ_r, candidates_S.
  destruct (once && _); [done|]. by apply prefix_app_r.
Qed.

Lemma candidates_NoDup bytes len n : NoDup (candidates true bytes len n).
Proof. apply uniq_NoDup. Qed.

Lemma holds_snoc l v h k :
  holds l h → k = S (length l) → Z.of_nat (length l) < nhash h → khash_ok h → holds (l ++ [v]) (set_res (<[k := v]> (res h)) h).
Proof.
  intros Hl -> Hn Hok j x Hj. pose proof (ok_res h Hok). cbn [res set_res].
  apply lookup_app_Some in Hj as [Hj|[Hge Hj]].
  - pose proof (lookup_lt_Some _ _ _ Hj). rewrite list_lookup_insert_ne by lia. by apply Hl.
  - apply list_lookup_singleton_Some in Hj as [E ->]. replace (S j) with (S (length l)) by lia.
    rewrite list_lookup_insert_eq by lia. done.
Qed.

Lemma compute_loop_spec once bytes len fuel i h c :
  khash_ok h → shash h = len → norep h = once → cursor_at bytes (Z.of_nat i * len) c →
  holds (candidates once bytes len i) h → Z.of_nat (length (candidates once bytes len i)) ≤ nhash h →
  nhash h ≤ Z.of_nat (length (candidates once bytes len (i + fuel))) →
  ∃ h', compute_loop fuel (Z.of_nat (S (length (candidates once bytes len i)))) c h = (Ret tt, h') ∧ khash_ok h' ∧
    same_shape h h' ∧ holds (take (Z.to_nat (nhash h)) (candidates once bytes len (i + fuel))) h'.
Proof.
  intros Hok Hlen Honce. revert i h c Hok Hlen Honce.
  assert (∀ i h f, holds (candidates once bytes len i) h → nhash h = Z.of_nat (length (candidates once bytes len i)) →
    holds (take (Z.to_nat (nhash h)) (candidates once bytes len (i + f))) h) as Hdone.
  { intros i h f Hl E. destruct (candidates_prefix once bytes len i f) as [x ->].
    rewrite E, Nat2Z.id, take_app_length. done. }
  induction fuel as [|fuel IH]; intros i h c Hok Hlen Honce Hc Hl Hle Hen;
    set (l := candidates once bytes len i) in *; cbn [compute_loop]; run_m.
  - rewrite (proj2 (Z.leb_gt _ _)) by (rewrite Nat.add_0_r in Hen; fold l in Hen; lia).
    exists h. do 3 (split; [done|]). apply Hdone; [done|]. rewrite Nat.add_0_r in Hen. fold l in Hen |- *. lia.
  - destruct (Z.leb_spec (Z.of_nat (S (length l))) (nhash h)) as [Hlt|Hge].
    2:{ exists h. do 3 (split; [done|]). apply Hdone; [done|]. fold l. lia. }
    destruct (extract_spec bytes h (Z.of_nat i * len) c (Z.of_nat (S (length l))) Hok ltac:(lia)
      ltac:(pose proof (ok_shash h Hok); lia) Hc) as (h1 & c1 & E1 & Hc1 & Hok1 & Hsh1 & Er1).
    rewrite E1. destruct Hsh1 as (En & Es & Em & Eo). rewrite Eo, Honce.
    rewrite Hlen in Hc1, Er1. change (cut bytes (Z.of_nat i * len) (Z.to_nat len)) with (stream_hash bytes len i) in Er1.
    rewrite Nat2Z.id in Er1. set (v := stream_hash bytes len i) in *.
    replace (Z.of_nat i * len + len) with (Z.of_nat (S i) * len) in Hc1 by lia.
    assert (holds (l ++ [v]) h1) as Hl1.
    { pose proof (holds_snoc l v h (S (length l)) Hl eq_refl ltac:(lia) Hok) as H0. intros j x Hj. rewrite Er1. by apply H0. }
    rewrite Nat.add_succ_r in Hen |- *. change (S (i + fuel)) with (S i + fuel)%nat in Hen |- *.
    specialize (IH (S i) h1 c1 Hok1 ltac:(congruence) ltac:(congruence) Hc1).
    rewrite candidates_S in IH. fold l v in IH. cbn zeta in IH. rewrite En in IH.
    destruct once; cbn [andb] in IH.
    + pose proof (norep_loop_spec l v h1 (Z.to_nat (Z.of_nat (S (length l)))) 0 Hok1 Hl1 ltac:(lia)
        (candidates_NoDup _ _ _) ltac:(lia) ltac:(lia) ltac:(rewrite take_0; set_solver)) as En2.
      change (Z.of_nat 1) with 1 in En2. rewrite En2, Z.add_1_r, <- Nat2Z.inj_succ.
      assert (holds l h1) as Hl' by (intros j x Hj; apply Hl1; by apply lookup_app_l_Some).
      destruct (bool_decide (v ∈ l)); [|rewrite length_app, Nat.add_1_r in IH];
        (destruct IH as (h' & E' & Hok' & Hsh' & Hh'); [done|lia|done|]; exists h';
         split; [done|]; split; [done|]; split; [|done]; unfold same_shape in *; intuition congruence).
    + rewrite Z.add_1_r, <- Nat2Z.inj_succ. rewrite length_app, Nat.add_1_r in IH.
      destruct IH as (h' & E' & Hok' & Hsh' & Hh'); [done|lia|done|]. exists h'.
      split; [done|]. split; [done|]. split; [|done]. unfold same_shape in *. intuition congruence.
Qed.

(** The hashes of a key, if [n] rounds are enough to find them. *)
Definition hashes (h : khash) (n : nat) (bytes : list Z) : list Z :=
  take (Z.to_nat (nhash h)) (candidates (norep h) bytes (shash h) n).

Definition enough (h : khash) (n : nat) (bytes : list Z) : Prop :=
  nhash h ≤ Z.of_nat (length (candidates (norep h) bytes (shash h) n)).

Definition is_key (bytes : list Z) : Prop := Forall is_byte bytes ∧ 0 < Z.of_nat (length bytes) < 2 ^ 31.

Lemma enough_with_repetition h n bytes : norep h = false → nhash h ≤ Z.of_nat n → enough h n bytes.
Proof.
  intros E Hn. unfold enough, candidates, stream_hashes. rewrite E, length_fmap, length_seq. lia.
Qed.

Lemma length_hashes h n bytes : enough h n bytes → length (hashes h n bytes) = Z.to_nat (nhash h).
Proof. unfold enough, hashes. rewrite length_take. lia. Qed.

Lemma hashes_same_shape h h' n bytes : same_shape h h' → hashes h' n bytes = hashes h n bytes.
Proof. intros (E1 & E2 & _ & E3). unfold hashes. by rewrite E1, E2, E3. Qed.

Lemma enough_same_shape h h' n bytes : same_shape h h' → enough h n bytes → enough h' n bytes.
Proof. intros (E1 & E2 & _ & E3). unfold enough. by rewrite E1, E2, E3. Qed.

Lemma uniq_subseteq l v : v ∈ uniq l → v ∈ l.
Proof.
  induction l as [|x l IH] using rev_ind; [done|]. rewrite uniq_snoc. case_bool_decide; set_solver.
Qed.

Lemma hashes_range h n bytes : khash_ok h → Forall (λ v, 0 ≤ v < 2 ^ shash h) (hashes h n bytes).
Proof.
  intros Hok. pose proof (ok_shash h Hok). unfold hashes. apply Forall_take.
  assert (Forall (λ v, 0 ≤ v < 2 ^ shash h) (stream_hashes bytes (shash h) n)) as Hs.
  { unfold stream_hashes. apply Forall_fmap, Forall_true. intros i. apply stream_hash_range. lia. }
  unfold candidates. destruct (norep h); [|done]. rewrite Forall_forall in *. intros v Hv. by apply Hs, uniq_subseteq.
Qed.

Lemma compute_spec n bytes h :
  khash_ok h → is_key bytes → enough h n bytes →
  ∃ h', compute n bytes h = (Ret tt, h') ∧ khash_ok h' ∧ same_shape h h' ∧ holds (hashes h n bytes) h'.
Proof.
  intros Hok [Hb Hl] Hen. unfold compute. rewrite (proj2 (Z.ltb_lt _ _)) by lia.
  destruct (sha_of_digest bytes h Hok Hb ltac:(lia)) as (h1 & E1 & Hok1 & Hsh1 & Er1).
  run_m. rewrite E1. destruct Hsh1 as (En & Es & Em & Eo).
  assert (candidates (norep h) bytes (shash h) 0 = []) as E0 by (by destruct (norep h)).
  destruct (compute_loop_spec (norep h) bytes (shash h) n 0 h1 (Cursor (digest bytes) (copy_sha (digest bytes)) 0))
    as (h' & E' & Hok' & Hsh' & Hh'); [done..| | | |].
  - by rewrite E0.
  - rewrite E0. cbn. pose proof (ok_nhash h1 Hok1). lia.
  - rewrite Nat.add_0_l, En. apply Hen.
  - rewrite E0 in E'. cbn [length] in E'. change (Z.of_nat 1) with 1 in E'. rewrite E'.
    exists h'. split; [done|]. split; [done|]. split; [unfold same_shape in *; intuition congruence|].
    unfold hashes. by rewrite <- En.
Qed.

Lemma hash_at_spec l h j v :
  khash_ok h → holds l h → Z.of_nat (length l) ≤ nhash h → l !! j = Some v → hash_at (Z.of_nat (S j)) h = (Ret v, h).
Proof.
  intros Hok Hl Hn Hj. pose proof (lookup_lt_Some _ _ _ Hj). unfold hash_at. run_m.
  rewrite !(proj2 (Z.leb_le _ _)) by lia. cbn [andb]. by eapply holds_read.
Qed.

Lemma khash_new_ok junk_block junk_res n len once h :
  length junk_block = 64%nat → khash_new junk_block junk_res n len once = Ret h →
  khash_ok h ∧ maxdigest h = 2 ^ len ∧ nhash h = n ∧ shash h = len ∧ norep h = (once =? 1).
Proof.
  intros Hl. unfold khash_new.
  destruct (Z.leb_spec 1 n); [|done]. destruct (Z.leb_spec 1 len); [|done]. cbn [negb].
  destruct (_ || _); [|done]. destruct (Z.ltb_spec len 32); [|done]. cbn [negb].
  destruct (_ && _); [done|]. intros [= <-]. cbn. rewrite Z.shiftl_1_l.
  split; [|done]. split; cbn; [lia|lia| |done]. rewrite length_replicate. lia.
Qed.

(** ** The bits of a filter *)

Definition bit_at (l : list Z) (v : Z) : bool := Z.testbit (nth (Z.to_nat (v / 8)) l 0) (v `mod` 8).

(** The array of a filter is the set [S] of hashes. *)
Record bits_ok (f : bloomfilter) (S : gset Z) : Prop := BitsOk {
  bits_kh : khash_ok (kh f);
  bits_mmax : mmax f = 2 ^ shash (kh f);
  bits_max : mmax f ≤ 8 * mmax_arr f;
  bits_length : Z.of_nat (length (m f)) = mmax_arr f;
  bits_bytes : Forall is_byte (m f);
  bits_set : ∀ v, 0 ≤ v < mmax f → bit_at (m f) v = bool_decide (v ∈ S);
  bits_range : ∀ v, v ∈ S → 0 ≤ v < mmax f
}.

Lemma size_range (S : gset Z) n : (∀ v, v ∈ S → 0 ≤ v < n) → 0 ≤ n → Z.of_nat (size S) ≤ n.
Proof.
  intros HS Hn. assert (S ⊆ list_to_set (seqZ 0 n)) as Hsub.
  { intros v Hv. rewrite elem_of_list_to_set, elem_of_seqZ. specialize (HS v Hv). lia. }
  apply subseteq_size in Hsub. rewrite size_list_to_set, length_seqZ in Hsub by apply NoDup_seqZ. lia.
Qed.

Lemma shiftl_byte t : 0 ≤ t < 8 → u8 (Z.shiftl 1 t) = 2 ^ t.
Proof.
  intros Ht. rewrite Z.shiftl_1_l. apply u8_small. split; [apply Z.pow_nonneg; lia|].
  apply Z.pow_lt_mono_r; lia.
Qed.

Lemma place_spec f S v :
  bits_ok f S → 0 ≤ v < mmax f → place v f = (Ret (v / 8, 2 ^ (v `mod` 8)), f).
Proof.
  intros HS Hv. unfold place. run_m. rewrite Z.shiftr_div_pow2 by lia. change (2 ^ 3) with 8.
  assert (v / 8 < mmax_arr f) by (pose proof (bits_max f S HS); apply Z.div_lt_upper_bound; lia).
  rewrite (proj2 (Z.ltb_lt _ _)) by done. rewrite bitmask_ok by lia. rewrite Z.land_ones by lia. change (2 ^ 3) with 8.
  pose proof (Z.mod_pos_bound v 8 ltac:(lia)). rewrite (u8_small (v `mod` 8)) by lia.
  rewrite (proj2 (Z.ltb_lt _ _)) by lia. rewrite shiftl_byte by done. by destruct f.
Qed.

Lemma read_byte_spec f S v :
  bits_ok f S → 0 ≤ v < mmax f → read_byte (v / 8) f = (Ret (nth (Z.to_nat (v / 8)) (m f) 0), f).
Proof.
  intros HS Hv. unfold read_byte. run_m. rewrite (bits_length f S HS).
  assert (v / 8 < mmax_arr f) by (pose proof (bits_max f S HS); apply Z.div_lt_upper_bound; lia).
  assert (0 ≤ v / 8) by (apply Z.div_pos; lia).
  by rewrite (proj2 (Z.leb_le _ _)), (proj2 (Z.ltb_lt _ _)) by lia.
Qed.

(** The test of the code is the test of the bit. *)
Lemma land_pow2_eqb x t : 0 ≤ t → (Z.land x (2 ^ t) =? 0) = negb (Z.testbit x t).
Proof.
  intros Ht. destruct (Z.testbit x t) eqn:E; cbn [negb].
  - apply Z.eqb_neq. intros E0. assert (Z.testbit (Z.land x (2 ^ t)) t = true) as Hb.
    { by rewrite Z.land_spec, E, Z.pow2_bits_true. }
    by rewrite E0, Z.testbit_0_l in Hb.
  - apply Z.eqb_eq, Z.bits_inj'. intros j Hj. rewrite Z.land_spec, Z.testbit_0_l.
    destruct (Z.eq_dec t j) as [->|]; [by rewrite E|]. rewrite Z.pow2_bits_false by done. apply andb_false_r.
Qed.

Lemma bit_at_insert l v w :
  0 ≤ v → 0 ≤ w → v / 8 < Z.of_nat (length l) →
  bit_at (<[Z.to_nat (v / 8) := Z.lor (nth (Z.to_nat (v / 8)) l 0) (2 ^ (v `mod` 8))]> l) w =
    bool_decide (w = v) || bit_at l w.
Proof.
  intros Hv Hw Hl. unfold bit_at.
  assert (0 ≤ v / 8) by (apply Z.div_pos; lia). assert (0 ≤ w / 8) by (apply Z.div_pos; lia).
  pose proof (Z.mod_pos_bound v 8 ltac:(lia)). pose proof (Z.mod_pos_bound w 8 ltac:(lia)).
  pose proof (Z.div_mod v 8 ltac:(lia)) as Ev. pose proof (Z.div_mod w 8 ltac:(lia)) as Ew.
  destruct (Z.eq_dec (w / 8) (v / 8)) as [E|E].
  - rewrite E, (nth_lookup (<[_ := _]> l)), list_lookup_insert_eq by lia. cbn [default]. unfold id.
    rewrite Z.lor_spec, orb_comm. f_equal. destruct (Z.eq_dec (v `mod` 8) (w `mod` 8)) as [Em|Em].
    + rewrite Em, Z.pow2_bits_true by lia. symmetry. apply bool_decide_eq_true. lia.
    + rewrite Z.pow2_bits_false by done. symmetry. apply bool_decide_eq_false. intros ->. lia.
  - rewrite bool_decide_eq_false_2 by (intros ->; lia). cbn [orb]. f_equal.
    rewrite !nth_lookup. rewrite list_lookup_insert_ne by lia. done.
Qed.

(** ** The loops over the hashes *)

(** [l] are the hashes that [ks] names. *)
Definition named (ks l : list Z) (h : khash) : Prop := Forall2 (λ k v, hash_at k h = (Ret v, h)) ks l.

Lemma named_all l h : khash_ok h → holds l h → Z.of_nat (length l) = nhash h → named (seqZ 1 (nhash h)) l h.
Proof.
  intros Hok Hl Hn. unfold named. rewrite Forall2_lookup. intros i. rewrite <- Hn.
  destruct (l !! i) as [v|] eqn:E.
  - pose proof (lookup_lt_Some _ _ _ E). rewrite lookup_seqZ_lt by lia. constructor.
    replace (1 + Z.of_nat i) with (Z.of_nat (Datatypes.S i)) by lia. by eapply hash_at_spec; [| | |exact E]; [done..|lia].
  - apply lookup_ge_None in E. rewrite lookup_seqZ_ge by lia. constructor.
Qed.

Lemma add_bit_ok f S v :
  bits_ok f S → 0 ≤ v < mmax f →
  ∃ f', write_byte (v / 8) (Z.lor (nth (Z.to_nat (v / 8)) (m f) 0) (2 ^ (v `mod` 8))) f = (Ret tt, f') ∧
    bits_ok f' ({[v]} ∪ S) ∧ kh f' = kh f ∧ num_zeros f' = num_zeros f ∧ mmax f' = mmax f ∧ mmax_arr f' = mmax_arr f.
Proof.
  intros HS Hv. pose proof HS as [Hkh Hmax Hle Hlen Hby Hset Hran].
  assert (v / 8 < mmax_arr f) as Hb by (apply Z.div_lt_upper_bound; lia).
  assert (0 ≤ v / 8) as Hb0 by (apply Z.div_pos; lia).
  unfold write_byte. run_m. rewrite (proj2 (Z.leb_le _ _)), (proj2 (Z.ltb_lt _ _)) by lia.
  eexists. split; [reflexivity|]. split; [|done].
  split; cbn [kh m mmax mmax_arr]; try done.
  - by rewrite length_insert.
  - apply Forall_insert; [done|]. unfold is_byte. pose proof (Z.mod_pos_bound v 8 ltac:(lia)).
    assert (is_byte (nth (Z.to_nat (v / 8)) (m f) 0)) as Hx.
    { rewrite nth_lookup. destruct (m f !! _) as [x|] eqn:E; [|done]. by eapply Forall_lookup_1 in Hby. }
    split; [apply Z.lor_nonneg; split; [apply Hx|apply Z.pow_nonneg; lia]|].
    destruct (Z.eq_dec (Z.lor (nth (Z.to_nat (v / 8)) (m f) 0) (2 ^ (v `mod` 8))) 0) as [->|Hne]; [lia|].
    apply (Z.log2_lt_pow2 _ 8); [pose proof (Z.lor_nonneg (nth (Z.to_nat (v / 8)) (m f) 0) (2 ^ (v `mod` 8))) as [_ HH];
      specialize (HH ltac:(split; [apply Hx|apply Z.pow_nonneg; lia])); lia|].
    rewrite Z.log2_lor by (try apply Hx; apply Z.pow_nonneg; lia). apply Z.max_lub_lt.
    + destruct (Z.eq_dec (nth (Z.to_nat (v / 8)) (m f) 0) 0) as [->|]; [done|]. apply Z.log2_lt_pow2; unfold is_byte in Hx; lia.
    + rewrite Z.log2_pow2 by lia. lia.
  - intros w Hw. rewrite bit_at_insert by lia. rewrite Hset by done. apply eq_bool_prop_intro.
    rewrite orb_True, !bool_decide_spec. set_solver.
  - intros w Hw. apply elem_of_union in Hw as [Hw|Hw]; [|by apply Hran]. apply elem_of_singleton in Hw. by subst.
Qed.

Lemma insert_loop_spec ks l f S extra :
  bits_ok f S → named ks l (kh f) → Forall (λ v, 0 ≤ v < mmax f) l →
  ∃ f', insert_loop ks extra f = (Ret (extra + (Z.of_nat (size (list_to_set l ∪ S)) - Z.of_nat (size S))), f') ∧
    bits_ok f' (list_to_set l ∪ S) ∧ kh f' = kh f ∧ num_zeros f' = num_zeros f ∧ mmax f' = mmax f ∧
    mmax_arr f' = mmax_arr f.
Proof.
  intros HS Hks. revert f S extra HS Hks. induction l as [|v l IH] in ks |- *; intros f S extra HS Hks Hl;
    inversion Hks as [|k ? ks' ? Hk Hks']; subst; cbn [insert_loop list_to_set].
  - exists f. replace (∅ ∪ S) with S by set_solver. split; [|done]. unfold mret, M_ret. do 2 f_equal. lia.
  - apply Forall_cons in Hl as [Hv Hl].
    assert (zoom kh set_kh (hash_at k) f = (Ret v, f)) as Ek by (unfold zoom; rewrite Hk; by destruct f).
    rewrite (bind_Ret _ _ _ _ _ Ek), (bind_Ret _ _ _ _ _ (place_spec f S v HS Hv)). cbn [fst snd].
    rewrite (bind_Ret _ _ _ _ _ (read_byte_spec f S v HS Hv)).
    rewrite land_pow2_eqb by (apply Z.mod_pos_bound; lia). fold (bit_at (m f) v). rewrite (bits_set f S HS v Hv).
    case_bool_decide as Hin; cbn [negb].
    + destruct (IH ks' f S extra HS Hks' Hl) as (f' & E & HS' & Hrest). exists f'.
      replace ({[v]} ∪ list_to_set l ∪ S) with (list_to_set l ∪ S) by set_solver. done.
    + destruct (add_bit_ok f S v HS Hv) as (f1 & E1 & HS1 & Ekh & Ez & Em & Ea).
      rewrite (bind_Ret _ _ _ _ _ E1).
      destruct (IH ks' f1 ({[v]} ∪ S) (extra + 1) HS1) as (f' & E & HS' & Hrest); [by rewrite Ekh|by rewrite Em|].
      exists f'. replace ({[v]} ∪ list_to_set l ∪ S) with (list_to_set l ∪ ({[v]} ∪ S)) by set_solver.
      rewrite E. split; [|by rewrite <- Ekh, <- Ez, <- Em, <- Ea].
      do 2 f_equal. rewrite (size_union {[v]} S), size_singleton by set_solver. lia.
Qed.

Lemma check_loop_spec ks l f S :
  bits_ok f S → named ks l (kh f) → Forall (λ v, 0 ≤ v < mmax f) l →
  check_loop ks f = (Ret (bool_decide (list_to_set l ⊆ S)), f).
Proof.
  intros HS Hks. induction l as [|v l IH] in ks, Hks |- *; intros Hl;
    inversion Hks as [|k ? ks' ? Hk Hks']; subst; cbn [check_loop list_to_set].
  - by rewrite bool_decide_eq_true_2 by set_solver.
  - apply Forall_cons in Hl as [Hv Hl].
    assert (zoom kh set_kh (hash_at k) f = (Ret v, f)) as Ek by (unfold zoom; rewrite Hk; by destruct f).
    rewrite (bind_Ret _ _ _ _ _ Ek), (bind_Ret _ _ _ _ _ (place_spec f S v HS Hv)). cbn [fst snd].
    rewrite (bind_Ret _ _ _ _ _ (read_byte_spec f S v HS Hv)).
    rewrite land_pow2_eqb by (apply Z.mod_pos_bound; lia). fold (bit_at (m f) v). rewrite (bits_set f S HS v Hv).
    destruct (bool_decide_reflect (v ∈ S)) as [Hin|Hin]; cbn [negb].
    + etrans; [apply (IH ks' Hks' Hl)|]. do 2 f_equal. apply bool_decide_ext. set_solver.
    + rewrite bool_decide_eq_false_2 by set_solver. done.
Qed.

(** ** A filter is a set of hashes *)

Definition filter_ok (f : bloomfilter) (S : gset Z) : Prop :=
  bits_ok f S ∧ num_zeros f = mmax f - Z.of_nat (size S).

Definition hash_set (h : khash) (n : nat) (bytes : list Z) : gset Z := list_to_set (hashes h n bytes).

Lemma bits_ok_set_kh f S h : bits_ok f S → khash_ok h → same_shape (kh f) h → bits_ok (set_kh h f) S.
Proof. intros [? ? ? ? ? ? ?] Hok (E1 & E2 & E3 & E4). split; try done. cbn [kh set_kh mmax]. by rewrite E2. Qed.

Lemma compute_filter n bytes f S :
  bits_ok f S → is_key bytes → enough (kh f) n bytes →
  ∃ f', zoom kh set_kh (compute n bytes) f = (Ret tt, f') ∧ bits_ok f' S ∧ same_shape (kh f) (kh f') ∧
    num_zeros f' = num_zeros f ∧ mmax f' = mmax f ∧ mmax_arr f' = mmax_arr f ∧
    named (hash_indices f') (hashes (kh f) n bytes) (kh f') ∧
    Forall (λ v, 0 ≤ v < mmax f') (hashes (kh f) n bytes).
Proof.
  intros HS Hk Hen. destruct (compute_spec n bytes (kh f) (bits_kh f S HS) Hk Hen) as (h' & E & Hok & Hsh & Hh).
  exists (set_kh h' f). unfold zoom. rewrite E. split; [done|]. split; [by apply bits_ok_set_kh|].
  do 4 (split; [done|]). split.
  - apply named_all; [done|done|]. rewrite length_hashes by done. cbn [kh set_kh]. rewrite (proj1 Hsh).
    pose proof (ok_nhash _ (bits_kh f S HS)). lia.
  - cbn [mmax set_kh]. rewrite (bits_mmax f S HS). apply hashes_range, HS.
Qed.

Lemma insert_spec n bytes f S :
  filter_ok f S → is_key bytes → enough (kh f) n bytes →
  let hs := hash_set (kh f) n bytes in
  ∃ f', insert n bytes f = (Ret (bool_decide (¬ hs ⊆ S)), f') ∧ filter_ok f' (hs ∪ S) ∧ same_shape (kh f) (kh f') ∧
    mmax f' = mmax f ∧ mmax_arr f' = mmax_arr f.
Proof.
  intros [HS Hz] Hk Hen hs. destruct (compute_filter n bytes f S HS Hk Hen) as (f1 & E1 & HS1 & Hsh1 & Ez1 & Em1 & Ea1 & Hn1 & Hr1).
  destruct (insert_loop_spec _ _ f1 S 0 HS1 Hn1 Hr1) as (f2 & E2 & HS2 & Ekh2 & Ez2 & Em2 & Ea2).
  change (list_to_set (hashes (kh f) n bytes)) with hs in E2, HS2.
  unfold insert. rewrite (bind_Ret _ _ _ _ _ E1), (bind_Ret (gets hash_indices) _ f1 _ f1 eq_refl).
  rewrite (bind_Ret _ _ _ _ _ E2), Z.add_0_l.
  assert (size S ≤ size (hs ∪ S))%nat as Hle by (apply subseteq_size; set_solver).
  assert (Z.of_nat (size (hs ∪ S)) ≤ mmax f) as Hmax.
  { rewrite <- Em1, <- Em2. apply size_range; [apply (bits_range _ _ HS2)|]. rewrite (bits_mmax _ _ HS2). apply Z.pow_nonneg. lia. }
  destruct (Z.eqb_spec (Z.of_nat (size (hs ∪ S)) - Z.of_nat (size S)) 0) as [E0|E0].
  - assert (S = hs ∪ S) as E by (apply leibniz_equiv, set_subseteq_size_equiv; [set_solver|lia]).
    exists f2. rewrite bool_decide_eq_false_2 by set_solver. split; [done|]. split; [|split; [|by rewrite Em2, Ea2]].
    + split; [done|]. rewrite Ez2, Ez1, Em2, Em1, <- E. done.
    + by rewrite Ekh2.
  - rewrite bool_decide_eq_true_2 by (intros Hsub; apply E0; replace (hs ∪ S) with S by set_solver; lia).
    eexists. split; [reflexivity|]. split; [|split; [by cbn; rewrite Ekh2|by cbn; rewrite Em2, Ea2]].
    split; [by destruct HS2; split|]. cbn [num_zeros mmax]. rewrite Ez2, Ez1, Em2, Em1, Hz.
    rewrite u32_small; [lia|]. pose proof (bits_mmax f S HS) as Emm. pose proof (ok_shash _ (bits_kh f S HS)).
    assert (2 ^ shash (kh f) ≤ 2 ^ 31) by (apply Z.pow_le_mono_r; lia). lia.
Qed.

Lemma check_spec n bytes f S :
  filter_ok f S → is_key bytes → enough (kh f) n bytes →
  ∃ f', check n bytes f = (Ret (bool_decide (hash_set (kh f) n bytes ⊆ S)), f') ∧ filter_ok f' S ∧
    same_shape (kh f) (kh f') ∧ mmax f' = mmax f ∧ mmax_arr f' = mmax_arr f.
Proof.
  intros [HS Hz] Hk Hen. destruct (compute_filter n bytes f S HS Hk Hen) as (f1 & E1 & HS1 & Hsh1 & Ez1 & Em1 & Ea1 & Hn1 & Hr1).
  unfold check. rewrite (bind_Ret _ _ _ _ _ E1), (bind_Ret (gets hash_indices) _ f1 _ f1 eq_refl).
  rewrite (check_loop_spec _ _ f1 S HS1 Hn1 Hr1).
  exists f1. split; [done|]. split; [|done]. split; [done|]. by rewrite Ez1, Em1.
Qed.

Lemma bit_at_zeros n v : bit_at (replicate n 0) v = false.
Proof. unfold bit_at. rewrite nth_lookup. destruct (replicate n 0 !! _) as [x|] eqn:E; [|apply Z.testbit_0_l].
  apply lookup_replicate in E as [-> _]. apply Z.testbit_0_l. Qed.

Lemma clear_spec f S : bits_ok f S → filter_ok (clear f) ∅.
Proof.
  intros [Hkh Hmax Hle Hlen Hby Hset Hran]. split; [|cbn; rewrite size_empty; lia].
  assert (0 ≤ mmax_arr f) by lia.
  split; cbn [kh m mmax mmax_arr clear]; try done.
  - rewrite length_replicate. lia.
  - by apply Forall_replicate.
  - intros v Hv. by rewrite bit_at_zeros, bool_decide_eq_false_2.
Qed.

Lemma bloom_new_ok junk_block junk_res n len once f :
  length junk_block = 64%nat → bloom_new junk_block junk_res n len once = Ret f →
  filter_ok f ∅ ∧ mmax f = 2 ^ len ∧ maxdigest (kh f) = 2 ^ len ∧ nhash (kh f) = n ∧ shash (kh f) = len ∧
    norep (kh f) = (once =? 1).
Proof.
  intros Hl. unfold bloom_new. destruct (khash_new junk_block junk_res n len once) as [h|] eqn:E; [|done].
  apply khash_new_ok in E as (Hok & Emx & En & Es & Eo); [|done].
  destruct (negb _); [done|]. intros [= <-]. cbn [kh mmax clear]. rewrite Z.shiftl_1_l, Es. split; [|done].
  pose proof (ok_shash h Hok) as Hs. rewrite Es in Hs.
  split; [|cbn; rewrite size_empty; lia].
  assert (2 ^ len ≤ 8 * (if len <? 3 then 1 else Z.shiftl 1 (len - 3)) ∧ 0 ≤ (if len <? 3 then 1 else Z.shiftl 1 (len - 3)))
    as [Hle H0].
  { destruct (Z.ltb_spec len 3).
    - split; [|lia]. assert (2 ^ len ≤ 2 ^ 3) by (apply Z.pow_le_mono_r; lia). lia.
    - rewrite Z.shiftl_1_l. change 8 with (2 ^ 3). rewrite <- Z.pow_add_r by lia.
      split; [apply Z.pow_le_mono_r; lia|apply Z.pow_nonneg; lia]. }
  split; cbn [kh m mmax mmax_arr clear]; try done.
  - by rewrite Es.
  - rewrite length_replicate. lia.
  - by apply Forall_replicate.
  - intros v Hv. by rewrite bit_at_zeros, bool_decide_eq_false_2.
Qed.

(** ** Histories of a filter *)

Inductive filter_op := Insert (key : list Z) | Check (key : list Z) | Clear.

Definition op_key (o : filter_op) : option (list Z) :=
  match o with Insert k | Check k => Some k | Clear => None end.

Definition run_op (n : nat) (o : filter_op) : M bloomfilter bool :=
  match o with
  | Insert key => insert n key
  | Check key => check n key
  | Clear => modify clear;; mret true
  end.

Fixpoint run_ops (n : nat) (os : list filter_op) : M bloomfilter (list bool) :=
  match os with
  | [] => mret []
  | o :: os => r ← run_op n o; rs ← run_ops n os; mret (r :: rs)
  end.

(** What they do to a set. *)
Definition set_op (hs : list Z → gset Z) (o : filter_op) (S : gset Z) : bool * gset Z :=
  match o with
  | Insert key => (bool_decide (¬ hs key ⊆ S), hs key ∪ S)
  | Check key => (bool_decide (hs key ⊆ S), S)
  | Clear => (true, ∅)
  end.

Fixpoint set_ops (hs : list Z → gset Z) (os : list filter_op) (S : gset Z) : list bool * gset Z :=
  match os with
  | [] => ([], S)
  | o :: os =>
      let '(r, S1) := set_op hs o S in
      let '(rs, S2) := set_ops hs os S1 in
      (r :: rs, S2)
  end.

Definition usable (h : khash) (n : nat) (key : list Z) : Prop := is_key key ∧ enough h n key.
Definition usable_op (h : khash) (n : nat) (o : filter_op) : Prop :=
  match op_key o with Some key => usable h n key | None => True end.

Lemma filter_history_spec h n os f S :
  filter_ok f S → same_shape h (kh f) → Forall (usable_op h n) os →
  ∃ f', run_ops n os f = (Ret (set_ops (hash_set h n) os S).1, f') ∧
    filter_ok f' (set_ops (hash_set h n) os S).2 ∧ mmax f' = mmax f.
Proof.
  intros HS Hsh Hos. revert f S HS Hsh. induction Hos as [|o os Ho _ IH]; intros f S HS Hsh; [by exists f|].
  cbn [run_ops set_ops].
  assert (∃ f1, run_op n o f = (Ret (set_op (hash_set h n) o S).1, f1) ∧ filter_ok f1 (set_op (hash_set h n) o S).2 ∧
    same_shape h (kh f1) ∧ mmax f1 = mmax f) as (f1 & E1 & HS1 & Hsh1 & Em1).
  { assert (∀ key, hash_set (kh f) n key = hash_set h n key) as Eh
      by (intros key; unfold hash_set; by rewrite (hashes_same_shape h (kh f))).
    assert (∀ f', same_shape (kh f) (kh f') → same_shape h (kh f')) as Htr
      by (intros f'; unfold same_shape in *; intuition congruence).
    destruct o as [key|key|]; cbn [run_op set_op fst snd op_key] in *.
    - destruct Ho as [Hk Hen]. destruct (insert_spec n key f S HS Hk ltac:(by eapply enough_same_shape)) as (f1 & E & HS1 & Hsh1 & Em & _).
      rewrite Eh in E, HS1. exists f1. auto.
    - destruct Ho as [Hk Hen]. destruct (check_spec n key f S HS Hk ltac:(by eapply enough_same_shape)) as (f1 & E & HS1 & Hsh1 & Em & _).
      rewrite Eh in E. exists f1. auto.
    - exists (clear f). split; [done|]. split; [by apply (clear_spec f S), HS|done]. }
  rewrite (bind_Ret _ _ _ _ _ E1). destruct (set_op (hash_set h n) o S) as [r S1]. cbn [fst snd] in *.
  destruct (IH f1 S1 HS1 Hsh1) as (f2 & E2 & HS2 & Em2). rewrite (bind_Ret _ _ _ _ _ E2).
  destruct (set_ops (hash_set h n) os S1) as [rs S2]. exists f2. split; [done|]. split; [done|congruence].
Qed.

(** ** Histories of a pair of filters *)

(** What a pair stands for: the sets of the two filters and the threshold. *)
Record pair_view := PairView { v_learning : gset Z; v_detecting : gset Z; v_threshold : double }.

Definition view_add (m : Z) (hs : gset Z) (v : pair_view) : bool * pair_view :=
  let L := hs ∪ v_learning v in
  let D := hs ∪ v_detecting v in
  let dl := double_of_Z (m - Z.of_nat (size L)) in
  let dd := double_of_Z (m - Z.of_nat (size D)) in
  (bool_decide (¬ hs ⊆ v_detecting v),
   if dlt dl (v_threshold v) then
     PairView ∅ L (dmul (v_threshold v) (dsqrt (ddiv (ddiv (double_of_Z m) (double_of_Z 2)) dd)))
   else PairView L D (v_threshold v)).

Fixpoint view_adds (m : Z) (hs : list Z → gset Z) (keys : list (list Z)) (v : pair_view) : list bool * pair_view :=
  match keys with
  | [] => ([], v)
  | key :: keys =>
      let '(r, v1) := view_add m (hs key) v in
      let '(rs, v2) := view_adds m hs keys v1 in
      (r :: rs, v2)
  end.

Fixpoint add_all (n : nat) (keys : list (list Z)) : M bloom_pair (list bool) :=
  match keys with
  | [] => mret []
  | key :: keys => r ← add n key; rs ← add_all n keys; mret (r :: rs)
  end.

Record pair_ok (h : khash) (p : bloom_pair) (v : pair_view) : Prop := PairOk {
  pair_learning : filter_ok (B_learning p) (v_learning v);
  pair_detecting : filter_ok (B_detecting p) (v_detecting v);
  pair_sizes : mmax (B_learning p) = pair_m p ∧ mmax (B_detecting p) = pair_m p;
  pair_shapes : same_shape h (kh (B_learning p)) ∧ same_shape h (kh (B_detecting p));
  pair_threshold : threshold p = v_threshold v;
  pair_behind : v_learning v ⊆ v_detecting v
}.

Lemma same_shape_trans h1 h2 h3 : same_shape h1 h2 → same_shape h2 h3 → same_shape h1 h3.
Proof. unfold same_shape. intuition congruence. Qed.

Lemma add_spec h n key p v :
  pair_ok h p v → usable h n key →
  let r := view_add (pair_m p) (hash_set h n key) v in
  ∃ p', add n key p = (Ret r.1, p') ∧ pair_ok h p' r.2 ∧ pair_m p' = pair_m p ∧
    (hash_set h n key ⊆ v_detecting r.2).
Proof.
  intros [HL HD [EmL EmD] [HshL HshD] Et Hsub] [Hk Hen] r.
  destruct (insert_spec n key _ _ HL Hk ltac:(by eapply enough_same_shape)) as (fl & El & HL' & Hl' & Eml & _).
  destruct (insert_spec n key _ _ HD Hk ltac:(by eapply enough_same_shape)) as (fd & Ed & HD' & Hd' & Emd & _).
  unfold hash_set in *. rewrite (hashes_same_shape h _ n key HshL) in El, HL'. rewrite (hashes_same_shape h _ n key HshD) in Ed, HD'.
  set (hs := list_to_set (hashes h n key) : gset Z) in *.
  unfold add. run_m. rewrite El. cbn [B_detecting set_learning]. rewrite Ed.
  replace (negb (bool_decide (¬ hs ⊆ v_detecting v)) ||
    (bool_decide (¬ hs ⊆ v_detecting v) && bool_decide (¬ hs ⊆ v_learning v))) with true.
  2:{ destruct (bool_decide_reflect (¬ hs ⊆ v_detecting v)) as [Hd|]; [|done]. rewrite bool_decide_eq_true_2 by set_solver. done. }
  cbn [B_learning B_detecting set_learning set_detecting threshold get_nzero].
  assert (num_zeros fl = pair_m p - Z.of_nat (size (hs ∪ v_learning v))) as Ezl by (rewrite (proj2 HL'); congruence).
  assert (num_zeros fd = pair_m p - Z.of_nat (size (hs ∪ v_detecting v))) as Ezd by (rewrite (proj2 HD'); congruence).
  unfold get_nzero. rewrite Ezl, Ezd, Et. subst r. unfold view_add. cbn [fst snd].
  destruct (dlt _ (v_threshold v)); eexists; (split; [reflexivity|]).
  - split; [|split; [done|set_solver]].
    split; cbn [swap_filters B_learning B_detecting pair_m threshold set_learning set_detecting v_learning v_detecting v_threshold].
    + apply (clear_spec fd (hs ∪ v_detecting v)), HD'.
    + done.
    + split; cbn [clear mmax]; congruence.
    + split; [by apply (same_shape_trans _ _ _ HshD)|by apply (same_shape_trans _ _ _ HshL)].
    + by rewrite Et.
    + set_solver.
  - split; [|split; [done|set_solver]].
    split; cbn [B_learning B_detecting pair_m threshold set_learning set_detecting v_learning v_detecting v_threshold];
      try done; [split; congruence| |set_solver].
    split; [by apply (same_shape_trans _ _ _ HshL)|by apply (same_shape_trans _ _ _ HshD)].
Qed.

Lemma add_all_spec h n keys p v :
  pair_ok h p v → Forall (usable h n) keys →
  let r := view_adds (pair_m p) (hash_set h n) keys v in
  ∃ p', add_all n keys p = (Ret r.1, p') ∧ pair_ok h p' r.2 ∧ pair_m p' = pair_m p.
Proof.
  intros Hp Hkeys. revert p v Hp. induction Hkeys as [|key keys Hk _ IH]; intros p v Hp; [by exists p|].
  cbn [add_all view_adds]. destruct (add_spec h n key p v Hp Hk) as (p1 & E1 & Hp1 & Em1 & _).
  rewrite (bind_Ret _ _ _ _ _ E1). destruct (view_add (pair_m p) (hash_set h n key) v) as [r v1]. cbn [fst snd] in *.
  destruct (IH p1 v1 Hp1) as (p2 & E2 & Hp2 & Em2). rewrite (bind_Ret _ _ _ _ _ E2). rewrite Em1 in E2, Hp2.
  exists p2. rewrite Em1. destruct (view_adds (pair_m p) (hash_set h n) keys v1) as [rs v2].
  split; [done|]. split; [done|congruence].
Qed.

Lemma pair_new_ok junk_block junk_res n len p :
  length junk_block = 64%nat → pair_new junk_block junk_res n len = Ret p →
  pair_ok (kh (B_learning p)) p (PairView ∅ ∅ (start_threshold (2 ^ len))) ∧ pair_m p = 2 ^ len.
Proof.
  intros Hl. unfold pair_new. destruct (bloom_new junk_block junk_res n len 1) as [b|] eqn:E; [|done].
  apply bloom_new_ok in E as (Hb & Em & Emx & _); [|done].
  destruct (negb _); [done|]. intros [= <-]. cbn [pair_m B_learning]. split; [|done].
  split; cbn [B_learning B_detecting pair_m threshold v_learning v_detecting v_threshold]; try done.
  - split; congruence.
  - by rewrite Emx.
Qed.

(** ** Properties *)

(** [khash::compute] returns once its rounds can meet [nhash] values (without
    the flag [norep], [nhash] rounds); it then holds the first [nhash] values (with
    [norep], the first different ones) of [shash] bits of the stream of the SHA-1 of
    the key, the SHA-1 of that, and so on; each is below [maxdigest]. *)
Theorem khash_cuts_digests junk_block junk_res n len once h rounds key :
  length junk_block = 64%nat → khash_new junk_block junk_res n len once = Ret h → is_key key →
  n ≤ Z.of_nat (length (candidates (once =? 1) key len rounds)) →
  ∃ h', compute rounds key h = (Ret tt, h') ∧
    (∀ j : nat, Z.of_nat j < n → ∃ v, hash_at (Z.of_nat (S j)) h' = (Ret v, h') ∧
      candidates (once =? 1) key len rounds !! j = Some v ∧ 0 ≤ v < maxdigest h') ∧
    (once = 0 → n ≤ Z.of_nat rounds → Z.of_nat (length (candidates false key len rounds)) = Z.of_nat rounds).
Proof.
  intros Hl E Hk Hen. apply khash_new_ok in E as (Hok & Em & En & Es & Eo); [|done].
  destruct (compute_spec rounds key h Hok Hk) as (h' & E' & Hok' & Hsh & Hh); [unfold enough; by rewrite En, Es, Eo|].
  exists h'. split; [done|]. split.
  2:{ intros _ _. unfold candidates, stream_hashes. by rewrite length_fmap, length_seq. }
  intros j Hj. unfold hashes in Hh. rewrite En, Es, Eo in Hh.
  destruct (lookup_lt_is_Some_2 (candidates (once =? 1) key len rounds) j ltac:(lia)) as [v Hv].
  exists v. destruct Hsh as (En' & Es' & Em' & Eo'). split; [|split; [done|]].
  - eapply hash_at_spec; [done|exact Hh|rewrite length_take; lia|]. by rewrite lookup_take_lt by lia.
  - pose proof (hashes_range h rounds key Hok) as HF. unfold hashes in HF. rewrite En, Es, Eo in HF.
    rewrite Em', Em. rewrite Forall_lookup in HF. apply (HF j). by rewrite lookup_take_lt by lia.
Qed.

(** C24: a Bloom filter answers any history of insertions, look-ups and clears as the
    set of the keys' hashes does: [insert] tells whether a hash was new, [check]
    whether all are there (so a key inserted is found), [get_nzero] counts the rest. *)
Theorem bloom_filter_refines_set junk_block junk_res n len once f rounds os :
  length junk_block = 64%nat → bloom_new junk_block junk_res n len once = Ret f →
  Forall (usable_op (kh f) rounds) os →
  ∃ f', run_ops rounds os f = (Ret (set_ops (hash_set (kh f) rounds) os ∅).1, f') ∧
    get_nzero f' = 2 ^ len - Z.of_nat (size (set_ops (hash_set (kh f) rounds) os ∅).2) ∧
    ∀ key, usable (kh f) rounds key → hash_set (kh f) rounds key ⊆ (set_ops (hash_set (kh f) rounds) os ∅).2 →
      ∃ f2, run_op rounds (Check key) f' = (Ret true, f2).
Proof.
  intros Hl E Hos. apply bloom_new_ok in E as (Hf & Em & _); [|done].
  assert (same_shape (kh f) (kh f)) as Hsh by done.
  destruct (filter_history_spec (kh f) rounds os f ∅ Hf Hsh Hos) as (f' & E' & [HS' Hz'] & Em').
  exists f'. split; [done|]. split; [unfold get_nzero; rewrite Hz'; congruence|].
  intros key Hk Hin.
  assert (Forall (usable_op (kh f) rounds) (os ++ [Check key])) as Hos2 by (apply Forall_app; split; [done|by constructor]).
  assert (∀ l g, run_ops rounds (os ++ l) g = (rs ← run_ops rounds os; rs2 ← run_ops rounds l; mret (rs ++ rs2)) g) as Happ.
  { intros l. clear. induction os as [|o os IH]; intros g; cbn [app run_ops].
    - run_m. by destruct (run_ops rounds l g) as [[]].
    - run_m. destruct (run_op rounds o g) as [[r|] g1]; [|done]. rewrite IH. run_m.
      destruct (run_ops rounds os g1) as [[rs|] g2]; [|done]. by destruct (run_ops rounds l g2) as [[]]. }
  destruct (filter_history_spec (kh f) rounds (os ++ [Check key]) f ∅ Hf Hsh Hos2) as (f2 & E2 & _).
  rewrite Happ in E2. rewrite (bind_Ret _ _ _ _ _ E') in E2. cbn [run_ops] in E2. revert E2. run_m.
  destruct (run_op rounds (Check key) f') as [[b|] f3]; [|done]. intros [= E2 _]. exists f3.
  assert (set_ops (hash_set (kh f) rounds) (os ++ [Check key]) ∅ =
    ((set_ops (hash_set (kh f) rounds) os ∅).1 ++ [bool_decide (hash_set (kh f) rounds key ⊆
      (set_ops (hash_set (kh f) rounds) os ∅).2)], (set_ops (hash_set (kh f) rounds) os ∅).2)) as Es.
  { clear. generalize (∅ : gset Z) as S. induction os as [|o os IH]; intros S; [done|]. cbn [app set_ops].
    destruct (set_op (hash_set (kh f) rounds) o S) as [r S1]. rewrite IH. by destruct (set_ops _ os S1). }
  rewrite Es in E2. apply app_inj_2 in E2 as [_ E2]; [|done]. injection E2 as ->. by rewrite bool_decide_eq_true_2.
Qed.

(** The pair of filters refines a pair of sets, for any sequence of keys: its
    assertion never fails, because the learning set stays inside the detecting one;
    [add] tells whether the key was new to the detecting set, which holds it then. *)
Theorem bloom_pair_refines_sets junk_block junk_res n len p rounds keys :
  length junk_block = 64%nat → pair_new junk_block junk_res n len = Ret p →
  Forall (usable (kh (B_learning p)) rounds) keys →
  let hs := hash_set (kh (B_learning p)) rounds in
  let r := view_adds (2 ^ len) hs keys (PairView ∅ ∅ (start_threshold (2 ^ len))) in
  ∃ p', add_all rounds keys p = (Ret r.1, p') ∧
    filter_ok (B_learning p') (v_learning r.2) ∧ filter_ok (B_detecting p') (v_detecting r.2) ∧
    v_learning r.2 ⊆ v_detecting r.2 ∧ threshold p' = v_threshold r.2 ∧
    ∀ key, usable (kh (B_learning p)) rounds key →
      ∃ p2 p3, add rounds key p' = (Ret (bool_decide (¬ hs key ⊆ v_detecting r.2)), p2) ∧
        add rounds key p2 = (Ret false, p3).
Proof.
  intros Hl E Hkeys hs r. apply pair_new_ok in E as [Hp Em]; [|done].
  destruct (add_all_spec _ rounds keys p _ Hp Hkeys) as (p' & E' & Hp' & Em'). rewrite Em in E', Hp'. fold hs r in E', Hp'.
  exists p'. split; [done|]. pose proof Hp' as [HL HD _ _ Et Hsub]. do 4 (split; [done|]).
  intros key Hk. destruct (add_spec _ rounds key p' _ Hp' Hk) as (p2 & E2 & Hp2 & Em2 & Hin).
  destruct (add_spec _ rounds key p2 _ Hp2 Hk) as (p3 & E3 & _).
  exists p2, p3. split; [exact E2|]. rewrite E3. unfold view_add at 1. cbn [fst]. by rewrite bool_decide_eq_false_2 by (intros HH; by apply HH).
Qed.

(** ** Witnesses *)

Definition block0 : list Z := replicate 64 0.
Definition key1 : list Z := [97; 98; 99].
Definition key2 : list Z := [100; 101; 102].

Lemma khash_cuts_digests_witness :
  ∃ h h', khash_new block0 0 20 13 0 = Ret h ∧ compute 20 key1 h = (Ret tt, h') ∧
    ∃ v, hash_at 20 h' = (Ret v, h').
Proof.
  destruct (khash_new block0 0 20 13 0) as [h|] eqn:E; [|vm_compute in E; discriminate].
  destruct (khash_cuts_digests block0 0 20 13 0 h 20 key1 eq_refl E) as (h' & E' & Hv & _).
  - split; [by repeat constructor|done].
  - unfold candidates, stream_hashes. cbn [Z.eqb]. by rewrite length_fmap, length_seq.
  - exists h, h'. split; [done|]. split; [done|]. destruct (Hv 19%nat ltac:(lia)) as (v & Ev & _). by exists v.
Defined.

Lemma usable_repeating f key n : norep (kh f) = false → nhash (kh f) ≤ Z.of_nat n → is_key key → usable (kh f) n key.
Proof. intros E Hn Hk. split; [done|]. by apply enough_with_repetition. Qed.

Lemma bloom_filter_refines_set_witness :
  ∃ f f', bloom_new block0 0 4 6 0 = Ret f ∧
    let os := [Insert key1; Check key1; Check key2; Clear; Check key1] in
    run_ops 4 os f = (Ret (set_ops (hash_set (kh f) 4) os ∅).1, f').
Proof.
  destruct (bloom_new block0 0 4 6 0) as [f|] eqn:E; [|vm_compute in E; discriminate].
  destruct (bloom_filter_refines_set block0 0 4 6 0 f 4 [Insert key1; Check key1; Check key2; Clear; Check key1] eq_refl E) as (f' & E' & _).
  - assert (usable (kh f) 4 key1 ∧ usable (kh f) 4 key2) as [H1 H2].
    { injection E as <-. split; (apply usable_repeating; [done|done|split; [by repeat constructor|done]]). }
    constructor; [exact H1|constructor; [exact H1|constructor; [exact H2|constructor; [exact I|constructor; [exact H1|constructor]]]]].
  - exists f, f'. split; [done|]. exact E'.
Defined.

Lemma bloom_pair_refines_sets_witness :
  ∃ p p' rs, pair_new block0 0 1 5 = Ret p ∧ add_all 1 [key1; key2; key1] p = (Ret rs, p').
Proof.
  destruct (pair_new block0 0 1 5) as [p|] eqn:E; [|vm_compute in E; discriminate].
  destruct (bloom_pair_refines_sets block0 0 1 5 p 1 [key1; key2; key1] eq_refl E) as (p' & E' & _).
  - assert (usable (kh (B_learning p)) 1 key1 ∧ usable (kh (B_learning p)) 1 key2) as [H1 H2].
    { injection E as <-. split; (split; [split; [by repeat constructor|done]|by vm_compute]). }
    constructor; [exact H1|constructor; [exact H2|constructor; [exact H1|constructor]]].
  - exists p, p'. eexists. split; [done|]. exact E'.
Defined.
