(* ===== verification/Cusum.v ===== *)
(** * Change detection

    Models [lib/cusum]: the class [Cusum] ([Cusum.hpp], [Cusum.cpp]) over the score
    function its subclasses implement, the non-parametric score of [CusumNP.hpp],
    [CusumNP.cpp], and a detector for several values, [MultiCusum.hpp],
    [MultiCusum.cpp].

    A subclass is an instance of [Score] on the state it adds.  Numbers are
    doubles; an array from [new double[n]] holds whatever the memory held. *)

From S2P Require Export Double.

(** ** [Cusum] *)

(** What a subclass implements. *)
Class Score (T : Type) := {
  compute_score : double → M T double;
  reset_score : T → T;
  (** the copy [clone] makes, on fresh memory *)
  clone_score : list double → T → T
}.

Record cusum (T : Type) := Cusum { m_threshold : double; m_current_sum : double; scorer : T }.
Arguments Cusum {T} _ _ _.
Arguments m_threshold {T} _.
Arguments m_current_sum {T} _.
Arguments scorer {T} _.

Section cusum.
Context {T : Type} {HT : Score T}.

Definition cusum_new (threshold : double) (t : T) : cusum T := Cusum threshold dzero t.

Definition set_scorer (t : T) (c : cusum T) : cusum T := Cusum (m_threshold c) (m_current_sum c) t.
Definition set_sum (x : double) (c : cusum T) : cusum T := Cusum (m_threshold c) x (scorer c).

Definition check (value : double) : M (cusum T) bool :=
  score ← zoom scorer set_scorer (compute_score value);
  sum ← gets m_current_sum;
  (if dgt (dadd sum score) dzero then modify (set_sum (dadd sum score)) else modify (set_sum dzero));;
  c ← gets id;
  mret (dge (m_current_sum c) (m_threshold c)).

Definition reset (c : cusum T) : cusum T := Cusum (m_threshold c) dzero (reset_score (scorer c)).

Definition get_threshold (c : cusum T) : double := m_threshold c.

Definition clone (junk : list double) (c : cusum T) : cusum T :=
  cusum_new (get_threshold c) (clone_score junk (scorer c)).

Fixpoint checks (values : list double) : M (cusum T) (list bool) :=
  match values with
  | [] => mret []
  | v :: values => b ← check v; bs ← checks values; mret (b :: bs)
  end.

(** ** [MultiCusum] *)

(** The constructor: [count] clones. *)
Definition multi_new (junks : list (list double)) (c : cusum T) : list (cusum T) := (λ junk, clone junk c) <$> junks.

(** [values[i]] *)
Definition value_at (values : list double) (i : nat) : M (list (cusum T)) double :=
  match values !! i with
  | Some v => mret v
  | None => throw (undefined_behaviour "value")
  end.

(** The detector [i] of the array; the loop's index is below the length. *)
Definition on_detector {A} (i : nat) (f : M (cusum T) A) : M (list (cusum T)) A := λ cs,
  match cs !! i with
  | Some c => let '(r, c) := f c in (r, <[i := c]> cs)
  | None => (Throw (undefined_behaviour "m_cusum"), cs)
  end.

Fixpoint multi_loop (n i : nat) (values : list double) : M (list (cusum T)) Z :=
  match n with
  | O => mret (-1)
  | S n =>
      v ← value_at values i;
      b ← on_detector i (check v);
      if b : bool then mret (Z.of_nat i) else multi_loop n (S i) values
  end.

Definition multi_check (values : list double) : M (list (cusum T)) Z :=
  n ← gets length;
  multi_loop n 0 values.

(** The overload for [int] values, which the calls convert. *)
Definition multi_check_int (values : list Z) : M (list (cusum T)) Z := multi_check (double_of_Z <$> values).

Definition multi_reset (cs : list (cusum T)) : list (cusum T) := reset <$> cs.
End cusum.

(** ** [CusumNP] *)

Record cusum_np := CusumNP {
  m_mean_window : Z;
  m_offset : double;
  m_last_values : list double;
  m_last_value_index : Z;
  m_last_values_count : Z
}.

(** The constructor; [junk] has the length of the array. *)
Definition np_new (junk : list double) (mean_window : Z) (offset : double) : cusum_np :=
  CusumNP mean_window offset (take (Z.to_nat mean_window) junk) 0 0.

(** [mean += m_last_values[i]] for the first [count] values. *)
Definition np_mean (count : Z) (values : list double) : double :=
  ddiv (foldl dadd dzero (take (Z.to_nat count) values)) (double_of_Z count).

Definition np_compute_score (value : double) : M cusum_np double :=
  s ← gets id;
  let count := m_last_values_count s in
  ensure (count <=? Z.of_nat (length (m_last_values s))) (undefined_behaviour "m_last_values");;
  let mean := if 0 <? count then np_mean count (m_last_values s) else value in
  let score := dsub (dsub value mean) (m_offset s) in
  let i := m_last_value_index s in
  ensure (i <? Z.of_nat (length (m_last_values s))) (undefined_behaviour "m_last_values");;
  ensure (negb (m_mean_window s =? 0)) (undefined_behaviour "% 0");;
  modify (λ s, CusumNP (m_mean_window s) (m_offset s) (<[Z.to_nat i := value]> (m_last_values s))
    (u32 (i + 1) `mod` m_mean_window s) (if count <? m_mean_window s then u32 (count + 1) else count));;
  mret score.

Definition np_reset (s : cusum_np) : cusum_np := CusumNP (m_mean_window s) (m_offset s) (m_last_values s) 0 0.

#[export] Instance np_score : Score cusum_np := {|
  compute_score := np_compute_score;
  reset_score := np_reset;
  clone_score junk s := np_new junk (m_mean_window s) (m_offset s)
|}.

(** ** What the window holds *)

(** The last [w] values, in the order of their slots: value number [p] is in slot
    [p mod w]. *)
Definition slots (w : nat) (hist : list double) : list double :=
  if decide (length hist ≤ w)%nat then hist
  else
    let recent := drop (length hist - w) hist in
    let r := (length hist `mod` w)%nat in
    drop (w - r) recent ++ take (w - r) recent.

(** The score of a value after the values [hist]. *)
Definition spec_score (w : nat) (offset : double) (hist : list double) (value : double) : double :=
  let window := slots w hist in
  let mean := if decide (window = []) then value else np_mean (Z.of_nat (length window)) window in
  dsub (dsub value mean) offset.

(** The sum after [values], from the sum after [hist]. *)
Fixpoint spec_checks (w : nat) (offset threshold : double) (hist values : list double) (sum : double) : list bool * double :=
  match values with
  | [] => ([], sum)
  | v :: values =>
      let s := dadd sum (spec_score w offset hist v) in
      let sum := if dgt s dzero then s else dzero in
      let '(bs, sum') := spec_checks w offset threshold (hist ++ [v]) values sum in
      (dge sum threshold :: bs, sum')
  end.

(** The state after [hist]. *)
Record np_holds (w : nat) (offset : double) (hist : list double) (s : cusum_np) : Prop := NpHolds {
  np_window : m_mean_window s = Z.of_nat w;
  np_offset : m_offset s = offset;
  np_length : length (m_last_values s) = w;
  np_count : m_last_values_count s = Z.of_nat (length hist `min` w);
  np_index : m_last_value_index s = Z.of_nat (length hist) `mod` Z.of_nat w;
  np_values : take (length hist `min` w) (m_last_values s) = slots w hist
}.

Lemma length_slots w hist : (0 < w)%nat → length (slots w hist) = (length hist `min` w)%nat.
Proof.
  intros Hw. unfold slots. case_decide; [lia|].
  rewrite length_app, length_take, !length_drop.
  pose proof (Nat.mod_upper_bound (length hist) w ltac:(lia)). lia.
Qed.

(** The last [w] values rotated to their slots. *)
Lemma slots_full w hist :
  (0 < w ≤ length hist)%nat →
  let recent := drop (length hist - w) hist in
  let r := (length hist `mod` w)%nat in
  slots w hist = drop (w - r) recent ++ take (w - r) recent.
Proof.
  intros Hw recent r. unfold slots. case_decide as H; [|done].
  assert (length hist = w) as E by lia. subst recent r. rewrite E, Nat.sub_diag, Nat.Div0.mod_same, Nat.sub_0_r, drop_0.
  by rewrite drop_ge, take_ge by lia.
Qed.

(** A value takes the slot of the oldest one. *)
Lemma slots_step w hist v :
  (0 < w ≤ length hist)%nat → <[(length hist `mod` w)%nat := v]> (slots w hist) = slots w (hist ++ [v]).
Proof.
  intros Hw. rewrite slots_full, (slots_full w (hist ++ [v])) by (rewrite ?length_app; lia).
  rewrite length_app. cbn [length]. set (n := length hist) in *. set (L := drop (n - w) hist).
  set (r := (n `mod` w)%nat). pose proof (Nat.mod_upper_bound n w ltac:(lia)) as Hr. fold r in Hr.
  assert (length L = w) as HL by (subst L; rewrite length_drop; lia).
  assert (drop (n + 1 - w) (hist ++ [v]) = drop 1 L ++ [v]) as EL.
  { rewrite drop_app_le by lia. f_equal. subst L. rewrite drop_drop. f_equal. lia. }
  rewrite EL.
  rewrite <- (Nat.add_0_r r) at 1.
  assert (length (drop (w - r) L) = r) as Hd by (rewrite length_drop; lia).
  rewrite <- Hd at 1. rewrite insert_app_r.
  assert (take (w - r) L = nth 0 L v :: take (w - r - 1) (drop 1 L)) as Et.
  { destruct L as [|x L']; cbn [length] in HL; [lia|]. replace (w - r)%nat with (S (w - r - 1)) at 1 by lia. done. }
  rewrite Et. cbn [insert list_insert].
  destruct (Nat.eq_dec (r + 1) w) as [E|E].
  - replace ((n + 1) `mod` w)%nat with 0%nat.
    2:{ symmetry. rewrite <- Nat.Div0.add_mod_idemp_l. fold r. rewrite E. apply Nat.Div0.mod_same. }
    rewrite Nat.sub_0_r. replace (w - r)%nat with 1%nat by lia. cbn [Nat.sub take].
    rewrite (drop_ge (drop 1 L ++ [v])), (take_ge (drop 1 L ++ [v])) by (rewrite length_app, length_drop, HL; cbn [length]; lia). done.
  - replace ((n + 1) `mod` w)%nat with (r + 1)%nat.
    2:{ rewrite <- Nat.Div0.add_mod_idemp_l. fold r. symmetry. apply Nat.mod_small. lia. }
    rewrite drop_app_le, take_app_le by (rewrite length_drop; lia). rewrite drop_drop.
    replace (1 + (w - (r + 1)))%nat with (w - r)%nat by lia. replace (w - (r + 1))%nat with (w - r - 1)%nat by lia.
    by rewrite <- app_assoc.
Qed.

Lemma np_step w offset hist v s :
  (0 < w)%nat → Z.of_nat w < 2 ^ 32 → np_holds w offset hist s →
  ∃ s', np_compute_score v s = (Ret (spec_score w offset hist v), s') ∧ np_holds w offset (hist ++ [v]) s'.
Proof.
  intros Hw Hw32 [Ew Eo El Ec Ei Ev]. unfold np_compute_score. run_m. rewrite Ec, Ei, El, Ew.
  pose proof (Z.mod_pos_bound (Z.of_nat (length hist)) (Z.of_nat w) ltac:(lia)) as Hi.
  rewrite (proj2 (Z.leb_le _ _)), (proj2 (Z.ltb_lt (_ `mod` _) _)) by lia.
  rewrite (proj2 (Z.eqb_neq (Z.of_nat w) 0)) by lia. cbn [negb].
  eexists. split.
  - do 2 f_equal. unfold spec_score. rewrite Eo. do 2 f_equal.
    destruct (Z.ltb_spec 0 (Z.of_nat (length hist `min` w))) as [H0|H0].
    + rewrite decide_False by (intros E; apply (f_equal length) in E; rewrite length_slots in E; cbn in E; lia).
      unfold np_mean. rewrite length_slots by done. rewrite !Nat2Z.id, Ev. by rewrite (take_ge (slots w hist)) by (rewrite length_slots; lia).
    + rewrite decide_True; [done|]. apply nil_length_inv. rewrite length_slots by done. lia.
  - assert (Z.to_nat (Z.of_nat (length hist) `mod` Z.of_nat w) = (length hist `mod` w)%nat) as En
      by (by rewrite <- Nat2Z.inj_mod, Nat2Z.id).
    split; cbn [m_mean_window m_offset m_last_values m_last_value_index m_last_values_count]; try done.
    + by rewrite length_insert.
    + rewrite Ew, length_app. cbn [length]. destruct (Z.ltb_spec (Z.of_nat (length hist `min` w)) (Z.of_nat w)).
      * rewrite u32_small by lia. lia.
      * lia.
    + rewrite Ew, length_app, Nat2Z.inj_add. cbn [length]. change (Z.of_nat 1) with 1.
      rewrite u32_small by lia. by rewrite Z.add_mod_idemp_l by lia.
    + rewrite En, length_app. cbn [length]. destruct (Nat.lt_ge_cases (length hist) w) as [Hlt|Hge].
      * rewrite Nat.mod_small by done. replace ((length hist + 1) `min` w)%nat with (S (length hist)) by lia.
        rewrite (take_S_r _ _ v) by (rewrite list_lookup_insert_eq by lia; done). rewrite take_insert_ge by lia.
        replace (length hist `min` w)%nat with (length hist) in Ev by lia. rewrite Ev. unfold slots.
        rewrite length_app. cbn [length]. by rewrite !decide_True by lia.
      * replace ((length hist + 1) `min` w)%nat with w by lia. replace (length hist `min` w)%nat with w in Ev by lia.
        rewrite take_ge in Ev by lia. rewrite take_ge by (rewrite length_insert; lia). rewrite Ev. apply slots_step. lia.
Qed.

(** A sum that [check] leaves. *)
Definition sum_ok (x : double) : Prop := x = dzero ∨ dlt dzero x = true.

Lemma np_checks w offset hist values c :
  (0 < w)%nat → Z.of_nat w < 2 ^ 32 → np_holds w offset hist (scorer c) →
  let r := spec_checks w offset (m_threshold c) hist values (m_current_sum c) in
  ∃ c', checks values c = (Ret r.1, c') ∧ m_current_sum c' = r.2 ∧ m_threshold c' = m_threshold c ∧
    np_holds w offset (hist ++ values) (scorer c') ∧ (values ≠ [] → sum_ok (m_current_sum c')).
Proof.
  intros Hw Hw32. revert hist c. induction values as [|v values IH]; intros hist c Hn; cbn [checks spec_checks].
  - exists c. by rewrite app_nil_r.
  - destruct (np_step w offset hist v (scorer c) Hw Hw32 Hn) as (s' & E & Hn').
    set (sum := dadd (m_current_sum c) (spec_score w offset hist v)).
    set (sum' := if dgt sum dzero then sum else dzero).
    assert (check v c = (Ret (dge sum' (m_threshold c)), Cusum (m_threshold c) sum' s')) as Ec.
    { unfold check. run_m. cbn [compute_score np_score]. rewrite E. cbn. fold sum. subst sum'. by destruct (dgt sum dzero). }
    rewrite (bind_Ret _ _ _ _ _ Ec).
    destruct (IH (hist ++ [v]) (Cusum (m_threshold c) sum' s') Hn') as (c' & E' & Es & Et & Hh & Hok). cbn [m_threshold m_current_sum] in *.
    rewrite (bind_Ret _ _ _ _ _ E'). rewrite <- app_assoc in Hh.
    destruct (spec_checks w offset (m_threshold c) (hist ++ [v]) values sum') as [bs sm] eqn:Esp. cbn [fst snd] in *.
    exists c'. split; [done|]. do 3 (split; [done|]). intros _.
    destruct values as [|v2 values]; [|by apply Hok].
    cbn [spec_checks] in Esp. injection Esp as _ <-. rewrite Es. subst sum'. unfold sum_ok, dgt.
    destruct (dlt dzero sum) eqn:Ed; auto.
Qed.

Lemma np_new_holds junk w offset :
  length junk = w → np_holds w offset [] (np_new junk (Z.of_nat w) offset).
Proof.
  intros Hl. split; cbn; rewrite ?Nat2Z.id; try done.
  - by rewrite length_take, Hl, Nat.min_id.
Qed.

Lemma np_reset_holds w offset hist s : np_holds w offset hist s → np_holds w offset [] (np_reset s).
Proof. by intros [? ? ? ? ? ?]. Qed.

(** ** Several detectors *)

Section multi.
Context {T : Type} {HT : Score T}.

(** Detectors whose score always returns. *)
Definition checkable (c : cusum T) : Prop := ∀ v, ∃ b, (check v c).1 = Ret b.

Lemma multi_loop_spec n (i : nat) values (cs : list (cusum T)) :
  (i + n = length cs)%nat → (length cs ≤ length values)%nat → Forall checkable (drop i cs) →
  ∃ r cs', multi_loop n i values cs = (Ret r, cs') ∧ length cs' = length cs ∧ (r = -1 ∨ Z.of_nat i ≤ r < Z.of_nat (length cs)) ∧
    (∀ j c v, (i ≤ j)%nat → cs !! j = Some c → values !! j = Some v → r = -1 ∨ Z.of_nat j ≤ r →
      cs' !! j = Some (check v c).2 ∧ (check v c).1 = Ret (bool_decide (r = Z.of_nat j))) ∧
    (∀ j, (j < i)%nat ∨ (r ≠ -1 ∧ r < Z.of_nat j) → cs' !! j = cs !! j).
Proof.
  revert i cs. induction n as [|n IH]; intros i cs Hi Hv Hc; cbn [multi_loop].
  - exists (-1), cs. split; [done|]. split; [done|]. split; [by left|]. split; [|done].
    intros j c v Hj Hj2. apply lookup_lt_Some in Hj2. lia.
  - destruct (lookup_lt_is_Some_2 values i ltac:(lia)) as [v Ev]. destruct (lookup_lt_is_Some_2 cs i ltac:(lia)) as [c Ec].
    rewrite (drop_S _ _ _ Ec) in Hc. apply Forall_cons in Hc as [Hck Hc]. destruct (Hck v) as [b Eb].
    destruct (check v c) as [o c1] eqn:Ek. cbn [fst] in Eb. subst o.
    assert (value_at values i cs = (Ret v, cs)) as E1 by (unfold value_at; by rewrite Ev).
    assert (on_detector i (check v) cs = (Ret b, <[i := c1]> cs)) as E2 by (unfold on_detector; by rewrite Ec, Ek).
    rewrite (bind_Ret _ _ _ _ _ E1), (bind_Ret _ _ _ _ _ E2). destruct b.
    + exists (Z.of_nat i), (<[i := c1]> cs). split; [done|]. split; [by rewrite length_insert|]. split; [right; lia|]. split.
      * intros j c' v' Hj Hj2 Hj3 [?|Hle]; [lia|]. assert (j = i) as -> by lia.
        rewrite Ec in Hj2. injection Hj2 as <-. rewrite Ev in Hj3. injection Hj3 as <-. rewrite Ek. cbn [fst snd].
        rewrite list_lookup_insert_eq by lia. by rewrite bool_decide_eq_true_2.
      * intros j Hj. rewrite list_lookup_insert_ne by lia. done.
    + destruct (IH (S i) (<[i := c1]> cs)) as (r & cs' & E & El & Hr & Hgot & Hkept).
      { rewrite length_insert. lia. } { by rewrite length_insert. } { by rewrite drop_insert_lt by lia. }
      rewrite length_insert in El, Hr. exists r, cs'. split; [done|]. split; [done|]. split; [lia|]. split.
      * intros j c' v' Hj Hj2 Hj3 Hle. destruct (Nat.eq_dec j i) as [->|Hne].
        -- rewrite Ec in Hj2. injection Hj2 as <-. rewrite Ev in Hj3. injection Hj3 as <-. rewrite Ek. cbn [fst snd].
           rewrite Hkept by (left; lia). rewrite list_lookup_insert_eq by lia. by rewrite bool_decide_eq_false_2 by lia.
        -- apply Hgot; try done; [lia|]. by rewrite list_lookup_insert_ne by lia.
      * intros j Hj. rewrite Hkept by lia. apply list_lookup_insert_ne. lia.
Qed.
End multi.

Lemma np_checkable w offset hist (c : cusum cusum_np) :
  (0 < w)%nat → Z.of_nat w < 2 ^ 32 → np_holds w offset hist (scorer c) → checkable c.
Proof.
  intros Hw Hw32 Hn v. destruct (np_step w offset hist v (scorer c) Hw Hw32 Hn) as (s' & E & _).
  unfold check. run_m. cbn [compute_score np_score]. rewrite E. destruct (dgt _ _); by eexists.
Qed.

(** ** Properties *)

(** C38: a non-parametric detector of window [w] (not 0), new or reset, answers any
    values as the recurrence does that adds each value's distance from the mean of
    the last [w] values, the offset subtracted, cut at zero; it never leaves its array,
    and its sum is never negative and never not-a-number.  The subtraction is the
    code's; its documentation says that the offset is added ([offset_is_subtracted]). *)
Theorem cusum_np_checks junk threshold offset before values :
  let w := length junk in
  (0 < w)%nat → Z.of_nat w < 2 ^ 32 →
  let c := cusum_new threshold (np_new junk (Z.of_nat w) offset) in
  ∃ bs c1 c2, checks before c = (Ret bs, c1) ∧
    checks values (reset c1) = (Ret (spec_checks w offset threshold [] values dzero).1, c2) ∧
    m_current_sum c2 = (spec_checks w offset threshold [] values dzero).2 ∧ sum_ok (m_current_sum c2) ∧
    take (length values `min` w) (m_last_values (scorer c2)) = slots w values.
Proof.
  intros w Hw Hw32 c. pose proof (np_new_holds junk w offset eq_refl) as H0.
  destruct (np_checks w offset [] before c Hw Hw32 H0) as (c1 & E1 & _ & Et & Hh1 & _). cbn [app] in Hh1.
  destruct (np_checks w offset [] values (reset c1) Hw Hw32) as (c2 & E2 & Es2 & _ & Hh2 & Hok).
  { cbn [scorer reset reset_score np_score]. by eapply np_reset_holds. }
  cbn [m_current_sum reset m_threshold app] in *. rewrite Et in E2, Es2. cbn [c cusum_new m_threshold] in E2, Es2.
  eexists _, c1, c2. split; [exact E1|]. split; [exact E2|]. split; [exact Es2|]. split.
  - destruct values; [|by apply Hok]. left. rewrite Es2. done.
  - apply Hh2.
Qed.

Lemma cusum_np_checks_witness :
  ∃ bs c1 c2, checks [double_of_Z 9] (cusum_new (double_of_Z 5) (np_new [dzero; dzero] 2 dzero)) = (Ret bs, c1) ∧
    checks (double_of_Z <$> [1; 1; 3; 9]) (reset c1) = (Ret [false; false; false; true], c2).
Proof.
  destruct (cusum_np_checks [dzero; dzero] (double_of_Z 5) dzero [double_of_Z 9] (double_of_Z <$> [1; 1; 3; 9]))
    as (bs & c1 & c2 & E1 & E2 & _); [cbn; lia|done|].
  exists bs, c1, c2. split; [exact E1|]. rewrite E2. by vm_compute.
Defined.

(** A first value is its own mean: its score is the offset with the sign changed. *)
Lemma offset_is_subtracted :
  (np_compute_score (double_of_Z 5) (np_new [dzero] 1 (double_of_Z 2))).1 = Ret (double_of_Z (-2)) ∧
  (np_compute_score (double_of_Z 5) (np_new [dzero] 1 (double_of_Z (-2)))).1 = Ret (double_of_Z 2).
Proof. by vm_compute. Qed.

(** A detector for several values answers with the first value that raises an
    alarm, or -1; the values before it, and it, are given to their detectors, the
    detectors behind it keep their state. *)
Theorem multi_cusum_first_alarm {T} {HT : Score T} (cs : list (cusum T)) values :
  (length cs ≤ length values)%nat → Forall checkable cs →
  ∃ r cs', multi_check values cs = (Ret r, cs') ∧ length cs' = length cs ∧ -1 ≤ r < Z.of_nat (length cs) ∧
    (∀ j c v, cs !! j = Some c → values !! j = Some v → r = -1 ∨ Z.of_nat j ≤ r →
      cs' !! j = Some (check v c).2 ∧ (check v c).1 = Ret (bool_decide (r = Z.of_nat j))) ∧
    (∀ j, r ≠ -1 → r < Z.of_nat j → cs' !! j = cs !! j).
Proof.
  intros Hv Hc. destruct (multi_loop_spec (length cs) 0 values cs eq_refl Hv Hc) as (r & cs' & E & El & Hr & Hgot & Hkept).
  exists r, cs'. split; [done|]. split; [done|]. split; [lia|]. split.
  - intros j c v. apply Hgot. lia.
  - intros j Hr1 Hr2. apply Hkept. by right.
Qed.

Definition two_detectors : list (cusum cusum_np) :=
  multi_new [[dzero]; [dzero]] (cusum_new (double_of_Z 5) (np_new [dzero] 1 (double_of_Z (-6)))).

Lemma multi_cusum_first_alarm_witness :
  ∃ r cs', multi_check [double_of_Z 1; double_of_Z 7] two_detectors = (Ret r, cs') ∧ length cs' = 2%nat.
Proof.
  destruct (multi_cusum_first_alarm two_detectors [double_of_Z 1; double_of_Z 7]) as (r & cs' & E & El & _); [done| |].
  - unfold two_detectors, multi_new. cbn [fmap list_fmap].
    assert (checkable (clone [dzero] (cusum_new (double_of_Z 5) (np_new [dzero] 1 (double_of_Z (-6)))))) as Hc.
    { apply (np_checkable 1 (double_of_Z (-6)) []); [lia|done|]. by apply np_new_holds. }
    by apply Forall_cons_2; [|apply Forall_cons_2; [|apply Forall_nil_2]].
  - by exists r, cs'.
Defined.

(** A score that gives an alarm at once: the second detector is not told of the
    values, and after the first one is silent its mean has no trace of them. *)
Lemma second_detector_misses_value :
  multi_check [double_of_Z 1; double_of_Z 7] two_detectors =
    (Ret 0, (multi_check [double_of_Z 1; double_of_Z 99] two_detectors).2) ∧
  (multi_check [double_of_Z 1; double_of_Z 7] two_detectors).2 !! 1%nat = two_detectors !! 1%nat.
Proof. by vm_compute. Qed.
