(* ===== verification/Heap.v ===== *)
(** * Priority queues

    [std::priority_queue] as the sources use it: an interface with the
    promises of the standard as laws, for elements compared by an integer key,
    and the sorted list as an instance. *)

From S2P Require Export MachineInt.

Definition key_le {A} (key : A → Z) (x y : A) : Prop := key x ≤ key y.

#[export] Instance key_le_preorder {A} (key : A → Z) : PreOrder (key_le key).
Proof. unfold key_le. split; [intros x|intros x y z]; lia. Qed.

(** The top is an element of which no other has a smaller key; which one,
    among equals, is not said. *)
Class Heap {A : Type} (key : A → Z) (H : Type) := {
  heap_empty : H;
  heap_push : A → H → H;
  heap_top : H → option A;
  heap_pop : H → H;
  heap_elems : H → list A;
  heap_elems_empty : heap_elems heap_empty = [];
  heap_elems_push x h : heap_elems (heap_push x h) ≡ₚ x :: heap_elems h;
  heap_top_none h : heap_top h = None → heap_elems h = [];
  heap_top_some h x :
    heap_top h = Some x → heap_elems h ≡ₚ x :: heap_elems (heap_pop h);
  heap_top_min h x :
    heap_top h = Some x → Forall (key_le key x) (heap_elems h)
}.

Section sorted_list.
Context {A : Type} (key : A → Z).
Implicit Types (x y : A) (l : list A).

Fixpoint insert_sorted x l : list A :=
  match l with
  | [] => [x]
  | y :: l' => if key x <=? key y then x :: l else y :: insert_sorted x l'
  end.

Lemma insert_sorted_perm x l : insert_sorted x l ≡ₚ x :: l.
Proof.
  induction l as [|y l IH]; simpl; [done|]. destruct_cmp; [done|].
  rewrite IH. apply Permutation_swap.
Qed.

Lemma insert_sorted_sorted x l :
  StronglySorted (key_le key) l → StronglySorted (key_le key) (insert_sorted x l).
Proof.
  induction 1 as [|y l Hl IH Hy]; simpl; [by repeat constructor|].
  destruct_cmp.
  - constructor; [by constructor|]. constructor; [done|].
    eapply Forall_impl; [exact Hy|]. unfold key_le. intros. lia.
  - constructor; [done|]. rewrite insert_sorted_perm. constructor; [unfold key_le; lia|done].
Qed.

Record sorted_heap := SortedHeap { sh_list : list A; sh_sorted : StronglySorted (key_le key) sh_list }.

Definition sorted_push x (h : sorted_heap) : sorted_heap :=
  SortedHeap (insert_sorted x (sh_list h)) (insert_sorted_sorted x _ (sh_sorted h)).

Lemma tail_sorted l : StronglySorted (key_le key) l → StronglySorted (key_le key) (tail l).
Proof. destruct 1; [constructor|done]. Qed.

Definition sorted_pop (h : sorted_heap) : sorted_heap :=
  SortedHeap (tail (sh_list h)) (tail_sorted _ (sh_sorted h)).

#[export, refine] Instance sorted_heap_Heap : Heap key sorted_heap := {|
  heap_empty := SortedHeap [] (SSorted_nil _);
  heap_push := sorted_push;
  heap_top h := head (sh_list h);
  heap_pop := sorted_pop;
  heap_elems := sh_list
|}.
Proof.
  - done.
  - intros x h. apply insert_sorted_perm.
  - intros [[|y l] Hl]; [done|]. discriminate.
  - intros [[|y l] Hl] x; simpl; [done|]. by intros [= ->].
  - intros [[|y l] Hl] x; simpl; [done|]. intros [= ->].
    inversion Hl; subst. constructor; [reflexivity|done].
Defined.
End sorted_list.

Arguments sorted_heap {A} key.

(** Emptying a heap: the elements from the smallest key on. *)
Section drain.
Context {A : Type} {key : A → Z} {H : Type} `{HH : Heap A key H}.

Fixpoint heap_drain (fuel : nat) (h : H) : list A * H :=
  match fuel with
  | O => ([], h)
  | S fuel =>
      match heap_top h with
      | None => ([], h)
      | Some x => let '(l, h') := heap_drain fuel (heap_pop h) in (x :: l, h')
      end
  end.

Lemma heap_drain_spec fuel (h : H) :
  (length (heap_elems h) ≤ fuel)%nat →
  (heap_drain fuel h).1 ≡ₚ heap_elems h ∧ StronglySorted (key_le key) (heap_drain fuel h).1 ∧
  heap_elems (heap_drain fuel h).2 = [].
Proof.
  revert h. induction fuel as [|fuel IH]; intros h Hl; simpl.
  { rewrite (nil_length_inv (heap_elems h)) by lia. simpl; split_and!; [done|apply SSorted_nil|done]. }
  destruct (heap_top h) as [x|] eqn:E.
  - pose proof (heap_top_some _ _ E) as Hp. pose proof (heap_top_min _ _ E) as Hm.
    destruct (IH (heap_pop h)) as (Hl1 & Hs & He); [rewrite Hp in Hl; simpl in Hl; lia|].
    destruct (heap_drain fuel (heap_pop h)) as [l h']. simpl in *. split_and!; [|constructor|]; try done.
    + by rewrite Hl1, Hp.
    + rewrite Hl1. rewrite Hp in Hm. by apply Forall_cons in Hm as [_ Hm].
  - simpl. rewrite (heap_top_none _ E). split_and!; [done|apply SSorted_nil|done].
Qed.
End drain.
