(* ===== verification/Timers.v ===== *)
(** * Clocks and timers

    Models [core/time]: the clock sources of [BMTime.cpp], the packet clock of
    [PacketTime.cpp], the timers of [Timer.hpp] and the timer thread of
    [TimerThread.cpp].  The [std::priority_queue] is the interface [Heap]
    of [Heap.v]; the block's [handle_timer] is a parameter of the model.  Timer objects are
    values here: their time changes only while the timer thread holds them.
    [fired] is a ghost list of the timers handed to their blocks. *)

From S2P Require Export Heap.

(** ** Timers *)

Inductive timer_kind := OneShotTimer | PeriodicTimer (m_period : Z).

#[export] Instance timer_kind_eq_dec : EqDecision timer_kind.
Proof. solve_decision. Defined.

Record timer := Timer {
  m_time : Z;
  m_owner : nat;
  m_name : string;
  m_id : Z;
  m_kind : timer_kind
}.

#[export] Instance timer_eq_dec : EqDecision timer.
Proof. solve_decision. Defined.

Definition set_time_point (tp : Z) (t : timer) : timer :=
  Timer tp (m_owner t) (m_name t) (m_id t) (m_kind t).

(** The order of [hsorter]: the heap of timers is [Heap m_time]. *)
Definition earlier : timer → timer → Prop := key_le m_time.

(** ** Clocks *)

Inductive clock_source_t := WALL | PACKET | UNSET.

(** [wall] is the sequence of readings the system clock will give, [ticks]
    how many were taken. *)
Record clock := Clock {
  clock_source : clock_source_t;
  wall : nat → Z;
  ticks : nat;
  m_packet_time : Z;
  m_writers : Z
}.

Definition set_source (s : clock_source_t) (c : clock) : clock :=
  Clock s (wall c) (ticks c) (m_packet_time c) (m_writers c).
Definition tick (c : clock) : clock :=
  Clock (clock_source c) (wall c) (S (ticks c)) (m_packet_time c) (m_writers c).
Definition set_packet_time (t : Z) (c : clock) : clock :=
  Clock (clock_source c) (wall c) (ticks c) t (m_writers c).
Definition set_writers (n : Z) (c : clock) : clock :=
  Clock (clock_source c) (wall c) (ticks c) (m_packet_time c) n.

Section model.
Context {H : Type} `{Heap timer m_time H} {U : Type}.

Record timer_thread := TimerThread {
  m_stop : bool;
  m_running : bool;
  m_queue : list timer;
  m_heap : H;
  fired : list timer
}.

Record world := World { the_thread : timer_thread; the_clock : clock; user : U }.

Definition on_thread (f : timer_thread → timer_thread) (w : world) : world :=
  World (f (the_thread w)) (the_clock w) (user w).
Definition on_clock (f : clock → clock) (w : world) : world :=
  World (the_thread w) (f (the_clock w)) (user w).

Definition set_stop (b : bool) (s : timer_thread) : timer_thread :=
  TimerThread b (m_running s) (m_queue s) (m_heap s) (fired s).
Definition set_running (b : bool) (s : timer_thread) : timer_thread :=
  TimerThread (m_stop s) b (m_queue s) (m_heap s) (fired s).
Definition set_queue (q : list timer) (s : timer_thread) : timer_thread :=
  TimerThread (m_stop s) (m_running s) q (m_heap s) (fired s).
Definition set_heap (h : H) (s : timer_thread) : timer_thread :=
  TimerThread (m_stop s) (m_running s) (m_queue s) h (fired s).
Definition log_fired (t : timer) (s : timer_thread) : timer_thread :=
  TimerThread (m_stop s) (m_running s) (m_queue s) (m_heap s) (fired s ++ [t]).

(** The state of the constructor. *)
Definition thread_new : timer_thread := TimerThread false false [] heap_empty [].

(** [select_clock], [get_BM_time], [PacketTime::get_time] *)
Definition select_clock (s : clock_source_t) : M world unit := modify (on_clock (set_source s)).

Definition get_time : M world Z := gets (λ w, m_packet_time (the_clock w)).

Definition get_BM_time : M world Z :=
  s ← gets (λ w, clock_source (the_clock w));
  match s with
  | WALL =>
      now ← gets (λ w, wall (the_clock w) (ticks (the_clock w)));
      modify (on_clock tick);;
      mret now
  | PACKET => get_time
  | UNSET => throw (runtime_error "clock source not set")
  end.

(** [next_time]: a periodic timer is set one period after the current time,
    a one-shot timer keeps its time. *)
Definition next_time (t : timer) : M world timer :=
  match m_kind t with
  | OneShotTimer => mret t
  | PeriodicTimer m_period =>
      now ← get_BM_time;
      mret (set_time_point (u64 (now + m_period)) t)
  end.

Definition insert_in_heap (t : timer) : M world unit :=
  modify (on_thread (λ s, set_heap (heap_push t (m_heap s)) s)).

Definition schedule_timer (t : timer) : M world unit :=
  modify (on_thread (λ s, set_queue (m_queue s ++ [t]) s)).

Definition stop : M world unit := modify (on_thread (set_stop true)).

(** [Block::set_timer_at] and [Block::set_periodic_timer]. *)
Definition set_timer_at (b : nat) (ts : Z) (name : string) (id : Z) : M world unit :=
  schedule_timer (Timer ts b name id OneShotTimer).
Definition set_periodic_timer (b : nat) (us : Z) (name : string) (id : Z) : M world unit :=
  now ← get_BM_time;
  schedule_timer (Timer (u64 (now + us)) b name id (PeriodicTimer us)).

(** [assertions] is true unless the program is compiled with [NDEBUG];
    [handle_timer] is [t->owner().handle_timer(t)]. *)
Context (assertions : bool) (handle_timer : timer → M world unit).

(** The assertion after a removal: [top] of an empty heap is undefined. *)
Definition assert_order (t : timer) : M world unit :=
  if assertions then
    top ← gets (λ w, heap_top (m_heap (the_thread w)));
    match top with
    | None => throw (undefined_behaviour "top of an empty priority_queue")
    | Some u => ensure (m_time t <=? m_time u)
                  (assert_failure "t->time_point() <= m_heap.top()->time_point()")
    end
  else mret tt.

(** The [while] of [process_timer_events]; [false] when [fuel] ran out. *)
Fixpoint process_loop (fuel : nat) (tnow : Z) : M world bool :=
  match fuel with
  | O => mret false
  | S fuel =>
      top ← gets (λ w, heap_top (m_heap (the_thread w)));
      match top with
      | None => mret true
      | Some t =>
          if m_time t <=? tnow then
            modify (on_thread (λ s, set_heap (heap_pop (m_heap s)) s));;
            assert_order t;;
            modify (on_thread (log_fired t));;
            handle_timer t;;
            t' ← next_time t;
            (if negb (m_time t' =? m_time t) then insert_in_heap t' else mret tt);;
            process_loop fuel tnow
          else mret true
      end
  end.

Definition process_timer_events (fuel : nat) : M world bool :=
  tnow ← get_BM_time;
  process_loop fuel tnow.

(** The timers scheduled since the last round go to the heap, last first. *)
Definition drain_queue : M world unit :=
  modify (on_thread (λ s,
    set_queue [] (set_heap (foldr heap_push (m_heap s) (m_queue s)) s))).

Definition timer_round (fuel : nat) : M world bool :=
  drain_queue;;
  process_timer_events fuel.

(** [operator()]: one round per millisecond until [m_stop]; [env] is what the
    other threads do between two rounds.  [false] when [env] ends first. *)
Fixpoint thread_loop (fuel : nat) (env : list (M world unit)) : M world bool :=
  m_stop ← gets (λ w, m_stop (the_thread w));
  if m_stop : bool then
    modify (on_thread (set_running false));;
    modify (on_thread (set_stop true));;
    mret true
  else
    match env with
    | [] => mret false
    | others :: env =>
        b ← timer_round fuel;
        if b : bool then others;; thread_loop fuel env else mret false
    end.

Definition run_thread (fuel : nat) (env : list (M world unit)) : M world bool :=
  running ← gets (λ w, m_running (the_thread w));
  (if running : bool
   then throw (runtime_error "trying to start timer thread while it is already running")
   else modify (on_thread (set_running true)));;
  thread_loop fuel env.

(** [remove_references]: the queue loses the block's timers, the heap all. *)
Fixpoint pop_all (fuel : nat) (h : H) : H :=
  match fuel with
  | O => h
  | S fuel => match heap_top h with None => h | Some _ => pop_all fuel (heap_pop h) end
  end.

Definition remove_references (b : nat) : M world unit :=
  running ← gets (λ w, m_running (the_thread w));
  (if running : bool
   then throw (runtime_error "timer thread::cannot remove references while the thread is running")
   else mret tt);;
  modify (on_thread (λ s, set_queue (filter (λ t, m_owner t ≠ b) (m_queue s)) s));;
  modify (on_thread (λ s, set_heap (pop_all (length (heap_elems (m_heap s))) (m_heap s)) s)).

(** ** The packet clock *)

Definition register_time_writer : M world unit :=
  modify (on_clock (λ c, set_writers (u32 (m_writers c + 1)) c)).

(** The [do .. while] of [time_past], from the value of [next_time] before the
    step; the step is 1 ms.  One thread writes, so the exchange and the load
    followed by a store have the same effect. *)
Fixpoint time_past_loop (fuel : nat) (target_time next_time : Z) : M world bool :=
  match fuel with
  | O => mret false
  | S fuel =>
      let next_time := Z.min (u64 (next_time + 1000)) target_time in
      writers ← gets (λ w, m_writers (the_clock w));
      last_time ← gets (λ w, m_packet_time (the_clock w));
      ensure (1 <=? writers) (runtime_error "inconsistent number of packet time writers");;
      modify (on_clock (set_packet_time next_time));;
      ensure (last_time <=? next_time) (runtime_error "packet time value out of order");;
      n ← gets (λ w, length (heap_elems (m_heap (the_thread w))));
      b ← process_timer_events (S n);
      if negb b then mret false
      else if next_time <? target_time then time_past_loop fuel target_time next_time
      else mret true
  end.

Definition time_past (fuel : nat) (target_time : Z) : M world bool :=
  next_time ← get_BM_time;
  time_past_loop fuel target_time (if next_time =? 0 then target_time else next_time).

Definition advance_packet_time (fuel : nat) (next_time : Z) : M world bool :=
  time_past fuel next_time.
End model.

Arguments timer_thread H : clear implicits.
Arguments world H U : clear implicits.

(** ** What time can do while a handler runs *)

Definition reading (c : clock) : Z :=
  match clock_source c with
  | WALL => wall c (ticks c)
  | PACKET => m_packet_time c
  | UNSET => 0
  end.

Definition later (c c' : clock) : Prop :=
  clock_source c' = clock_source c ∧ wall c' = wall c ∧ (ticks c ≤ ticks c')%nat ∧
  m_packet_time c' = m_packet_time c ∧ m_writers c' = m_writers c.

#[export] Instance later_preorder : PreOrder later.
Proof.
  split; [by intros c|]. intros c1 c2 c3 (?&?&?&?&?) (?&?&?&?&?).
  split_and!; try congruence; lia.
Qed.

(** A source is set and the system clock does not go back. *)
Definition clock_ok (c : clock) : Prop :=
  clock_source c ≠ UNSET ∧
  (∀ i j, (i ≤ j)%nat → 0 ≤ wall c i ≤ wall c j ∧ wall c j < 2 ^ 63) ∧
  0 ≤ m_packet_time c < 2 ^ 63.

Definition period_ok (t : timer) : Prop :=
  match m_kind t with OneShotTimer => True | PeriodicTimer p => 0 < p < 2 ^ 63 end.

Lemma later_ok c c' : clock_ok c → later c c' → clock_ok c'.
Proof. intros (H1 & H2 & H3) (E1 & E2 & _ & E4 & _). unfold clock_ok. by rewrite E1, E2, E4. Qed.

Lemma later_reading c c' : clock_ok c → later c c' → reading c ≤ reading c'.
Proof.
  intros (H1 & H2 & H3) (E1 & E2 & E3 & E4 & _). unfold reading. rewrite E1, E2, E4.
  destruct (clock_source c); [apply H2|..]; lia.
Qed.

Lemma reading_range c : clock_ok c → 0 ≤ reading c < 2 ^ 63.
Proof.
  intros (H1 & H2 & H3). unfold reading. destruct (clock_source c); [|done|done].
  destruct (H2 (ticks c) (ticks c)); lia.
Qed.

Definition periodic (t : timer) : Prop := m_kind t ≠ OneShotTimer.
Definition expired (tnow : Z) (t : timer) : Prop := m_time t ≤ tnow.

#[export] Instance periodic_dec t : Decision (periodic t).
Proof. unfold periodic. apply _. Defined.
#[export] Instance expired_dec tnow t : Decision (expired tnow t).
Proof. unfold expired. apply _. Defined.

(** The same timer at a time after [tnow]. *)
Definition rescheduled (tnow : Z) (t t' : timer) : Prop :=
  t' = set_time_point (m_time t') t ∧ tnow < m_time t'.

Lemma rescheduled_all_late tnow l re :
  Forall2 (rescheduled tnow) l re → Forall (λ t, ¬ expired tnow t) re.
Proof. induction 1 as [|t t' l re [_ Ht] _ IH]; constructor; [unfold expired; lia|done]. Qed.

Lemma rescheduled_period tnow l re :
  Forall2 (rescheduled tnow) l re → Forall period_ok l → Forall period_ok re.
Proof.
  induction 1 as [|t t' l re [-> _] _ IH]; inversion 1; subst; constructor; auto.
Qed.

Section timer_events.
Context {H : Type} `{HH : Heap timer m_time H} {U : Type}.
Implicit Types (w : world H U) (t : timer) (h : H).

(** A handler of a block: it returns, and neither fires timers nor advances
    the packet clock; it may schedule timers and take its time. *)
Definition handler_ok (handle_timer : timer → M (world H U) unit) : Prop := ∀ t w,
  ∃ w', handle_timer t w = (Ret tt, w') ∧
    m_heap (the_thread w') = m_heap (the_thread w) ∧
    fired (the_thread w') = fired (the_thread w) ∧
    later (the_clock w) (the_clock w').

Definition pending w : list timer := heap_elems (m_heap (the_thread w)).
Definition history w : list timer := fired (the_thread w).

Context (handle_timer : timer → M (world H U) unit) (handle_ok : handler_ok handle_timer).

Lemma get_BM_time_spec w :
  clock_ok (the_clock w) →
  ∃ w', get_BM_time w = (Ret (reading (the_clock w)), w') ∧
    the_thread w' = the_thread w ∧ later (the_clock w) (the_clock w').
Proof.
  intros (Hs & Hw & Hp). unfold get_BM_time, get_time, reading. run_m.
  destruct (clock_source (the_clock w)) eqn:E; [| |done].
  - eexists. split; [done|]. split; [done|]. repeat split; simpl; lia.
  - eexists. split; [done|]. split; [done|]. reflexivity.
Qed.

(** With assertions compiled in, [top] is read after a removal: a timer must be left, which
    is so throughout when one of them is not due. *)
Definition rest_later (assertions : bool) (tnow : Z) (ts : list timer) : Prop :=
  assertions = true → Exists (λ t, ¬ expired tnow t) ts.

Context (assertions : bool).

Lemma rest_later_perm tnow ts ts' : ts ≡ₚ ts' → rest_later assertions tnow ts → rest_later assertions tnow ts'.
Proof. intros E Ha Hb. rewrite <- E. by apply Ha. Qed.

Lemma rest_later_keeps p tnow ts re : p ≤ tnow → rest_later assertions tnow ts →
  rest_later assertions tnow (filter (λ t, ¬ expired p t) ts ++ re).
Proof.
  intros Hp Ha Hb. apply Exists_app. left. apply Ha, Exists_exists in Hb as (t & Ht & Hlate).
  apply Exists_exists. exists t. split; [|done]. apply list_elem_of_filter. split; [|done]. unfold expired in *. lia.
Qed.

Lemma assert_order_ok tnow w t : heap_top (m_heap (the_thread w)) = Some t → m_time t ≤ tnow →
  rest_later assertions tnow (pending w) →
  let w1 := on_thread (λ s, set_heap (heap_pop (m_heap s)) s) w in assert_order assertions t w1 = (Ret tt, w1).
Proof.
  intros Htop Ht Ha w1. unfold assert_order. destruct assertions; [|done]. run_m. cbn [m_heap the_thread w1 on_thread set_heap].
  pose proof (heap_top_some _ _ Htop) as Hs. pose proof (heap_top_min _ _ Htop) as Hmin.
  unfold pending in Ha. specialize (Ha eq_refl). rewrite Hs in Ha, Hmin. apply Forall_cons in Hmin as [_ Hmin].
  apply Exists_cons in Ha as [Ha|Ha]; [unfold expired in Ha; lia|].
  destruct (heap_top (heap_pop _)) as [u|] eqn:Eu.
  - apply heap_top_some in Eu. rewrite Eu in Hmin. apply Forall_cons in Hmin as [Hu _]. unfold earlier, key_le in Hu.
    by rewrite (proj2 (Z.leb_le _ _) Hu).
  - apply heap_top_none in Eu. rewrite Eu in Ha. by apply Exists_nil in Ha.
Qed.

(** One round of the loop. *)
Lemma process_step fuel tnow w t :
  rest_later assertions tnow (pending w) → clock_ok (the_clock w) → tnow ≤ reading (the_clock w) →
  heap_top (m_heap (the_thread w)) = Some t → m_time t ≤ tnow → period_ok t →
  ∃ w1 re,
    process_loop assertions handle_timer (S fuel) tnow w = process_loop assertions handle_timer fuel tnow w1 ∧
    history w1 = history w ++ [t] ∧
    pending w1 ≡ₚ heap_elems (heap_pop (m_heap (the_thread w))) ++ re ∧
    Forall2 (rescheduled tnow) (filter periodic [t]) re ∧
    later (the_clock w) (the_clock w1).
Proof.
  intros Ha Hc Hnow Htop Ht Hp. cbn [process_loop]. run_m. rewrite Htop.
  rewrite (proj2 (Z.leb_le _ _) Ht). cbn beta iota. rewrite (assert_order_ok tnow w t Htop Ht Ha).
  set (w0 := on_thread (log_fired t) _).
  destruct (handle_ok t w0) as (w2 & E & Eh & Ef & El). rewrite E.
  assert (later (the_clock w) (the_clock w2)) as Hl by done.
  destruct (m_kind t) as [|p] eqn:Ek.
  - exists w2, []. unfold next_time. rewrite Ek. run_m. rewrite Z.eqb_refl. simpl negb. cbn beta iota.
    split; [done|]. unfold history, pending. rewrite Eh, Ef. split_and!; try done.
    + by rewrite app_nil_r.
    + rewrite filter_cons_False by (unfold periodic; rewrite Ek; tauto). constructor.
  - unfold period_ok in Hp. rewrite Ek in Hp.
    destruct (get_BM_time_spec w2) as (w3 & E3 & Et & Hl3); [by eapply later_ok|].
    set (now := reading (the_clock w2)) in *.
    assert (tnow ≤ now) by (etransitivity; [exact Hnow|by apply later_reading]).
    pose proof (reading_range (the_clock w2) ltac:(by eapply later_ok)).
    unfold next_time. rewrite Ek. run_m. rewrite E3. cbn beta iota. simpl m_time.
    rewrite u64_small by lia.
    change (m_time (set_time_point (now + p) t)) with (now + p).
    rewrite (proj2 (Z.eqb_neq (now + p) (m_time t))) by lia. simpl negb. cbn beta iota.
    unfold insert_in_heap. run_m.
    eexists _, [set_time_point (now + p) t]. split; [done|].
    unfold history, pending. simpl. rewrite Et, Eh, Ef. split_and!; try done.
    + rewrite heap_elems_push. by rewrite Permutation_app_comm.
    + rewrite filter_cons_True by (unfold periodic; by rewrite Ek).
      constructor; [|constructor]. split; [done|]. simpl. lia.
    + by etransitivity.
Qed.

Lemma process_loop_spec fuel tnow w :
  rest_later assertions tnow (pending w) → clock_ok (the_clock w) → tnow ≤ reading (the_clock w) → Forall period_ok (pending w) →
  (length (filter (expired tnow) (pending w)) < fuel)%nat →
  ∃ l re w', process_loop assertions handle_timer fuel tnow w = (Ret true, w') ∧
    history w' = history w ++ l ∧
    l ≡ₚ filter (expired tnow) (pending w) ∧ StronglySorted earlier l ∧
    pending w' ≡ₚ filter (λ t, ¬ expired tnow t) (pending w) ++ re ∧
    Forall2 (rescheduled tnow) (filter periodic l) re ∧
    later (the_clock w) (the_clock w').
Proof.
  revert w. induction fuel as [|fuel IH]; intros w Ha Hc Hnow Hp Hlen; [lia|].
  destruct (heap_top (m_heap (the_thread w))) as [t|] eqn:Htop.
  2:{ pose proof (heap_top_none _ Htop) as He. exists [], [], w. cbn [process_loop]. run_m.
      unfold pending. rewrite Htop, He, app_nil_r. by split_and!; try constructor. }
  pose proof (heap_top_some _ _ Htop) as Hsome. pose proof (heap_top_min _ _ Htop) as Hmin.
  destruct (decide (m_time t ≤ tnow)) as [Ht|Ht].
  - pose proof (process_step fuel tnow w t Ha Hc Hnow Htop Ht) as Hstep.
    unfold pending in *. rewrite Hsome in Hp, Hmin, Hlen. apply Forall_cons in Hp as [Hpt Hp].
    rewrite filter_cons_True in Hlen by done. simpl in Hlen. apply Forall_cons in Hmin as [_ Hmin].
    destruct (Hstep Hpt) as (w1 & re1 & E & Ef & Eh & Hre1 & Hl1).
    unfold pending in Eh. pose proof (rescheduled_all_late _ _ _ Hre1) as Hlate.
    destruct (IH w1) as (l & re & w' & E' & Ef' & Hl & Hs & Eh' & Hre & Hl').
    + intros Hb. rewrite Eh. apply Exists_app. left. specialize (Ha Hb). rewrite Hsome in Ha.
      apply Exists_cons in Ha as [Ha|Ha]; [unfold expired in Ha; lia|done].
    + by eapply later_ok.
    + etransitivity; [exact Hnow|by apply later_reading].
    + rewrite Eh. apply Forall_app. split; [done|]. eapply rescheduled_period; [exact Hre1|].
      apply Forall_filter_keep. by constructor.
    + rewrite Eh, filter_app, (list_filter_none _ re1) by done. rewrite app_nil_r. lia.
    + exists (t :: l), (re1 ++ re), w'. rewrite Eh, filter_app in Hl, Eh'.
      rewrite (list_filter_none _ re1), app_nil_r in Hl by done.
      rewrite (list_filter_all _ re1) in Eh' by done.
      split_and!.
      * by rewrite E.
      * by rewrite Ef', Ef, <- app_assoc.
      * rewrite Hsome, filter_cons_True by done. by rewrite Hl.
      * constructor; [done|]. rewrite Hl. by apply Forall_filter_keep.
      * rewrite Eh', Hsome, filter_cons_False by tauto. by rewrite app_assoc.
      * change (t :: l) with ([t] ++ l). rewrite filter_app. by apply Forall2_app.
      * by etransitivity.
  - exists [], [], w. cbn [process_loop]. run_m. unfold pending. rewrite Htop.
    rewrite (proj2 (Z.leb_gt _ _)) by lia.
    assert (Forall (λ u, ¬ expired tnow u) (heap_elems (m_heap (the_thread w)))) as Hlate.
    { eapply Forall_impl; [exact Hmin|]. unfold earlier, key_le, expired. intros. lia. }
    rewrite (list_filter_none _ _ Hlate), (list_filter_all _ _ Hlate), !app_nil_r.
    by split_and!; try constructor.
Qed.

Lemma process_timer_events_spec fuel w :
  clock_ok (the_clock w) → Forall period_ok (pending w) →
  (length (pending w) < fuel)%nat →
  let tnow := reading (the_clock w) in
  rest_later assertions tnow (pending w) →
  ∃ l re w', process_timer_events assertions handle_timer fuel w = (Ret true, w') ∧
    history w' = history w ++ l ∧
    l ≡ₚ filter (expired tnow) (pending w) ∧ StronglySorted earlier l ∧
    pending w' ≡ₚ filter (λ t, ¬ expired tnow t) (pending w) ++ re ∧
    Forall2 (rescheduled tnow) (filter periodic l) re ∧
    later (the_clock w) (the_clock w').
Proof.
  intros Hc Hp Hlen tnow Ha.
  destruct (get_BM_time_spec w Hc) as (w1 & E & Et & Hl).
  unfold process_timer_events. rewrite (bind_Ret _ _ _ _ _ E). fold tnow.
  destruct (process_loop_spec fuel tnow w1) as (l & re & w' & Hw).
  - unfold pending in *. by rewrite Et.
  - by eapply later_ok.
  - by apply later_reading.
  - unfold pending in *. by rewrite Et.
  - unfold pending in *. rewrite Et. pose proof (length_filter (expired tnow) (heap_elems (m_heap (the_thread w)))). lia.
  - exists l, re, w'. unfold history, pending in *. rewrite Et in Hw.
    destruct Hw as (? & ? & ? & ? & ? & ? & ?). split_and!; try done. by etransitivity.
Qed.

(** After a round nothing in the heap is due any more. *)
Lemma pending_late tnow l re ts :
  Forall2 (rescheduled tnow) l re →
  Forall (λ t, ¬ expired tnow t) (filter (λ t, ¬ expired tnow t) ts ++ re).
Proof.
  intros Hre. apply Forall_app. split; [|by eapply rescheduled_all_late].
  apply Forall_forall. intros t Ht. by apply list_elem_of_filter in Ht as [Ht _].
Qed.

Lemma pending_period tnow l re ts :
  Forall2 (rescheduled tnow) (filter periodic l) re → l ≡ₚ filter (expired tnow) ts →
  Forall period_ok ts →
  Forall period_ok (filter (λ t, ¬ expired tnow t) ts ++ re).
Proof.
  intros Hre Hl Hp. apply Forall_app. split; [by apply Forall_filter_keep|].
  eapply rescheduled_period; [exact Hre|]. apply Forall_filter_keep. rewrite Hl.
  by apply Forall_filter_keep.
Qed.

Lemma drain_pending w w' :
  drain_queue w = (Ret tt, w') →
  pending w' ≡ₚ pending w ++ m_queue (the_thread w) ∧
  m_queue (the_thread w') = [] ∧ history w' = history w ∧ the_clock w' = the_clock w.
Proof.
  intros [= <-]. unfold pending, history. simpl. split_and!; try done.
  induction (m_queue (the_thread w)) as [|t q IH]; simpl; [by rewrite app_nil_r|].
  rewrite heap_elems_push, IH. by rewrite Permutation_middle.
Qed.

(** Splitting what is due at [target] at an earlier time. *)
Lemma filter_expired_split p target ts :
  p ≤ target →
  filter (expired target) ts ≡ₚ
  filter (expired p) ts ++ filter (expired target) (filter (λ t, ¬ expired p t) ts).
Proof.
  intros Hp. induction ts as [|t ts IH]; [done|].
  destruct (decide (expired p t)) as [H1|H1].
  - assert (expired target t) by (unfold expired in *; lia).
    rewrite (filter_cons_True (expired p)), (filter_cons_True (expired target)) by done.
    rewrite (filter_cons_False (λ t, ¬ expired p t)) by tauto. by rewrite IH.
  - rewrite (filter_cons_False (expired p)) by done.
    rewrite (filter_cons_True (λ t, ¬ expired p t)) by done.
    destruct (decide (expired target t)).
    + rewrite !(filter_cons_True (expired target)) by done. rewrite IH. apply Permutation_middle.
    + by rewrite !(filter_cons_False (expired target)) by done.
Qed.

Lemma time_past_loop_spec fuel target next w :
  clock_ok (the_clock w) → clock_source (the_clock w) = PACKET → 1 ≤ m_writers (the_clock w) →
  Forall period_ok (pending w) →
  0 ≤ m_packet_time (the_clock w) ≤ next → next ≤ target → target < 2 ^ 63 →
  (0 < fuel)%nat → target - next ≤ 1000 * Z.of_nat fuel → rest_later assertions target (pending w) →
  ∃ l w', time_past_loop assertions handle_timer fuel target next w = (Ret true, w') ∧
    history w' = history w ++ l ∧ StronglySorted earlier l ∧
    (∀ p, p ≤ next → Forall (λ t, ¬ expired p t) (pending w) → Forall (λ t, ¬ expired p t) l) ∧
    Forall (expired target) l ∧ filter (expired target) (pending w) ⊆+ l ∧
    Forall (λ t, ¬ expired target t) (pending w') ∧ m_packet_time (the_clock w') = target.
Proof.
  revert next w. induction fuel as [|fuel IH]; intros next w Hc Hs Hw Hp Hpt Hnt Ht Hf Hlen Ha; [lia|].
  cbn [time_past_loop]. rewrite u64_small by lia.
  set (next' := Z.min (next + 1000) target). run_m.
  rewrite (proj2 (Z.leb_le _ _) Hw). cbn beta iota.
  rewrite (proj2 (Z.leb_le (m_packet_time (the_clock w)) next')) by lia. cbn beta iota.
  set (w0 := on_clock (set_packet_time next') w).
  assert (clock_ok (the_clock w0)) as Hc0.
  { destruct Hc as (? & ? & ?). split_and!; try done; simpl; lia. }
  assert (reading (the_clock w0) = next') as Er by (unfold reading; by rewrite (Hs : clock_source (the_clock w0) = PACKET)).
  assert (rest_later assertions (reading (the_clock w0)) (pending w0)) as Ha0.
  { intros Hb. eapply Exists_impl; [exact (Ha Hb)|]. unfold expired. intros. lia. }
  destruct (process_timer_events_spec (S (length (pending w0))) w0 Hc0 Hp ltac:(lia) Ha0)
    as (l1 & re & w1 & E & Ef & Hl1 & Hs1 & Eh & Hre & Hl).
  unfold pending in E. rewrite E. cbn beta iota. simpl negb. cbn beta iota.
  rewrite Er in *. change (pending w0) with (pending w) in *. change (history w0) with (history w) in *.
  assert (Forall (λ t, ¬ expired next' t) (pending w1)) as Hlate.
  { rewrite Eh. by eapply pending_late. }
  pose proof (later_ok _ _ Hc0 Hl) as Hc1. destruct Hl as (Ls & _ & _ & Lp & Lw).
  assert (m_packet_time (the_clock w1) = next') as Hp1 by done.
  assert (∀ p, Forall (λ t, ¬ expired p t) (pending w) → Forall (λ t, ¬ expired p t) l1) as Hlow1.
  { intros p Hall. rewrite Hl1. by apply Forall_filter_keep. }
  assert (Forall (expired next') l1) as Hup1.
  { rewrite Hl1. apply Forall_forall. intros t Hin. by apply list_elem_of_filter in Hin as [? _]. }
  destruct (Z.ltb_spec next' target) as [Hlt|Hge].
  - destruct (IH next' w1) as (l2 & w2 & E2 & Ef2 & Hs2 & Hlow2 & Hup2 & Hsub & Hlate2 & Hp2).
    + done.
    + by rewrite Ls.
    + by rewrite Lw.
    + rewrite Eh. by eapply pending_period.
    + lia.
    + lia.
    + done.
    + destruct fuel; [|lia]. lia.
    + lia.
    + eapply rest_later_perm; [symmetry; exact Eh|]. apply rest_later_keeps; [lia|done].
    + exists (l1 ++ l2), w2. split_and!; try done.
      * by rewrite Ef2, Ef, <- app_assoc.
      * apply StronglySorted_app_2; [|done|done]. intros x1 x2 H1 H2.
        specialize (Hlow2 next' ltac:(lia) Hlate). rewrite Forall_forall in Hlow2, Hup1.
        specialize (Hup1 x1 H1). specialize (Hlow2 x2 H2). unfold earlier, key_le, expired in *. lia.
      * intros p Hpn Hall. apply Forall_app. split; [by apply Hlow1|].
        apply Hlow2; [lia|]. rewrite Eh. apply Forall_app. split; [by apply Forall_filter_keep|].
        eapply Forall_impl; [by eapply rescheduled_all_late|]. unfold expired. intros. lia.
      * apply Forall_app. split; [|done]. eapply Forall_impl; [exact Hup1|]. unfold expired. intros. lia.
      * rewrite (filter_expired_split next' target) by lia. rewrite Hl1.
        apply submseteq_app; [done|]. etransitivity; [|exact Hsub].
        rewrite Eh, filter_app. by apply submseteq_inserts_r.
  - exists l1, w1. assert (next' = target) as En by lia. rewrite <- En. split_and!; try done.
    + intros p _. apply Hlow1.
    + by rewrite Hl1.
Qed.
End timer_events.

(** ** Properties *)

(** A packet clock at [t], one writer, and the timers [ts] scheduled. *)
Definition demo_world (t : Z) (ts : list timer) : world (sorted_heap m_time) unit :=
  World (TimerThread false false ts heap_empty []) (Clock PACKET (λ _, 0) 0 t 1) tt.

(** The same with the timers already in the heap. *)
Definition demo_heap (t : Z) (ts : list timer) : world (sorted_heap m_time) unit :=
  on_thread (set_heap (foldr heap_push heap_empty ts)) (demo_world t []).

(** A handler that sets another one-shot timer each time. *)
Definition demo_handler (t : timer) : M (world (sorted_heap m_time) unit) unit :=
  set_timer_at (m_owner t) (m_time t + 10000) "again" 1.

Lemma demo_handler_ok : handler_ok demo_handler.
Proof. intros t w. eexists. split; [done|]. by split_and!. Qed.

Lemma demo_clock_ok t ts : 0 ≤ t < 2 ^ 63 → clock_ok (the_clock (demo_world t ts)).
Proof. intros Ht. split_and!; [done| |apply Ht..]. intros i j _. simpl. lia. Qed.

(** C9: one round of the timer thread (with its assertions compiled in, if some timer is not
    yet due) ends and hands to their blocks exactly the timers of queue and heap whose time
    has come, each once and in time order; what stays in the heap is what was not
    due, and the periodic timers that fired, set to a time still to come. *)
Theorem timer_round_fires_expired {H} `{HH : Heap timer m_time H} {U} (handle_timer : timer → M (world H U) unit)
    assertions fuel (w : world H U) :
  handler_ok handle_timer →
  clock_ok (the_clock w) →
  let all := pending w ++ m_queue (the_thread w) in
  let tnow := reading (the_clock w) in
  Forall period_ok all → (length all < fuel)%nat → rest_later assertions tnow all →
  ∃ l re w', timer_round assertions handle_timer fuel w = (Ret true, w') ∧
    history w' = history w ++ l ∧
    l ≡ₚ filter (expired tnow) all ∧ StronglySorted earlier l ∧
    pending w' ≡ₚ filter (λ t, ¬ expired tnow t) all ++ re ∧
    Forall2 (rescheduled tnow) (filter periodic l) re.
Proof.
  intros Hh Hc all tnow Hp Hlen Ha.
  destruct (drain_queue w) as [[[]|] w1] eqn:E; [|done].
  destruct (drain_pending w w1 E) as (E1 & _ & E2 & E3).
  destruct (process_timer_events_spec handle_timer Hh assertions fuel w1) as (l & re & w' & Hw).
  - by rewrite E3.
  - by rewrite E1.
  - by rewrite E1.
  - rewrite E3. eapply rest_later_perm; [symmetry; exact E1|done].
  - rewrite E1, E2, E3 in Hw. exists l, re, w'. unfold timer_round.
    rewrite (bind_Ret _ _ _ _ _ E). destruct Hw as (? & ? & ? & ? & ? & ? & _). by split_and!.
Qed.

Lemma timer_round_fires_expired_witness :
  let ts := [Timer 700 1 "a" 0 OneShotTimer; Timer 1500 1 "b" 0 OneShotTimer;
             Timer 300 2 "p" 0 (PeriodicTimer 250)] in
  ∃ l re w', timer_round true demo_handler 4 (demo_world 1000 ts) = (Ret true, w') ∧
    history w' = [] ++ l ∧
    l ≡ₚ filter (expired 1000) ts ∧ StronglySorted earlier l ∧
    pending w' ≡ₚ filter (λ t, ¬ expired 1000 t) ts ++ re ∧
    Forall2 (rescheduled 1000) (filter periodic l) re.
Proof.
  intros ts. refine (timer_round_fires_expired demo_handler true 4 (demo_world 1000 ts) _ _ _ _ _).
  - apply demo_handler_ok.
  - apply demo_clock_ok. lia.
  - repeat constructor; simpl; lia.
  - simpl. lia.
  - intros _. apply Exists_cons_tl, Exists_cons_hd. unfold expired. cbn. lia.
Defined.

(** C25: advancing the packet clock (one writer, time not going back; with assertions
    compiled in, if some timer is not due at the target) ends with
    the clock at the target; on the way every timer of the heap due at the
    target fires, all firings are in time order, none is early, and no due
    timer is left in the heap.  One step per millisecond is enough. *)
Theorem time_past_fires_in_order {H} `{HH : Heap timer m_time H} {U} (handle_timer : timer → M (world H U) unit)
    assertions fuel target (w : world H U) :
  handler_ok handle_timer →
  clock_ok (the_clock w) → clock_source (the_clock w) = PACKET → m_writers (the_clock w) = 1 →
  Forall period_ok (pending w) →
  m_packet_time (the_clock w) ≤ target < 2 ^ 63 →
  (0 < fuel)%nat → target - m_packet_time (the_clock w) ≤ 1000 * Z.of_nat fuel →
  rest_later assertions target (pending w) →
  ∃ l w', time_past assertions handle_timer fuel target w = (Ret true, w') ∧
    history w' = history w ++ l ∧ StronglySorted earlier l ∧ Forall (expired target) l ∧
    filter (expired target) (pending w) ⊆+ l ∧
    Forall (λ t, ¬ expired target t) (pending w') ∧ m_packet_time (the_clock w') = target.
Proof.
  intros Hh Hc Hs Hw Hp Ht Hf Hlen Ha. unfold time_past, get_BM_time, get_time. run_m. rewrite Hs.
  pose proof Hc as (_ & _ & Hpt).
  set (next := if _ =? 0 then _ else _).
  assert (m_packet_time (the_clock w) ≤ next ≤ target ∧ target - next ≤ 1000 * Z.of_nat fuel)
    as (Hn & Hn') by (unfold next; destruct_cmp; lia).
  destruct (time_past_loop_spec handle_timer Hh assertions fuel target next w)
    as (l & w' & E & Ef & Hsort & _ & Hall & Hsub & Hlate & Hend); try done; try lia.
  by exists l, w'.
Qed.

Lemma time_past_fires_in_order_witness :
  let w := demo_heap 1000 [Timer 3400 1 "a" 0 OneShotTimer; Timer 1500 2 "p" 0 (PeriodicTimer 600);
                           Timer 9000 1 "b" 0 OneShotTimer] in
  ∃ l w', time_past true demo_handler 3 3500 w = (Ret true, w') ∧
    history w' = [] ++ l ∧ StronglySorted earlier l ∧ Forall (expired 3500) l ∧
    filter (expired 3500) (pending w) ⊆+ l ∧
    Forall (λ t, ¬ expired 3500 t) (pending w') ∧ m_packet_time (the_clock w') = 3500.
Proof.
  intros w. refine (time_past_fires_in_order demo_handler true 3 3500 w demo_handler_ok
    (demo_clock_ok 1000 [] _) _ _ _ _ _ _ _); try done; simpl; try lia.
  - repeat constructor; simpl; lia.
  - intros _. apply Exists_exists. exists (Timer 9000 1 "b" 0 OneShotTimer).
    split; [by apply list_elem_of_In; vm_compute; tauto|]. unfold expired. cbn. lia.
Defined.

(** With assertions compiled in, whenever a round ends normally it has
    done exactly what the round without them does. *)
Theorem assertions_transparent {H} `{HH : Heap timer m_time H} {U} (handle_timer : timer → M (world H U) unit)
    fuel tnow (w w' : world H U) b :
  process_loop true handle_timer fuel tnow w = (Ret b, w') →
  process_loop false handle_timer fuel tnow w = (Ret b, w').
Proof.
  revert w. induction fuel as [|fuel IH]; intros w; cbn [process_loop]; [done|]. run_m.
  destruct (heap_top _) as [t|]; [|done]. destruct (m_time t <=? tnow); [|done].
  unfold assert_order. run_m.
  destruct (heap_top _) as [u|]; [|done]. destruct (m_time t <=? m_time u); [|done].
  destruct (handle_timer t _) as [[a|e] w2]; [|done].
  destruct (next_time t w2) as [[t'|e] w3]; [|done].
  destruct (negb _); [unfold insert_in_heap; run_m|]; apply IH.
Qed.

Lemma assertions_transparent_witness :
  ∃ w', process_loop false demo_handler 2 1000
    (on_thread (set_heap (heap_push (Timer 900 1 "a" 0 OneShotTimer)
       (heap_push (Timer 1500 1 "b" 0 OneShotTimer) heap_empty))) (demo_world 1000 [])) = (Ret true, w').
Proof.
  eexists. apply (assertions_transparent demo_handler 2 1000). cbv. reflexivity.
Defined.

(** With assertions compiled in, firing the last timer of the heap reads
    the top of an empty heap. *)
Theorem assertion_on_last_timer {H} `{HH : Heap timer m_time H} {U} (handle_timer : timer → M (world H U) unit)
    fuel tnow (w : world H U) t :
  pending w = [t] → m_time t ≤ tnow →
  (process_loop true handle_timer (S fuel) tnow w).1 =
  Throw (undefined_behaviour "top of an empty priority_queue").
Proof.
  intros Hp Ht. unfold pending in Hp. cbn [process_loop]. run_m.
  destruct (heap_top (m_heap (the_thread w))) as [u|] eqn:Htop.
  2:{ apply heap_top_none in Htop. congruence. }
  pose proof (heap_top_some _ _ Htop) as Hs. rewrite Hp in Hs.
  assert (heap_elems (heap_pop (m_heap (the_thread w))) = [] ∧ u = t) as [He ->].
  { apply Permutation_length_1_inv in Hs. by injection Hs as -> ->. }
  rewrite (proj2 (Z.leb_le _ _) Ht). unfold assert_order. run_m. simpl.
  destruct (heap_top (heap_pop _)) as [u|] eqn:Htop'; [|done].
  apply heap_top_some in Htop'. rewrite He in Htop'. by apply Permutation_nil_cons in Htop'.
Qed.

Lemma assertion_on_last_timer_witness :
  (process_loop true demo_handler 1 1000
    (on_thread (set_heap (heap_push (Timer 900 1 "a" 0 OneShotTimer) heap_empty))
       (demo_world 1000 []))).1 =
  Throw (undefined_behaviour "top of an empty priority_queue").
Proof. apply (assertion_on_last_timer demo_handler 0 1000 _ (Timer 900 1 "a" 0 OneShotTimer)); [reflexivity|simpl; lia]. Defined.

(** A packet older than the clock makes [time_past] throw, but only after
    the clock was moved back to it. *)
Theorem time_past_out_of_order {H} `{HH : Heap timer m_time H} {U} assertions (handle_timer : timer → M (world H U) unit)
    fuel target (w : world H U) :
  clock_source (the_clock w) = PACKET → 1 ≤ m_writers (the_clock w) →
  0 ≤ target < m_packet_time (the_clock w) → m_packet_time (the_clock w) < 2 ^ 63 →
  time_past assertions handle_timer (S fuel) target w =
  (Throw (runtime_error "packet time value out of order"), on_clock (set_packet_time target) w).
Proof.
  intros Hs Hw Ht Hm. unfold time_past, get_BM_time, get_time. run_m. rewrite Hs.
  rewrite (proj2 (Z.eqb_neq _ _)) by lia. cbn [time_past_loop]. rewrite u64_small by lia. run_m.
  rewrite (proj2 (Z.leb_le _ _) Hw). cbn beta iota.
  rewrite Z.min_r by lia. by rewrite (proj2 (Z.leb_gt _ _)) by lia.
Qed.

Lemma time_past_out_of_order_witness :
  time_past false demo_handler 1 900 (demo_world 1000 []) =
  (Throw (runtime_error "packet time value out of order"), demo_world 900 []).
Proof. apply (time_past_out_of_order false demo_handler 0 900 (demo_world 1000 [])); simpl; (done || lia). Defined.

(** [remove_references] while the thread is stopped keeps the queued timers
    of the other blocks, but empties the heap, theirs included. *)
Theorem remove_references_spec {H} `{HH : Heap timer m_time H} {U} b (w : world H U) :
  m_running (the_thread w) = false →
  ∃ w', remove_references b w = (Ret tt, w') ∧
    m_queue (the_thread w') = filter (λ t, m_owner t ≠ b) (m_queue (the_thread w)) ∧
    pending w' = [] ∧ history w' = history w ∧ the_clock w' = the_clock w.
Proof.
  intros Hr. unfold remove_references. run_m. rewrite Hr. eexists. split; [done|].
  split_and!; try done. unfold pending. simpl. remember (m_heap (the_thread w)) as h eqn:E. clear E.
  remember (length (heap_elems h)) as n eqn:En. symmetry in En.
  revert h En. induction n as [|n IH]; intros h En; simpl; [by apply nil_length_inv|].
  destruct (heap_top h) as [t|] eqn:Htop.
  - apply IH. apply heap_top_some in Htop. rewrite Htop in En. by injection En.
  - apply heap_top_none in Htop. by rewrite Htop in En.
Qed.

Lemma remove_references_spec_witness :
  ∃ w', remove_references 1
     (on_thread (set_heap (heap_push (Timer 900 2 "a" 0 OneShotTimer) heap_empty))
       (demo_world 1000 [Timer 5 1 "x" 0 OneShotTimer; Timer 6 2 "y" 0 OneShotTimer])) = (Ret tt, w') ∧
    m_queue (the_thread w') = [Timer 6 2 "y" 0 OneShotTimer] ∧
    pending w' = [] ∧ history w' = [] ∧ the_clock w' = the_clock (demo_world 1000 []).
Proof.
  apply (remove_references_spec 1 (on_thread (set_heap (heap_push (Timer 900 2 "a" 0 OneShotTimer) heap_empty))
       (demo_world 1000 [Timer 5 1 "x" 0 OneShotTimer; Timer 6 2 "y" 0 OneShotTimer]))).
  reflexivity.
Defined.
