(* ===== verification/Flow.v ===== *)
(** * Flow keys and flow records

    Models [FlowKey] of [messages/NetTypes.hpp], the [Flow] message of
    [messages/Flow.hpp] and the hash of a key that both flow meters define.
    What a flow needs from a packet is the interface [PacketI]. *)

From S2P Require Export MachineInt.

Record FlowKey := MkFlowKey {
  src_ip4 : Z;
  dst_ip4 : Z;
  src_port : Z;
  dst_port : Z;
  proto : Z
}.

(** [bool operator==(const FlowKey& rhs) const] *)
Definition key_eq (lhs rhs : FlowKey) : bool :=
  if (src_ip4 lhs =? src_ip4 rhs) && (dst_ip4 lhs =? dst_ip4 rhs) &&
     (src_port lhs =? src_port rhs) && (dst_port lhs =? dst_port rhs) &&
     (proto lhs =? proto rhs) then true else false.

(** [operator!=], [operator bool] *)
Definition key_ne (lhs rhs : FlowKey) : bool := negb (key_eq lhs rhs).
Definition key_bool (k : FlowKey) : bool := negb (src_ip4 k =? 0).

Lemma key_eq_spec lhs rhs : key_eq lhs rhs = true ↔ lhs = rhs.
Proof.
  unfold key_eq. destruct lhs, rhs; simpl. destruct_cmp; simpl; split; intros; try done; congruence.
Qed.

(** The hash table compares keys with [operator==]. *)
#[export] Instance FlowKey_eq_dec : EqDecision FlowKey.
Proof.
  intros a b. destruct (key_eq a b) eqn:E; [left; by apply key_eq_spec|right].
  intros ->. assert (key_eq b b = true) by by apply key_eq_spec. congruence.
Defined.

#[export, refine] Instance FlowKey_countable : Countable FlowKey :=
  inj_countable' (λ k, (src_ip4 k, dst_ip4 k, src_port k, dst_port k, proto k))
    (λ '(a, b, c, d, e), MkFlowKey a b c d e) _.
Proof. by intros []. Defined.

(** ** The hash of a key *)

(** The [sizeof(FlowKey)] bytes of the key in memory; [padding] is what the
    three bytes behind [proto] hold. *)
Definition key_bytes (padding : list Z) (k : FlowKey) : list Z :=
  le_bytes 4 (src_ip4 k) ++ le_bytes 4 (dst_ip4 k) ++ le_bytes 2 (src_port k) ++
  le_bytes 2 (dst_port k) ++ le_bytes 1 (proto k) ++ padding.

(** One assignment of the hash for an even and for an odd byte; a [char] is
    signed, and is converted to [unsigned] for the multiplication. *)
Definition hash_even (hash c : Z) : Z :=
  Z.lxor hash (Z.lxor (u32 (Z.shiftl hash 7)) (u32 (u32 (s8 c) * Z.shiftr hash 3))).
Definition hash_odd (hash c : Z) : Z :=
  Z.lxor hash
    (Z.lxor (2 ^ 32 - 1) (u32 (u32 (Z.shiftl hash 11) + Z.lxor (u32 (s8 c)) (Z.shiftr hash 5)))).

Fixpoint simplehash_loop (b : list Z) (hash : Z) : Z :=
  match b with
  | c1 :: c2 :: b => simplehash_loop b (hash_odd (hash_even hash c1) c2)
  | [c] => hash_even hash c
  | [] => hash
  end.
Definition simplehash (b : list Z) : Z := simplehash_loop b 0x66B566B5.

Definition my_hash (k : FlowKey) : Z := simplehash (key_bytes [0; 0; 0] k).

Lemma lxor_range a b n : 0 ≤ a < 2 ^ n → 0 ≤ b < 2 ^ n → 0 ≤ n → 0 ≤ Z.lxor a b < 2 ^ n.
Proof.
  intros Ha Hb Hn. split; [apply Z.lxor_nonneg; lia|].
  destruct (Z.eq_dec (Z.lxor a b) 0) as [->|Hne]; [lia|].
  assert (0 ≤ Z.lxor a b) by (apply Z.lxor_nonneg; lia).
  destruct (Z.lt_ge_cases (Z.lxor a b) (2 ^ n)) as [|Hge]; [done|exfalso].
  assert (n ≤ Z.log2 (Z.lxor a b)) as Hl.
  { rewrite <- (Z.log2_pow2 n) by done. by apply Z.log2_le_mono. }
  pose proof (Z.log2_lxor a b ltac:(lia) ltac:(lia)) as Hm.
  assert (∀ c, 0 ≤ c < 2 ^ n → Z.log2 c < n ∨ c = 0) as Hc.
  { intros c Hc. destruct (Z.eq_dec c 0); [by right|left]. apply Z.log2_lt_pow2; lia. }
  destruct (Hc a Ha) as [|Ea], (Hc b Hb) as [|Eb]; try lia; subst;
    rewrite ?Z.lxor_0_l, ?Z.lxor_0_r in *; try lia.
Qed.

Lemma hash_even_range hash c : 0 ≤ hash < 2 ^ 32 → 0 ≤ hash_even hash c < 2 ^ 32.
Proof. intros. unfold hash_even. repeat apply lxor_range; auto with bm; lia. Qed.

Lemma hash_odd_range hash c : 0 ≤ hash < 2 ^ 32 → 0 ≤ hash_odd hash c < 2 ^ 32.
Proof. intros. unfold hash_odd. repeat apply lxor_range; auto with bm; lia. Qed.

(** ** Flows *)

(** What the flow code asks a packet for. *)
Class PacketI (P : Type) := {
  pkt_key : P → FlowKey;
  pkt_length : P → Z
}.

Section flow.
Context {P : Type} `{PacketI P}.

Record flow := MkFlow {
  m_stime : Z;
  m_etime : Z;
  m_key : FlowKey;
  m_bytes : Z;
  m_packets : Z;
  m_flow_packets : list P;
  m_list_sorted : bool
}.

(** [Flow(const FlowKey& key)] *)
Definition flow_new (key : FlowKey) : flow := MkFlow 0 0 key 0 0 [] false.

Definition expand_interval (us : Z) (f : flow) : flow :=
  let stime := if (m_stime f =? 0) || (us <? m_stime f) then us else m_stime f in
  let etime := if (stime =? 0) || (m_etime f <? us) then us else m_etime f in
  MkFlow stime etime (m_key f) (m_bytes f) (m_packets f) (m_flow_packets f) (m_list_sorted f).

Definition increment_bytes (val : Z) (f : flow) : flow :=
  MkFlow (m_stime f) (m_etime f) (m_key f) (u64 (m_bytes f + val)) (m_packets f)
    (m_flow_packets f) (m_list_sorted f).

Definition increment_packets (val : Z) (f : flow) : flow :=
  MkFlow (m_stime f) (m_etime f) (m_key f) (m_bytes f) (u64 (m_packets f + val))
    (m_flow_packets f) (m_list_sorted f).

(** [add_packet] *)
Definition add_packet (p : P) (f : flow) : flow :=
  MkFlow (m_stime f) (m_etime f) (m_key f) (m_bytes f) (m_packets f)
    (m_flow_packets f ++ [p]) (m_list_sorted f).

Definition matches (f : flow) (p : P) : bool := key_eq (m_key f) (pkt_key p).

(** [clone()]: a new object with every field copied. *)
Definition clone (f : flow) : flow :=
  let new_flow := flow_new (m_key f) in
  MkFlow (m_stime f) (m_etime f) (m_key new_flow) (m_bytes f) (m_packets f)
    (m_flow_packets f) (m_list_sorted f).

Definition reset (f : flow) : flow := MkFlow 0 0 (m_key f) 0 0 [] false.

(** The flow of one packet seen at [us], as both meters build it. *)
Lemma clone_id f : clone f = f.
Proof. by destruct f. Qed.

Lemma expand_etime us f : m_etime f ≤ us → m_etime (expand_interval us f) = us.
Proof. intros. unfold expand_interval. simpl. destruct_cmp; simpl; lia. Qed.

Lemma expand_stime us f :
  0 < us → 0 ≤ m_stime f → 0 < m_stime (expand_interval us f) ≤ us.
Proof. intros. unfold expand_interval. simpl. destruct_cmp; simpl; lia. Qed.
End flow.

Arguments flow P : clear implicits.
