(* ===== verification/FlowMeter.v ===== *)
(** * The flow meter block

    Models [blocks/FlowMeter.cpp]: the flow table with its circular queue of
    slots to check for expiration.  A flow object is shared by the table and
    by its slot, so the model has a store of flow objects and both hold
    pointers into it.  The clock's reading is an argument of the operations,
    [sent] lists the flows that left through the output gate. *)

From S2P Require Export Flow.

(** [static const int Q_SIZE = 128*1024;] *)
Definition Q_BITS : Z := 17.
Definition Q_SIZE : Z := 128 * 1024.

Record queue_slot := QueueSlot { flow_ptr : option nat; last_checked : Z }.

(** ** The circular queue *)

Record ring := Ring { m_flow_queue : list queue_slot; m_queue_head : Z; m_queue_tail : Z }.

Section ring.
Context (Q : Z).
Implicit Types (r : ring) (s : queue_slot) (l : list queue_slot).

Definition ring_new : ring := Ring (replicate (Z.to_nat Q) (QueueSlot None 0)) 0 0.

(** The moved-from slot keeps its time but not its pointer. *)
Definition pop_slot r : option queue_slot * ring :=
  if m_queue_head r =? m_queue_tail r then (None, r)
  else
    let i := Z.to_nat (m_queue_head r) in
    let slot := default (QueueSlot None 0) (m_flow_queue r !! i) in
    let next_head := Z.land (u32 (m_queue_head r + 1)) (Q - 1) in
    (Some slot, Ring (<[i := QueueSlot None (last_checked slot)]> (m_flow_queue r)) next_head (m_queue_tail r)).

Definition push_slot s r : bool * ring :=
  let next_tail := Z.land (u32 (m_queue_tail r + 1)) (Q - 1) in
  if next_tail =? m_queue_head r then (false, r)
  else (true, Ring (<[Z.to_nat (m_queue_tail r) := s]> (m_flow_queue r)) (m_queue_head r) next_tail).

(** [l] is what the ring holds from head to tail. *)
Record ring_rep r l : Prop := {
  ring_size : length (m_flow_queue r) = Z.to_nat Q;
  ring_head : 0 ≤ m_queue_head r < Q;
  ring_tail : m_queue_tail r = (m_queue_head r + Z.of_nat (length l)) `mod` Q;
  ring_len : Z.of_nat (length l) < Q;
  ring_slots : ∀ i s, l !! i = Some s →
    m_flow_queue r !! Z.to_nat ((m_queue_head r + Z.of_nat i) `mod` Q) = Some s
}.

Context (bits : Z) (Q_pow : Q = 2 ^ bits) (bits_pos : 0 < bits ≤ 31).

Lemma Q_range : 1 < Q ≤ 2 ^ 31.
Proof.
  rewrite Q_pow. split; [apply (Z.pow_lt_mono_r 2 0 bits); lia|apply Z.pow_le_mono_r; lia].
Qed.

Lemma next_index i : 0 ≤ i < Q → Z.land (u32 (i + 1)) (Q - 1) = (i + 1) `mod` Q.
Proof.
  intros Hi. pose proof Q_range. rewrite u32_small by lia.
  replace (Q - 1) with (Z.ones bits) by (rewrite Z.ones_equiv; lia).
  rewrite Z.land_ones by lia. by rewrite <- Q_pow.
Qed.

Lemma ring_new_rep : ring_rep ring_new [].
Proof.
  pose proof Q_range. split; simpl; try done; try lia.
  by rewrite length_replicate.
Qed.

Lemma ring_tail_range r l : ring_rep r l → 0 ≤ m_queue_tail r < Q.
Proof. intros HI. rewrite (ring_tail _ _ HI). apply Z.mod_pos_bound. pose proof Q_range. lia. Qed.

Lemma pop_slot_nil r : ring_rep r [] → pop_slot r = (None, r).
Proof.
  intros [_ Hh Ht _ _]. unfold pop_slot. simpl in Ht. rewrite Z.add_0_r, Z.mod_small in Ht by lia.
  by rewrite Ht, Z.eqb_refl.
Qed.

(** Two different offsets below [Q] are two different indices. *)
Lemma index_inj h i j :
  0 ≤ h < Q → 0 ≤ i < Q → 0 ≤ j < Q → (h + i) `mod` Q = (h + j) `mod` Q → i = j.
Proof.
  intros Hh Hi Hj E.
  pose proof (Z.div_mod (h + i) Q ltac:(lia)). pose proof (Z.div_mod (h + j) Q ltac:(lia)).
  assert ((h + i) / Q = (h + j) / Q) by nia. lia.
Qed.

Lemma pop_slot_cons r s l :
  ring_rep r (s :: l) → ∃ r', pop_slot r = (Some s, r') ∧ ring_rep r' l.
Proof.
  intros [Hsz Hh Ht Hl Hs]. pose proof Q_range. simpl in Hl, Ht. unfold pop_slot.
  pose proof (Hs 0%nat s eq_refl) as H0. rewrite Z.add_0_r, Z.mod_small in H0 by lia.
  destruct (Z.eqb_spec (m_queue_head r) (m_queue_tail r)) as [E|_].
  { exfalso. rewrite <- (Z.mod_small (m_queue_head r) Q) in E by lia.
    rewrite <- (Z.add_0_r (m_queue_head r)) in E at 1. rewrite Ht in E.
    apply index_inj in E; lia. }
  rewrite H0. simpl. eexists. split; [done|]. rewrite next_index by lia.
  assert (∀ k, 0 ≤ k → ((m_queue_head r + 1) `mod` Q + k) `mod` Q = (m_queue_head r + (k + 1)) `mod` Q) as Hk.
  { intros k Hk. rewrite Z.add_mod_idemp_l by lia. f_equal. lia. }
  split; simpl.
  - by rewrite length_insert.
  - apply Z.mod_pos_bound. lia.
  - rewrite Hk by lia. rewrite Ht. f_equal. lia.
  - lia.
  - intros i t Hi. pose proof (lookup_lt_Some _ _ _ Hi).
    rewrite Hk by lia. rewrite list_lookup_insert_ne.
    + replace (Z.of_nat i + 1) with (Z.of_nat (S i)) by lia. by apply Hs.
    + intros E. pose proof (Z.mod_pos_bound (m_queue_head r + (Z.of_nat i + 1)) Q ltac:(lia)).
      apply Z2Nat.inj in E; [|lia..].
      rewrite <- (Z.mod_small (m_queue_head r) Q) in E at 1 by lia.
      rewrite <- (Z.add_0_r (m_queue_head r)) in E at 1. apply index_inj in E; lia.
Qed.

Lemma push_slot_rep s r l :
  ring_rep r l →
  if decide (Z.of_nat (length l) = Q - 1) then push_slot s r = (false, r)
  else ∃ r', push_slot s r = (true, r') ∧ ring_rep r' (l ++ [s]).
Proof.
  intros HI. pose proof (ring_tail_range _ _ HI) as Htr. destruct HI as [Hsz Hh Ht Hl Hs].
  pose proof Q_range. unfold push_slot. rewrite next_index by lia.
  assert ((m_queue_tail r + 1) `mod` Q = (m_queue_head r + (Z.of_nat (length l) + 1)) `mod` Q) as En.
  { rewrite Ht, Z.add_mod_idemp_l by lia. f_equal. lia. }
  rewrite En. case_decide as Hfull.
  - replace (m_queue_head r + (Z.of_nat (length l) + 1)) with (m_queue_head r + 1 * Q) by lia.
    rewrite Z.mod_add, Z.mod_small by lia. by rewrite Z.eqb_refl.
  - destruct (Z.eqb_spec ((m_queue_head r + (Z.of_nat (length l) + 1)) `mod` Q) (m_queue_head r)) as [E|_].
    { exfalso. rewrite <- (Z.mod_small (m_queue_head r) Q) in E at 2 by lia.
      rewrite <- (Z.add_0_r (m_queue_head r)) in E at 2. apply index_inj in E; lia. }
    eexists. split; [done|]. split; simpl; rewrite ?length_app, ?length_insert; try done.
    + simpl. f_equal. lia.
    + simpl. lia.
    + intros i t Hi. apply lookup_app_Some in Hi as [Hi|[Hi Ht']].
      * pose proof (lookup_lt_Some _ _ _ Hi). rewrite list_lookup_insert_ne; [by apply Hs|].
        rewrite Ht. intros E. apply Z2Nat.inj in E; [|apply Z.mod_pos_bound; lia..].
        apply index_inj in E; lia.
      * apply list_lookup_singleton_Some in Ht' as [Ei <-].
        assert (i = length l) as -> by lia. rewrite <- Ht. apply list_lookup_insert_eq. lia.
Qed.
End ring.

(** ** The block *)

Section meter.
Context {P : Type} `{PacketI P} (Q : Z).

(** A message is a packet or of another type. *)
Inductive msg := PacketMsg (p : P) | OtherMsg.

Record meter := Meter {
  objects : gmap nat (flow P);
  next_ptr : nat;
  m_flow_table : gmap FlowKey nat;
  m_queue : ring;
  m_idle_timeout_ms : Z;
  m_active_timeout_ms : Z;
  m_store_packets : bool;
  sent : list (flow P)
}.

Definition set_objects (o : gmap nat (flow P)) (m : meter) : meter :=
  Meter o (next_ptr m) (m_flow_table m) (m_queue m) (m_idle_timeout_ms m) (m_active_timeout_ms m)
    (m_store_packets m) (sent m).
Definition set_table (t : gmap FlowKey nat) (m : meter) : meter :=
  Meter (objects m) (next_ptr m) t (m_queue m) (m_idle_timeout_ms m) (m_active_timeout_ms m)
    (m_store_packets m) (sent m).
Definition set_ring (r : ring) (m : meter) : meter :=
  Meter (objects m) (next_ptr m) (m_flow_table m) r (m_idle_timeout_ms m) (m_active_timeout_ms m)
    (m_store_packets m) (sent m).
Definition set_config (idle active : Z) (store : bool) (m : meter) : meter :=
  Meter (objects m) (next_ptr m) (m_flow_table m) (m_queue m) idle active store (sent m).

(** The constructor. *)
Definition meter_new : meter := Meter ∅ 0 ∅ (ring_new Q) 500 100 false [].

(** [new Flow], reading and writing through a pointer, [send_out_through]. *)
Definition alloc (f : flow P) : M meter nat := λ m,
  (Ret (next_ptr m),
   Meter (<[next_ptr m := f]> (objects m)) (S (next_ptr m)) (m_flow_table m) (m_queue m)
     (m_idle_timeout_ms m) (m_active_timeout_ms m) (m_store_packets m) (sent m)).
Definition deref (ptr : nat) : M meter (flow P) := λ m,
  match objects m !! ptr with
  | Some f => (Ret f, m)
  | None => (Throw (undefined_behaviour "dangling flow pointer"), m)
  end.
Definition write (ptr : nat) (g : flow P → flow P) : M meter unit :=
  f ← deref ptr;
  modify (λ m, set_objects (<[ptr := g f]> (objects m)) m).
Definition send_out (f : flow P) : M meter unit :=
  modify (λ m, Meter (objects m) (next_ptr m) (m_flow_table m) (m_queue m) (m_idle_timeout_ms m)
                 (m_active_timeout_ms m) (m_store_packets m) (sent m ++ [f])).

(** [_configure]: the XML node's answers are the argument (an element may
    lack its attribute); the result is the period of the timer set. *)
Definition configure (idle_timeout active_timeout : option (option Z)) (store_packets : option bool)
    : M meter Z :=
  m ← gets id;
  idle ← match idle_timeout with
         | None => mret (m_idle_timeout_ms m)
         | Some (Some ms) => mret (s32 ms)
         | Some None => throw (runtime_error "FlowMeter: malformed timeout paramter")
         end;
  modify (set_config idle (m_active_timeout_ms m) (m_store_packets m));;
  active ← match active_timeout with
           | None => mret (m_active_timeout_ms m)
           | Some (Some ms) => mret (u32 ms)
           | Some None => throw (runtime_error "FlowMeter: malformed timeout paramter")
           end;
  modify (set_config idle active (m_store_packets m));;
  ensure ((- 2 ^ 31 <=? idle * 1000) && (idle * 1000 <? 2 ^ 31))
    (undefined_behaviour "signed overflow");;
  modify (set_config idle active (default (m_store_packets m) store_packets));;
  mret (u64 (idle * 1000)).

(** The loop of [_handle_timer]; [false] when [fuel] runs out. *)
Fixpoint expire_loop (fuel : nat) (tnow us_limit : Z) : M meter bool :=
  match fuel with
  | O => mret false
  | S fuel =>
      r ← gets m_queue;
      match pop_slot Q r with
      | (None, _) => mret true
      | (Some cur_slot, r) =>
          modify (set_ring r);;
          match flow_ptr cur_slot with
          | None => throw (undefined_behaviour "null flow pointer")
          | Some ptr =>
              cur_flow ← deref ptr;
              if m_etime cur_flow <? us_limit then
                modify (λ m, set_table (delete (m_key cur_flow) (m_flow_table m)) m);;
                send_out cur_flow;;
                expire_loop fuel tnow us_limit
              else
                let last_slot := us_limit <? last_checked cur_slot in
                r ← gets m_queue;
                modify (set_ring (push_slot Q (QueueSlot (Some ptr) tnow) r).2);;
                if last_slot then mret true else expire_loop fuel tnow us_limit
          end
      end
  end.

Definition handle_timer (fuel : nat) (tnow : Z) : M meter bool :=
  idle ← gets m_idle_timeout_ms;
  ensure ((- 2 ^ 31 <=? idle * 1000) && (idle * 1000 <? 2 ^ 31))
    (undefined_behaviour "signed overflow");;
  expire_loop fuel tnow (u64 (tnow - idle * 1000)).

(** The flow built for the first packet of a key. *)
Definition first_flow (us_now : Z) (store : bool) (packet : P) : flow P :=
  let new_flow := increment_packets 1 (increment_bytes (pkt_length packet)
                    (expand_interval us_now (flow_new (pkt_key packet)))) in
  if store then add_packet packet new_flow else new_flow.

(** What a packet does to the flow it belongs to. *)
Definition count_packet (us_now : Z) (store : bool) (packet : P) (f : flow P) : flow P :=
  let f := increment_packets 1 (increment_bytes (pkt_length packet) (expand_interval us_now f)) in
  if store then add_packet packet f else f.

(** [_receive_msg] *)
Definition receive_msg (us_now : Z) (m : msg) : M meter unit :=
  match m with
  | OtherMsg => throw (runtime_error "FlowMeter: wrong message type (only Packet is accepted)")
  | PacketMsg packet =>
      table ← gets m_flow_table;
      store ← gets m_store_packets;
      match table !! pkt_key packet with
      | None =>
          flow_sp ← alloc (first_flow us_now store packet);
          modify (λ m, set_table (<[pkt_key packet := flow_sp]> (m_flow_table m)) m);;
          r ← gets m_queue;
          let '(ok, r) := push_slot Q (QueueSlot (Some flow_sp) us_now) r in
          modify (set_ring r);;
          ensure ok (runtime_error "FlowMeter: queue is full")
      | Some ptr =>
          f ← deref ptr;
          active ← gets m_active_timeout_ms;
          (if active <? u64 (us_now - m_stime f) / 1000 then
             write ptr (expand_interval us_now);;
             f ← deref ptr;
             send_out (clone f);;
             write ptr reset
           else mret tt);;
          write ptr (count_packet us_now store packet)
      end
  end.

(** A run of the block: packets and expirations of its timer, with the times
    the clock gives. *)
Inductive event := Arrive (us : Z) (p : P) | Expire (us : Z).
Definition event_time (e : event) : Z := match e with Arrive us _ | Expire us => us end.

Definition run_event (fuel : nat) (e : event) : M meter unit :=
  match e with
  | Arrive us p => receive_msg us (PacketMsg p)
  | Expire us => b ← handle_timer fuel us; ensure b (undefined_behaviour "does not return")
  end.

Fixpoint run_events (fuel : nat) (es : list event) : M meter unit :=
  match es with
  | [] => mret tt
  | e :: es => run_event fuel e;; run_events fuel es
  end.
End meter.

Arguments meter P : clear implicits.
Arguments msg P : clear implicits.
Arguments event P : clear implicits.

(** ** What the meter keeps true *)

Section invariant.
Context {P : Type} `{PI : PacketI P} (Q bits : Z) (Q_pow : Q = 2 ^ bits) (bits_pos : 0 < bits ≤ 31).
Implicit Types (m : meter P) (l : list queue_slot) (f : flow P) (p : P).

Definition idle_us m : Z := m_idle_timeout_ms m * 1000.

(** The slot's flow is the table's entry for its key, was seen before [now],
    and was no older than the idle timeout when it was last checked. *)
Definition alive_slot (now : Z) m (s : queue_slot) : Prop :=
  ∃ ptr f, flow_ptr s = Some ptr ∧ objects m !! ptr = Some f ∧
    m_flow_table m !! m_key f = Some ptr ∧ last_checked s ≤ now ∧ m_etime f ≤ now ∧
    last_checked s ≤ m_etime f + idle_us m ∧ 0 ≤ m_stime f.

Record meter_inv (now : Z) m l : Prop := {
  mi_ring : ring_rep Q (m_queue m) l;
  mi_fresh : ∀ ptr, (next_ptr m ≤ ptr)%nat → objects m !! ptr = None;
  mi_alive : Forall (alive_slot now m) l;
  mi_table : ∀ k ptr, m_flow_table m !! k = Some ptr →
    Some ptr ∈ (flow_ptr <$> l) ∧ ∃ f, objects m !! ptr = Some f ∧ m_key f = k;
  mi_nodup : NoDup (flow_ptr <$> l);
  mi_sorted : StronglySorted (λ s t, last_checked s ≤ last_checked t) l
}.

(** What was counted for a key: in the flows sent and in the table. *)
Definition in_table (v : flow P → Z) (k : FlowKey) m : Z :=
  match m_flow_table m !! k ≫= (objects m !!.) with Some f => v f | None => 0 end.
Definition of_key (v : flow P → Z) (k : FlowKey) f : Z := if decide (m_key f = k) then v f else 0.
Definition accounted (v : flow P → Z) (k : FlowKey) m : Z :=
  sumZ (of_key v k) (sent m) + in_table v k m.

Definition same_config m m' : Prop :=
  m_idle_timeout_ms m' = m_idle_timeout_ms m ∧
  m_active_timeout_ms m' = m_active_timeout_ms m ∧ m_store_packets m' = m_store_packets m.

Lemma alive_later now now' m s : now ≤ now' → alive_slot now m s → alive_slot now' m s.
Proof. intros Hn (ptr & f & ? & ? & ? & ? & ? & ? & ?). exists ptr, f. split_and!; try done; lia. Qed.

Lemma meter_inv_later now now' m l : now ≤ now' → meter_inv now m l → meter_inv now' m l.
Proof.
  intros Hn [H1 H2 H3 H4 H5 H6]. split; try done.
  eapply Forall_impl; [exact H3|]. intros s. by apply alive_later.
Qed.

(** The initial state. *)
Lemma meter_new_inv : meter_inv 0 (meter_new Q) [].
Proof.
  split; try done; try by constructor. by apply (ring_new_rep Q bits).
Qed.

(** A packet of a flow that is in the table. *)
Lemma update_object_inv now us m m' l k ptr f f' :
  meter_inv now m l → now ≤ us → 0 ≤ idle_us m →
  m_flow_table m !! k = Some ptr → objects m !! ptr = Some f →
  m_key f' = k → m_etime f' = us → 0 ≤ m_stime f' →
  objects m' = <[ptr := f']> (objects m) → next_ptr m' = next_ptr m →
  m_flow_table m' = m_flow_table m → m_queue m' = m_queue m → same_config m m' →
  meter_inv us m' l.
Proof.
  intros HI Hn Hi Hk Hf Hkf Het Hst Eo En Et Er Ec.
  assert (idle_us m' = idle_us m) as Ei by (unfold idle_us; by destruct Ec as (-> & _)).
  destruct (meter_inv_later now us m l Hn HI) as [H1 H2 H3 H4 H5 H6].
  split; try congruence.
  - intros q Hq. rewrite Eo, lookup_insert_ne; [apply H2; lia|]. intros <-.
    rewrite (H2 ptr) in Hf; [done|lia].
  - eapply Forall_impl; [exact H3|].
    intros s (q & g & Hp & Hg & Ht & Hl1 & Hl2 & Hl3 & Hl4).
    destruct (decide (q = ptr)) as [->|Hne].
    + exists ptr, f'. rewrite Eo, Et, Ei, lookup_insert_eq, Hkf. split_and!; try done; lia.
    + exists q, g. rewrite Eo, Et, Ei, lookup_insert_ne by done. by split_and!.
  - intros k' q Hq. rewrite Et in Hq. destruct (H4 k' q Hq) as [Hin (g & Hg & Hkg)].
    split; [done|]. rewrite Eo. destruct (decide (q = ptr)) as [->|Hne].
    + exists f'. rewrite lookup_insert_eq. split; [done|].
      destruct (H4 k ptr Hk) as [_ (g' & Hg' & <-)]. congruence.
    + exists g. by rewrite lookup_insert_ne.
Qed.

(** The first packet of a flow. *)
Lemma insert_object_inv now us m m' l k f' :
  meter_inv now m l → now ≤ us → 0 ≤ idle_us m →
  m_flow_table m !! k = None →
  m_key f' = k → m_etime f' = us → 0 ≤ m_stime f' →
  objects m' = <[next_ptr m := f']> (objects m) → next_ptr m' = S (next_ptr m) →
  m_flow_table m' = <[k := next_ptr m]> (m_flow_table m) → same_config m m' →
  ring_rep Q (m_queue m') (l ++ [QueueSlot (Some (next_ptr m)) us]) →
  meter_inv us m' (l ++ [QueueSlot (Some (next_ptr m)) us]).
Proof.
  intros HI Hn Hi Hk Hkf Het Hst Eo En Et Ec Er.
  assert (idle_us m' = idle_us m) as Ei by (unfold idle_us; by destruct Ec as (-> & _)).
  destruct (meter_inv_later now us m l Hn HI) as [H1 H2 H3 H4 H5 H6].
  assert (∀ s, s ∈ l → ∃ q g, flow_ptr s = Some q ∧ objects m !! q = Some g ∧ (q < next_ptr m)%nat) as Hold.
  { intros s Hs. rewrite Forall_forall in H3. destruct (H3 s Hs) as (q & g & Hp & Hg & _).
    exists q, g. split_and!; try done. destruct (decide (q < next_ptr m)%nat); [done|].
    rewrite H2 in Hg; [done|lia]. }
  split; try done.
  - intros q Hq. rewrite Eo, lookup_insert_ne by lia. apply H2. lia.
  - apply Forall_app. split.
    + rewrite Forall_forall in *. intros s Hs. destruct (Hold s Hs) as (q0 & g0 & Hp0 & _ & Hlt).
      destruct (H3 s Hs) as (q & g & Hp & Hg & Ht & Hrest).
      assert (q0 = q) as -> by congruence.
      exists q, g. rewrite Eo, Et, Ei, lookup_insert_ne by lia.
      rewrite lookup_insert_ne by congruence. by repeat (split; [done|]).
    + constructor; [|constructor]. exists (next_ptr m), f'. rewrite Eo, Et, Ei, Hkf, !lookup_insert_eq.
      split_and!; try done; simpl; lia.
  - intros k' q. rewrite Et, fmap_app, elem_of_app, Eo. destruct (decide (k = k')) as [<-|Hne].
    + rewrite lookup_insert_eq. intros [= <-]. split; [right; by apply list_elem_of_singleton|].
      exists f'. by rewrite lookup_insert_eq.
    + rewrite lookup_insert_ne by done. intros Hq. destruct (H4 k' q Hq) as [Hin (g & Hg & Hkg)].
      split; [by left|]. exists g. rewrite lookup_insert_ne; [done|]. intros <-. by rewrite H2 in Hg.
  - rewrite fmap_app. apply NoDup_app. split_and!; [done| |apply NoDup_singleton].
    intros o Ho Hin. apply list_elem_of_singleton in Hin as ->.
    apply list_elem_of_fmap in Ho as (s & Es & Hs). destruct (Hold s Hs) as (q & g & Hp & _ & Hlt).
    rewrite Hp in Es. injection Es as <-. lia.
  - apply StronglySorted_app_2; [|done|by repeat constructor].
    intros s t Hs Ht. apply list_elem_of_singleton in Ht as ->. simpl.
    rewrite Forall_forall in H3. destruct (H3 s Hs) as (? & ? & ? & ? & ? & ? & _). done.
Qed.

(** ** Accounting *)

(** A counter [v] of flows that a packet advances by [d], modulo [2^64]. *)
Record counter (v : flow P → Z) (d : P → Z) : Prop := {
  counter_new k : v (flow_new k) = 0;
  counter_expand us f : v (expand_interval us f) = v f;
  counter_reset f : v (reset f) = 0;
  counter_count us store p f : v (count_packet us store p f) = u64 (v f + d p)
}.

Lemma bytes_counter : counter m_bytes pkt_length.
Proof. split; try done. intros us [] p f; done. Qed.
Lemma packets_counter : counter m_packets (λ _, 1).
Proof. split; try done. intros us [] p f; done. Qed.

Lemma first_flow_count us store p : first_flow us store p = count_packet us store p (flow_new (pkt_key p)).
Proof. done. Qed.

Lemma count_packet_key us store p f : m_key (count_packet us store p f) = m_key f.
Proof. by destruct store. Qed.
Lemma count_packet_etime us store p f : m_etime f ≤ us → m_etime (count_packet us store p f) = us.
Proof. intros. destruct store; by apply expand_etime. Qed.
Lemma count_packet_stime us store p f :
  0 < us → 0 ≤ m_stime f → 0 ≤ m_stime (count_packet us store p f).
Proof. intros Hu Hf. pose proof (expand_stime us f Hu Hf). destruct store; simpl in *; lia. Qed.

Lemma of_key_same v k f f' :
  m_key f' = m_key f → of_key v k f' - of_key v k f = if decide (m_key f = k) then v f' - v f else 0.
Proof. intros E. unfold of_key. rewrite E. case_decide; lia. Qed.

Lemma accounted_update v k0 now m m' l k ptr f f' fs :
  meter_inv now m l → m_flow_table m !! k = Some ptr → objects m !! ptr = Some f →
  m_key f' = k →
  objects m' = <[ptr := f']> (objects m) → m_flow_table m' = m_flow_table m →
  sent m' = sent m ++ fs →
  accounted v k0 m' = accounted v k0 m + sumZ (of_key v k0) fs + (of_key v k0 f' - of_key v k0 f).
Proof.
  intros HI Hk Hf Hkf Eo Et Es. unfold accounted. rewrite Es, sumZ_app.
  destruct (mi_table _ _ _ HI k ptr Hk) as [_ (g & Hg & Hkg)].
  assert (g = f) as -> by congruence.
  rewrite of_key_same by congruence. unfold in_table. rewrite Et, Eo, Hkg.
  case_decide as Hd.
  - subst k0. rewrite Hk. simpl. rewrite lookup_insert_eq, Hf. lia.
  - destruct (m_flow_table m !! k0) as [q|] eqn:Hq; simpl; [|lia].
    rewrite lookup_insert_ne; [lia|]. intros <-.
    destruct (mi_table _ _ _ HI k0 ptr Hq) as [_ (g & Hg' & Hkg')]. congruence.
Qed.

Lemma accounted_insert v k0 now m m' l k f' :
  meter_inv now m l → m_flow_table m !! k = None → m_key f' = k →
  objects m' = <[next_ptr m := f']> (objects m) →
  m_flow_table m' = <[k := next_ptr m]> (m_flow_table m) → sent m' = sent m →
  accounted v k0 m' = accounted v k0 m + of_key v k0 f'.
Proof.
  intros HI Hk Hkf Eo Et Es. unfold accounted, in_table, of_key. rewrite Es, Eo, Et, Hkf.
  case_decide as Hd.
  - subst k0. rewrite Hk, lookup_insert_eq. simpl. rewrite lookup_insert_eq. lia.
  - rewrite lookup_insert_ne by done.
    destruct (m_flow_table m !! k0) as [q|] eqn:Hq; simpl; [|lia].
    rewrite lookup_insert_ne; [lia|]. intros <-.
    destruct (mi_table _ _ _ HI k0 _ Hq) as [_ (g & Hg & _)].
    by rewrite (mi_fresh _ _ _ HI) in Hg.
Qed.

(** ** Receiving a packet *)

Lemma receive_known us m l p ptr :
  meter_inv us m l → 0 < us → 0 ≤ idle_us m → m_flow_table m !! pkt_key p = Some ptr →
  ∃ m', receive_msg Q us (PacketMsg p) m = (Ret tt, m') ∧ meter_inv us m' l ∧ same_config m m' ∧
    ∀ v d k, counter v d →
      u64 (accounted v k m') = u64 (accounted v k m + if decide (pkt_key p = k) then d p else 0).
Proof.
  intros HI Hu Hi Hk.
  destruct (mi_table _ _ _ HI _ _ Hk) as [Hin (f & Hf & Hkf)].
  assert (m_etime f ≤ us ∧ 0 ≤ m_stime f) as [He Hst].
  { apply list_elem_of_fmap in Hin as (s & Es & Hs). pose proof (mi_alive _ _ _ HI) as Ha.
    rewrite Forall_forall in Ha. destruct (Ha s Hs) as (q & g & Hp & Hg & _ & _ & ? & _ & ?).
    rewrite <- Es in Hp. injection Hp as <-. rewrite Hf in Hg. by injection Hg as <-. }
  cbn [receive_msg]. run_m. rewrite Hk. unfold write, deref, send_out. run_m. rewrite Hf. cbn beta iota.
  destruct (_ <? _).
  - rewrite Hf. cbn beta iota. simpl objects. rewrite !lookup_insert_eq. cbn beta iota. simpl objects.
    rewrite !lookup_insert_eq. cbn beta iota. simpl objects. rewrite !lookup_insert_eq. cbn beta iota.
    eexists. split; [done|]. split_and!; try done.
    + eapply (update_object_inv us us m _ l _ ptr f (count_packet us (m_store_packets m) p (reset (expand_interval us f))));
        try done; simpl; rewrite ?insert_insert_eq; try done.
      * by rewrite count_packet_key.
      * apply count_packet_etime. simpl. lia.
      * by apply count_packet_stime.
    + intros v d k Hc. set (m' := set_objects _ _).
      rewrite (accounted_update v k us m m' l (pkt_key p) ptr f
        (count_packet us (m_store_packets m) p (reset (expand_interval us f)))
        [clone (expand_interval us f)]); try done.
      * rewrite of_key_same by by rewrite count_packet_key. rewrite clone_id. simpl. unfold of_key.
        simpl m_key. rewrite Hkf, (counter_expand _ _ Hc), (counter_count _ _ Hc), (counter_reset _ _ Hc).
        case_decide; [|f_equal; lia]. rewrite !Z.add_0_r, Z.add_sub_assoc, u64_add_sub. f_equal. lia.
      * by rewrite count_packet_key.
      * unfold m'. simpl. by rewrite !insert_insert_eq.
  - cbn beta iota. rewrite Hf. cbn beta iota. eexists. split; [done|]. split_and!; try done.
    + eapply (update_object_inv us us m _ l _ ptr f (count_packet us (m_store_packets m) p f)); try done.
      * by rewrite count_packet_key.
      * by apply count_packet_etime.
      * by apply count_packet_stime.
    + intros v d k Hc. set (m' := set_objects _ _).
      rewrite (accounted_update v k us m m' l (pkt_key p) ptr f
        (count_packet us (m_store_packets m) p f) []); try done.
      * rewrite of_key_same by by rewrite count_packet_key. rewrite Hkf, (counter_count _ _ Hc).
        simpl. case_decide; [|f_equal; lia]. rewrite Z.add_0_r, Z.add_sub_assoc, u64_add_sub. f_equal. lia.
      * by rewrite count_packet_key.
      * by rewrite app_nil_r.
Qed.

Lemma receive_new us m l p :
  meter_inv us m l → 0 < us → 0 ≤ idle_us m → m_flow_table m !! pkt_key p = None →
  Z.of_nat (length l) < Q - 1 →
  ∃ m', receive_msg Q us (PacketMsg p) m = (Ret tt, m') ∧
    meter_inv us m' (l ++ [QueueSlot (Some (next_ptr m)) us]) ∧
    same_config m m' ∧
    ∀ v d k, counter v d →
      u64 (accounted v k m') = u64 (accounted v k m + if decide (pkt_key p = k) then d p else 0).
Proof.
  intros HI Hu Hi Hk Hlen. set (s := QueueSlot (Some (next_ptr m)) us).
  pose proof (push_slot_rep Q bits Q_pow bits_pos s _ _ (mi_ring _ _ _ HI)) as Hpush.
  rewrite decide_False in Hpush by lia. destruct Hpush as (r' & Epush & Hr').
  cbn [receive_msg]. run_m. rewrite Hk. unfold alloc. run_m. cbn [m_queue set_table].
  fold s. rewrite Epush.
  cbn beta iota. eexists. split; [done|]. rewrite first_flow_count. split_and!; try done.
  - eapply (insert_object_inv us us m _ l (pkt_key p)); try done.
    + apply count_packet_key.
    + apply count_packet_etime. simpl. lia.
    + by apply count_packet_stime.
  - intros v d k Hc. set (m' := set_ring _ _).
    rewrite (accounted_insert v k us m m' l (pkt_key p) (count_packet us (m_store_packets m) p (flow_new (pkt_key p))));
      try done; [|by rewrite count_packet_key].
    unfold of_key. rewrite count_packet_key, (counter_count _ _ Hc), (counter_new _ _ Hc). simpl m_key.
    case_decide; [|f_equal; lia]. rewrite Z.add_0_l.
    pose proof (u64_add_sub (accounted v k m) (d p) 0) as E. by rewrite !Z.sub_0_r in E.
Qed.

Lemma receive_full us m l p :
  meter_inv us m l → m_flow_table m !! pkt_key p = None → Z.of_nat (length l) = Q - 1 →
  ∃ m', receive_msg Q us (PacketMsg p) m = (Throw (runtime_error "FlowMeter: queue is full"), m') ∧
    m_flow_table m' = <[pkt_key p := next_ptr m]> (m_flow_table m) ∧ m_queue m' = m_queue m.
Proof.
  intros HI Hk Hlen. set (s := QueueSlot (Some (next_ptr m)) us).
  pose proof (push_slot_rep Q bits Q_pow bits_pos s _ _ (mi_ring _ _ _ HI)) as Hpush.
  rewrite decide_True in Hpush by lia.
  cbn [receive_msg]. run_m. rewrite Hk. unfold alloc. run_m. cbn [m_queue set_table].
  fold s. rewrite Hpush.
  cbn beta iota. eexists. by split_and!.
Qed.

(** ** Expiring flows *)

(** Dropping the first slot with its table entry. *)
Lemma drop_first_inv now m m' s l ptr f :
  meter_inv now m (s :: l) → flow_ptr s = Some ptr → objects m !! ptr = Some f →
  ring_rep Q (m_queue m') l → m_flow_table m' = delete (m_key f) (m_flow_table m) →
  objects m' = objects m → next_ptr m' = next_ptr m → same_config m m' →
  meter_inv now m' l.
Proof.
  intros [H1 H2 H3 H4 H5 H6] Hs Hf Hr Et Eo En Ec.
  assert (idle_us m' = idle_us m) as Ei by (unfold idle_us; by destruct Ec as (-> & _)).
  rewrite fmap_cons in H4, H5. apply NoDup_cons in H5 as [Hni Hnd].
  apply Forall_cons in H3 as [Hs3 H3]. inversion H6; subst.
  assert (m_flow_table m !! m_key f = Some ptr) as Hkf.
  { destruct Hs3 as (q & g & Hq & Hg & Hgt & _). by simplify_eq. }
  split; try done; try congruence.
  - intros q Hq. rewrite Eo. apply H2. lia.
  - rewrite Forall_forall in H3 |- *. intros t Ht.
    destruct (H3 t Ht) as (q & g & Hq & Hg & Hgt & Hrest).
    exists q, g. rewrite Eo, Et, Ei, lookup_delete_ne; [done|].
    intros E. rewrite <- E, Hkf in Hgt. injection Hgt as <-. destruct Hni.
    rewrite Hs, <- Hq. by apply list_elem_of_fmap_2.
  - intros k q. rewrite Et, Eo. destruct (decide (k = m_key f)) as [->|Hne]; [by rewrite lookup_delete_eq|].
    rewrite lookup_delete_ne by done. intros Hq. destruct (H4 k q Hq) as [Hin (g & Hg & Hkg)].
    split; [|by exists g]. apply elem_of_cons in Hin as [Hin|]; [|done].
    rewrite Hs in Hin. injection Hin as ->. congruence.
Qed.

(** Moving the first slot to the back, checked at [now]. *)
Lemma requeue_inv now m m' s l ptr f :
  meter_inv now m (s :: l) → flow_ptr s = Some ptr → objects m !! ptr = Some f →
  now ≤ m_etime f + idle_us m →
  ring_rep Q (m_queue m') (l ++ [QueueSlot (Some ptr) now]) →
  m_flow_table m' = m_flow_table m → objects m' = objects m → next_ptr m' = next_ptr m →
  same_config m m' →
  meter_inv now m' (l ++ [QueueSlot (Some ptr) now]).
Proof.
  intros [H1 H2 H3 H4 H5 H6] Hs Hf Hold Hr Et Eo En Ec.
  assert (idle_us m' = idle_us m) as Ei by (unfold idle_us; by destruct Ec as (-> & _)).
  apply Forall_cons in H3 as [Hs3 H3]. inversion H6; subst.
  assert (flow_ptr <$> l ++ [QueueSlot (Some ptr) now] ≡ₚ flow_ptr <$> s :: l) as Hperm.
  { rewrite fmap_app, (fmap_cons _ s), Hs. symmetry. apply Permutation_cons_append. }
  split; try done; try congruence.
  - intros q Hq. rewrite Eo. apply H2. lia.
  - apply Forall_app. split.
    + eapply Forall_impl; [exact H3|]. intros t (q & g & Hrest). exists q, g. by rewrite Eo, Et, Ei.
    + constructor; [|constructor]. destruct Hs3 as (q & g & Hq & Hg & Hgt & _ & ? & _ & ?).
      simplify_eq. exists q, g. rewrite Eo, Et, Ei. split_and!; try done; simpl; lia.
  - intros k q. rewrite Et, Eo, Hperm. apply H4.
  - by rewrite Hperm.
  - apply StronglySorted_app_2; [|done|by repeat constructor].
    intros t u Ht Hu. apply list_elem_of_singleton in Hu as ->. simpl.
    rewrite Forall_forall in H3. by destruct (H3 t Ht) as (? & ? & ? & ? & ? & ? & _).
Qed.

(** The loop: [l] has still to be looked at, [done] was looked at now. *)
Lemma expire_loop_spec fuel tnow m l done :
  meter_inv tnow m (l ++ done) → 0 < idle_us m → Forall (λ s, last_checked s = tnow) done →
  Forall (λ s, ∃ ptr f, flow_ptr s = Some ptr ∧ objects m !! ptr = Some f ∧ tnow - idle_us m ≤ m_etime f) done →
  (S (length l) < fuel)%nat →
  ∃ m' l' out, expire_loop Q fuel tnow (tnow - idle_us m) m = (Ret true, m') ∧
    meter_inv tnow m' l' ∧ same_config m m' ∧ (length l' ≤ length (l ++ done))%nat ∧
    sent m' = sent m ++ out ∧ Forall (λ f, m_etime f < tnow - idle_us m) out ∧
    (∀ v k, accounted v k m' = accounted v k m) ∧
    Forall (λ s, ∃ ptr f, flow_ptr s = Some ptr ∧ objects m' !! ptr = Some f ∧
                  tnow - 2 * idle_us m < m_etime f) l'.
Proof.
  revert m l done. induction fuel as [|fuel IH]; intros m l done HI Hidle Hdone Hyoung Hfuel; [lia|].
  cbn [expire_loop]. run_m.
  destruct (l ++ done) as [|s rest] eqn:El.
  { erewrite pop_slot_nil by (done || apply HI). exists m, [], []. rewrite app_nil_r. by split_and!. }
  destruct (pop_slot_cons Q bits Q_pow bits_pos _ _ _ (mi_ring _ _ _ HI)) as (r' & Epop & Hr').
  rewrite Epop. cbn beta iota.
  pose proof (mi_alive _ _ _ HI) as Ha. apply Forall_cons in Ha as [Hs Ha].
  pose proof Hs as (ptr & f & Hp & Hf & Hkf & Hlc & Het & Hold & _).
  rewrite Hp. cbn beta iota. unfold deref at 1. cbn [objects set_ring]. rewrite Hf. cbn beta iota.
  destruct (Z.ltb_spec (m_etime f) (tnow - idle_us m)) as [Hexp|Halive].
  - (* the flow expires *)
    destruct l as [|s0 l].
    { destruct done; simplify_eq/=. apply Forall_cons in Hyoung as [(q & g & Hq & Hg & Hold') _].
      simplify_eq. lia. }
    simplify_eq/=. unfold send_out. run_m.
    set (m1 := Meter _ _ _ _ _ _ _ _).
    assert (meter_inv tnow m1 (l ++ done)) as HI1 by by eapply (drop_first_inv tnow m m1 s _ ptr f).
    destruct (IH m1 l done HI1 Hidle Hdone Hyoung ltac:(lia))
      as (m' & l' & out & E & HI' & Hc & Hl & Ho & Hoe & Hacc & Hst).
    exists m', l', (f :: out). split_and!; try done.
    + simpl. lia.
    + rewrite Ho. simpl. by rewrite <- app_assoc.
    + by constructor.
    + intros v k. rewrite Hacc. unfold accounted, in_table. simpl. rewrite sumZ_app. simpl.
      unfold of_key at 2. destruct (decide (m_key f = k)) as [<-|Hne].
      * rewrite lookup_delete_eq, Hkf. simpl. rewrite Hf. lia.
      * rewrite lookup_delete_ne by done. lia.
  - (* the flow stays *)
    pose proof (push_slot_rep Q bits Q_pow bits_pos (QueueSlot (Some ptr) tnow) _ _ Hr') as Hpush.
    pose proof (ring_len _ _ _ (mi_ring _ _ _ HI)) as Hlen. simpl in Hlen.
    rewrite decide_False in Hpush by lia. destruct Hpush as (r2 & Epush & Hr2).
    cbn [m_queue set_ring]. rewrite Epush.
    set (m1 := set_ring r2 (set_ring r' m)).
    assert (meter_inv tnow m1 (rest ++ [QueueSlot (Some ptr) tnow])) as HI1.
    { eapply (requeue_inv tnow m m1 s _ ptr f); try done. lia. }
    assert (∃ ptr' (f' : flow P), Some ptr = Some ptr' ∧ objects m1 !! ptr' = Some f' ∧ tnow - idle_us m1 ≤ m_etime f') as Hyoung1
      by by exists ptr, f.
    destruct (Z.ltb_spec (tnow - idle_us m) (last_checked s)) as [Hlast|Hnot].
    + exists m1, (rest ++ [QueueSlot (Some ptr) tnow]), []. split_and!; try done.
      * rewrite length_app. simpl. lia.
      * by rewrite app_nil_r.
      * pose proof (mi_sorted _ _ _ HI) as Hsort. inversion Hsort as [|? ? _ Hall]; subst.
        apply Forall_app. split.
        -- rewrite Forall_forall in Ha, Hall |- *. intros t Ht. specialize (Hall t Ht).
           destruct (Ha t Ht) as (q & g & Hq & Hg & _ & _ & _ & ? & _).
           exists q, g. split_and!; [done..|]. change (idle_us m1) with (idle_us m). lia.
        -- constructor; [|constructor]. exists ptr, f. split_and!; [done..|].
           change (idle_us m1) with (idle_us m). lia.
    + destruct l as [|s0 l].
      { destruct done; simplify_eq/=. apply Forall_cons in Hdone as [Hd _]. lia. }
      simplify_eq/=. rewrite <- app_assoc in HI1.
      destruct (IH m1 l (done ++ [QueueSlot (Some ptr) tnow]) HI1 Hidle) as (m' & l' & out & E & HI' & Hc & Hl & Ho & Hoe & Hacc & Hst).
      * apply Forall_app. split; [done|]. by constructor.
      * apply Forall_app. split; [done|]. by constructor.
      * lia.
      * exists m', l', out. split_and!; try done. rewrite !length_app in *. simpl in *. lia.
Qed.
End invariant.

(** ** Runs *)

Section runs.
Context {P : Type} `{PI : PacketI P} (Q bits : Z) (Q_pow : Q = 2 ^ bits) (bits_pos : 0 < bits ≤ 31).
Implicit Types (m : meter P) (l : list queue_slot) (f : flow P) (p : P) (es : list (event P)).

Lemma handle_timer_spec fuel now tnow m l :
  meter_inv Q now m l → now ≤ tnow < 2 ^ 64 →
  0 < m_idle_timeout_ms m ≤ 2147483 → idle_us m ≤ tnow → (S (length l) < fuel)%nat →
  ∃ m' l' out, handle_timer Q fuel tnow m = (Ret true, m') ∧
    meter_inv Q tnow m' l' ∧ same_config m m' ∧ (length l' ≤ length l)%nat ∧
    sent m' = sent m ++ out ∧ Forall (λ f, m_etime f < tnow - idle_us m) out ∧
    (∀ v k, accounted v k m' = accounted v k m) ∧
    Forall (λ s, ∃ ptr f, flow_ptr s = Some ptr ∧ objects m' !! ptr = Some f ∧
                  tnow - 2 * idle_us m < m_etime f) l'.
Proof.
  intros HI Hn Hidle Hu Hf. unfold idle_us in *.
  destruct (expire_loop_spec Q bits Q_pow bits_pos fuel tnow m l []) as (m' & l' & out & E & Hrest).
  - rewrite app_nil_r. eapply meter_inv_later; [..|exact HI]; (done || lia).
  - unfold idle_us. lia.
  - constructor.
  - constructor.
  - done.
  - rewrite app_nil_r in Hrest. exists m', l', out. split; [|exact Hrest].
    unfold handle_timer. run_m.
    replace (_ && _) with true by (symmetry; rewrite andb_true_iff, Z.leb_le, Z.ltb_lt; lia).
    cbn beta iota. rewrite u64_small by lia. exact E.
Qed.

(** The clock's readings do not go back; a timer expires no earlier than one
    idle timeout after the epoch. *)
Fixpoint times_ok (idle now : Z) es : Prop :=
  match es with
  | [] => True
  | e :: es =>
      now ≤ event_time e < 2 ^ 64 ∧ 0 < event_time e ∧
      (match e with Expire us => idle ≤ us | _ => True end) ∧ times_ok idle (event_time e) es
  end.

(** What arrived for a key. *)
Definition arrived (d : P → Z) (k : FlowKey) es : Z :=
  sumZ (λ e, match e with Arrive _ p => if decide (pkt_key p = k) then d p else 0 | _ => 0 end) es.

Definition run_fuel : nat := S (S (Z.to_nat Q)).

Lemma run_events_spec es now m l :
  meter_inv Q now m l → 0 < m_idle_timeout_ms m ≤ 2147483 →
  times_ok (idle_us m) now es → Z.of_nat (length l + length es) < Q →
  ∃ m' l' now', run_events Q run_fuel es m = (Ret tt, m') ∧
    meter_inv Q now' m' l' ∧ same_config m m' ∧
    now' = foldl (λ _ e, event_time e) now es ∧ (length l' ≤ length l + length es)%nat ∧
    ∀ v d k, counter v d → u64 (accounted v k m') = u64 (accounted v k m + arrived d k es).
Proof.
  revert now m l. induction es as [|e es IH]; intros now m l HI Hidle Ht Hlen.
  { exists m, l, now. simpl. split_and!; try done; [lia|]. intros. f_equal. unfold arrived. simpl. lia. }
  destruct Ht as (Hn & Hpos & Hus & Ht). simpl length in Hlen.
  assert (∃ m1 l1, run_event Q run_fuel e m = (Ret tt, m1) ∧ meter_inv Q (event_time e) m1 l1 ∧
    same_config m m1 ∧ (length l1 ≤ S (length l))%nat ∧
    ∀ v d k, counter v d → u64 (accounted v k m1) = u64 (accounted v k m + arrived d k [e]))
    as (m1 & l1 & E & HI1 & Hc1 & Hl1 & Hacc1).
  { destruct e as [us p|us]; simpl in *.
    - assert (meter_inv Q us m l) as HI' by (eapply meter_inv_later; [..|exact HI]; (done || lia)).
      destruct (m_flow_table m !! pkt_key p) as [ptr|] eqn:Hk.
      + destruct (receive_known Q bits bits_pos us m l p ptr HI') as (m1 & E & HI1 & Hc & Hacc); [lia|unfold idle_us; lia|done|].
        exists m1, l. split_and!; try done; [lia|]. intros v d k Hvd. rewrite (Hacc v d k Hvd).
        unfold arrived. simpl. by rewrite Z.add_0_r.
      + destruct (receive_new Q bits Q_pow bits_pos us m l p HI') as (m1 & E & HI1 & Hc & Hacc);
          [lia|unfold idle_us; lia|done|lia|].
        exists m1, (l ++ [QueueSlot (Some (next_ptr m)) us]). split_and!; try done; [rewrite length_app; simpl; lia|].
        intros v d k Hvd. rewrite (Hacc v d k Hvd). unfold arrived. simpl. by rewrite Z.add_0_r.
    - destruct (handle_timer_spec run_fuel now us m l HI Hn Hidle) as (m1 & l1 & out & E & HI1 & Hc & Hl & _ & _ & Hacc & _);
        [lia|unfold run_fuel; lia|].
      exists m1, l1. run_m. rewrite E. cbn beta iota. split_and!; try done; [lia|].
      intros v d k _. rewrite Hacc. unfold arrived. simpl. f_equal. lia. }
  destruct (IH (event_time e) m1 l1 HI1) as (m' & l' & now' & E' & HI' & Hc' & Hnow & Hl' & Hacc').
  - by destruct Hc1 as (-> & _).
  - unfold idle_us in *. by destruct Hc1 as (-> & _).
  - lia.
  - exists m', l', now'. cbn [run_events]. rewrite (bind_Ret _ _ _ _ _ E). split_and!; try done.
    + destruct Hc1 as (? & ? & ?), Hc' as (? & ? & ?). split_and!; congruence.
    + simpl. lia.
    + intros v d k Hvd. rewrite (Hacc' v d k Hvd). rewrite (u64_add_cong _ _ _ (Hacc1 v d k Hvd)).
      unfold arrived. simpl. f_equal. lia.
Qed.
End runs.

(** ** Properties *)

(** A configured meter before its first packet. *)
Definition configured {P : Type} (idle active : Z) (store : bool) : meter P :=
  set_config idle active store (meter_new Q_SIZE).

Lemma configured_inv {P} `{PacketI P} idle active store :
  meter_inv (P:=P) Q_SIZE 0 (configured idle active store) [].
Proof.
  destruct (meter_new_inv (P:=P) Q_SIZE Q_BITS) as [H1 H2 H3 H4 H5 H6]; [done|done|].
  by split.
Qed.

(** C27: conservation.  In any run of packets and timer expirations with a
    clock that does not go back, as long as fewer events than the queue has
    slots happened, the block never throws, and for every flow key the bytes
    and packets in the flows it sent and in its table add up (modulo [2^64])
    to those of the packets that arrived. *)
Theorem flow_meter_accounts {P} `{PacketI P} idle active store (es : list (event P)) :
  0 < idle ≤ 2147483 → times_ok (idle * 1000) 0 es → Z.of_nat (length es) < Q_SIZE →
  ∃ m, run_events Q_SIZE (run_fuel Q_SIZE) es (configured idle active store) = (Ret tt, m) ∧
    ∀ k, u64 (accounted m_bytes k m) = u64 (arrived pkt_length k es) ∧
         u64 (accounted m_packets k m) = u64 (arrived (λ _, 1) k es).
Proof.
  intros Hidle Ht Hlen.
  destruct (run_events_spec Q_SIZE Q_BITS eq_refl ltac:(done) es 0 _ [] (configured_inv idle active store))
    as (m & l & now & E & _ & _ & _ & _ & Hacc); [done|exact Ht|simpl; lia|].
  exists m. split; [done|]. intros k.
  rewrite (Hacc _ _ k bytes_counter), (Hacc _ _ k packets_counter). done.
Qed.

(** A packet for the examples: its key's fields and its length. *)
#[export] Instance example_packet : PacketI (Z * Z) :=
  {| pkt_key p := MkFlowKey p.1 1 2 3 6; pkt_length p := p.2 |}.

Definition example_events : list (event (Z * Z)) :=
  [Arrive 600000 (7, 100); Arrive 650000 (8, 60); Arrive 900000 (7, 50); Expire 1000000;
   Arrive 1700000 (7, 40); Expire 2000000].

Lemma flow_meter_accounts_witness :
  ∃ m, run_events Q_SIZE (run_fuel Q_SIZE) example_events (configured 500 100 false) = (Ret tt, m) ∧
    ∀ k, u64 (accounted m_bytes k m) = u64 (arrived pkt_length k example_events) ∧
         u64 (accounted m_packets k m) = u64 (arrived (λ _, 1) k example_events).
Proof.
  apply (flow_meter_accounts 500 100 false example_events).
  - lia.
  - simpl. repeat split; lia.
  - reflexivity.
Defined.

(** C28: expiry is exact.  After any such run the timer's pass ends, it sends
    only flows whose last packet is older than the idle timeout, and every
    flow left in the table had a packet within two idle timeouts. *)
Theorem flow_meter_expiry {P} `{PacketI P} idle active store (es : list (event P)) tnow m :
  0 < idle ≤ 2147483 → times_ok (idle * 1000) 0 (es ++ [Expire tnow]) →
  Z.of_nat (length es) < Q_SIZE →
  run_events Q_SIZE (run_fuel Q_SIZE) es (configured idle active store) = (Ret tt, m) →
  ∃ m' out, handle_timer Q_SIZE (run_fuel Q_SIZE) tnow m = (Ret true, m') ∧
    sent m' = sent m ++ out ∧ Forall (λ f, m_etime f < tnow - idle * 1000) out ∧
    ∀ k ptr f, m_flow_table m' !! k = Some ptr → objects m' !! ptr = Some f →
      tnow - 2 * (idle * 1000) < m_etime f.
Proof.
  intros Hidle Ht Hlen Hrun.
  assert (∀ now, times_ok (P:=P) (idle * 1000) now (es ++ [Expire tnow]) →
    times_ok (idle * 1000) now es ∧ foldl (λ _ e, event_time e) now es ≤ tnow < 2 ^ 64 ∧ idle * 1000 ≤ tnow) as Hsplit.
  { clear. induction es as [|e es IH]; intros now; simpl.
    - intros (? & ? & ? & ?). tauto.
    - intros (? & ? & ? & ?). destruct (IH (event_time e)) as (? & ? & ?); [done|]. tauto. }
  destruct (Hsplit 0 Ht) as (Hes & Hnow & Hu).
  destruct (run_events_spec Q_SIZE Q_BITS eq_refl ltac:(done) es 0 _ [] (configured_inv idle active store))
    as (m0 & l & now & E & HI & (Hc & _) & Enow & Hl & _); [done|exact Hes|simpl; lia|].
  rewrite Hrun in E. injection E as <-. simpl in Hc, Hl.
  assert (idle_us m = idle * 1000) as Ei by (unfold idle_us; by rewrite Hc).
  destruct (handle_timer_spec Q_SIZE Q_BITS eq_refl ltac:(done) (run_fuel Q_SIZE) now tnow m l HI)
    as (m' & l' & out & E & HI' & _ & _ & Hs & Hout & _ & Hyoung);
    [by subst now|by rewrite Hc|by rewrite Ei|unfold run_fuel; lia|].
  rewrite Ei in *. exists m', out. split_and!; try done.
  intros k ptr f Hk Hf. destruct (mi_table _ _ _ _ HI' k ptr Hk) as [Hin _].
  apply list_elem_of_fmap in Hin as (s & Es & Hin). rewrite Forall_forall in Hyoung.
  destruct (Hyoung s Hin) as (q & g & Hq & Hg & Hlt). congruence.
Qed.

Lemma flow_meter_expiry_witness :
  ∃ m m' out, run_events Q_SIZE (run_fuel Q_SIZE) example_events (configured 500 100 false) = (Ret tt, m) ∧
    handle_timer Q_SIZE (run_fuel Q_SIZE) 2500000 m = (Ret true, m') ∧
    sent m' = sent m ++ out ∧ Forall (λ f, m_etime f < 2500000 - 500 * 1000) out ∧
    ∀ k ptr f, m_flow_table m' !! k = Some ptr → objects m' !! ptr = Some f →
      2500000 - 2 * (500 * 1000) < m_etime f.
Proof.
  destruct (flow_meter_accounts 500 100 false example_events) as (m & E & _);
    [lia|simpl; repeat split; lia|reflexivity|].
  destruct (flow_meter_expiry 500 100 false example_events 2500000 m) as (m' & out & Hrest);
    [lia|simpl; repeat split; lia|reflexivity|exact E|].
  exists m, m', out. exact (conj E Hrest).
Defined.

(** When every slot of the queue is taken, the packet of a new flow makes
    the block throw after the flow was entered in the table: it is there
    without a slot in the queue, where no timer will find it. *)
Theorem flow_meter_queue_full {P} `{PacketI P} Q bits us (m : meter P) l p :
  Q = 2 ^ bits → 0 < bits ≤ 31 → meter_inv Q us m l → Z.of_nat (length l) = Q - 1 →
  m_flow_table m !! pkt_key p = None →
  ∃ m' ptr, receive_msg Q us (PacketMsg p) m = (Throw (runtime_error "FlowMeter: queue is full"), m') ∧
    m_flow_table m' !! pkt_key p = Some ptr ∧ ring_rep Q (m_queue m') l ∧
    Some ptr ∉ (flow_ptr <$> l).
Proof.
  intros HQ Hbits HI Hl Hk.
  destruct (receive_full Q bits HQ Hbits us m l p HI Hk Hl) as (m' & E & Et & Er).
  exists m', (next_ptr m). rewrite Et, Er, lookup_insert_eq. split_and!; [done..|apply HI|].
  intros Hin. apply list_elem_of_fmap in Hin as (s & Es & Hs).
  pose proof (mi_alive _ _ _ _ HI) as Ha. rewrite Forall_forall in Ha.
  destruct (Ha s Hs) as (q & f & Hq & Hf & _). rewrite Hq in Es. injection Es as <-.
  by rewrite (mi_fresh _ _ _ _ HI) in Hf.
Qed.

(** A meter whose queue has two places, one of which a full ring leaves free,
    after its first packet. *)
Definition small_meter (idle : Z) : meter (Z * Z) :=
  (receive_msg 2 10 (PacketMsg (7, 100)) (set_config idle 100 false (meter_new 2))).2.

Lemma small_meter_inv idle : 0 ≤ idle → meter_inv 2 10 (small_meter idle) [QueueSlot (Some 0%nat) 10].
Proof.
  intros Hidle. unfold small_meter. set (m0 := set_config idle 100 false (meter_new 2)).
  assert (meter_inv 2 10 m0 []) as HI0.
  { destruct (meter_new_inv (P:=Z*Z) 2 1) as [H1 H2 H3 H4 H5 H6]; [done|lia|]. by split. }
  destruct (receive_new (P:=Z*Z) 2 1 eq_refl ltac:(lia) 10 m0 [] (7, 100) HI0)
    as (m & E & HI & _); [lia|unfold idle_us; simpl; lia|done|simpl; lia|].
  rewrite E. exact HI.
Qed.

Lemma flow_meter_queue_full_witness :
  ∃ m' ptr, receive_msg 2 20 (PacketMsg (8, 60)) (small_meter 500) =
      (Throw (runtime_error "FlowMeter: queue is full"), m') ∧
    m_flow_table m' !! pkt_key (8, 60) = Some ptr ∧ ring_rep 2 (m_queue m') [QueueSlot (Some 0%nat) 10] ∧
    Some ptr ∉ (flow_ptr <$> [QueueSlot (Some 0%nat) 10]).
Proof.
  apply (flow_meter_queue_full 2 1 20 (small_meter 500) [QueueSlot (Some 0%nat) 10] (8, 60)).
  - reflexivity.
  - lia.
  - apply (meter_inv_later (P:=Z*Z) 2 1 ltac:(lia) 10); [lia|]. apply small_meter_inv. lia.
  - reflexivity.
  - vm_compute. reflexivity.
Defined.

(** With an idle timeout of zero a pass that finds, alone in the queue, a
    flow that was checked at the current time never ends, whatever the number
    of iterations. *)
Theorem flow_meter_zero_timeout_diverges {P} `{PacketI P} Q bits fuel tnow (m : meter P) ptr :
  Q = 2 ^ bits → 0 < bits ≤ 31 → 0 ≤ tnow < 2 ^ 64 →
  meter_inv Q tnow m [QueueSlot (Some ptr) tnow] → m_idle_timeout_ms m = 0 →
  (handle_timer Q fuel tnow m).1 = Ret false.
Proof.
  intros HQ Hbits Ht HI Hidle. unfold handle_timer. run_m. rewrite Hidle.
  change (0 * 1000) with 0. rewrite Z.sub_0_r, u64_small by done.
  change ((- 2 ^ 31 <=? 0) && (0 <? 2 ^ 31)) with true. cbn beta iota.
  revert m HI Hidle. induction fuel as [|fuel IH]; intros m HI Hidle; [done|].
  cbn [expire_loop]. run_m.
  destruct (pop_slot_cons Q bits HQ Hbits _ _ _ (mi_ring _ _ _ _ HI)) as (r' & Epop & Hr').
  rewrite Epop. cbn beta iota.
  pose proof (mi_alive _ _ _ _ HI) as Ha. apply Forall_cons in Ha as [Hs _].
  destruct Hs as (q & f & Hp & Hf & Hkf & Hlc & Het & Hold & Hst). simpl in Hp, Hold.
  injection Hp as <-. unfold idle_us in Hold. rewrite Hidle in Hold.
  cbn [flow_ptr]. unfold deref. run_m. cbn [objects set_ring]. rewrite Hf. cbn beta iota.
  rewrite (proj2 (Z.ltb_ge _ _)) by lia. cbn [last_checked]. rewrite Z.ltb_irrefl.
  pose proof (push_slot_rep Q bits HQ Hbits (QueueSlot (Some ptr) tnow) _ _ Hr') as Hpush.
  pose proof (Q_range Q bits HQ Hbits). simpl length in Hpush. rewrite decide_False in Hpush by lia.
  destruct Hpush as (r2 & Epush & Hr2). cbn [m_queue set_ring]. rewrite Epush.
  apply IH; [|done].
  eapply (requeue_inv Q bits HQ Hbits tnow m _ (QueueSlot (Some ptr) tnow) [] ptr f); try done.
  unfold idle_us. rewrite Hidle. lia.
Qed.

Lemma flow_meter_zero_timeout_diverges_witness :
  (handle_timer 2 1000 10 (small_meter 0)).1 = Ret false.
Proof.
  apply (flow_meter_zero_timeout_diverges 2 1 1000 10 (small_meter 0) 0).
  - reflexivity.
  - lia.
  - lia.
  - apply small_meter_inv. lia.
  - reflexivity.
Defined.
