(* ===== verification/PeriodFlowMeter.v ===== *)
(** * The periodic flow meter block

    Models [blocks/PeriodFlowMeter.cpp]: a flow table that is reported and
    emptied at every expiration of the block's timer.  A flow object is only
    reachable through the table, so the table holds the flows themselves; the
    order in which a pass visits it is that of the [gmap] for the unspecified
    one of the [unordered_map]. *)

From S2P Require Export FlowMeter.

Section period_meter.
Context {P : Type} `{PI : PacketI P}.

Record period_meter := PeriodMeter {
  pm_flow_table : gmap FlowKey (flow P);
  pm_timeout_ms : Z;
  pm_sent : list (flow P)
}.

(** The constructor. *)
Definition period_new : period_meter := PeriodMeter ∅ 100 [].

(** [_configure]: the XML node's answer is the argument, the result is the
    period of the timer set. *)
Definition period_configure (timeout : option (option Z)) : M period_meter Z :=
  m ← gets id;
  ms ← match timeout with
       | None => mret (pm_timeout_ms m)
       | Some (Some ms) => mret (s32 ms)
       | Some None => throw (runtime_error "PeriodFlowMeter: malformed timeout paramter")
       end;
  modify (λ m, PeriodMeter (pm_flow_table m) ms (pm_sent m));;
  ensure ((- 2 ^ 31 <=? ms * 1000) && (ms * 1000 <? 2 ^ 31)) (undefined_behaviour "signed overflow");;
  mret (u64 (ms * 1000)).

(** [_handle_timer] *)
Definition report_flows : M period_meter unit :=
  modify (λ m, PeriodMeter (pm_flow_table m) (pm_timeout_ms m)
                 (pm_sent m ++ (map_to_list (pm_flow_table m)).*2));;
  modify (λ m, PeriodMeter ∅ (pm_timeout_ms m) (pm_sent m)).

(** [_receive_msg] *)
Definition period_receive (us_now : Z) (m : msg P) : M period_meter unit :=
  match m with
  | OtherMsg => throw (runtime_error "PeriodFlowMeter:: wrong message type")
  | PacketMsg packet =>
      table ← gets pm_flow_table;
      let f := match table !! pkt_key packet with
               | None => first_flow us_now false packet
               | Some f => count_packet us_now false packet f
               end in
      modify (λ m, PeriodMeter (<[pkt_key packet := f]> (pm_flow_table m)) (pm_timeout_ms m) (pm_sent m))
  end.

Definition period_event (e : event P) : M period_meter unit :=
  match e with
  | Arrive us p => period_receive us (PacketMsg p)
  | Expire _ => report_flows
  end.

Fixpoint period_events (es : list (event P)) : M period_meter unit :=
  match es with
  | [] => mret tt
  | e :: es => period_event e;; period_events es
  end.

(** What was counted for a key, in the flows sent and in the table. *)
Definition period_accounted (v : flow P → Z) (k : FlowKey) (m : period_meter) : Z :=
  sumZ (of_key v k) (pm_sent m) + sumZ (of_key v k) ((map_to_list (pm_flow_table m)).*2).

(** Every flow of the table is stored under its key. *)
Definition keyed (m : period_meter) : Prop :=
  ∀ k f, pm_flow_table m !! k = Some f → m_key f = k.

Lemma sum_insert v k k' f (t : gmap FlowKey (flow P)) :
  sumZ (of_key v k) ((map_to_list (<[k' := f]> t)).*2) =
  sumZ (of_key v k) ((map_to_list (delete k' t)).*2) + of_key v k f.
Proof.
  rewrite <- insert_delete_eq, map_to_list_insert by apply lookup_delete_eq.
  rewrite fmap_cons, sumZ_cons. simpl. lia.
Qed.

Lemma sum_delete v k k' f (t : gmap FlowKey (flow P)) :
  t !! k' = Some f →
  sumZ (of_key v k) ((map_to_list t).*2) =
  sumZ (of_key v k) ((map_to_list (delete k' t)).*2) + of_key v k f.
Proof. intros Hf. rewrite <- (insert_id t k' f) at 1 by done. apply sum_insert. Qed.

Lemma period_events_app es1 es2 m : period_events (es1 ++ es2) m = (period_events es1;; period_events es2) m.
Proof.
  revert m. induction es1 as [|e es1 IH]; intros m; cbn [app period_events]; [done|].
  unfold mbind, M_bind in *. destruct (period_event e m) as [[[]|x] m1]; [apply IH|done].
Qed.

Lemma period_event_spec e m :
  keyed m → ∃ m', period_event e m = (Ret tt, m') ∧ keyed m' ∧
    ∀ v d k, counter v d →
      u64 (period_accounted v k m') = u64 (period_accounted v k m + arrived d k [e]).
Proof.
  intros Hk. destruct e as [us p|us]; cbn [period_event].
  - unfold period_receive. run_m.
    set (f := match pm_flow_table m !! pkt_key p with Some f => _ | None => _ end).
    assert (m_key f = pkt_key p) as Ef.
    { unfold f. destruct (pm_flow_table m !! pkt_key p) as [g|] eqn:E; [|done].
      rewrite count_packet_key. by apply Hk. }
    eexists. split; [done|]. split.
    + intros k g. simpl. destruct (decide (pkt_key p = k)) as [<-|Hne].
      * rewrite lookup_insert_eq. by intros [= <-].
      * rewrite lookup_insert_ne by done. apply Hk.
    + intros v d k Hc. unfold period_accounted, arrived. simpl. rewrite sum_insert.
      assert (of_key v k f = if decide (pkt_key p = k) then v f else 0) as -> by (unfold of_key; by rewrite Ef).
      destruct (pm_flow_table m !! pkt_key p) as [g|] eqn:E.
      * rewrite (sum_delete v k _ _ _ E). 
        assert (of_key v k g = if decide (pkt_key p = k) then v g else 0) as ->
          by (unfold of_key; by rewrite (Hk _ _ E)).
        unfold f. rewrite (counter_count _ _ Hc). case_decide; [|f_equal; lia].
        set (a := sumZ _ (pm_sent m)). set (b := sumZ _ _).
        pose proof (u64_add_sub (a + b) (v g + d p) 0) as Eu. rewrite !Z.sub_0_r in Eu.
        rewrite Z.add_assoc, Eu. f_equal. lia.
      * rewrite delete_id by done. unfold f. rewrite first_flow_count, (counter_count _ _ Hc), (counter_new _ _ Hc).
        case_decide; [|f_equal; lia]. rewrite Z.add_0_l, Z.add_assoc, Z.add_0_r.
        set (a := sumZ _ _ + _). pose proof (u64_add_sub a (d p) 0) as Eu. by rewrite !Z.sub_0_r in Eu.
  - eexists. split; [done|]. split; [by intros k f|]. intros v d k _.
    unfold period_accounted, arrived. simpl. rewrite sumZ_app, map_to_list_empty. simpl. f_equal; lia.
Qed.
End period_meter.

Arguments period_meter P : clear implicits.

(** Conservation for the periodic meter.  In any run from the initial
    state, whatever the clock gives, the block never throws and for every key
    the bytes and packets in the flows sent and in the table add up (modulo
    [2^64]) to those that arrived; when the run ends with an expiration the
    table is empty, and everything was sent. *)
Theorem period_meter_accounts {P} `{PacketI P} (es : list (event P)) us :
  ∃ m, period_events (es ++ [Expire us]) period_new = (Ret tt, m) ∧ pm_flow_table m = ∅ ∧
    ∀ k, u64 (sumZ (of_key m_bytes k) (pm_sent m)) = u64 (arrived pkt_length k es) ∧
         u64 (sumZ (of_key m_packets k) (pm_sent m)) = u64 (arrived (λ _, 1) k es).
Proof.
  assert (∀ m0, keyed m0 → ∃ m, period_events (es ++ [Expire us]) m0 = (Ret tt, m) ∧ pm_flow_table m = ∅ ∧
    ∀ v d k, counter v d → u64 (period_accounted v k m) = u64 (period_accounted v k m0 + arrived d k es))
    as Hrun.
  { induction es as [|e es IH]; intros m0 Hk; cbn [app period_events].
    - destruct (period_event_spec (Expire us) m0 Hk) as (m & E & _ & Hacc).
      exists m. rewrite (bind_Ret _ _ _ _ _ E). split_and!; [done|by injection E as <-|exact Hacc].
    - destruct (period_event_spec e m0 Hk) as (m1 & E & Hk1 & Hacc1).
      destruct (IH m1 Hk1) as (m & E' & Et & Hacc). exists m. rewrite (bind_Ret _ _ _ _ _ E).
      split_and!; [done..|]. intros v d k Hc. rewrite (Hacc v d k Hc), (u64_add_cong _ _ _ (Hacc1 v d k Hc)).
      unfold arrived. simpl. f_equal. lia. }
  destruct (Hrun period_new) as (m & E & Et & Hacc); [done|].
  exists m. split_and!; [done..|]. intros k.
  pose proof (Hacc _ _ k bytes_counter) as Hb. pose proof (Hacc _ _ k packets_counter) as Hp.
  unfold period_accounted in Hb, Hp. rewrite Et, map_to_list_empty in Hb, Hp. simpl in Hb, Hp.
  rewrite !Z.add_0_r in Hb, Hp. done.
Qed.

(** ** One report for each interval *)

Section reports.
Context {P : Type} `{PI : PacketI P}.
Implicit Types (b : list (Z * P)) (f : flow P).

(** The packets of a burst, each with the time it is received at, and then the timer. *)
Definition interval (x : list (Z * P) * Z) : list (event P) := ((λ x, Arrive x.1 x.2) <$> x.1) ++ [Expire x.2].

Definition of_flow (k : FlowKey) b : list (Z * P) := filter (λ x, pkt_key x.2 = k) b.

(** The flow has exactly the packets of its key in the burst: how many they are and
    their bytes, and the first and the last of their times. *)
Record reports b f : Prop := Reports {
  rep_some : of_flow (m_key f) b ≠ [];
  rep_packets : m_packets f = u64 (Z.of_nat (length (of_flow (m_key f) b)));
  rep_bytes : m_bytes f = u64 (sumZ (λ x, pkt_length x.2) (of_flow (m_key f) b));
  rep_first : m_stime f ∈ fst <$> of_flow (m_key f) b ∧ Forall (λ x, m_stime f ≤ x.1) (of_flow (m_key f) b);
  rep_last : m_etime f ∈ fst <$> of_flow (m_key f) b ∧ Forall (λ x, x.1 ≤ m_etime f) (of_flow (m_key f) b);
  rep_stored : m_flow_packets f = []
}.

(** The table has a flow for each key of the burst and no other. *)
Definition holds b (t : gmap FlowKey (flow P)) : Prop :=
  ∀ k, match t !! k with Some f => m_key f = k ∧ reports b f | None => of_flow k b = [] end.

Lemma of_flow_snoc k b x : of_flow k (b ++ [x]) = of_flow k b ++ if decide (pkt_key x.2 = k) then [x] else [].
Proof. unfold of_flow. by rewrite filter_app. Qed.

Lemma reports_other b f x : pkt_key x.2 ≠ m_key f → reports b f → reports (b ++ [x]) f.
Proof.
  intros Hne [H1 H2 H3 H4 H5 H6].
  assert (of_flow (m_key f) (b ++ [x]) = of_flow (m_key f) b) as E by (rewrite of_flow_snoc, decide_False by done; apply app_nil_r).
  split; by rewrite ?E.
Qed.

Lemma reports_first us p : 0 < us → ∀ b, of_flow (pkt_key p) b = [] → reports (b ++ [(us, p)]) (first_flow us false p).
Proof.
  intros Hus b Hb. set (f := first_flow us false p). assert (of_flow (m_key f) (b ++ [(us, p)]) = [(us, p)]) as E
    by (change (m_key f) with (pkt_key p); by rewrite of_flow_snoc, Hb, decide_True).
  assert (m_stime f = us) as Es by done.
  assert (m_etime f = us) as Ee.
  { unfold f, first_flow, expand_interval. cbn. rewrite (proj2 (Z.eqb_neq us 0)) by lia. cbn. by rewrite (proj2 (Z.ltb_lt 0 us)) by lia. }
  split; rewrite ?E, ?Es, ?Ee; try done; cbn.
  - by rewrite Z.add_0_r.
  - split; [by apply list_elem_of_singleton|by repeat constructor].
  - split; [by apply list_elem_of_singleton|by repeat constructor].
Qed.

Lemma reports_more us p b f : 0 < us → Forall (λ x, 0 < x.1) b → m_key f = pkt_key p → reports b f →
  reports (b ++ [(us, p)]) (count_packet us false p f).
Proof.
  intros Hus Hpos Hk [H1 H2 H3 [H4 H4'] [H5 H5'] H6]. set (f' := count_packet us false p f).
  assert (m_key f' = m_key f) as Ek by done.
  assert (of_flow (m_key f') (b ++ [(us, p)]) = of_flow (m_key f) b ++ [(us, p)]) as E
    by (rewrite Ek, of_flow_snoc, decide_True; by rewrite ?Hk).
  assert (0 < m_stime f) as Hs.
  { apply list_elem_of_fmap in H4 as (x & -> & [_ Hx]%list_elem_of_filter). rewrite Forall_forall in Hpos. by apply Hpos. }
  assert (m_stime f' = Z.min us (m_stime f) ∧ m_etime f' = Z.max us (m_etime f)) as [Es Ee].
  { unfold f', count_packet, expand_interval. cbn. rewrite (proj2 (Z.eqb_neq (m_stime f) 0)) by lia. cbn.
    rewrite (proj2 (Z.eqb_neq (if us <? m_stime f then us else m_stime f) 0)) by (destruct (us <? m_stime f); lia). cbn.
    destruct (Z.ltb_spec us (m_stime f)), (Z.ltb_spec (m_etime f) us); split; lia. }
  split; rewrite ?E.
  - by destruct (of_flow _ _).
  - change (m_packets f') with (u64 (m_packets f + 1)). rewrite H2, length_app. unfold u64. cbn [length].
    rewrite Zplus_mod_idemp_l. f_equal. lia.
  - change (m_bytes f') with (u64 (m_bytes f + pkt_length p)). rewrite H3, sumZ_app. unfold u64. cbn [sumZ foldr snd].
    rewrite Zplus_mod_idemp_l. f_equal. lia.
  - rewrite Es, fmap_app. split.
    + apply elem_of_app. destruct (Z.min_spec us (m_stime f)) as [[_ ->]|[_ ->]]; [right; by left|by left].
    + apply Forall_app. split; [|constructor; [cbn; lia|done]]. eapply Forall_impl; [exact H4'|]. intros x Hx. cbn in *. lia.
  - rewrite Ee, fmap_app. split.
    + apply elem_of_app. destruct (Z.max_spec us (m_etime f)) as [[_ ->]|[_ ->]]; [by left|right; by left].
    + apply Forall_app. split; [|constructor; [cbn; lia|done]]. eapply Forall_impl; [exact H5'|]. intros x Hx. cbn in *. lia.
  - done.
Qed.

(** A burst fills an empty table with its flows. *)
Lemma burst_holds b m : Forall (λ x, 0 < x.1) b → pm_flow_table m = ∅ →
  ∃ m', period_events ((λ x, Arrive x.1 x.2) <$> b) m = (Ret tt, m') ∧ pm_sent m' = pm_sent m ∧ holds b (pm_flow_table m').
Proof.
  intros Hb Em. induction b as [|[us p] b IH] using rev_ind.
  { exists m. split; [done|]. split; [done|]. intros k. by rewrite Em, lookup_empty. }
  apply Forall_app in Hb as [Hb [Hus _]%Forall_cons]. cbn in Hus. destruct (IH Hb) as (m1 & E1 & Es1 & H1).
  rewrite fmap_app, period_events_app, (bind_Ret _ _ _ _ _ E1). cbn [fmap list_fmap period_events period_event fst snd].
  unfold period_receive. run_m. eexists. split; [reflexivity|]. split; [done|]. intros k. cbn [pm_flow_table].
  destruct (decide (pkt_key p = k)) as [<-|Hne].
  - rewrite lookup_insert_eq. specialize (H1 (pkt_key p)). destruct (pm_flow_table m1 !! pkt_key p) as [f|].
    + destruct H1 as [Hk Hr]. split; [by rewrite count_packet_key|]. by apply reports_more.
    + split; [done|]. by apply reports_first.
  - rewrite lookup_insert_ne by done. specialize (H1 k). destruct (pm_flow_table m1 !! k) as [f|].
    + destruct H1 as [<- Hr]. split; [done|]. by apply reports_other.
    + by rewrite of_flow_snoc, H1, decide_False.
Qed.

(** What the timer sends of such a table. *)
Lemma report_holds b t : holds b t → let r := (map_to_list t).*2 in
  NoDup (m_key <$> r) ∧ Forall (reports b) r ∧ ∀ x, x ∈ b → pkt_key x.2 ∈ m_key <$> r.
Proof.
  intros Ht r.
  assert (∀ k f, t !! k = Some f → m_key f = k ∧ reports b f) as Hf by (intros k f E; specialize (Ht k); by rewrite E in Ht).
  assert (m_key <$> r = (map_to_list t).*1) as Ek.
  { unfold r. rewrite <- list_fmap_compose. apply list_fmap_ext. intros i [k f] Hi%list_elem_of_lookup_2.
    apply elem_of_map_to_list in Hi. by destruct (Hf k f Hi). }
  rewrite Ek. split; [apply NoDup_fst_map_to_list|]. split.
  - unfold r. apply Forall_fmap, Forall_forall. intros [k f] Hi%elem_of_map_to_list. by destruct (Hf k f Hi).
  - intros x Hx. apply list_elem_of_fmap. specialize (Ht (pkt_key x.2)). destruct (t !! pkt_key x.2) as [f|] eqn:E.
    + exists (pkt_key x.2, f). split; [done|]. by apply elem_of_map_to_list.
    + exfalso. eapply not_elem_of_nil. rewrite <- Ht. apply list_elem_of_filter. by split.
Qed.
End reports.

(** C39: The periodic meter, from its start, through any number of intervals, each a
    burst of packets at times that are not zero and then the timer: every interval is
    reported by flows of different keys, one for each key that had packets in it, with
    the number of its packets and of their bytes (modulo [2^64]), the first and the last
    of their times, and nothing of the intervals before; the table is empty after it. *)
Theorem period_meter_reports {P} `{PacketI P} (intervals : list (list (Z * P) * Z)) :
  Forall (λ x, Forall (λ y, 0 < y.1) x.1) intervals →
  ∃ m sent, period_events (concat (interval <$> intervals)) period_new = (Ret tt, m) ∧ pm_flow_table m = ∅ ∧
    pm_sent m = concat sent ∧
    Forall2 (λ x r, NoDup (m_key <$> r) ∧ Forall (reports x.1) r ∧ ∀ y, y ∈ x.1 → pkt_key y.2 ∈ m_key <$> r) intervals sent.
Proof.
  intros Hpos. assert (∀ m0, pm_flow_table m0 = ∅ → ∃ m sent, period_events (concat (interval <$> intervals)) m0 = (Ret tt, m) ∧
    pm_flow_table m = ∅ ∧ pm_sent m = pm_sent m0 ++ concat sent ∧
    Forall2 (λ x r, NoDup (m_key <$> r) ∧ Forall (reports x.1) r ∧ ∀ y, y ∈ x.1 → pkt_key y.2 ∈ m_key <$> r) intervals sent)
    as Hrun; [|by apply Hrun].
  induction Hpos as [|[b us] l Hb _ IH]; intros m0 E0; cbn [fmap list_fmap concat].
  { exists m0, []. rewrite app_nil_r. by repeat split. }
  destruct (burst_holds b m0 Hb E0) as (m1 & E1 & Es1 & H1). unfold interval. cbn [fst snd].
  rewrite <- app_assoc, period_events_app, (bind_Ret _ _ _ _ _ E1). cbn [app period_events period_event]. unfold report_flows.
  set (m2 := PeriodMeter ∅ (pm_timeout_ms m1) (pm_sent m1 ++ (map_to_list (pm_flow_table m1)).*2)).
  destruct (IH m2 eq_refl) as (m & sent & E & Em & Es & HF). exists m, ((map_to_list (pm_flow_table m1)).*2 :: sent).
  split; [exact E|]. split; [done|]. split; [|constructor; [by apply report_holds|done]].
  rewrite Es. cbn [m2 pm_sent concat]. by rewrite Es1, app_assoc.
Qed.

(** Two flows in the first interval, one of them again in the second. *)
Definition example_key (p : Z) : FlowKey := pkt_key (p, 0).
Definition example_intervals : list (list (Z * (Z * Z)) * Z) :=
  [([(5, (1, 100)); (7, (2, 60)); (6, (1, 40))], 100); ([(103, (2, 70))], 200)].

Lemma period_meter_reports_witness : ∃ m,
  period_events (concat (interval <$> example_intervals)) period_new = (Ret tt, m) ∧ pm_flow_table m = ∅ ∧ length (pm_sent m) = 3%nat.
Proof.
  destruct (period_meter_reports example_intervals) as (m & sent & E & Em & _).
  { unfold example_intervals. repeat (apply Forall_cons_2; [repeat (apply Forall_cons_2; [cbn; lia|]); apply Forall_nil_2|]).
    apply Forall_nil_2. }
  exists m. split; [exact E|]. split; [exact Em|].
  assert (m = (period_events (concat (interval <$> example_intervals)) period_new).2) as -> by (by rewrite E). by vm_compute.
Defined.
