(* ===== verification/Payload.v ===== *)
(** * Reassembling a flow's payload

    Models [Flow::get_payload] of [messages/Flow.cpp].  The packets' header
    fields and payload bytes are an interface, the caller's buffer is the list
    of bytes written to it. *)

From S2P Require Export Flow.

(** What [get_payload] asks a packet for: [pkt_payload] is the memory at
    [payload()] up to the end of the packet's buffer. *)
Class PayloadI (P : Type) := {
  is_tcp : P → bool;
  is_udp : P → bool;
  tcp_has_syn : P → bool;
  tcp_seq : P → Z;
  ip_length : P → Z;
  ip_header_length : P → Z;
  tcp_header_length : P → Z;
  udp_length : P → Z;
  pkt_payload : P → list Z
}.

Inductive packet_kind := packets_tcp | packets_udp | packets_unknown.

#[export] Instance packet_kind_eq_dec : EqDecision packet_kind.
Proof. solve_decision. Defined.

Section payload.
Context {P : Type} `{PayloadI P}.
Implicit Types (p : P) (l : list P).

(** The first loop: the kind of the packets and the position of the last
    packet with a SYN, the first packet's not being looked at. *)
Fixpoint classify (l : list P) (i : nat) (kind : packet_kind) (syn : option nat) (first : bool)
    : outcome (packet_kind * option nat) :=
  match l with
  | [] => Ret (kind, syn)
  | packet :: l =>
      if negb (is_tcp packet) && negb (is_udp packet) then
        Throw (runtime_error "FlowMeter: can get flow payload only for TCP or UDP flows at the moment")
      else
        match kind with
        | packets_unknown =>
            classify l (S i) (if is_tcp packet then packets_tcp else packets_udp) syn false
        | _ =>
            if (bool_decide (kind = packets_udp) && is_tcp packet) ||
               (bool_decide (kind = packets_tcp) && is_udp packet) then
              Throw (runtime_error "FlowMeter: flow contains both TCP and UDP packets")
            else if bool_decide (kind = packets_udp) && negb first then
              Throw (runtime_error "FlowMeter: flow contains more than one UDP packet")
            else if bool_decide (kind = packets_tcp) && tcp_has_syn packet then
              classify l (S i) kind (Some i) false
            else classify l (S i) kind syn false
        end
  end.

(** [std::list::sort] with the comparison of sequence numbers: stable. *)
Fixpoint insert_seq (x : nat * P) (l : list (nat * P)) : list (nat * P) :=
  match l with
  | [] => [x]
  | y :: l' => if tcp_seq y.2 <? tcp_seq x.2 then y :: insert_seq x l' else x :: l
  end.
Definition sort_seq (l : list (nat * P)) : list (nat * P) := foldr insert_seq [] l.

(** The two splices: what is before [syn] goes to the end; [end()] leaves the
    whole list before it. *)
Definition rotate_to (syn : option nat) (l : list (nat * P)) : list (nat * P) :=
  match syn with
  | None => l
  | Some i =>
      let before := (list_find (λ x, x.1 = i) l) in
      match before with
      | Some (k, _) => drop k l ++ take k l
      | None => l
      end
  end.

(** The part done once, while the list is not sorted. *)
Definition sort_packets : M (flow P) unit :=
  f ← gets id;
  if m_list_sorted f then mret tt
  else
    match classify (m_flow_packets f) 0 packets_unknown None true with
    | Throw e => throw e
    | Ret (kind, syn) =>
        let l := m_flow_packets f in
        let l := if bool_decide (kind = packets_tcp)
                 then (rotate_to syn (sort_seq (imap pair l))).*2 else l in
        modify (λ f, MkFlow (m_stime f) (m_etime f) (m_key f) (m_bytes f) (m_packets f) l true)
    end.

(** The variables of the copying loop; [out] is what was written. *)
Record copy_state := CopyState {
  effective_offset : Z;
  bytes_skipped : Z;
  bytes_copied : Z;
  bytes_remaining : Z;
  expected_sequence_number : Z;
  first : bool;
  more : bool;
  out : list Z
}.

(** [payload_length] *)
Definition payload_length (p : P) : outcome Z :=
  if is_tcp p then Ret (u64 (ip_length p - ip_header_length p - tcp_header_length p))
  else if is_udp p then Ret (u64 (udp_length p - 8))
  else Throw (runtime_error "FlowMeter: subsequent packet in flow neither TCP nor UDP").

(** The [if (first)] block. *)
Definition start_copy (p : P) (s : copy_state) : outcome copy_state :=
  if first s then
    if is_udp p then
      Ret (CopyState 0 (bytes_skipped s) (bytes_copied s) (bytes_remaining s)
             (expected_sequence_number s) false (more s) (out s))
    else if is_tcp p then
      if tcp_has_syn p then
        Ret (CopyState (effective_offset s) (bytes_skipped s) (bytes_copied s) (bytes_remaining s)
               (tcp_seq p) false (more s) (out s))
      else
        Ret (CopyState (effective_offset s) (bytes_skipped s) (bytes_copied s) (bytes_remaining s)
               (expected_sequence_number s) false false (out s))
    else Throw (runtime_error "FlowMeter: can get flow payload only for TCP or UDP flows at the moment")
  else Ret s.

(** The copy itself; reading past the packet's buffer is undefined. *)
Definition copy_packet (offset : Z) (p : P) (len : Z) (s : copy_state) : outcome copy_state :=
  if effective_offset s <? u64 (bytes_skipped s + bytes_copied s + len) then
    let bytes_to_copy := Z.min (bytes_remaining s) len in
    let payload_offset :=
      if u64 (bytes_skipped s + bytes_copied s) =? 0 then effective_offset s else 0 in
    if payload_offset + bytes_to_copy <=? Z.of_nat (length (pkt_payload p)) then
      Ret (CopyState (effective_offset s) offset (u64 (bytes_copied s + bytes_to_copy))
             (u64 (bytes_remaining s - bytes_to_copy)) (expected_sequence_number s) (first s) (more s)
             (out s ++ take (Z.to_nat bytes_to_copy) (drop (Z.to_nat payload_offset) (pkt_payload p))))
    else Throw (undefined_behaviour "memcpy past the packet")
  else
    Ret (CopyState (effective_offset s) (u64 (bytes_skipped s + len)) (bytes_copied s)
           (bytes_remaining s) (expected_sequence_number s) (first s) (more s) (out s)).

(** The test for a hole, after the copy. *)
Definition advance (p : P) (len : Z) (s : copy_state) : outcome copy_state :=
  let stop := CopyState (effective_offset s) (bytes_skipped s) (bytes_copied s) (bytes_remaining s)
                (expected_sequence_number s) (first s) false (out s) in
  if is_tcp p then
    if tcp_seq p =? expected_sequence_number s then
      Ret (CopyState (effective_offset s) (bytes_skipped s) (bytes_copied s) (bytes_remaining s)
             (u32 (expected_sequence_number s + (len + 1))) (first s) (more s) (out s))
    else Ret stop
  else if is_udp p then Ret stop
  else Throw (runtime_error "FlowMeter: subsequent packet in flow neither TCP nor UDP (can't happen, but apparently did)").

Definition copy_step (offset : Z) (p : P) (s : copy_state) : outcome copy_state :=
  match start_copy p s with
  | Throw e => Throw e
  | Ret s =>
      match payload_length p with
      | Throw e => Throw e
      | Ret len =>
          if more s then
            match copy_packet offset p len s with
            | Throw e => Throw e
            | Ret s => advance p len s
            end
          else Ret s
      end
  end.

Fixpoint copy_loop (offset : Z) (l : list P) (s : copy_state) : outcome copy_state :=
  match l with
  | [] => Ret s
  | p :: l =>
      if more s && (0 <? bytes_remaining s) then
        match copy_step offset p s with
        | Throw e => Throw e
        | Ret s => copy_loop offset l s
        end
      else Ret s
  end.

(** [get_payload]: the number of bytes copied and the bytes. *)
Definition get_payload (offset nbytes : Z) : M (flow P) (Z * list Z) :=
  f ← gets id;
  match m_flow_packets f with
  | [] => mret (0, [])
  | _ =>
      sort_packets;;
      l ← gets m_flow_packets;
      match copy_loop offset l (CopyState offset 0 0 nbytes 0 true true []) with
      | Throw e => throw e
      | Ret s => mret (bytes_copied s, out s)
      end
  end.

(** ** Bounds *)

Definition copied_ok (nbytes : Z) (s : copy_state) : Prop :=
  0 ≤ bytes_remaining s ∧ bytes_copied s + bytes_remaining s = nbytes ∧
  bytes_copied s = Z.of_nat (length (out s)).

Lemma payload_length_range p len : payload_length p = Ret len → 0 ≤ len < 2 ^ 64.
Proof.
  unfold payload_length. destruct (is_tcp p); [|destruct (is_udp p)]; intros [= <-]; apply u64_range.
Qed.

Lemma copy_packet_ok offset nbytes p len s s' :
  0 ≤ offset → 0 ≤ effective_offset s → nbytes < 2 ^ 64 → 0 ≤ len → copied_ok nbytes s →
  copy_packet offset p len s = Ret s' →
  copied_ok nbytes s' ∧ effective_offset s' = effective_offset s.
Proof.
  unfold copy_packet, copied_ok. intros Ho He Hn Hl (Hr & Hc & Hout). destruct_cmp; try done;
    intros [= <-]; cbn; (split; [|done]);
    repeat (rewrite u64_small by lia); rewrite ?length_app, ?length_take, ?length_drop; split_and!; lia.
Qed.

Lemma copy_step_ok offset nbytes p s s' :
  0 ≤ offset → 0 ≤ effective_offset s → nbytes < 2 ^ 64 → copied_ok nbytes s →
  copy_step offset p s = Ret s' → copied_ok nbytes s' ∧ 0 ≤ effective_offset s'.
Proof.
  intros Ho He Hn Hok. unfold copy_step.
  destruct (start_copy p s) as [s1|] eqn:E1; [|done].
  assert (copied_ok nbytes s1 ∧ 0 ≤ effective_offset s1) as [Hok1 He1].
  { unfold start_copy in E1.
    destruct (first s), (is_udp p), (is_tcp p), (tcp_has_syn p); simplify_eq; by split. }
  destruct (payload_length p) as [len|] eqn:El; [|done]. apply payload_length_range in El.
  destruct (more s1); [|by intros [= <-]].
  destruct (copy_packet offset p len s1) as [s2|] eqn:E2; [|done].
  destruct (copy_packet_ok offset nbytes p len s1 s2 Ho He1 Hn ltac:(lia) Hok1 E2) as [Hok2 He2].
  unfold advance. destruct (is_tcp p); [destruct (_ =? _)|destruct (is_udp p); [|done]];
    intros [= <-]; (split; [exact Hok2|cbn; lia]).
Qed.

Lemma copy_loop_ok offset nbytes l s s' :
  0 ≤ offset → 0 ≤ effective_offset s → nbytes < 2 ^ 64 → copied_ok nbytes s →
  copy_loop offset l s = Ret s' → copied_ok nbytes s'.
Proof.
  intros Ho. revert s. induction l as [|p l IH]; intros s He Hn Hok; cbn [copy_loop]; [by intros [= <-]|].
  destruct (more s && (0 <? bytes_remaining s)); [|by intros [= <-]].
  destruct (copy_step offset p s) as [s1|] eqn:E; [|done].
  destruct (copy_step_ok offset nbytes p s s1 Ho He Hn Hok E) as [Hok1 He1]. by apply IH.
Qed.
End payload.

(** ** Properties *)

(** Whatever the packets, when [get_payload] returns it returns the
    number of bytes it wrote, and this is at most the number asked for. *)
Theorem get_payload_bounded {P} `{PayloadI P} offset nbytes (f f' : flow P) n bytes :
  0 ≤ offset → 0 ≤ nbytes < 2 ^ 64 →
  get_payload offset nbytes f = (Ret (n, bytes), f') →
  n = Z.of_nat (length bytes) ∧ n ≤ nbytes.
Proof.
  intros Ho Hn. unfold get_payload. run_m.
  destruct (m_flow_packets f) as [|p l]; [intros [= <- <- _]; simpl; lia|].
  destruct (sort_packets f) as [[[]|e] f1]; [|done].
  destruct (copy_loop _ _ _) as [s|e] eqn:E; [|done]. intros [= <- <- _].
  apply (copy_loop_ok offset nbytes) in E as (H1 & H2 & H3); cbn; try lia.
  split_and!; simpl; lia.
Qed.

(** TCP segments for the examples and the next theorem. *)
Record segment := Segment { seg_syn : bool; seg_seq : Z; seg_data : list Z }.
#[export] Instance segment_payload : PayloadI segment := {|
  is_tcp _ := true; is_udp _ := false; tcp_has_syn := seg_syn; tcp_seq := seg_seq;
  ip_length s := 40 + Z.of_nat (length (seg_data s)); ip_header_length _ := 20;
  tcp_header_length _ := 20; udp_length _ := 0; pkt_payload := seg_data
|}.

Definition segments (l : list segment) : flow segment := MkFlow 1 1 (MkFlowKey 1 2 3 4 6) 0 0 l true.

Lemma get_payload_bounded_witness :
  ∃ n bytes f', get_payload 0 5 (segments [Segment true 99 []; Segment false 100 [1; 2; 3; 4];
      Segment false 104 [5; 6; 7]]) = (Ret (n, bytes), f') ∧
    n = Z.of_nat (length bytes) ∧ n ≤ 5.
Proof.
  eexists _, _, _. split; [vm_compute; reflexivity|].
  apply (get_payload_bounded 0 5 (segments [Segment true 99 []; Segment false 100 [1; 2; 3; 4];
      Segment false 104 [5; 6; 7]]) (segments [Segment true 99 []; Segment false 100 [1; 2; 3; 4];
      Segment false 104 [5; 6; 7]])); [lia|lia|vm_compute; reflexivity].
Defined.

Lemma segment_length s : Z.of_nat (length (seg_data s)) < 2 ^ 16 →
  payload_length s = Ret (Z.of_nat (length (seg_data s))).
Proof. intros. unfold payload_length. simpl. rewrite u64_small by lia. f_equal. lia. Qed.

Lemma copy_step_syn syn nb :
  seg_syn syn = true → seg_data syn = [] → 0 ≤ seg_seq syn < 2 ^ 32 - 1 →
  copy_step 0 syn (CopyState 0 0 0 nb 0 true true []) =
  Ret (CopyState 0 0 0 nb (seg_seq syn + 1) false true []).
Proof.
  intros Hs Hd Hq. unfold copy_step, start_copy. cbn [first is_udp is_tcp tcp_has_syn segment_payload].
  rewrite Hs, segment_length by (rewrite Hd; done). rewrite Hd.
  change (copy_packet 0 syn (Z.of_nat (length [])) _) with
    (Ret (CopyState 0 0 0 nb (seg_seq syn) false true [])).
  unfold advance. cbn [is_tcp tcp_seq segment_payload expected_sequence_number more].
  rewrite Z.eqb_refl, u32_small by (simpl; lia). done.
Qed.

(** A segment with data, copied whole; [ok] tells whether it is the expected one. *)
Lemma copy_step_segment seg copied nb e written :
  Z.of_nat (length (seg_data seg)) < 2 ^ 16 → 0 ≤ copied →
  0 < copied + Z.of_nat (length (seg_data seg)) →
  Z.of_nat (length (seg_data seg)) ≤ nb → copied + nb < 2 ^ 64 →
  copy_step 0 seg (CopyState 0 0 copied nb e false true written) =
  Ret (CopyState 0 0 (copied + Z.of_nat (length (seg_data seg))) (nb - Z.of_nat (length (seg_data seg)))
         (if seg_seq seg =? e then u32 (e + (Z.of_nat (length (seg_data seg)) + 1)) else e)
         false (seg_seq seg =? e) (written ++ seg_data seg)).
Proof.
  intros Hl Hc Hpos Hn Hnb. unfold copy_step, start_copy. cbn [first].
  rewrite segment_length by done. cbn [more]. unfold copy_packet.
  cbn [effective_offset bytes_skipped bytes_copied bytes_remaining expected_sequence_number first
    more out pkt_payload segment_payload].
  set (n := Z.of_nat (length (seg_data seg))) in *.
  repeat (rewrite u64_small by lia). rewrite Z.add_0_l, (proj2 (Z.ltb_lt _ _)) by lia.
  assert ((if copied =? 0 then 0 else 0) = 0) as -> by by destruct (copied =? 0).
  rewrite (Z.min_r nb n) by lia. rewrite Z.add_0_l, Z.leb_refl. unfold advance.
  cbn [is_tcp tcp_seq segment_payload expected_sequence_number].
  unfold n. rewrite Nat2Z.id, drop_0, firstn_all. by destruct (seg_seq seg =? e).
Qed.

(** A TCP payload is cut after two segments: a SYN, then segments one
    after the other, each with data.  Asked for everything, [get_payload]
    returns the data of the first two only; and it returns the second one's
    whatever its sequence number is, hole or not: the next expected number is
    taken one too high, and compared after the copy. *)
Theorem get_payload_two_segments syn seg1 seg2 rest nbytes :
  let l := syn :: seg1 :: seg2 :: rest in
  seg_syn syn = true → seg_data syn = [] → 0 ≤ seg_seq syn < 2 ^ 32 - 1 →
  seg_seq seg1 = seg_seq syn + 1 → seg_data seg1 ≠ [] →
  seg_seq seg2 ≠ u32 (seg_seq seg1 + (Z.of_nat (length (seg_data seg1)) + 1)) →
  Forall (λ s, Z.of_nat (length (seg_data s)) < 2 ^ 16) l →
  Z.of_nat (length (seg_data seg1) + length (seg_data seg2)) < nbytes < 2 ^ 64 →
  (get_payload 0 nbytes (segments l)).1 =
  Ret (Z.of_nat (length (seg_data seg1) + length (seg_data seg2)), seg_data seg1 ++ seg_data seg2).
Proof.
  intros l Hsyn Hd0 Hseq Hs1 Hd1 Hs2 Hlen Hn.
  apply Forall_cons in Hlen as [L0 Hlen]. apply Forall_cons in Hlen as [L1 Hlen].
  apply Forall_cons in Hlen as [L2 _].
  assert (0 < Z.of_nat (length (seg_data seg1))) by (destruct (seg_data seg1); [done|simpl in *; lia]).
  unfold get_payload, sort_packets. run_m. unfold l. cbn [m_flow_packets segments m_list_sorted].
  cbn [copy_loop more bytes_remaining]. rewrite (proj2 (Z.ltb_lt 0 nbytes)) by lia. cbn [andb].
  rewrite copy_step_syn by done. cbn [copy_loop more bytes_remaining].
  rewrite (proj2 (Z.ltb_lt 0 nbytes)) by lia. cbn [andb].
  rewrite copy_step_segment by lia. rewrite Hs1, Z.eqb_refl. cbn [copy_loop more bytes_remaining].
  rewrite (proj2 (Z.ltb_lt 0 _)) by lia. cbn [andb].
  rewrite copy_step_segment by lia. rewrite Hs1 in Hs2. rewrite (proj2 (Z.eqb_neq _ _) Hs2).
  destruct rest; cbn [copy_loop more andb]; cbn; by rewrite Nat2Z.inj_add.
Qed.

Lemma get_payload_two_segments_witness :
  (get_payload 0 100 (segments [Segment true 99 []; Segment false 100 [1; 2; 3; 4];
      Segment false 104 [5; 6; 7]; Segment false 107 [8; 9]])).1 = Ret (7, [1; 2; 3; 4; 5; 6; 7]).
Proof.
  apply (get_payload_two_segments (Segment true 99 []) (Segment false 100 [1; 2; 3; 4])
    (Segment false 104 [5; 6; 7]) [Segment false 107 [8; 9]] 100); try done.
  repeat constructor.
Defined.
