(* ===== verification/TopN.v ===== *)
(** * The top-N flow selector block

    Models [blocks/TopNFlowSelector.cpp]: a heap of at most [m_len] flows with
    the smallest at the top.  [mycmp] is the negation of [<] on the numbers of packets:
    of two flows with different numbers it puts the greater one before the other, as the
    queue needs it, but it puts each of two flows with the same number before the other,
    and then it is no order, of which [std::priority_queue] promises nothing.  So the heap
    is the interface of [Heap.v] for the number of packets, and a flow that is pushed to
    an equal one is undefined behaviour ([equal_flows_undefined]).  The block's own mutex
    is not modelled. *)

From S2P Require Export Heap Flow.

Section topn.
Context {P : Type} {H : Type} `{HH : Heap (flow P) m_packets H}.
Implicit Types (f : flow P) (fs : list (flow P)).

(** [npackets] *)
Definition npackets f : Z := m_packets f.

Inductive flow_msg := FlowMsg f | NotFlowMsg.

Record selector := Selector {
  m_heap : H;
  m_len : Z;
  m_msecs_t : Z;
  out_flows : list (flow P)
}.

(** The constructor and [_configure]: the XML node's answers are the
    arguments, the result is the period of the timer set. *)
Definition selector_new : selector := Selector heap_empty 10 100 [].

Definition selector_configure (number msecs : option Z) : M selector Z :=
  modify (λ s, Selector (m_heap s) (default (m_len s) number) (m_msecs_t s) (out_flows s));;
  modify (λ s, Selector (m_heap s) (m_len s) (default (m_msecs_t s) msecs) (out_flows s));;
  gets (λ s, u32 (m_msecs_t s * 1000)).

(** [m_heap.push]: the flow may be compared with any in the heap. *)
Definition selector_push f : M selector unit :=
  s ← gets id;
  ensure (negb (existsb (λ g, npackets g =? npackets f) (heap_elems (m_heap s)))) (undefined_behaviour "mycmp of equal elements");;
  modify (λ s, Selector (heap_push f (m_heap s)) (m_len s) (m_msecs_t s) (out_flows s)).

(** [_receive_msg]; the top of an empty heap is undefined. *)
Definition selector_receive (m : flow_msg) : M selector unit :=
  match m with
  | NotFlowMsg => throw (runtime_error "TopNFlowSelector:: wrong input message type")
  | FlowMsg f =>
      s ← gets id;
      if Z.of_nat (length (heap_elems (m_heap s))) <? m_len s then
        selector_push f
      else
        match heap_top (m_heap s) with
        | None => throw (undefined_behaviour "top of an empty priority_queue")
        | Some top =>
            if npackets top <? npackets f then
              modify (λ s, Selector (heap_pop (m_heap s)) (m_len s) (m_msecs_t s) (out_flows s));;
              selector_push f
            else mret tt
        end
  end.

(** [_handle_timer] *)
Definition selector_flush : M selector unit :=
  modify (λ s,
    let '(l, h) := heap_drain (length (heap_elems (m_heap s))) (m_heap s) in
    Selector h (m_len s) (m_msecs_t s) (out_flows s ++ l)).

Fixpoint receive_flows (fs : list (flow P)) : M selector unit :=
  match fs with
  | [] => mret tt
  | f :: fs => selector_receive (FlowMsg f);; receive_flows fs
  end.

(** [kept] are [n] of the flows [all], or all if there are fewer, and none of
    the others has more packets than one of them. *)
Definition is_top (n : nat) (all kept : list (flow P)) : Prop :=
  ∃ others, all ≡ₚ kept ++ others ∧ length kept = Nat.min n (length all) ∧
    ∀ f g, f ∈ kept → g ∈ others → npackets g ≤ npackets f.

Lemma selector_push_new f s : npackets f ∉ npackets <$> heap_elems (m_heap s) →
  selector_push f s = (Ret tt, Selector (heap_push f (m_heap s)) (m_len s) (m_msecs_t s) (out_flows s)).
Proof.
  intros Hf. unfold selector_push. run_m. destruct (existsb _ _) eqn:E; [|done]. exfalso.
  apply existsb_exists in E as (g & Hg%list_elem_of_In & Eg%Z.eqb_eq). apply Hf, list_elem_of_fmap. eauto.
Qed.

(** The heap holds the top of what was received. *)
Lemma receive_top s f n all :
  m_len s = Z.of_nat n → (0 < n)%nat → npackets f ∉ npackets <$> all → is_top n all (heap_elems (m_heap s)) →
  ∃ s', selector_receive (FlowMsg f) s = (Ret tt, s') ∧ m_len s' = m_len s ∧
    out_flows s' = out_flows s ∧ is_top n (f :: all) (heap_elems (m_heap s')).
Proof.
  intros Hn Hpos Hnew (others & Hall & Hlen & Hmin).
  assert (npackets f ∉ npackets <$> heap_elems (m_heap s)) as Hf
    by (intros Hin; apply Hnew; rewrite Hall, fmap_app; apply elem_of_app; by left).
  unfold selector_receive. rewrite (bind_Ret (gets id) _ s s s eq_refl). cbv beta. rewrite Hn.
  destruct (Z.ltb_spec (Z.of_nat (length (heap_elems (m_heap s)))) (Z.of_nat n)) as [Hlt|Hge].
  - rewrite selector_push_new by done. eexists. split_and!; [done..|]. exists others. simpl. rewrite heap_elems_push.
    assert (length others = 0%nat) as Ho.
    { pose proof (Permutation_length Hall) as E. rewrite length_app in E. lia. }
    pose proof (Permutation_length Hall) as E. rewrite length_app in E.
    apply nil_length_inv in Ho as ->. split_and!.
    + by rewrite Hall.
    + simpl. lia.
    + intros g h _ Hin. by apply not_elem_of_nil in Hin.
  - destruct (heap_top (m_heap s)) as [top|] eqn:Etop.
    2:{ rewrite (heap_top_none _ Etop) in Hge. simpl in Hge. lia. }
    pose proof (heap_top_some _ _ Etop) as Hs. pose proof (heap_top_min _ _ Etop) as Hm.
    destruct (Z.ltb_spec (npackets top) (npackets f)) as [Hbig|Hsmall].
    + erewrite bind_Ret; [|reflexivity]. rewrite selector_push_new.
      2:{ cbn [m_heap]. rewrite Hs in Hf. by apply not_elem_of_cons in Hf as [_ Hf]. }
      eexists. split_and!; [done..|]. exists (top :: others). simpl. rewrite heap_elems_push.
      rewrite Hs in Hall, Hlen, Hm, Hge. split_and!.
      * rewrite Hall. simpl. by rewrite Permutation_middle.
      * simpl in *. lia.
      * rewrite Forall_forall in Hm. intros g h Hg Hh. rewrite heap_elems_push in Hg. apply elem_of_cons in Hg, Hh.
        assert (∀ g, g ∈ heap_elems (heap_pop (m_heap s)) → npackets top ≤ npackets g) as Htop.
        { intros g' Hg'. apply Hm. by right. }
        assert (∀ h, h ∈ others → npackets h ≤ npackets top) as Hoth.
        { intros h' Hh'. apply Hmin; [|done]. rewrite Hs. by left. }
        destruct Hg as [->|Hg], Hh as [->|Hh]; try specialize (Htop g Hg); try specialize (Hoth h Hh); lia.
    + exists s. split_and!; [done..|]. exists (f :: others). split_and!.
      * rewrite Hall. by rewrite Permutation_middle.
      * simpl. rewrite Hlen. pose proof (Permutation_length Hall) as E. rewrite length_app in E. lia.
      * rewrite Forall_forall in Hm. intros g h Hg Hh. apply elem_of_cons in Hh as [->|Hh]; [|by apply Hmin].
        specialize (Hm g Hg). unfold key_le in Hm. unfold npackets in *. lia.
Qed.

Lemma receive_flows_top fs s n all :
  m_len s = Z.of_nat n → (0 < n)%nat → NoDup (npackets <$> rev fs ++ all) → is_top n all (heap_elems (m_heap s)) →
  ∃ s', receive_flows fs s = (Ret tt, s') ∧ out_flows s' = out_flows s ∧
    is_top n (rev fs ++ all) (heap_elems (m_heap s')).
Proof.
  revert s all. induction fs as [|f fs IH]; intros s all Hn Hpos Hnd Htop; [by exists s|].
  cbn [rev] in Hnd. rewrite <- app_assoc in Hnd. cbn [app] in Hnd.
  assert (npackets f ∉ npackets <$> all) as Hf
    by (rewrite fmap_app in Hnd; apply NoDup_app in Hnd as (_ & _ & Hnd); by apply NoDup_cons in Hnd as [? _]).
  destruct (receive_top s f n all Hn Hpos Hf Htop) as (s1 & E1 & El & Eo & Htop1).
  destruct (IH s1 (f :: all)) as (s2 & E2 & Eo2 & Htop2); [congruence|done|done|done|].
  exists s2. cbn [receive_flows rev]. rewrite (bind_Ret _ _ _ _ _ E1). rewrite <- app_assoc.
  split_and!; [done|congruence|done].
Qed.
End topn.

Arguments selector P H : clear implicits.
Arguments FlowMsg {P} _.
Arguments NotFlowMsg {P}.

(** ** Properties *)

(** Flows with different numbers of packets: at each expiration of its timer the selector
    sends the [n] heaviest of those received since the last one (all, if they were
    fewer), each once and by increasing number of packets, and starts over. *)
Theorem top_n_selects {P H} `{HH : Heap (flow P) m_packets H} (fs : list (flow P)) (s : selector P H) n :
  m_len s = Z.of_nat n → (0 < n)%nat → NoDup (npackets <$> fs) → heap_elems (m_heap s) = [] →
  ∃ s' kept, (receive_flows fs;; selector_flush) s = (Ret tt, s') ∧
    out_flows s' = out_flows s ++ kept ∧ is_top n fs kept ∧
    StronglySorted (key_le m_packets) kept ∧ heap_elems (m_heap s') = [].
Proof.
  intros Hn Hpos Hnd He.
  destruct (receive_flows_top fs s n [] Hn Hpos) as (s1 & E1 & Eo & others & Hall & Hlen & Hmin).
  { rewrite app_nil_r. by rewrite <- (Permutation_rev fs). }
  { exists []. rewrite He. split_and!; [done|simpl; lia|]. intros f g Hf. by apply not_elem_of_nil in Hf. }
  rewrite (bind_Ret _ _ _ _ _ E1). unfold selector_flush. run_m.
  destruct (heap_drain_spec (length (heap_elems (m_heap s1))) (m_heap s1)) as (Hd & Hsort & Hemp); [lia|].
  destruct (heap_drain _ _) as [l h]. simpl in *.
  eexists _, l. split; [done|]. simpl. rewrite Eo. split_and!; try done.
  exists others. rewrite app_nil_r, <- Permutation_rev in Hall. rewrite Hd, Hall. split_and!; [done| |].
  - by rewrite <- Hall, Hlen, app_nil_r, length_rev.
  - intros f g Hf. rewrite Hd in Hf. by apply Hmin.
Qed.

Definition small_flow (k n : Z) : flow unit := MkFlow 1 1 (MkFlowKey k 2 3 4 6) 0 n [] false.

Lemma top_n_selects_witness :
  ∃ s' kept, (receive_flows [small_flow 1 5; small_flow 2 9; small_flow 3 7];; selector_flush)
      (Selector (H:=sorted_heap m_packets) heap_empty 2 100 []) = (Ret tt, s') ∧
    out_flows s' = [] ++ kept ∧ is_top 2 [small_flow 1 5; small_flow 2 9; small_flow 3 7] kept ∧
    StronglySorted (key_le m_packets) kept ∧ heap_elems (m_heap s') = [].
Proof.
  apply (top_n_selects [small_flow 1 5; small_flow 2 9; small_flow 3 7]
    (Selector (H:=sorted_heap m_packets) heap_empty 2 100 []) 2); [done|lia| |done].
  by apply (bool_decide_unpack _); vm_compute.
Defined.

(** Configured with [number="0"] the selector's first flow reads the top
    of an empty heap. *)
Theorem top_zero_undefined {P H} `{HH : Heap (flow P) m_packets H} f (s : selector P H) :
  m_len s = 0 → heap_elems (m_heap s) = [] →
  selector_receive (FlowMsg f) s = (Throw (undefined_behaviour "top of an empty priority_queue"), s).
Proof.
  intros Hn He. unfold selector_receive. run_m. rewrite Hn, He. simpl.
  destruct (heap_top (m_heap s)) eqn:E; [|done].
  apply heap_top_some in E. rewrite He in E. by apply Permutation_nil_cons in E.
Qed.

Lemma top_zero_undefined_witness :
  selector_receive (FlowMsg (small_flow 1 5)) (Selector (H:=sorted_heap m_packets) heap_empty 0 100 []) =
  (Throw (undefined_behaviour "top of an empty priority_queue"),
   Selector (H:=sorted_heap m_packets) heap_empty 0 100 []).
Proof. apply top_zero_undefined; reflexivity. Defined.

(** A second flow with the number of packets of the first. *)
Lemma equal_flows_undefined {P H} `{HH : Heap (flow P) m_packets H} f g (s : selector P H) :
  npackets f = npackets g → 1 < m_len s → heap_elems (m_heap s) = [f] →
  (selector_receive (FlowMsg g) s).1 = Throw (undefined_behaviour "mycmp of equal elements").
Proof.
  intros E Hn He. unfold selector_receive. rewrite (bind_Ret (gets id) _ s s s eq_refl). cbv beta. rewrite He. cbn [length].
  rewrite (proj2 (Z.ltb_lt _ _)) by lia. unfold selector_push. run_m. rewrite He. cbn [existsb]. by rewrite E, Z.eqb_refl.
Qed.
