(* ===== verification/Xml.v ===== *)
(** * Configuration nodes

    The part of pugixml the sources call, as an interface, with a plain tree
    as its instance: an element has a name, attributes and children. *)

From S2P Require Export MachineInt.

(** [all_children n] are the nodes from [begin()] to [end()]; [children n s] those
    that [child(s)] and then [next_sibling(s)] visit; [as_uint] is the attribute's
    conversion. *)
Class XmlNode (N : Type) := {
  node_name : N → string;
  child : N → string → option N;
  all_children : N → list N;
  children : N → string → list N;
  attribute : N → string → option string;
  as_uint : string → Z;
  child_head n s : child n s = head (children n s);
  children_named n s : children n s = List.filter (λ k, bool_decide (node_name k = s)) (all_children n)
}.

(** ** The tree *)

Inductive xml := Elem (tag : string) (attrs : list (string * string)) (kids : list xml).

Definition xml_tag (x : xml) : string := let '(Elem t _ _) := x in t.
Definition xml_all_children (x : xml) : list xml := let '(Elem _ _ kids) := x in kids.
Definition xml_children (x : xml) (s : string) : list xml :=
  List.filter (λ k, bool_decide (xml_tag k = s)) (xml_all_children x).
Definition xml_attribute (x : xml) (s : string) : option string :=
  let '(Elem _ attrs _) := x in snd <$> List.find (λ a, bool_decide (a.1 = s)) attrs.

(** Decimal digits up to the first other character, as a 32-bit number. *)
Fixpoint digits (acc : Z) (s : string) : Z :=
  match s with
  | EmptyString => acc
  | String c s =>
      let d := Z.of_nat (Ascii.nat_of_ascii c) - 48 in
      if (0 <=? d) && (d <=? 9) then digits (acc * 10 + d) s else acc
  end.

#[export] Instance xml_node : XmlNode xml := {|
  node_name := xml_tag;
  child x s := head (xml_children x s);
  all_children := xml_all_children;
  children := xml_children;
  attribute := xml_attribute;
  as_uint s := u32 (digits 0 s);
  child_head n s := eq_refl;
  children_named n s := eq_refl
|}.
