(* ===== verification/SerStream.v ===== *)
(** * Records over a stream

    Models the records [messages/WordRecord.hpp], [WordRecord.cpp] and
    [messages/Tweet.hpp], [Tweet.cpp], and the blocks that send and receive records
    over TCP, [blocks/SerExporter.cpp] and [blocks/SerSource.cpp].

    What a record type promises to the two blocks is the class [Serialisable]
    with its laws.  The network is an argument: what resolving, connecting and
    sending returned, and for every round of the source's loop what [select],
    [accept] and [recv] returned.  A string is the list of its bytes.  [s_sent]
    lists the records that left through the output gate, with the client they came
    from. *)

From S2P Require Export Xml Serializer.

(** ** Record types *)

(** [serialize] and [build_same]. *)
Class Serialisable (R : Type) := {
  serialize : R → M buffer unit;
  build_same : M buffer R
}.

(** [WordRecord]: its words. *)
Definition word_record : Type := list (list Z).

Definition add_word (str : list Z) (w : word_record) : word_record := w ++ [str].

Fixpoint add_words (ws : list (list Z)) : M buffer unit :=
  match ws with
  | [] => mret tt
  | w :: ws => Serializer.add_data w (s32 (Z.of_nat (length w)));; add_words ws
  end.

Definition word_record_serialize (w : word_record) : M buffer unit :=
  Serializer.reset;;
  Serializer.add_int32 (s32 (Z.of_nat (length w)));;
  add_words w.

Fixpoint get_words (n : nat) (w : word_record) : M buffer word_record :=
  match n with
  | O => mret w
  | S n => s ← Serializer.get_string; get_words n (add_word s w)
  end.

Definition word_record_build_same : M buffer word_record :=
  n ← Serializer.get_len;
  if n =? 0 then mret []
  else
    word_number ← Serializer.get_int32;
    get_words (Z.to_nat word_number) [].

#[export] Instance word_record_serialisable : Serialisable word_record := {|
  serialize := word_record_serialize;
  build_same := word_record_build_same
|}.

(** [Tweet]: its text. *)
Record tweet := Tweet { text : list Z }.

Definition tweet_serialize (t : tweet) : M buffer unit :=
  Serializer.reset;;
  Serializer.add_data (text t) (s32 (Z.of_nat (length (text t)))).

Definition tweet_build_same : M buffer tweet :=
  s ← Serializer.get_string;
  mret (Tweet s).

#[export] Instance tweet_serialisable : Serialisable tweet := {|
  serialize := tweet_serialize;
  build_same := tweet_build_same
|}.

(** ** Configuration *)

Definition is_space (c : Z) : bool := (c =? 32) || ((9 <=? c) && (c <=? 13)).

Fixpoint skip_spaces (s : string) : string :=
  match s with
  | String c s' => if is_space (Z.of_nat (Ascii.nat_of_ascii c)) then skip_spaces s' else s
  | EmptyString => s
  end.

(** [atoi]; a number that is not an [int] is undefined behaviour. *)
Definition atoi (s : string) : outcome Z :=
  let n := match skip_spaces s with
    | String c s as t =>
        let k := Z.of_nat (Ascii.nat_of_ascii c) in
        if k =? 45 then - digits 0 s else if k =? 43 then digits 0 s else digits 0 t
    | EmptyString => 0
    end in
  if (-2 ^ 31 <=? n) && (n <? 2 ^ 31) then Ret n else Throw (undefined_behaviour "atoi").

(** A missing attribute has the value [""]. *)
Definition attribute_value {N} `{XmlNode N} (n : N) (a : string) : string := default "" (attribute n a).

Definition check_port (cfgport : string) : outcome Z :=
  match atoi cfgport with
  | Throw e => Throw e
  | Ret port => if (port <? 0) || (65535 <? port) then Throw (runtime_error "Invalid port") else Ret port
  end.

(** [SerExporter::_configure] up to the connection: host and port. *)
Definition export_params {N} `{XmlNode N} (n : N) : outcome (string * Z) :=
  match child n "export" with
  | None => Throw (runtime_error "No export or file specification")
  | Some outspec =>
      let cfghost := attribute_value outspec "host" in
      let cfgport := attribute_value outspec "port" in
      if bool_decide (cfghost = "") || bool_decide (cfgport = "") then Throw (runtime_error "Export specification incomplete")
      else match check_port cfgport with Throw e => Throw e | Ret port => Ret (cfghost, port) end
  end.

Inductive msg_prototype := WordRecordPrototype | TweetPrototype.

(** [SerSource::_configure]: the port and the prototype of the records. *)
Definition collect_params {N} `{XmlNode N} (n : N) : outcome (Z * msg_prototype) :=
  match child n "collect" with
  | None => Throw (runtime_error "No collector or file specification")
  | Some inspec =>
      let cfgport := attribute_value inspec "port" in
      if bool_decide (cfgport = "") then Throw (runtime_error "Source specification incomplete")
      else match check_port cfgport with
      | Throw e => Throw e
      | Ret port =>
          let msgtype := attribute_value inspec "msgtype" in
          if bool_decide (msgtype = "") then Throw (runtime_error "Message type specification incomplete")
          else if bool_decide (msgtype = "WordRecord") then Ret (port, WordRecordPrototype)
          else if bool_decide (msgtype = "Tweet") then Ret (port, TweetPrototype)
          else Throw (runtime_error "Invalid message type requested for deserialization")
      end
  end.

(** What is accepted is a port number. *)
Lemma check_port_range s p : check_port s = Ret p → 0 ≤ p < 2 ^ 16.
Proof.
  unfold check_port. destruct (atoi s) as [q|]; [|done]. destruct (Z.ltb_spec q 0), (Z.ltb_spec 65535 q); cbn; try done.
  intros [= <-]. lia.
Qed.

Section blocks.
Context {R : Type} {HR : Serialisable R}.

(** ** [SerExporter] *)

(** [sock]: -1, a connected socket, or the number of a socket that was closed. *)
Inductive sock_state := NoSocket | Connected | ClosedSocket.

Record exporter := Exporter { ser : buffer; sock : sock_state; wire : list Z }.

Definition set_ser (b : buffer) (e : exporter) : exporter := Exporter b (sock e) (wire e).
Definition set_sock (s : sock_state) (e : exporter) : exporter := Exporter (ser e) s (wire e).
Definition put_on_wire (bs : list Z) (e : exporter) : exporter := Exporter (ser e) (sock e) (wire e ++ bs).

Definition exporter_new (junk : list Z) : exporter := Exporter (Serializer.construct junk).2 NoSocket [].

(** What the calls of the operating system return. *)
Record net_answers := NetAnswers { resolved : bool; socket_made : bool; connected : bool; send_accepts : nat }.

(** The end of [_configure]. *)
Definition configure_connect (a : net_answers) : M exporter unit :=
  e ← gets id;
  match sock e with
  | NoSocket =>
      if negb (resolved a) then mret tt
      else if negb (socket_made a) then mret tt
      else if negb (connected a) then modify (set_sock NoSocket)
      else modify (set_sock Connected)
  | _ => mret tt
  end.

(** Connecting in [_receive_msg]: whether to go on. *)
Definition receive_connect (a : net_answers) : M exporter bool :=
  e ← gets id;
  match sock e with
  | NoSocket =>
      if negb (resolved a) then mret false
      else if negb (socket_made a) then mret false
      else if negb (connected a) then
        modify (set_sock ClosedSocket);;
        throw (runtime_error "Error connecting to remote site")
      else
        modify (set_sock Connected);;
        mret true
  | _ => mret true
  end.

Definition send_message (m : R) (a : net_answers) : M exporter unit :=
  zoom ser set_ser (serialize m);;
  f ← zoom ser set_ser Serializer.finalize;
  e ← gets id;
  match sock e with
  | Connected => modify (put_on_wire (take (send_accepts a) (take (Z.to_nat f.2) f.1)))
  | _ => mret tt
  end.

Definition receive_msg (m : R) (a : net_answers) : M exporter unit :=
  go ← receive_connect a;
  if go : bool then send_message m a else mret tt.

Fixpoint receive_msgs (ms : list (R * net_answers)) : M exporter unit :=
  match ms with
  | [] => mret tt
  | (m, a) :: ms => receive_msg m a;; receive_msgs ms
  end.

(** ** [SerSource] *)

Definition MAX_CLIENT_SOCKET : Z := 30.
Definition DEFAULT_RECV_SIZE : Z := 2000.

(** The entries of [client_socket] and [sers]. *)
Record client := Client { c_closed : bool; c_ser : buffer }.

Record source := Source { clients : list client; s_sent : list (nat * R) }.

Definition set_client (i : nat) (c : client) (s : source) : source := Source (<[i := c]> (clients s)) (s_sent s).

(** An operation on the serialiser of a client. *)
Definition on_ser {A} (i : nat) (f : M buffer A) : M source A := λ s,
  match clients s !! i with
  | Some c => let '(r, b) := f (c_ser c) in (r, set_client i (Client (c_closed c) b) s)
  | None => (Throw (undefined_behaviour "sers"), s)
  end.

Definition send_record (i : nat) (r : R) : M source unit := modify (λ s, Source (clients s) (s_sent s ++ [(i, r)])).

(** The body of the loop that consumes what is in the buffers. *)
Definition consume_client (i : nat) : M source bool :=
  n ← on_ser i Serializer.get_len;
  if 2 <=? n then
    msg_len ← on_ser i Serializer.read_int16;
    if msg_len <=? n then
      on_ser i (Serializer.consume 2);;
      r ← on_ser i build_same;
      send_record i r;;
      on_ser i Serializer.next;;
      mret true
    else mret false
  else mret false.

Fixpoint consume_clients (is_ : list nat) : M source bool :=
  match is_ with
  | [] => mret false
  | i :: is_ => b ← consume_client i; c ← consume_clients is_; mret (b || c)
  end.

(** As long as something was consumed; [fuel] rounds are enough. *)
Fixpoint drain (fuel : nat) : M source unit :=
  n ← gets (length ∘ clients);
  consumed ← consume_clients (seq 0 n);
  if consumed : bool then
    match fuel with
    | O => throw (undefined_behaviour "does not return")
    | S fuel => drain fuel
    end
  else mret tt.

Inductive recv_result := Received (bytes : list Z) | HangUp | RecvError.
Inductive accept_result := AcceptFailed | Accepted (junk : list Z).

(** What the calls of a round return. *)
Record round_answers := RoundAnswers {
  select_fails : bool;
  incoming : option accept_result;
  ready : nat → option recv_result
}.

Definition accept_client (a : option accept_result) : M source unit :=
  n ← gets (length ∘ clients);
  match a with
  | Some (Accepted junk) =>
      if Z.of_nat n =? MAX_CLIENT_SOCKET then mret tt
      else
        let b := (Serializer.empty (Serializer.construct junk).2).2 in
        modify (λ s, Source (clients s ++ [Client false b]) (s_sent s))
  | _ => mret tt
  end.

Fixpoint recv_clients (is_ : list nat) (rd : nat → option recv_result) : M source unit :=
  match is_ with
  | [] => mret tt
  | i :: is_ =>
      (match rd i with
       | Some (Received bytes) => on_ser i (Serializer.add_raw_data bytes (Z.of_nat (length bytes)))
       | Some RecvError => modify (λ s, Source (alter (λ c, Client true (c_ser c)) i (clients s)) (s_sent s))
       | _ => mret tt
       end);;
      recv_clients is_ rd
  end.

Definition round (fuel : nat) (a : round_answers) : M source unit :=
  drain fuel;;
  (if select_fails a then throw (runtime_error "SerSource: select error") else mret tt);;
  accept_client (incoming a);;
  n ← gets (length ∘ clients);
  recv_clients (seq 0 n) (ready a).

Fixpoint rounds (fuel : nat) (xs : list round_answers) : M source unit :=
  match xs with
  | [] => mret tt
  | a :: xs => round fuel a;; rounds fuel xs
  end.

Definition source_new : source := Source [] [].
End blocks.
Arguments source : clear implicits.

(** ** What a record type promises *)

(** The bytes of a record behind the length, for records that fit a frame. *)
Class RecordLaws (R : Type) {HR : Serialisable R} := {
  record_ok : R → Prop;
  body : R → list Z;
  body_short r : record_ok r → 2 + Z.of_nat (length (body r)) < 2 ^ 15;
  serialize_body r b :
    record_ok r → length (buf b) = Z.to_nat MESSAGE_MAX_DATA →
    ∃ b' x, serialize r b = (Ret tt, b') ∧ holds b' (x ++ body r) ∧ length x = 2%nat;
  build_same_body r b rest :
    record_ok r → holds b (body r ++ rest) → ∃ b', build_same b = (Ret r, b') ∧ holds b' rest
}.

Definition words_body (ws : list (list Z)) : list Z := concat (map enc (map Data ws)).
Definition word_record_body (w : word_record) : list Z := enc (Int32 (Z.of_nat (length w))) ++ words_body w.

Lemma length_words_body ws w : w ∈ ws → (length w ≤ length (words_body ws))%nat.
Proof.
  unfold words_body. induction ws as [|x ws IH]; [by intros ?%not_elem_of_nil|].
  intros [->|Hw]%elem_of_cons; cbn [map concat]; rewrite length_app, length_enc_data; [lia|]. specialize (IH Hw). lia.
Qed.

Lemma length_words_count ws : (2 * length ws ≤ length (words_body ws))%nat.
Proof.
  unfold words_body. induction ws as [|x ws IH]; [done|]. cbn [map concat length]. rewrite length_app, length_enc_data. lia.
Qed.

Lemma add_words_fields ws :
  Forall (λ w, Z.of_nat (length w) < 2 ^ 15) ws → add_words ws = add_fields (map Data ws).
Proof.
  induction 1 as [|w ws Hw _ IH]; [done|]. cbn [add_words map add_fields add_field].
  unfold s32. rewrite (to_signed_id 32) by lia. by rewrite IH.
Qed.

Lemma get_words_body ws acc b rest :
  Forall (λ w, Z.of_nat (length w) < 2 ^ 15) ws → holds b (words_body ws ++ rest) →
  ∃ b', get_words (length ws) acc b = (Ret (acc ++ ws), b') ∧ holds b' rest.
Proof.
  intros Hws. revert acc b. induction Hws as [|w ws Hw _ IH]; intros acc b Hb; cbn [get_words length].
  - exists b. by rewrite app_nil_r.
  - unfold words_body in Hb. cbn [map concat] in Hb. rewrite <- app_assoc in Hb.
    destruct (get_field_holds RString (Data w) b _ Hw Hb) as (b1 & E1 & Hb1). cbn [get_field] in E1.
    apply bind_inv_Ret in E1 as (x & b2 & E1 & E2). injection E2 as -> ->.
    rewrite (bind_Ret _ _ _ _ _ E1). destruct (IH (add_word w acc) b1 Hb1) as (b' & E & Hb').
    exists b'. split; [|done]. rewrite E. unfold add_word. by rewrite <- app_assoc.
Qed.

Lemma words_short w :
  2 + Z.of_nat (length (word_record_body w)) < 2 ^ 15 →
  Forall (λ w, Z.of_nat (length w) < 2 ^ 15) w ∧ Z.of_nat (length w) < 2 ^ 15.
Proof.
  unfold word_record_body. rewrite length_app. intros H. split.
  - apply Forall_forall. intros x Hx. pose proof (length_words_body w x Hx). lia.
  - pose proof (length_words_count w). lia.
Qed.

Lemma reset_room b b' x : Serializer.reset b = (Ret tt, b') → holds b' x → length x = 2%nat → data b' = 0.
Proof.
  intros E H Hx. unfold Serializer.reset, BufferSerializer.reset, BufferSerializer.put in E. revert E. run_m. cbn.
  by intros [= <-].
Qed.

#[export] Program Instance word_record_laws : RecordLaws word_record := {|
  record_ok w := 2 + Z.of_nat (length (word_record_body w)) < 2 ^ 15;
  body := word_record_body
|}.
Next Obligation. done. Qed.
Next Obligation.
  intros w b Hw Hb. destruct (words_short w Hw) as [Hws Hn].
  destruct (reset_holds b Hb) as (b1 & x & E1 & H1 & Hx & Ht1).
  unfold word_record_body in Hw. rewrite length_app in Hw.
  destruct (add_field_holds (Int32 (Z.of_nat (length w))) b1 x H1) as (b2 & E2 & H2 & Hd2); [unfold MESSAGE_MAX_DATA; lia|].
  destruct (add_fields_holds (map Data w) b2 _ H2) as (b3 & E3 & H3 & _).
  { rewrite (holds_tail _ _ H2), Hd2, length_app. rewrite (holds_tail _ _ H1) in Ht1. unfold MESSAGE_MAX_DATA.
    fold (words_body w). lia. }
  exists b3, x. split; [|by rewrite <- app_assoc in H3].
  cbn [serialize word_record_serialisable]. unfold word_record_serialize. rewrite (bind_Ret _ _ _ _ _ E1).
  cbn [add_field] in E2. unfold s32. rewrite (to_signed_id 32) by lia.
  by rewrite (bind_Ret _ _ _ _ _ E2), add_words_fields.
Qed.
Next Obligation.
  intros w b rest Hw Hb. destruct (words_short w Hw) as [Hws Hn]. unfold word_record_body in Hb. rewrite <- app_assoc in Hb.
  cbn [build_same word_record_serialisable]. unfold word_record_build_same.
  assert (Serializer.get_len b = (Ret (Z.of_nat (length (enc (Int32 (Z.of_nat (length w))) ++ words_body w ++ rest))), b)) as E0.
  { unfold Serializer.get_len, BufferSerializer.len. run_m. by rewrite (holds_len _ _ Hb). }
  rewrite (bind_Ret _ _ _ _ _ E0), length_app. cbn [enc]. rewrite length_le_bytes.
  rewrite (proj2 (Z.eqb_neq _ _)) by lia.
  assert (reads RInt32 (Int32 (Z.of_nat (length w)))) as Hr by (cbn; lia).
  destruct (get_field_holds RInt32 (Int32 (Z.of_nat (length w))) b _ Hr Hb) as (b1 & E1 & Hb1). cbn [get_field] in E1.
  apply bind_inv_Ret in E1 as (n & b2 & E1 & E2). injection E2 as -> ->.
  rewrite (bind_Ret _ _ _ _ _ E1), Nat2Z.id. by apply (get_words_body w []).
Qed.

#[export] Program Instance tweet_laws : RecordLaws tweet := {|
  record_ok t := 4 + Z.of_nat (length (text t)) < 2 ^ 15;
  body t := enc (Data (text t))
|}.
Next Obligation. intros t Ht. cbv beta in *. rewrite length_enc_data. lia. Qed.
Next Obligation.
  intros t b Ht Hb. cbn in Ht. destruct (reset_holds b Hb) as (b1 & x & E1 & H1 & Hx & Ht1).
  destruct (add_field_holds (Data (text t)) b1 x H1) as (b2 & E2 & H2 & _).
  { rewrite length_enc_data. unfold MESSAGE_MAX_DATA. lia. }
  exists b2, x. split; [|done]. cbn [serialize tweet_serialisable]. unfold tweet_serialize.
  rewrite (bind_Ret _ _ _ _ _ E1). cbn [add_field] in E2. unfold s32. by rewrite (to_signed_id 32) by lia.
Qed.
Next Obligation.
  intros [t] b rest Ht Hb. cbn in Ht. assert (reads RString (Data t)) as Hr by (cbn; lia).
  destruct (get_field_holds RString (Data t) b rest Hr Hb) as (b1 & E1 & Hb1). cbn [get_field] in E1.
  apply bind_inv_Ret in E1 as (s & b2 & E1 & E2). injection E2 as -> ->.
  exists b1. split; [|done]. cbn [build_same tweet_serialisable]. unfold tweet_build_same. by rewrite (bind_Ret _ _ _ _ _ E1).
Qed.

(** ** Frames *)

Section streams.
Context {R : Type} {HR : Serialisable R} {HL : RecordLaws R}.

Definition header (r : R) : list Z := le_bytes 2 (htons (u16 (2 + Z.of_nat (length (body r))))).
Definition frame (r : R) : list Z := header r ++ body r.
Definition stream (rs : list R) : list Z := concat (frame <$> rs).

Lemma length_header r : length (header r) = 2%nat.
Proof. apply length_le_bytes. Qed.

Lemma length_frame r : length (frame r) = (2 + length (body r))%nat.
Proof. unfold frame. by rewrite length_app, length_header. Qed.

Lemma stream_app l1 l2 : stream (l1 ++ l2) = stream l1 ++ stream l2.
Proof. unfold stream. by rewrite fmap_app, concat_app. Qed.

(** ** Sending *)

Lemma finalize_memory b mem n b' l :
  Serializer.finalize b = (Ret (mem, n), b') → holds b' l → n = Z.of_nat (length l) → take (Z.to_nat n) mem = l.
Proof.
  intros E H ->. unfold Serializer.finalize in E. apply bind_inv_Ret in E as (k & b1 & _ & E).
  apply bind_inv_Ret in E as (u & b2 & _ & E). revert E. unfold BufferSerializer.len. run_m. intros [= <- _ ->].
  rewrite Nat2Z.id. destruct H as [(pre & post & -> & ->) _ _ _ _]. by rewrite Nat2Z.id, drop_app_length, take_app_length.
Qed.

Definition reachable (a : net_answers) : Prop := resolved a = true ∧ socket_made a = true ∧ connected a = true.
Definition answers_ok (m : R) (a : net_answers) : Prop := reachable a ∧ (length (frame m) ≤ send_accepts a)%nat.

Definition sending (e : exporter) : Prop :=
  length (buf (ser e)) = Z.to_nat MESSAGE_MAX_DATA ∧ sock e ≠ ClosedSocket.

Lemma receive_msg_frame m a e :
  sending e → record_ok m → reachable a →
  ∃ e', receive_msg m a e = (Ret tt, e') ∧ sending e' ∧ wire e' = wire e ++ take (send_accepts a) (frame m).
Proof.
  intros [Hb Hs] Hm (Ha1 & Ha2 & Ha3).
  assert (∃ e1, receive_connect a e = (Ret true, e1) ∧ ser e1 = ser e ∧ wire e1 = wire e ∧ sock e1 = Connected)
    as (e1 & E1 & Eb1 & Ew1 & Es1).
  { unfold receive_connect. run_m. rewrite Ha1, Ha2, Ha3. destruct (sock e) eqn:Es; [by eexists| |done].
    by exists e. }
  destruct (serialize_body m (ser e1) Hm) as (b2 & x & E2 & H2 & Hx); [by rewrite Eb1|].
  destruct (finalize_holds b2 x (body m) H2 Hx) as (b3 & mem & E3 & H3).
  assert (length (x ++ body m) = (2 + length (body m))%nat) as El by (rewrite length_app; lia).
  rewrite El in E3, H3. rewrite Nat2Z.inj_add in E3, H3. change (Z.of_nat 2) with 2 in E3, H3.
  change (le_bytes 2 (htons (u16 (2 + Z.of_nat (length (body m))))) ++ body m) with (frame m) in H3.
  pose proof (finalize_memory _ _ _ _ _ E3 H3) as Em. rewrite length_frame in Em.
  specialize (Em ltac:(lia)).
  exists (Exporter b3 Connected (wire e ++ take (send_accepts a) (frame m))). split; [|split; [split; [apply (holds_size _ _ H3)|done]|done]].
  unfold receive_msg. rewrite (bind_Ret _ _ _ _ _ E1). unfold send_message. run_m. rewrite E2. cbn [ser set_ser].
  rewrite E3. cbn [sock set_ser]. rewrite Es1. unfold put_on_wire. cbn [ser set_ser sock wire fst snd].
  rewrite Em. by rewrite Ew1, Es1.
Qed.

Lemma receive_msgs_stream ms e :
  sending e → Forall (λ '(m, a), record_ok m ∧ answers_ok m a) ms →
  ∃ e', receive_msgs ms e = (Ret tt, e') ∧ sending e' ∧ wire e' = wire e ++ stream (ms.*1).
Proof.
  intros He Hms. revert e He. induction Hms as [|[m a] ms [Hm Ha] _ IH]; intros e He; cbn [receive_msgs].
  - exists e. by rewrite app_nil_r.
  - destruct Ha as [Ha Hlen]. destruct (receive_msg_frame m a e He Hm Ha) as (e1 & E1 & He1 & Ew1).
    rewrite take_ge in Ew1 by done. rewrite (bind_Ret _ _ _ _ _ E1).
    destruct (IH e1 He1) as (e2 & E2 & He2 & Ew2). exists e2. split; [done|]. split; [done|].
    rewrite Ew2, Ew1. unfold stream. cbn [fmap list_fmap concat]. by rewrite <- app_assoc.
Qed.

(** A message of which the system takes only a part: the rest of its frame is
    lost, and the handler returns as if it had been sent. *)
Lemma short_write_breaks_frame m a e :
  sending e → record_ok m → reachable a → (send_accepts a < length (frame m))%nat →
  ∃ e', receive_msg m a e = (Ret tt, e') ∧ (length (wire e') < length (wire e ++ frame m))%nat.
Proof.
  intros He Hm Ha Hlt. destruct (receive_msg_frame m a e He Hm Ha) as (e' & E & _ & Ew). exists e'. split; [done|].
  rewrite Ew, !length_app, length_take. lia.
Qed.

Lemma closed_socket_silent ms e :
  length (buf (ser e)) = Z.to_nat MESSAGE_MAX_DATA → sock e = ClosedSocket → Forall (λ x, record_ok x.1) ms →
  ∃ e', receive_msgs ms e = (Ret tt, e') ∧ wire e' = wire e.
Proof.
  intros Hb Hs Hms. revert e Hb Hs. induction Hms as [|[m a] ms Hm _ IH]; intros e Hb Hs; cbn [receive_msgs]; [by eexists|].
  destruct (serialize_body m (ser e) Hm Hb) as (b2 & x & E2 & H2 & Hx).
  destruct (finalize_holds b2 x (body m) H2 Hx) as (b3 & mem & E3 & H3).
  assert (receive_msg m a e = (Ret tt, Exporter b3 ClosedSocket (wire e))) as E.
  { unfold receive_msg, receive_connect, send_message. run_m. rewrite Hs. rewrite E2. cbn [ser set_ser]. rewrite E3.
    unfold set_ser. cbn [sock wire ser]. by rewrite Hs. }
  rewrite (bind_Ret _ _ _ _ _ E). destruct (IH (Exporter b3 ClosedSocket (wire e))) as (e' & E' & Ew); [apply (holds_size _ _ H3)|done|].
  by exists e'.
Qed.

(** An exporter that cannot connect when a message arrives: the handler
    throws, and closes the socket without forgetting it, so that no message
    afterwards ever connects again; each of them is handled without an error and
    nothing of it is sent, whatever the network would have answered. *)
Theorem failed_connect_silences m a ms e :
  length (buf (ser e)) = Z.to_nat MESSAGE_MAX_DATA → sock e = NoSocket →
  resolved a = true → socket_made a = true → connected a = false → Forall (λ x, record_ok x.1) ms →
  ∃ e1, receive_msg m a e = (Throw (runtime_error "Error connecting to remote site"), e1) ∧
    ∃ e2, receive_msgs ms e1 = (Ret tt, e2) ∧ wire e2 = wire e.
Proof.
  intros Hb Hs Ha1 Ha2 Ha3 Hms. exists (set_sock ClosedSocket e). split.
  - unfold receive_msg, receive_connect. run_m. by rewrite Hs, Ha1, Ha2, Ha3.
  - by apply (closed_socket_silent ms (set_sock ClosedSocket e)).
Qed.

(** ** Receiving *)

(** The records of client [i]. *)
Definition records_of (i : nat) (l : list (nat * R)) : list R := snd <$> filter (λ x, x.1 = i) l.

Lemma records_of_snoc i j r l : records_of i (l ++ [(j, r)]) = records_of i l ++ (if decide (j = i) then [r] else []).
Proof.
  unfold records_of. rewrite filter_app, fmap_app. f_equal. case_decide.
  - by rewrite filter_cons_True.
  - by rewrite filter_cons_False.
Qed.

(** What is left in the buffer of a client that sent [got] of the stream of
    [peer], of which [out] were passed on. *)
Record client_ok (peer out : list R) (got : list Z) (rest : list Z) (c : client) : Prop := ClientOk {
  client_holds : holds (c_ser c) rest;
  client_data : data (c_ser c) = 0;
  client_got : got = stream out ++ rest;
  client_out : out `prefix_of` peer;
  client_stream : got `prefix_of` stream peer
}.

(** No whole frame is left. *)
Definition no_frame (peer out : list R) (rest : list Z) : Prop :=
  ∀ r, peer !! length out = Some r → (length rest < length (frame r))%nat.

(** The rest is a prefix of the frames to come. *)
Lemma rest_frames peer out got rest c :
  client_ok peer out got rest c → ∃ todo, peer = out ++ todo ∧ rest `prefix_of` stream todo.
Proof.
  intros [_ _ -> [todo ->] [x Hx]]. exists todo. split; [done|]. exists x.
  rewrite stream_app, <- app_assoc in Hx. by apply app_inv_head in Hx.
Qed.

Lemma prefix_stream_nil rest : rest `prefix_of` stream [] → rest = [].
Proof. intros [x E]. symmetry in E. by apply app_eq_nil in E as [-> _]. Qed.

(** One look at a client: either no whole frame is there, or the record of the
    first one leaves. *)
Lemma consume_client_spec i s peer got rest c :
  Forall record_ok peer → clients s !! i = Some c → client_ok peer (records_of i (s_sent s)) got rest c →
  (consume_client i s = (Ret false, s) ∧ no_frame peer (records_of i (s_sent s)) rest) ∨
  (∃ r b rest', consume_client i s = (Ret true, Source (<[i := Client (c_closed c) b]> (clients s)) (s_sent s ++ [(i, r)])) ∧
    rest = frame r ++ rest' ∧ record_ok r ∧
    client_ok peer (records_of i (s_sent s) ++ [r]) got rest' (Client (c_closed c) b)).
Proof.
  intros Hok Hc Hcl. set (out := records_of i (s_sent s)) in *.
  destruct (rest_frames _ _ _ _ _ Hcl) as (todo & Ep & Hrest).
  assert (s = set_client i (Client (c_closed c) (c_ser c)) s) as Es.
  { unfold set_client. rewrite list_insert_id by (by destruct c). by destruct s. }
  assert (∀ (A : Type) (f : M buffer A) b v b' (sent : list (nat * R)), f b = (Ret v, b') →
    on_ser i f (Source (<[i := Client (c_closed c) b]> (clients s)) sent) =
      (Ret v, Source (<[i := Client (c_closed c) b']> (clients s)) sent)) as Hon.
  { intros A f b v b' sent E. unfold on_ser. cbn [clients]. pose proof (lookup_lt_Some _ _ _ Hc).
    rewrite list_lookup_insert_eq by done. cbn [c_ser]. rewrite E. unfold set_client. cbn [clients s_sent c_closed].
    by rewrite list_insert_insert_eq. }
  assert (∀ (A : Type) (f : M buffer A) v, f (c_ser c) = (Ret v, c_ser c) → on_ser i f s = (Ret v, s)) as Hon0.
  { intros A f v E. rewrite Es. unfold set_client at 1. rewrite (Hon _ _ _ _ _ _ E). done. }
  assert (Serializer.get_len (c_ser c) = (Ret (Z.of_nat (length rest)), c_ser c)) as El.
  { unfold Serializer.get_len, BufferSerializer.len. run_m. by rewrite (holds_len _ _ (client_holds _ _ _ _ _ Hcl)). }
  destruct todo as [|r todo].
  { apply prefix_stream_nil in Hrest as ->. left. split.
    - unfold consume_client. by rewrite (bind_Ret _ _ _ _ _ (Hon0 _ _ _ El)).
    - intros r Hr. rewrite Ep, app_nil_r in Hr. apply lookup_lt_Some in Hr. fold out in Hr. lia. }
  assert (record_ok r) as Hr by (rewrite Ep, Forall_app, Forall_cons in Hok; tauto).
  pose proof (body_short r Hr) as Hshort.
  assert (peer !! length out = Some r) as Hnext by (rewrite Ep, lookup_app_r, Nat.sub_diag by lia; done).
  unfold stream in Hrest. cbn [fmap list_fmap concat] in Hrest. fold (stream todo) in Hrest.
  assert ((length rest < length (frame r))%nat → no_frame peer out rest) as Hno.
  { intros Hlt r' Hr'. rewrite Hnext in Hr'. by injection Hr' as <-. }
  destruct (Z.leb_spec 2 (Z.of_nat (length rest))) as [H2|H2].
  2:{ left. split; [|apply Hno; rewrite length_frame; lia].
      unfold consume_client. rewrite (bind_Ret _ _ _ _ _ (Hon0 _ _ _ El)). by rewrite (proj2 (Z.leb_gt _ _)) by lia. }
  assert (∃ rest1, rest = header r ++ rest1) as [rest1 E1].
  { destruct Hrest as [x Hx]. unfold frame in Hx. rewrite <- !app_assoc in Hx.
    exists (drop 2 rest). rewrite <- (take_drop 2 rest) at 1. f_equal.
    apply (f_equal (take 2)) in Hx. rewrite take_app_le in Hx by (rewrite length_header; lia).
    rewrite take_ge in Hx by (rewrite length_header; lia). rewrite take_app_le in Hx by lia. done. }
  pose proof (client_holds _ _ _ _ _ Hcl) as Hh. rewrite E1 in Hh.
  pose proof (read_int16_holds (2 + Z.of_nat (length (body r))) _ _ Hh) as E2.
  unfold s16 in E2. rewrite (to_signed_id 16) in E2 by lia.
  destruct (Z.leb_spec (2 + Z.of_nat (length (body r))) (Z.of_nat (length rest))) as [Hle|Hlt].
  2:{ left. split; [|apply Hno; rewrite length_frame; lia].
      unfold consume_client. rewrite (bind_Ret _ _ _ _ _ (Hon0 _ _ _ El)), (proj2 (Z.leb_le _ _)) by lia.
      rewrite (bind_Ret _ _ _ _ _ (Hon0 _ _ _ E2)). by rewrite (proj2 (Z.leb_gt _ _)) by lia. }
  assert (∃ rest', rest = frame r ++ rest') as [rest' E3].
  { destruct Hrest as [x Hx]. exists (drop (length (frame r)) rest).
    rewrite <- (take_drop (length (frame r)) rest) at 1. f_equal.
    apply (f_equal (take (length (frame r)))) in Hx. rewrite take_app_length in Hx.
    rewrite take_app_le in Hx by (rewrite length_frame; lia). done. }
  right. pose proof (client_holds _ _ _ _ _ Hcl) as Hh2. rewrite E3 in Hh2. unfold frame in Hh2. rewrite <- app_assoc in Hh2.
  destruct (consume_holds _ _ _ Hh2) as (b3 & E4 & H4). rewrite length_header in E4. change (Z.of_nat 2) with 2 in E4.
  destruct (build_same_body r b3 rest' Hr H4) as (b4 & E5 & H5).
  destruct (compact_holds _ _ H5) as (b5 & E6 & H6 & Hd6).
  exists r, b5, rest'. split; [|split; [done|split; [done|]]].
  - unfold consume_client. rewrite (bind_Ret _ _ _ _ _ (Hon0 _ _ _ El)), (proj2 (Z.leb_le _ _)) by lia.
    rewrite (bind_Ret _ _ _ _ _ (Hon0 _ _ _ E2)), (proj2 (Z.leb_le _ _)) by lia.
    pose proof (Hon _ _ _ _ _ (s_sent s) E4) as E4'.
    assert (Source (<[i := Client (c_closed c) (c_ser c)]> (clients s)) (s_sent s) = s) as Es2 by (symmetry; exact Es).
    rewrite Es2 in E4'. rewrite (bind_Ret _ _ _ _ _ E4'), (bind_Ret _ _ _ _ _ (Hon _ _ _ _ _ _ E5)).
    unfold send_record. rewrite (bind_Ret (modify _) _ _ _ _ eq_refl). cbn [clients s_sent].
    by rewrite (bind_Ret _ _ _ _ _ (Hon _ _ _ _ _ _ E6)).
  - split; cbn [c_ser]; [done|done| | |by destruct Hcl].
    + rewrite (client_got _ _ _ _ _ Hcl), E3, stream_app, <- app_assoc. f_equal.
      unfold stream at 1. cbn [fmap list_fmap concat]. by rewrite app_nil_r.
    + rewrite Ep. exists todo. by rewrite <- app_assoc.
Qed.

(** ** The source *)

Definition source_ok (peer : nat → list R) (got : nat → list Z) (s : source R) : Prop :=
  (∀ i c, clients s !! i = Some c → ∃ rest, client_ok (peer i) (records_of i (s_sent s)) (got i) rest c) ∧
  (∀ i, clients s !! i = None → records_of i (s_sent s) = [] ∧ got i = []).

(** The bytes waiting in the buffers. *)
Definition pending (c : client) : nat := Z.to_nat (tail (c_ser c) - data (c_ser c)).
Definition total (s : source R) : nat := sum_list_with pending (clients s).

Lemma client_pending peer out got rest c : client_ok peer out got rest c → pending c = length rest.
Proof. intros H. unfold pending. rewrite (holds_tail _ _ (client_holds _ _ _ _ _ H)). lia. Qed.

Lemma total_insert (l : list client) i c c' :
  l !! i = Some c → (sum_list_with pending (<[i := c']> l) + pending c = sum_list_with pending (l) + pending c')%nat.
Proof.
  revert i. induction l as [|x l IH]; intros [|i] Hi; try done.
  - injection Hi as ->. cbn. lia.
  - specialize (IH i Hi). change (<[S i := c']> (x :: l)) with (x :: <[i := c']> l). cbn [sum_list_with]. lia.
Qed.

Lemma records_of_other i j r l : j ≠ i → records_of i (l ++ [(j, r)]) = records_of i l.
Proof. intros Hne. rewrite records_of_snoc, decide_False by done. apply app_nil_r. Qed.

Lemma consume_client_ok peer got s i c :
  (∀ i, Forall record_ok (peer i)) → source_ok peer got s → clients s !! i = Some c →
  ∃ b s', consume_client i s = (Ret b, s') ∧ source_ok peer got s' ∧ length (clients s') = length (clients s) ∧
    (if b : bool then (total s' < total s)%nat
     else s' = s ∧ ∃ rest, client_ok (peer i) (records_of i (s_sent s)) (got i) rest c ∧
       no_frame (peer i) (records_of i (s_sent s)) rest).
Proof.
  intros Hpeer [Hin Hout] Hc. destruct (Hin i c Hc) as [rest Hcl].
  destruct (consume_client_spec i s (peer i) (got i) rest c (Hpeer i) Hc Hcl) as [[E Hno]|(r & b & rest' & E & Er & Hr & Hcl')].
  - exists false, s. split; [done|]. split; [done|]. split; [done|]. split; [done|]. by exists rest.
  - exists true. eexists. split; [exact E|]. cbn [clients]. pose proof (lookup_lt_Some _ _ _ Hc) as Hi.
    split; [|split; [by rewrite length_insert|]].
    + split; cbn [clients s_sent].
      * intros j c' Hj. destruct (Nat.eq_dec j i) as [->|Hne].
        -- rewrite list_lookup_insert_eq in Hj by done. injection Hj as <-. exists rest'.
           rewrite records_of_snoc, decide_True by done. done.
        -- rewrite list_lookup_insert_ne in Hj by done. rewrite records_of_other by done. by apply Hin.
      * intros j Hj. apply lookup_ge_None in Hj. rewrite length_insert in Hj.
        rewrite records_of_other by lia. apply Hout. by apply lookup_ge_None.
    + unfold total. cbn [clients]. pose proof (total_insert (clients s) i c (Client (c_closed c) b) Hc) as Ht.
      rewrite (client_pending _ _ _ _ _ Hcl), (client_pending _ _ _ _ _ Hcl'), Er, length_app, length_frame in Ht. lia.
Qed.

(** Nothing can be consumed from the clients [is_]. *)
Definition drained (peer : nat → list R) (got : nat → list Z) (is_ : list nat) (s : source R) : Prop :=
  ∀ i c, i ∈ is_ → clients s !! i = Some c → ∃ rest, client_ok (peer i) (records_of i (s_sent s)) (got i) rest c ∧
    no_frame (peer i) (records_of i (s_sent s)) rest.

Lemma consume_clients_ok peer got is_ s :
  (∀ i, Forall record_ok (peer i)) → source_ok peer got s → Forall (λ i, (i < length (clients s))%nat) is_ →
  ∃ b s', consume_clients is_ s = (Ret b, s') ∧ source_ok peer got s' ∧ length (clients s') = length (clients s) ∧
    (if b : bool then (total s' < total s)%nat else s' = s ∧ drained peer got is_ s).
Proof.
  intros Hpeer. revert s. induction is_ as [|i is_ IH]; intros s Hs His; cbn [consume_clients].
  - exists false, s. split; [done|]. split; [done|]. split; [done|]. split; [done|]. by intros i c ?%not_elem_of_nil.
  - apply Forall_cons in His as [Hi His]. destruct (lookup_lt_is_Some_2 _ _ Hi) as [c Hc].
    destruct (consume_client_ok peer got s i c Hpeer Hs Hc) as (b1 & s1 & E1 & Hs1 & El1 & H1).
    rewrite (bind_Ret _ _ _ _ _ E1).
    destruct (IH s1 Hs1) as (b2 & s2 & E2 & Hs2 & El2 & H2); [by rewrite El1|].
    rewrite (bind_Ret _ _ _ _ _ E2). exists (b1 || b2), s2. split; [done|]. split; [done|]. split; [congruence|].
    destruct b1, b2; cbn [orb]; try lia.
    + destruct H2 as [-> _]. done.
    + destruct H1 as [-> _]. done.
    + destruct H1 as [-> Hi1]. destruct H2 as [-> H2]. split; [done|].
      intros j c' [->|Hj]%elem_of_cons Hj2; [|by apply H2]. rewrite Hc in Hj2. by injection Hj2 as <-.
Qed.

Lemma drain_ok peer got fuel s :
  (∀ i, Forall record_ok (peer i)) → source_ok peer got s → (total s ≤ fuel)%nat →
  ∃ s', drain fuel s = (Ret tt, s') ∧ source_ok peer got s' ∧ length (clients s') = length (clients s) ∧
    drained peer got (seq 0 (length (clients s'))) s' ∧ (total s' ≤ total s)%nat.
Proof.
  intros Hpeer. revert s. induction fuel as [|fuel IH]; intros s Hs Hf; cbn [drain].
  all: destruct (consume_clients_ok peer got (seq 0 (length (clients s))) s Hpeer Hs) as (b & s1 & E1 & Hs1 & El1 & H1);
    [apply Forall_forall; intros i [_ ?]%elem_of_seq; lia|].
  all: rewrite (bind_Ret (gets _) _ s (length (clients s)) s eq_refl), (bind_Ret _ _ _ _ _ E1).
  all: destruct b; [|destruct H1 as [-> H1]; exists s; by repeat split; try apply Hs].
  - lia.
  - destruct (IH s1 Hs1 ltac:(lia)) as (s2 & E2 & Hs2 & El2 & Hd2 & Ht2). exists s2. do 2 (split; [done|]).
    split; [congruence|]. split; [done|lia].
Qed.

(** What a [recv] brought. *)
Definition received (x : option recv_result) : list Z := match x with Some (Received bs) => bs | _ => [] end.

Lemma on_ser_insert {A} (s : source R) i c (f : M buffer A) v b :
  clients s !! i = Some c → f (c_ser c) = (Ret v, b) → on_ser i f s = (Ret v, set_client i (Client (c_closed c) b) s).
Proof. intros Hc E. unfold on_ser. by rewrite Hc, E. Qed.

Lemma alter_insert {A} (f : A → A) (l : list A) i c : l !! i = Some c → alter f i l = <[i := f c]> l.
Proof.
  intros Hc. pose proof (lookup_lt_Some _ _ _ Hc). apply list_eq. intros j. destruct (Nat.eq_dec j i) as [->|Hne].
  - by rewrite list_lookup_alter_eq, list_lookup_insert_eq, Hc.
  - by rewrite list_lookup_alter_ne, list_lookup_insert_ne.
Qed.

Lemma recv_client_ok peer got s i c x :
  source_ok peer got s → clients s !! i = Some c → tail (c_ser c) < 2 ^ 15 → (length (received x) ≤ 2000)%nat →
  got i ++ received x `prefix_of` stream (peer i) →
  ∃ s' c', (match x with
    | Some (Received bytes) => on_ser i (Serializer.add_raw_data bytes (Z.of_nat (length bytes)))
    | Some RecvError => modify (λ s, Source (alter (λ c, Client true (c_ser c)) i (clients s)) (s_sent s))
    | _ => mret tt
    end) s = (Ret tt, s') ∧ clients s' = <[i := c']> (clients s) ∧ s_sent s' = s_sent s ∧
    ∃ rest, client_ok (peer i) (records_of i (s_sent s)) (got i ++ received x) rest c'.
Proof.
  intros [Hin Hout] Hc Ht Hx Hpre. destruct (Hin i c Hc) as [rest Hcl].
  assert (∀ closed, ∃ rest, client_ok (peer i) (records_of i (s_sent s)) (got i ++ []) rest (Client closed (c_ser c))) as Hsame.
  { intros closed. exists rest. rewrite app_nil_r. by destruct Hcl. }
  destruct x as [[bytes| |]|]; cbn [received] in *.
  - destruct (put_raw_data_holds bytes (c_ser c) rest (client_holds _ _ _ _ _ Hcl)) as (b & E & Hb & Hd); [unfold MESSAGE_MAX_DATA; lia|].
    exists (set_client i (Client (c_closed c) b) s), (Client (c_closed c) b).
    split; [by apply on_ser_insert|]. split; [done|]. split; [done|]. exists (rest ++ bytes).
    split; cbn [c_ser]; [done|rewrite Hd; apply Hcl| |apply Hcl|done].
    by rewrite (client_got _ _ _ _ _ Hcl), app_assoc.
  - exists s, c. split; [done|]. split; [by rewrite list_insert_id|]. split; [done|]. destruct c. apply Hsame.
  - eexists _, (Client true (c_ser c)). split; [reflexivity|]. cbn [clients s_sent]. split; [|split; [done|apply Hsame]].
    by apply (alter_insert (λ c, Client true (c_ser c))).
  - exists s, c. split; [done|]. split; [by rewrite list_insert_id|]. split; [done|]. destruct c. apply Hsame.
Qed.

Lemma recv_clients_ok peer got is_ rd s :
  source_ok peer got s → NoDup is_ → Forall (λ i, (i < length (clients s))%nat) is_ →
  (∀ i c, i ∈ is_ → clients s !! i = Some c → tail (c_ser c) < 2 ^ 15) →
  (∀ i, (length (received (rd i)) ≤ 2000)%nat) → (∀ i, i ∈ is_ → got i ++ received (rd i) `prefix_of` stream (peer i)) →
  ∃ s', recv_clients is_ rd s = (Ret tt, s') ∧
    source_ok peer (λ i, got i ++ if decide (i ∈ is_) then received (rd i) else []) s' ∧
    length (clients s') = length (clients s) ∧ s_sent s' = s_sent s.
Proof.
  intros Hs Hnd. revert got s Hs. induction Hnd as [|i is_ Hni Hnd IH]; intros got s Hs His Ht Hx Hpre; cbn [recv_clients].
  - exists s. split; [done|]. split; [|done].
    destruct Hs as [Hin Hout]. split; intros j; rewrite decide_False, app_nil_r by apply not_elem_of_nil; auto.
  - apply Forall_cons in His as [Hi His]. destruct (lookup_lt_is_Some_2 _ _ Hi) as [c Hc].
    destruct (recv_client_ok peer got s i c (rd i) Hs Hc) as (s1 & c1 & E1 & Ec1 & Es1 & Hcl1);
      [apply (Ht i c); [by left|done]|done|apply Hpre; by left|].
    rewrite (bind_Ret _ _ _ _ _ E1).
    set (got1 := λ j, if decide (j = i) then got i ++ received (rd i) else got j).
    destruct (IH got1 s1) as (s2 & E2 & Hs2 & El2 & Es2).
    + destruct Hs as [Hin Hout]. unfold got1. split; intros j; rewrite Es1.
      * intros c' Hj. rewrite Ec1 in Hj. destruct (Nat.eq_dec j i) as [->|Hne].
        -- rewrite list_lookup_insert_eq in Hj by done. injection Hj as <-. by rewrite decide_True.
        -- rewrite list_lookup_insert_ne in Hj by done. rewrite decide_False by done. by apply Hin.
      * intros Hj. rewrite Ec1 in Hj. apply lookup_ge_None in Hj. rewrite length_insert in Hj.
        rewrite decide_False by lia. apply Hout. by apply lookup_ge_None.
    + rewrite Ec1. by rewrite length_insert.
    + intros j c' Hj. rewrite Ec1, list_lookup_insert_ne by (intros ->; done). apply Ht. by right.
    + done.
    + intros j Hj. unfold got1. rewrite decide_False by (intros ->; done). apply Hpre. by right.
    + rewrite Ec1, length_insert in El2. exists s2. split; [done|]. split; [|split; congruence].
      assert (∀ j, got1 j ++ (if decide (j ∈ is_) then received (rd j) else []) =
        got j ++ (if decide (j ∈ i :: is_) then received (rd j) else [])) as Eg.
      { intros j. unfold got1. destruct (Nat.eq_dec j i) as [->|Hne].
        - rewrite decide_True, (decide_False (P := i ∈ is_)), app_nil_r, decide_True by (done || by left). done.
        - rewrite decide_False by done. destruct (decide (j ∈ is_)).
          + by rewrite decide_True by (by right).
          + by rewrite decide_False by set_solver. }
      destruct Hs2 as [Hin Hout]. split; intros j.
      * intros c' Hj. rewrite <- Eg. by apply Hin.
      * intros Hj. rewrite <- Eg. by apply Hout.
Qed.

(** ** Rounds *)

(** The clients after the [accept] of a round. *)
Definition next_count (n : nat) (a : round_answers) : nat :=
  match incoming a with Some (Accepted _) => if Z.of_nat n =? MAX_CLIENT_SOCKET then n else S n | _ => n end.

(** The bytes that reached client [i] over the rounds, from [n] clients on. *)
Fixpoint arrivals (n : nat) (xs : list round_answers) (i : nat) : list Z :=
  match xs with
  | [] => []
  | a :: xs => (if decide (i < next_count n a)%nat then received (ready a i) else []) ++ arrivals (next_count n a) xs i
  end.

(** [select] does not fail, a new [Serializer] has the array of its class, and
    [recv] respects the size it is given. *)
Definition round_ok (a : round_answers) : Prop :=
  select_fails a = false ∧ (∀ junk, incoming a = Some (Accepted junk) → length junk = Z.to_nat MESSAGE_MAX_DATA) ∧
  ∀ i, Z.of_nat (length (received (ready a i))) ≤ DEFAULT_RECV_SIZE.

Lemma accept_client_ok peer got s a :
  source_ok peer got s → (∀ junk, a = Some (Accepted junk) → length junk = Z.to_nat MESSAGE_MAX_DATA) →
  Z.of_nat (length (clients s)) ≤ MAX_CLIENT_SOCKET →
  ∃ s' cs, accept_client a s = (Ret tt, s') ∧ source_ok peer got s' ∧ clients s' = clients s ++ cs ∧
    Forall (λ c, tail (c_ser c) = 0) cs ∧ s_sent s' = s_sent s ∧
    (Z.of_nat (length (clients s')) ≤ MAX_CLIENT_SOCKET) ∧
    length (clients s') = match a with Some (Accepted _) =>
      if Z.of_nat (length (clients s)) =? MAX_CLIENT_SOCKET then length (clients s) else S (length (clients s))
      | _ => length (clients s) end.
Proof.
  intros Hs Hj Hn. destruct a as [[|junk]|].
  1,3: exists s, []; by rewrite app_nil_r.
  unfold accept_client. rewrite (bind_Ret (gets _) _ s (length (clients s)) s eq_refl).
  destruct (Z.eqb_spec (Z.of_nat (length (clients s))) MAX_CLIENT_SOCKET) as [Hm|Hm].
  { exists s, []. by rewrite app_nil_r. }
  specialize (Hj junk eq_refl).
  set (c := Client false (Buffer junk 0 0 0 MESSAGE_MAX_DATA)).
  exists (Source (clients s ++ [c]) (s_sent s)), [c]. cbn [clients s_sent].
  split; [done|]. split; [|split; [done|split; [by repeat constructor|split; [done|]]]].
  2:{ rewrite length_app. unfold MAX_CLIENT_SOCKET in *. cbn [length]. split; lia. }
  destruct Hs as [Hin Hout]. split; cbn [clients s_sent]; intros i.
  - intros c' [Hi|[Hge Hi]]%lookup_app_Some; [by apply Hin|].
    destruct (Hout i) as [Eo Eg]; [by apply lookup_ge_None|].
    destruct (i - length (clients s))%nat; [|done]. injection Hi as <-. exists [].
    rewrite Eo, Eg. split; [by apply (array_holds [] junk)|done|done|apply prefix_nil|apply prefix_nil].
  - rewrite lookup_ge_None, length_app. intros Hi. apply Hout, lookup_ge_None. lia.
Qed.

Lemma rest_short peer out got rest c :
  Forall record_ok peer → client_ok peer out got rest c → no_frame peer out rest → Z.of_nat (length rest) < 2 ^ 15.
Proof.
  intros Hok Hc Hno. destruct (rest_frames _ _ _ _ _ Hc) as ([|r todo] & -> & Hrest).
  - apply prefix_stream_nil in Hrest as ->. done.
  - apply Forall_app in Hok as [_ [Hr _]%Forall_cons]. pose proof (body_short r Hr).
    specialize (Hno r). rewrite lookup_app_r, Nat.sub_diag in Hno by lia. specialize (Hno eq_refl).
    rewrite length_frame in Hno. lia.
Qed.

Lemma drained_tails peer got s :
  (∀ i, Forall record_ok (peer i)) → drained peer got (seq 0 (length (clients s))) s →
  Forall (λ c, tail (c_ser c) < 2 ^ 15) (clients s).
Proof.
  intros Hpeer Hd. apply Forall_lookup. intros i c Hi. destruct (Hd i c) as (rest & Hc & Hno).
  - apply elem_of_seq. split; [lia|]. by apply lookup_lt_Some in Hi.
  - done.
  - rewrite (holds_tail _ _ (client_holds _ _ _ _ _ Hc)), (client_data _ _ _ _ _ Hc).
    pose proof (rest_short _ _ _ _ _ (Hpeer i) Hc Hno). lia.
Qed.

Lemma source_total peer got s :
  source_ok peer got s → Z.of_nat (length (clients s)) ≤ MAX_CLIENT_SOCKET →
  Z.of_nat (total s) ≤ MAX_CLIENT_SOCKET * MESSAGE_MAX_DATA.
Proof.
  intros [Hin _] Hn. unfold total.
  assert (Forall (λ c, Z.of_nat (pending c) ≤ MESSAGE_MAX_DATA) (clients s)) as Hp.
  { apply Forall_lookup. intros i c Hi. destruct (Hin i c Hi) as [rest Hc]. rewrite (client_pending _ _ _ _ _ Hc).
    pose proof (holds_room _ _ (client_holds _ _ _ _ _ Hc)). pose proof (holds_tail _ _ (client_holds _ _ _ _ _ Hc)).
    lia. }
  assert (Z.of_nat (sum_list_with pending (clients s)) ≤ Z.of_nat (length (clients s)) * MESSAGE_MAX_DATA)
    by (clear -Hp; induction Hp; cbn [sum_list_with length]; lia).
  unfold MAX_CLIENT_SOCKET, MESSAGE_MAX_DATA in *. lia.
Qed.

Lemma round_delivers peer got s fuel a :
  (∀ i, Forall record_ok (peer i)) → source_ok peer got s → Z.of_nat (length (clients s)) ≤ MAX_CLIENT_SOCKET →
  round_ok a → MAX_CLIENT_SOCKET * MESSAGE_MAX_DATA ≤ Z.of_nat fuel →
  (∀ i, got i ++ (if decide (i < next_count (length (clients s)) a)%nat then received (ready a i) else [])
    `prefix_of` stream (peer i)) →
  ∃ s', round fuel a s = (Ret tt, s') ∧ length (clients s') = next_count (length (clients s)) a ∧
    Z.of_nat (length (clients s')) ≤ MAX_CLIENT_SOCKET ∧
    source_ok peer (λ i, got i ++ if decide (i < next_count (length (clients s)) a)%nat then received (ready a i) else []) s'.
Proof.
  intros Hpeer Hs Hn (Hsel & Hacc & Hrecv) Hfuel Hgot.
  destruct (drain_ok peer got fuel s Hpeer Hs) as (s1 & E1 & Hs1 & El1 & Hd1 & _).
  { pose proof (source_total _ _ _ Hs Hn). lia. }
  destruct (accept_client_ok peer got s1 (incoming a) Hs1 Hacc) as (s2 & cs & E2 & Hs2 & Ec2 & Hcs & Es2 & Hn2 & El2);
    [by rewrite El1|].
  rewrite El1 in El2. change (length (clients s2) = next_count (length (clients s)) a) in El2.
  destruct (recv_clients_ok peer got (seq 0 (length (clients s2))) (ready a) s2 Hs2) as (s3 & E3 & Hs3 & El3 & _).
  - apply NoDup_seq.
  - apply Forall_forall. intros i [_ ?]%elem_of_seq. lia.
  - intros i c _ Hi. rewrite Ec2 in Hi.
    assert (Forall (λ c, tail (c_ser c) < 2 ^ 15) (clients s1 ++ cs)) as Ht.
    { apply Forall_app. split; [by apply (drained_tails peer got)|]. eapply Forall_impl; [exact Hcs|]. intros ? Hc0. cbn beta in *. lia. }
    by apply (Forall_lookup_1 _ _ _ _ Ht Hi).
  - intros i. specialize (Hrecv i). unfold DEFAULT_RECV_SIZE in Hrecv. lia.
  - intros i [_ Hi]%elem_of_seq. specialize (Hgot i). rewrite decide_True in Hgot by lia. done.
  - exists s3. split; [|split; [congruence|split; [congruence|]]].
    + unfold round. rewrite (bind_Ret _ _ _ _ _ E1), Hsel, (bind_Ret (mret tt) _ _ tt _ eq_refl), (bind_Ret _ _ _ _ _ E2).
      by rewrite (bind_Ret (gets _) _ s2 (length (clients s2)) s2 eq_refl).
    + assert (∀ i, (if decide (i ∈ seq 0 (length (clients s2))) then received (ready a i) else []) =
        if decide (i < next_count (length (clients s)) a)%nat then received (ready a i) else []) as Eg.
      { intros i. apply decide_ext. rewrite elem_of_seq, El2. lia. }
      destruct Hs3 as [Hin Hout]. split; intros i; rewrite <- Eg; auto.
Qed.

Lemma rounds_deliver peer fuel xs got s :
  (∀ i, Forall record_ok (peer i)) → source_ok peer got s → Z.of_nat (length (clients s)) ≤ MAX_CLIENT_SOCKET →
  Forall round_ok xs → MAX_CLIENT_SOCKET * MESSAGE_MAX_DATA ≤ Z.of_nat fuel →
  (∀ i, got i ++ arrivals (length (clients s)) xs i `prefix_of` stream (peer i)) →
  ∃ s', rounds fuel xs s = (Ret tt, s') ∧ Z.of_nat (length (clients s')) ≤ MAX_CLIENT_SOCKET ∧
    source_ok peer (λ i, got i ++ arrivals (length (clients s)) xs i) s'.
Proof.
  intros Hpeer Hs Hn Hxs Hfuel. revert got s Hs Hn. induction Hxs as [|a xs Ha _ IH]; intros got s Hs Hn Hgot; cbn [rounds].
  - exists s. split; [done|]. split; [done|]. cbn [arrivals]. destruct Hs as [Hin Hout].
    split; intros i; rewrite app_nil_r; auto.
  - cbn [arrivals] in Hgot.
    destruct (round_delivers peer got s fuel a Hpeer Hs Hn Ha Hfuel) as (s1 & E1 & El1 & Hn1 & Hs1).
    { intros i. specialize (Hgot i). rewrite app_assoc in Hgot. etrans; [|exact Hgot]. by eexists. }
    rewrite (bind_Ret _ _ _ _ _ E1).
    destruct (IH _ s1 Hs1 Hn1) as (s2 & E2 & Hn2 & Hs2).
    { intros i. rewrite El1, <- app_assoc. apply Hgot. }
    exists s2. split; [done|]. split; [done|]. cbn [arrivals].
    destruct Hs2 as [Hin Hout]. rewrite El1 in Hin, Hout. split; intros i.
    + intros c Hi. rewrite app_assoc. by apply Hin.
    + intros Hi. rewrite app_assoc. by apply Hout.
Qed.

(** What the source has passed on when nothing is left to consume. *)
Lemma drained_records peer got s i :
  drained peer got (seq 0 (length (clients s))) s → source_ok peer got s →
  ∃ rest, got i = stream (records_of i (s_sent s)) ++ rest ∧ records_of i (s_sent s) `prefix_of` peer i ∧
    (rest = [] ∨ no_frame (peer i) (records_of i (s_sent s)) rest).
Proof.
  intros Hd [_ Hout]. destruct (clients s !! i) as [c|] eqn:Hi.
  - destruct (Hd i c) as (rest & Hc & Hno); [|done|].
    { apply elem_of_seq. split; [lia|]. by apply lookup_lt_Some in Hi. }
    exists rest. split; [apply Hc|]. split; [apply Hc|by right].
  - destruct (Hout i Hi) as [-> ->]. exists []. split; [done|]. split; [apply prefix_nil|by left].
Qed.

Lemma stream_nonempty r rs : (0 < length (stream (r :: rs)))%nat.
Proof. unfold stream. cbn [fmap list_fmap concat]. rewrite length_app, length_frame. lia. Qed.

Lemma all_arrived peer out rest :
  out `prefix_of` peer → stream peer = stream out ++ rest →
  rest = [] ∨ no_frame peer out rest → out = peer.
Proof.
  intros [[|r todo] ->] E Hno; [by rewrite app_nil_r|]. exfalso. rewrite stream_app in E. apply app_inv_head in E as <-.
  unfold stream in Hno. cbn [fmap list_fmap concat] in Hno. destruct Hno as [Hno|Hno].
  - pose proof (stream_nonempty r todo) as Hp. unfold stream in Hp. cbn [fmap list_fmap concat] in Hp. rewrite Hno in Hp.
    cbn in Hp. lia.
  - specialize (Hno r). rewrite lookup_app_r, Nat.sub_diag in Hno by lia. specialize (Hno eq_refl).
    rewrite length_app in Hno. lia.
Qed.

(** C8: Records over TCP, from end to end.  Any number of exporters send records
    that fit a frame, each over its own connection, on which the system takes
    every message whole; the source accepts the connections in any order relative
    to the data and receives the bytes of each in pieces of any size, cut
    anywhere, interleaved in any way with those of the others.  The source does
    not run into undefined behaviour, its loop over the buffers ends, and it
    passes on, for every client, exactly the records whose frames have arrived
    whole, unchanged, once and in order; when all that was sent has arrived, all
    that was sent was passed on.  Any record type that satisfies the laws of the
    interface will do. *)
Theorem serstream_delivers (sent : nat → list (R * net_answers)) (exporters : nat → exporter) xs fuel :
  (∀ i, sending (exporters i) ∧ wire (exporters i) = []) →
  (∀ i, Forall (λ '(m, a), record_ok m ∧ answers_ok m a) (sent i)) →
  Forall round_ok xs → MAX_CLIENT_SOCKET * MESSAGE_MAX_DATA ≤ Z.of_nat fuel →
  (∀ i, arrivals 0 xs i `prefix_of` wire (receive_msgs (sent i) (exporters i)).2) →
  ∃ s, (rounds fuel xs;; drain fuel) source_new = (Ret tt, s) ∧
    ∀ i, ∃ later, (sent i).*1 = records_of i (s_sent s) ++ later ∧
      (∃ rest, arrivals 0 xs i = stream (records_of i (s_sent s)) ++ rest ∧
        ∀ r, later !! 0%nat = Some r → (length rest < length (frame r))%nat) ∧
      (arrivals 0 xs i = wire (receive_msgs (sent i) (exporters i)).2 → later = []).
Proof.
  intros He Hms Hxs Hfuel Harr.
  assert (∀ i, wire (receive_msgs (sent i) (exporters i)).2 = stream (sent i).*1) as Ew.
  { intros i. destruct (He i) as [Hei Hwi]. destruct (receive_msgs_stream (sent i) (exporters i) Hei (Hms i)) as (e' & E & _ & Ew).
    rewrite E. cbn [snd]. by rewrite Ew, Hwi. }
  set (peer := λ i, (sent i).*1).
  assert (∀ i, Forall record_ok (peer i)) as Hpeer.
  { intros i. unfold peer. apply Forall_fmap. eapply Forall_impl; [apply Hms|]. by intros [m a] [? _]. }
  assert (source_ok peer (λ _, []) source_new) as Hs0 by (split; [done|intros i _; done]).
  destruct (rounds_deliver peer fuel xs (λ _, []) source_new Hpeer Hs0) as (s1 & E1 & Hn1 & Hs1); [done|done|done| |].
  { intros i. cbn [clients source_new length app]. unfold peer. rewrite <- Ew. apply Harr. }
  cbn [clients source_new length app] in Hs1.
  destruct (drain_ok peer _ fuel s1 Hpeer Hs1) as (s2 & E2 & Hs2 & El2 & Hd2 & _).
  { pose proof (source_total _ _ _ Hs1 Hn1). lia. }
  exists s2. split; [by rewrite (bind_Ret _ _ _ _ _ E1)|]. intros i. rewrite Ew.
  destruct (drained_records peer _ s2 i Hd2 Hs2) as (rest & Eg & Hpre & Hno). cbn beta in Eg.
  destruct Hpre as [later El]. exists later. split; [exact El|]. split.
  - exists rest. split; [exact Eg|]. intros r Hr. destruct Hno as [->|Hno]; [rewrite length_frame; cbn; lia|].
    apply Hno. by rewrite El, lookup_app_r, Nat.sub_diag by lia.
  - intros Eall. cbn [app] in Eg. rewrite Eall in Eg.
    pose proof (all_arrived (peer i) _ rest ltac:(by exists later) Eg Hno) as Ep.
    rewrite El in Ep. apply (f_equal length) in Ep. rewrite length_app in Ep. by destruct later; [|cbn in Ep; lia].
Qed.
End streams.


(** ** A tweet in two pieces *)

Notation hi := (Tweet [104; 105]).
Notation all_well := (NetAnswers true true true 100).
Notation fresh_exporter := (Exporter (zeros_buffer 0) NoSocket []).
Definition hi_rounds (junk : list Z) : list round_answers :=
  [RoundAnswers false (Some (Accepted junk)) (λ _, None);
   RoundAnswers false None (λ i, if decide (i = 0%nat) then Some (Received (take 3 (frame hi))) else None);
   RoundAnswers false None (λ i, if decide (i = 0%nat) then Some (Received (drop 3 (frame hi))) else None)].

Lemma fresh_sending : sending fresh_exporter ∧ wire fresh_exporter = [].
Proof. split; [|done]. split; [apply (holds_size _ []), (zeros_buffer_holds 0), Nat.le_0_l|done]. Qed.

Lemma hi_sendable : Forall (λ '(m, a), record_ok m ∧ answers_ok m a) [(hi, all_well)].
Proof. constructor; [|constructor]. split; [reflexivity|]. split; [done|]. rewrite length_frame. cbn. lia. Qed.

Lemma hi_rounds_ok junk : length junk = Z.to_nat MESSAGE_MAX_DATA → Forall round_ok (hi_rounds junk).
Proof.
  intros Hjunk.
  constructor; [|constructor; [|constructor; [|constructor]]]; (split; [done|split; [cbn [incoming]|cbn [ready]]]).
  - by intros junk' [= <-].
  - intros i. unfold DEFAULT_RECV_SIZE. cbn. lia.
  - done.
  - intros i. unfold DEFAULT_RECV_SIZE. case_decide; cbn [received length]; [rewrite length_take, length_frame; cbn|]; lia.
  - done.
  - intros i. unfold DEFAULT_RECV_SIZE. case_decide; cbn [received length]; [rewrite length_drop, length_frame; cbn|]; lia.
Qed.

Lemma hi_arrivals junk i : arrivals 0 (hi_rounds junk) i = if decide (i = 0%nat) then frame hi else [].
Proof.
  assert (arrivals 0 (hi_rounds junk) i =
    if decide (i < 1)%nat then received (if decide (i = 0%nat) then Some (Received (take 3 (frame hi))) else None) ++
      received (if decide (i = 0%nat) then Some (Received (drop 3 (frame hi))) else None) else []) as ->.
  { unfold hi_rounds. cbn [arrivals next_count incoming ready].
    replace (Z.of_nat 0 =? MAX_CLIENT_SOCKET) with false by done. cbn [received].
    case_decide; [by rewrite app_nil_r|done]. }
  destruct (decide (i = 0%nat)) as [->|Hi].
  - rewrite decide_True by lia. apply take_drop.
  - by rewrite decide_False by lia.
Qed.

Lemma hi_wire : wire (receive_msgs [(hi, all_well)] fresh_exporter).2 = frame hi.
Proof.
  destruct (receive_msgs_stream _ _ (proj1 fresh_sending) hi_sendable) as (e & E & _ & Ew). rewrite E. cbn [snd].
  rewrite Ew. unfold stream. cbn [fmap list_fmap fst concat wire app]. apply app_nil_r.
Qed.

Notation zeros := (replicate (Z.to_nat MESSAGE_MAX_DATA) 0).

Lemma serstream_delivers_witness :
  ∃ s, (rounds (Z.to_nat (MAX_CLIENT_SOCKET * MESSAGE_MAX_DATA)) (hi_rounds zeros);;
        drain (Z.to_nat (MAX_CLIENT_SOCKET * MESSAGE_MAX_DATA))) source_new = (Ret tt, s) ∧
    records_of 0 (s_sent s) = [hi].
Proof.
  destruct (serstream_delivers (λ i, if decide (i = 0%nat) then [(hi, all_well)] else []) (λ _, fresh_exporter) (hi_rounds zeros)
    (Z.to_nat (MAX_CLIENT_SOCKET * MESSAGE_MAX_DATA))) as (s & E & H).
  - intros _. apply fresh_sending.
  - intros i. case_decide; [apply hi_sendable|constructor].
  - apply hi_rounds_ok, length_replicate.
  - by rewrite Z2Nat.id.
  - intros i. rewrite hi_arrivals. case_decide; [by rewrite hi_wire|apply prefix_nil].
  - exists s. split; [exact E|]. destruct (H 0%nat) as (later & Hl & _ & Hall).
    rewrite (Hall (eq_trans (hi_arrivals zeros 0) (eq_sym hi_wire))), app_nil_r in Hl. by rewrite <- Hl.
Defined.

Lemma failed_connect_silences_witness :
  let a := NetAnswers true true false 0 in
  ∃ e1, receive_msg hi a fresh_exporter = (Throw (runtime_error "Error connecting to remote site"), e1) ∧
    ∃ e2, receive_msgs [(hi, all_well)] e1 = (Ret tt, e2) ∧ wire e2 = [].
Proof.
  apply (failed_connect_silences hi (NetAnswers true true false 0) [(hi, all_well)] fresh_exporter).
  - apply (holds_size _ []), (zeros_buffer_holds 0), Nat.le_0_l.
  - reflexivity.
  - reflexivity.
  - reflexivity.
  - reflexivity.
  - by constructor.
Defined.
