(* ===== verification/Msg.v ===== *)
(** * Messages and their tag buffers

    Models the class [Msg] of [core/message/Msg.hpp] and two blocks that work on
    the tags of a message, [blocks/AppendTag.cpp] and [blocks/SyncTag.cpp].

    A message refers to its tag buffer, which it may own.  The store holds the
    buffers by address (never used twice, so that a dangling pointer is seen) and
    the messages by a number.  The length a [mutable_buffer] carries is that of
    the allocation it points to; a null buffer has length 0. *)

From S2P Require Export TagRegistry Xml.

Record msg := MkMsg { m_type : Z; m_tagbuf : option nat; m_tagowner : bool }.

Record store := Store { heap : gmap nat (list Z); next_addr : nat; msgs : gmap nat msg }.

Definition with_heap (f : gmap nat (list Z) → gmap nat (list Z)) s := Store (f (heap s)) (next_addr s) (msgs s).
Definition with_msgs (f : gmap nat msg → gmap nat msg) s := Store (heap s) (next_addr s) (f (msgs s)).

Definition no_message : exn := undefined_behaviour "message destroyed".
Definition double_free : exn := undefined_behaviour "buffer deleted twice".
Definition dangling : exn := undefined_behaviour "buffer used after delete".

Definition get_msg (i : nat) : M store msg := λ s,
  match msgs s !! i with Some m => (Ret m, s) | None => (Throw no_message, s) end.

(** [new char\[n\]], filled with [bytes]. *)
Definition new_buffer (bytes : list Z) : M store nat := λ s,
  (Ret (next_addr s), Store (<[next_addr s := bytes]> (heap s)) (S (next_addr s)) (msgs s)).

(** [delete \[\] addr]; a null pointer is accepted. *)
Definition delete_buffer (a : option nat) : M store unit := λ s,
  match a with
  | None => (Ret tt, s)
  | Some a => match heap s !! a with
      | Some _ => (Ret tt, with_heap (delete a) s)
      | None => (Throw double_free, s)
      end
  end.

Definition read_buffer (a : option nat) : M store (list Z) := λ s,
  match a with
  | None => (Ret [], s)
  | Some a => match heap s !! a with Some bs => (Ret bs, s) | None => (Throw dangling, s) end
  end.

(** The constructor, the destructor, [set_tagbuf], the copy constructor and
    [swap]. *)
Definition new_msg (i : nat) (type : Z) (buf : option nat) (ownership : bool) : M store unit :=
  modify (with_msgs (<[i := MkMsg type buf ownership]>)).

Definition free_tagbuf (m : msg) : M store unit :=
  if m_tagowner m then delete_buffer (m_tagbuf m) else mret tt.

Definition destroy_msg (i : nat) : M store unit :=
  m ← get_msg i;
  free_tagbuf m;;
  modify (with_msgs (delete i)).

Definition set_tagbuf (i : nat) (buf : option nat) (ownership : bool) : M store unit :=
  m ← get_msg i;
  free_tagbuf m;;
  modify (with_msgs (<[i := MkMsg (m_type m) buf ownership]>)).

Definition copy_msg (i j : nat) : M store unit :=
  other ← get_msg i;
  bytes ← read_buffer (m_tagbuf other);
  a ← new_buffer bytes;
  new_msg j (m_type other) (Some a) true.

Definition swap_msgs (i j : nat) : M store unit :=
  m ← get_msg i;
  m' ← get_msg j;
  modify (with_msgs (λ ms, <[j := m]> (<[i := m']> ms))).

(** The tag functions: a null buffer is refused, otherwise the registry's
    function works on the bytes. *)
Definition no_tagbuf : exn := runtime_error "tag buffer not available".

Definition on_registry {A} (r : registry) (f : M registry A) : M store A := λ s, ((f r).1, s).

Definition tag_bytes (i : nat) : M store (nat * list Z) :=
  m ← get_msg i;
  match m_tagbuf m with
  | None => throw no_tagbuf
  | Some a => bs ← read_buffer (Some a); mret (a, bs)
  end.

Definition msg_emplace_tag am r (i : nat) (t : tag_type) (h : Z) (v : list Z) : M store unit :=
  '(a, bs) ← tag_bytes i;
  bs ← on_registry r (emplace_tag am t bs h v);
  modify (with_heap (<[a := bs]>)).

Definition msg_get_tag am r (i : nat) (t : tag_type) (h : Z) : M store (option (list Z)) :=
  '(_, bs) ← tag_bytes i;
  on_registry r (get_tag am t bs h).

Definition msg_is_available_tag am r (i : nat) (h : Z) : M store bool :=
  '(_, bs) ← tag_bytes i;
  on_registry r (is_available_tag am bs h).

(** ** Ownership of the buffers *)

(** A buffer that is handed to a message: none, one made for the message, which is to
    own it, or one that stays its lender's and has this address
    ([NewPacket] takes its buffer without ownership). *)
Inductive buffer_source := NoBuffer | Made (bytes : list Z) | Lent (a : nat).

Inductive msg_op :=
| OpNew (i : nat) (type : Z) (from : buffer_source)
| OpSetTagbuf (i : nat) (from : buffer_source)
| OpCopy (i j : nat)
| OpSwap (i j : nat)
| OpDestroy (i : nat).

(** The buffer and the flag that goes with it. *)
Definition buffer_from (from : buffer_source) : M store (option nat * bool) :=
  match from with
  | NoBuffer => mret (None, false)
  | Made bs => a ← new_buffer bs; mret (Some a, true)
  | Lent a => mret (Some a, false)
  end.

(** A new object takes the place of none. *)
Definition unused (i : nat) : M store unit := λ s,
  match msgs s !! i with None => (Ret tt, s) | Some _ => (Throw no_message, s) end.

Definition run_msg_op (op : msg_op) : M store unit :=
  match op with
  | OpNew i type from => unused i;; '(a, own) ← buffer_from from; new_msg i type a own
  | OpSetTagbuf i from => '(a, own) ← buffer_from from; set_tagbuf i a own
  | OpCopy i j => unused j;; copy_msg i j
  | OpSwap i j => swap_msgs i j
  | OpDestroy i => destroy_msg i
  end.

Fixpoint run_msg_ops (ops : list msg_op) : M store unit :=
  match ops with
  | [] => mret tt
  | op :: ops => run_msg_op op;; run_msg_ops ops
  end.

(** The heap before any message: the lenders' buffers, at the first addresses. *)
Definition lent_heap (buffers : list (list Z)) : gmap nat (list Z) := map_seq 0 buffers.
Definition store_new (buffers : list (list Z)) : store := Store (lent_heap buffers) (length buffers) ∅.

Definition lent_by (op : msg_op) : option nat :=
  match op with OpNew _ _ (Lent a) | OpSetTagbuf _ (Lent a) => Some a | _ => None end.
Definition lends (ext : gmap nat (list Z)) (op : msg_op) : Prop := ∀ a, lent_by op = Some a → is_Some (ext !! a).

Definition owned_by (m : msg) : option nat := if m_tagowner m then m_tagbuf m else None.

Section ownership.
Context (ext : gmap nat (list Z)).

(** No two messages own the same buffer, and allocated are these buffers, those of
    [ext], which no message owns and which are as they were, and [held], that the
    caller is about to hand over. *)
Record owned (held : option nat) (s : store) : Prop := Owned {
  own_heap : ∀ a, is_Some (heap s !! a) ↔
    held = Some a ∨ is_Some (ext !! a) ∨ ∃ i m, msgs s !! i = Some m ∧ owned_by m = Some a;
  own_lent : ∀ a bs, ext !! a = Some bs → heap s !! a = Some bs;
  own_others : ∀ i m a, msgs s !! i = Some m → m_tagbuf m = Some a → m_tagowner m = false → is_Some (ext !! a);
  own_inj : ∀ i j m m' a, msgs s !! i = Some m → msgs s !! j = Some m' →
    owned_by m = Some a → owned_by m' = Some a → i = j;
  own_apart : ∀ i m a, msgs s !! i = Some m → owned_by m = Some a → held ≠ Some a ∧ ext !! a = None;
  own_held : ∀ a, held = Some a → ext !! a = None;
  own_next : ∀ a, is_Some (heap s !! a) → (a < next_addr s)%nat
}.

Lemma owned_by_tagbuf m a : owned_by m = Some a ↔ m_tagowner m = true ∧ m_tagbuf m = Some a.
Proof. unfold owned_by. destruct (m_tagowner m); naive_solver. Qed.

Lemma owned_buffer held s i m a : owned held s → msgs s !! i = Some m → m_tagbuf m = Some a → is_Some (heap s !! a).
Proof.
  intros HO Hi Ha. apply (own_heap _ _ HO). right. destruct (m_tagowner m) eqn:Eo.
  - right. exists i, m. split; [done|]. by apply owned_by_tagbuf.
  - left. by eapply own_others.
Qed.

Lemma new_buffer_owned bs s :
  owned None s → let '(r, s') := new_buffer bs s in r = Ret (next_addr s) ∧ owned (Some (next_addr s)) s' ∧ msgs s' = msgs s.
Proof.
  intros HO. assert (heap s !! next_addr s = None) as Hfresh.
  { apply eq_None_not_Some. intros H. pose proof (own_next _ _ HO _ H). lia. }
  assert (ext !! next_addr s = None) as Hext.
  { destruct (ext !! next_addr s) as [b|] eqn:E; [|done]. by rewrite (own_lent _ _ HO _ _ E) in Hfresh. }
  cbn. split_and!; [done| |done]. split; cbn.
  - intros a. rewrite lookup_insert_is_Some'. rewrite (own_heap _ _ HO). naive_solver.
  - intros a b Hb. rewrite lookup_insert_ne by congruence. by apply HO.
  - apply HO.
  - apply HO.
  - intros i m a Hi Ha. split; [|by eapply own_apart]. intros [= <-].
    apply owned_by_tagbuf in Ha as [_ Ha]. destruct (owned_buffer _ _ _ _ _ HO Hi Ha) as [? ?]. congruence.
  - by intros a [= <-].
  - intros a. rewrite lookup_insert_is_Some'. intros [<-|Hs]; [lia|]. pose proof (own_next _ _ HO a Hs). lia.
Qed.

(** What a source gives: a buffer that is held, or the lender's. *)
Definition given (a : option nat) (own : bool) : option nat := if own then a else None.

Lemma buffer_from_owned from s :
  owned None s → (∀ a, from = Lent a → is_Some (ext !! a)) →
  ∃ a own s', buffer_from from s = (Ret (a, own), s') ∧ owned (given a own) s' ∧ msgs s' = msgs s ∧
    (own = false → ∀ b, a = Some b → is_Some (ext !! b)).
Proof.
  intros HO Hfrom. destruct from as [|bs|b]; cbn [buffer_from].
  - exists None, false, s. done.
  - pose proof (new_buffer_owned bs s HO) as Hn. destruct (new_buffer bs s) as [r s'] eqn:E.
    destruct Hn as (-> & HO' & Em). exists (Some (next_addr s)), true, s'. rewrite (bind_Ret _ _ _ _ _ E). done.
  - exists (Some b), false, s. split_and!; [done..|]. intros _ c [= <-]. by apply Hfrom.
Qed.

(** The buffer is handed to a new message. *)
Lemma new_msg_owned i type a own s :
  owned (given a own) s → msgs s !! i = None → (own = false → ∀ b, a = Some b → is_Some (ext !! b)) →
  ∃ s', new_msg i type a own s = (Ret tt, s') ∧ owned None s'.
Proof.
  intros HO Hi Hlent. eexists. split; [done|].
  assert (owned_by (MkMsg type a own) = given a own) as Eby by done. split; cbn.
  - intros b. rewrite (own_heap _ _ HO). split.
    + intros [E|[?|(j & m & Hj & Hb)]]; right; [right|by left|right].
      * exists i. eexists. by rewrite lookup_insert_eq, Eby.
      * exists j, m. split; [|done]. rewrite lookup_insert_ne; [done|]. by intros ->; rewrite Hi in Hj.
    + intros [[=]|[?|(j & m & [[<- <-]|[_ Hj]]%lookup_insert_Some & Hb)]]; [auto|by left|right; right; eauto].
  - apply HO.
  - intros j m b [[<- <-]|[_ Hj]]%lookup_insert_Some Hb Ho; [by apply Hlent|by eapply own_others].
  - intros j k m m' b [[<- <-]|[? Hj]]%lookup_insert_Some [[<- <-]|[? Hk]]%lookup_insert_Some Hb Hb';
      rewrite ?Eby in *; try done.
    + by destruct (own_apart _ _ HO k m' b).
    + by destruct (own_apart _ _ HO j m b).
    + by eapply (own_inj _ _ HO).
  - intros j m b [[<- <-]|[_ Hj]]%lookup_insert_Some Hb; (split; [done|]);
      [rewrite Eby in Hb; by eapply own_held|by eapply own_apart].
  - done.
  - apply HO.
Qed.

(** Deleting the buffer of message [i], if it is its own, leaves the store of the
    others. *)
Lemma free_tagbuf_owned held i m s :
  owned held s → msgs s !! i = Some m →
  ∃ s', free_tagbuf m s = (Ret tt, s') ∧ msgs s' = msgs s ∧ owned held (with_msgs (delete i) s').
Proof.
  intros HO Hi.
  assert (∀ b, is_Some (heap s !! b) ∧ owned_by m ≠ Some b ↔
    held = Some b ∨ is_Some (ext !! b) ∨ ∃ j m', delete i (msgs s) !! j = Some m' ∧ owned_by m' = Some b) as Hheap.
  { intros b. rewrite (own_heap _ _ HO). split.
    - intros [[?|[?|(j & m' & Hj & Hb)]] Hne]; [by left|by right; left|]. right. right. exists j, m'. split; [|done].
      rewrite lookup_delete_Some. split; [|done]. intros <-. rewrite Hi in Hj. by injection Hj as <-.
    - intros [E|[[x E]|(j & m' & [Hne Hj]%lookup_delete_Some & Hb)]].
      + split; [by left|]. intros Hb. by destruct (own_apart _ _ HO i m b Hi Hb).
      + split; [right; left; by eexists|]. intros Hb. destruct (own_apart _ _ HO i m b Hi Hb). congruence.
      + split; [right; right; eauto|]. intros Hb'. by apply Hne, (own_inj _ _ HO i j m m' b). }
  assert (∀ h, (∀ b, owned_by m ≠ Some b → h !! b = heap s !! b) → (∀ b, is_Some (h !! b) → is_Some (heap s !! b) ∧ owned_by m ≠ Some b) →
    owned held (with_msgs (delete i) (Store h (next_addr s) (msgs s)))) as Hgoal.
  { intros h Hsame Hh. split; cbn.
    - intros b. rewrite <- Hheap. split; [apply Hh|]. intros [Hb Hne]. by rewrite Hsame.
    - intros b bs Hb. rewrite Hsame; [by apply HO|]. intros Hb'. destruct (own_apart _ _ HO i m b Hi Hb'). congruence.
    - intros j m' b [_ Hj]%lookup_delete_Some. by apply (own_others _ _ HO j).
    - intros j k m1 m2 b [_ Hj]%lookup_delete_Some [_ Hk]%lookup_delete_Some. by apply (own_inj _ _ HO).
    - intros j m' b [_ Hj]%lookup_delete_Some. by apply (own_apart _ _ HO j).
    - apply HO.
    - intros b [Hb _]%Hh. by apply (own_next _ _ HO). }
  unfold free_tagbuf. destruct (m_tagowner m) eqn:Eo.
  2: { exists s. split; [done|]. split; [done|]. destruct s. apply Hgoal; [done|]. intros b Hb. split; [done|]. by rewrite owned_by_tagbuf, Eo; intros [? _]. }
  unfold delete_buffer. assert (owned_by m = m_tagbuf m) as Eby by (unfold owned_by; by rewrite Eo). rewrite Eby in Hgoal.
  destruct (m_tagbuf m) as [a|] eqn:Ea.
  - destruct (owned_buffer _ _ _ _ _ HO Hi Ea) as [bs ->]. eexists. split; [done|]. split; [done|].
    apply Hgoal; intros b; cbn; [intros; rewrite lookup_delete_ne by congruence; done|].
    rewrite lookup_delete_is_Some. naive_solver.
  - exists s. split; [done|]. split; [done|]. destruct s. by apply Hgoal.
Qed.

Lemma swap_owned i j m m' s :
  owned None s → msgs s !! i = Some m → msgs s !! j = Some m' →
  owned None (with_msgs (λ ms, <[j := m]> (<[i := m']> ms)) s).
Proof.
  intros HO Hi Hj.
  (* the message found at [k] afterwards was at [swap k] before *)
  assert (∀ k x, <[j := m]> (<[i := m']> (msgs s)) !! k = Some x ↔
    msgs s !! (if decide (k = j) then i else if decide (k = i) then j else k) = Some x) as Hk.
  { intros k x. destruct (decide (k = j)) as [->|]; [rewrite lookup_insert_eq; naive_solver|].
    rewrite lookup_insert_ne by done. destruct (decide (k = i)) as [->|]; [rewrite lookup_insert_eq; naive_solver|].
    by rewrite lookup_insert_ne by done. }
  split; cbn.
  - intros a. rewrite (own_heap _ _ HO). split; intros [?|[?|(k & x & Hx & Ha)]]; [by left|by right; left| |by left|by right; left|].
    + right. right. exists (if decide (k = j) then i else if decide (k = i) then j else k), x. split; [|done].
      apply Hk. repeat case_decide; congruence.
    + right. right. apply Hk in Hx. eauto.
  - apply HO.
  - intros k x a Hx%Hk. by eapply own_others.
  - intros k l x y a Hx%Hk Hy%Hk Ha Hb. pose proof (own_inj _ _ HO _ _ _ _ _ Hx Hy Ha Hb).
    repeat case_decide; congruence.
  - intros k x a Hx%Hk. by eapply own_apart.
  - done.
  - apply HO.
Qed.

Lemma run_msg_op_owned op s :
  owned None s → lends ext op →
  let '(r, s') := run_msg_op op s in match r with Ret _ => owned None s' | Throw e => e = no_message end.
Proof.
  intros HO Hop. destruct op as [i type from|i from|i j|i j|i]; cbn [run_msg_op].
  - unfold unused. run_m. destruct (msgs s !! i) eqn:Ei; [done|].
    destruct (buffer_from_owned from s HO) as (a & own & s1 & -> & HO1 & Em & Hlent); [intros b ->; by apply Hop|].
    rewrite <- Em in Ei. by destruct (new_msg_owned i type a own s1 HO1 Ei Hlent) as (s2 & -> & HO2).
  - destruct (buffer_from_owned from s HO) as (a & own & s1 & E & HO1 & Em & Hlent); [intros b ->; by apply Hop|].
    rewrite (bind_Ret _ _ _ _ _ E).
    unfold set_tagbuf, get_msg. run_m. destruct (msgs s1 !! i) as [m|] eqn:Ei; [|done].
    destruct (free_tagbuf_owned _ i m s1 HO1 Ei) as (s2 & -> & Em2 & HO2).
    destruct (new_msg_owned i (m_type m) a own _ HO2) as (s3 & E3 & HO3); [apply lookup_delete_eq|done|].
    injection E3 as <-. revert HO3. unfold with_msgs. cbn. by rewrite insert_delete_eq.
  - unfold unused. run_m. destruct (msgs s !! j) eqn:Ej; [done|].
    unfold copy_msg, get_msg. run_m. destruct (msgs s !! i) as [m|] eqn:Ei; [|done].
    assert (∃ bs, read_buffer (m_tagbuf m) s = (Ret bs, s)) as [bs ->].
    { unfold read_buffer. destruct (m_tagbuf m) as [a|] eqn:Ea; [|eauto].
      destruct (owned_buffer _ _ _ _ _ HO Ei Ea) as [bs ->]. eauto. }
    pose proof (new_buffer_owned bs s HO) as Hn. destruct (new_buffer bs s) as [r s1].
    destruct Hn as (-> & HO1 & Em). rewrite <- Em in Ej.
    by destruct (new_msg_owned j (m_type m) (Some (next_addr s)) true s1 HO1 Ej) as (s2 & -> & HO2).
  - unfold swap_msgs, get_msg. run_m. destruct (msgs s !! i) eqn:Ei; [|done].
    destruct (msgs s !! j) eqn:Ej; [|done]. by apply swap_owned.
  - unfold destroy_msg, get_msg. run_m. destruct (msgs s !! i) as [m|] eqn:Ei; [|done].
    by destruct (free_tagbuf_owned None i m s HO Ei) as (s2 & -> & _ & HO2).
Qed.

Lemma run_msg_ops_owned ops s : owned None s → Forall (lends ext) ops →
  let '(r, s') := run_msg_ops ops s in match r with Ret _ => owned None s' | Throw e => e = no_message end.
Proof.
  intros HO Hops. revert s HO. induction Hops as [|op ops Hop _ IH]; intros s HO; cbn [run_msg_ops]; [done|]. run_m.
  pose proof (run_msg_op_owned op s HO Hop) as H. destruct (run_msg_op op s) as [[[]|e] s1]; [by apply IH|done].
Qed.
End ownership.

Lemma owned_new buffers : owned (lent_heap buffers) None (store_new buffers).
Proof.
  split; cbn; [ |done|by intros i m ..| |].
  - intros a. split; [by right; left|]. by intros [|[?|(i & m & E & _)]].
  - done.
  - intros a [b Hb]. apply lookup_map_seq_Some in Hb as [_ Hb]. apply lookup_lt_Some in Hb. lia.
Qed.

(** ** The AppendTag block

    The type codes of [typeid] are arguments; [to_double] gives the bytes of the
    conversion of an unsigned integer to [double]. *)

Inductive append_type := TagFl | TagIn | TagLl | TagUndef.

#[export] Instance append_type_eq_dec : EqDecision append_type.
Proof. solve_decision. Defined.

Record append_tag := AppendTag { m_tag_type : append_type; m_tag_name : string; m_handle : Z }.

Definition append_tag_new : append_tag := AppendTag TagUndef "" TAG_INVALID.

Section append_tag.
Context (h_int h_double h_ulong : Z) (to_double : Z → list Z).

Definition t_int : tag_type := TagType 4 4 h_int.
Definition t_double : tag_type := TagType 8 8 h_double.
Definition t_ulong : tag_type := TagType 8 8 h_ulong.

(** [_configure]; the members set before an exception stay set. *)
Definition append_register (b : append_tag) (type : string) : M (append_tag * registry) unit :=
  let register ty t :=
    modify (λ s, (AppendTag ty (m_tag_name s.1) (m_handle s.1), s.2));;
    h ← zoom snd (λ r s, (s.1, r)) (register_tag t (m_tag_name b));
    modify (λ s, (AppendTag (m_tag_type s.1) (m_tag_name s.1) h, s.2)) in
  if bool_decide (type = "double"%string) then register TagFl t_double
  else if bool_decide (type = "int"%string) then register TagIn t_int
  else if bool_decide (type = "long"%string) then register TagLl t_ulong
  else throw (runtime_error "unrecognized tag type").

Definition append_configure {N} `{XmlNode N} (n : N) : M (append_tag * registry) unit :=
  match child n "tag" with
  | None => throw (runtime_error "no tag node")
  | Some tag =>
      match attribute tag "name" with
      | None => throw (runtime_error "no name attribute")
      | Some name =>
          modify (λ s, (AppendTag (m_tag_type s.1) name (m_handle s.1), s.2));;
          match attribute tag "type" with
          | None => throw (runtime_error "no type attribute")
          | Some type =>
              b ← gets fst;
              append_register b type;;
              b ← gets fst;
              ensure (negb (m_handle b =? TAG_INVALID)) (runtime_error "invalid tag handler")
          end
      end
  end.

(** [_receive_msg] on message [i]: [packet] says that it is a packet, and
    [random_garbage] is the generator's next number.  The result is the message
    sent on. *)
Definition append_receive am r (b : append_tag) (packet : bool) (random_garbage : Z) (i : nat) : M store nat :=
  ensure packet (runtime_error "AppendTag: wrong message type");;
  match m_tag_type b with
  | TagIn => msg_emplace_tag am r i t_int (m_handle b) (le_bytes 4 random_garbage)
  | TagLl => msg_emplace_tag am r i t_double (m_handle b) (to_double random_garbage)
  | TagFl => msg_emplace_tag am r i t_ulong (m_handle b) (le_bytes 8 random_garbage)
  | TagUndef => throw (runtime_error "wrong tag type")
  end;;
  mret i.
End append_tag.

(** ** The SyncTag block

    [available w i] is the answer of [is_available_tag] for the [i]-th tag in the
    [w]-th round: other threads may write tags meanwhile. *)

(** [1<<n] on [int], as it is converted to [uint64_t]; undefined from 31 on. *)
Definition shl_int (n : nat) : outcome Z :=
  if (Z.of_nat n <? 31) then Ret (Z.shiftl 1 (Z.of_nat n)) else Throw (undefined_behaviour "1<<n past int").

Section sync_tag.
Context (available : nat → nat → outcome bool).

(** The inner loop: from tag [i] on, [n] tags left. *)
Fixpoint sync_round (w i n : nat) (ready_bitmap : Z) : outcome Z :=
  match n with
  | O => Ret ready_bitmap
  | S n =>
      match shl_int i with
      | Throw e => Throw e
      | Ret bit =>
          if negb (Z.land ready_bitmap bit =? 0) then sync_round w (S i) n ready_bitmap
          else match available w i with
            | Throw e => Throw e
            | Ret true => sync_round w (S i) n (Z.lor ready_bitmap bit)
            | Ret false => sync_round w (S i) n ready_bitmap
            end
      end
  end.

(** The outer loop, from round [w] on. *)
Fixpoint sync_wait (rounds w n : nat) (mask ready_bitmap : Z) : outcome Z :=
  match rounds with
  | O => Ret ready_bitmap
  | S rounds =>
      match sync_round w 0 n ready_bitmap with
      | Throw e => Throw e
      | Ret ready_bitmap =>
          if ready_bitmap =? mask then Ret ready_bitmap
          else sync_wait rounds (S w) n mask ready_bitmap
      end
  end.

(** [_receive_msg] for [n] tags: whether the message is sent on. *)
Definition sync_receive (type_ok : bool) (n : nat) : outcome bool :=
  if type_ok then
    match shl_int n with
    | Throw e => Throw e
    | Ret m =>
        let completion_mask := u64 (m - 1) in
        match sync_wait 100 0 n completion_mask 0 with
        | Throw e => Throw e
        | Ret ready_bitmap => Ret (ready_bitmap =? completion_mask)
        end
    end
  else Throw (runtime_error "SyncTag:: wrong message type").
End sync_tag.

(** [_configure]: the message type and the handles of the tags named. *)
Fixpoint sync_tags {N} `{XmlNode N} (tags : list N) : M registry (list Z) :=
  match tags with
  | [] => mret []
  | tag :: tags =>
      match attribute tag "name" with
      | None => throw (runtime_error "TagSync: tag with no name")
      | Some name =>
          h ← get_handle_by_name name;
          hs ← sync_tags tags;
          mret (h :: hs)
      end
  end.

Definition sync_configure {N} `{XmlNode N} (as_int : string → Z) (n : N) (m_msg_type : Z) : M registry (Z * list Z) :=
  let m_msg_type :=
    match child n "message" with
    | Some message => match attribute message "id" with Some id => u32 (as_int id) | None => m_msg_type end
    | None => m_msg_type
    end in
  match child n "tags" with
  | None => throw (runtime_error "SyncTag: no tags node")
  | Some tags =>
      hs ← sync_tags (children tags "tag");
      ensure (Z.of_nat (length hs) <=? 64) (runtime_error "SyncTag : bitmap is too small for the tags");;
      mret (m_msg_type, hs)
  end.

(** ** What the blocks do *)

(** The bitmap [b] has exactly the bits below [n] whose tag [P] accepts. *)
Definition bitmap (n : nat) (P : nat → Prop) (b : Z) : Prop :=
  0 ≤ b < 2 ^ Z.of_nat n ∧ ∀ i, (i < n)%nat → Z.testbit b (Z.of_nat i) = true ↔ P i.

Lemma bitmap_full n P b : bitmap n P b → b = 2 ^ Z.of_nat n - 1 ↔ ∀ i, (i < n)%nat → P i.
Proof.
  intros [Hb Hbits]. split.
  - intros -> i Hi. apply Hbits; [done|].
    replace (2 ^ Z.of_nat n - 1) with (Z.ones (Z.of_nat n)) by (rewrite Z.ones_equiv; lia).
    apply Z.ones_spec_low. lia.
  - intros Hall. replace (2 ^ Z.of_nat n - 1) with (Z.ones (Z.of_nat n)) by (rewrite Z.ones_equiv; lia).
    apply Z.bits_inj'. intros k Hk. destruct (decide (k < Z.of_nat n)).
    + rewrite Z.ones_spec_low by lia. rewrite <- (Z2Nat.id k) by done. apply Hbits; [lia|]. apply Hall. lia.
    + rewrite Z.ones_spec_high by lia. destruct (decide (b = 0)) as [->|]; [apply Z.bits_0|].
      apply Z.bits_above_log2; [lia|]. apply Z.log2_lt_pow2; [lia|].
      apply Z.lt_le_trans with (2 ^ Z.of_nat n); [lia|]. apply Z.pow_le_mono_r; lia.
Qed.

Lemma shl_int_small n : (n < 31)%nat → shl_int n = Ret (2 ^ Z.of_nat n).
Proof.
  intros Hn. unfold shl_int. rewrite (proj2 (Z.ltb_lt _ _)) by lia. by rewrite Z.shiftl_1_l.
Qed.

Lemma land_bit b i : Z.land b (2 ^ Z.of_nat i) =? 0 = negb (Z.testbit b (Z.of_nat i)).
Proof.
  assert (∀ k, 0 ≤ k → Z.testbit (2 ^ Z.of_nat i) k = bool_decide (k = Z.of_nat i)) as Hp.
  { intros k Hk. rewrite Z.pow2_bits_eqb by lia. destruct (Z.eqb_spec (Z.of_nat i) k);
    [rewrite bool_decide_eq_true_2 by lia|rewrite bool_decide_eq_false_2 by lia]; done. }
  destruct (Z.eqb_spec (Z.land b (2 ^ Z.of_nat i)) 0) as [E|E].
  - symmetry. apply negb_true_iff. pose proof (Z.land_spec b (2 ^ Z.of_nat i) (Z.of_nat i)) as Hs.
    rewrite E, Z.bits_0, Hp, bool_decide_eq_true_2, andb_true_r in Hs by lia. done.
  - symmetry. apply negb_false_iff, not_false_iff_true. intros Hb. apply E, Z.bits_inj'. intros k Hk.
    rewrite Z.land_spec, Z.bits_0, Hp by done. case_bool_decide as Hk'; [by rewrite Hk', Hb|apply andb_false_r].
Qed.

Lemma bitmap_set n P Q i b :
  bitmap n P b → (i < n)%nat → (∀ j, (j < n)%nat → Q j ↔ P j ∨ j = i) → bitmap n Q (Z.lor b (2 ^ Z.of_nat i)).
Proof.
  intros [Hb Hbits] Hi HQ. split.
  - split; [apply Z.lor_nonneg; lia|]. destruct (decide (Z.lor b (2 ^ Z.of_nat i) = 0)) as [->|]; [lia|].
    apply Z.log2_lt_cancel. rewrite Z.log2_pow2 by lia. rewrite Z.log2_lor, Z.log2_pow2 by lia.
    apply Z.max_lub_lt; [|lia]. destruct (decide (b = 0)) as [->|]; [|apply Z.log2_lt_pow2; lia].
    cbn. lia.
  - intros j Hj. rewrite Z.lor_spec, orb_true_iff, Hbits, HQ, Z.pow2_bits_eqb, Z.eqb_eq by lia.
    split; intros [?|?]; auto; right; lia.
Qed.

Section sync_spec.
Context (available : nat → nat → bool) (n : nat) (Hn : (n < 31)%nat).
Let answers w i : outcome bool := Ret (available w i).

Lemma sync_round_spec w k i b P :
  (i + k = n)%nat → bitmap n P b →
  ∃ b', sync_round answers w i k b = Ret b' ∧ bitmap n (λ j, P j ∨ ((i ≤ j)%nat ∧ available w j = true)) b'.
Proof.
  revert i b P. induction k as [|k IH]; intros i b P Hik HB; cbn [sync_round].
  { exists b. split; [done|]. destruct HB as [Hb Hbits]. split; [done|]. intros j Hj. rewrite Hbits by done.
    split; [by left|intros [?|[? _]]; [done|lia]]. }
  rewrite shl_int_small by lia. rewrite land_bit, negb_involutive.
  assert (∀ b1 P1, bitmap n P1 b1 → (∀ j, (j < n)%nat → P1 j ↔ P j ∨ (j = i ∧ available w j = true)) →
    ∃ b', sync_round answers w (S i) k b1 = Ret b' ∧
      bitmap n (λ j, P j ∨ ((i ≤ j)%nat ∧ available w j = true)) b') as Hnext.
  { intros b1 P1 HB1 HP1. destruct (IH (S i) b1 P1 ltac:(lia) HB1) as (b' & E & [Hb Hbits]).
    exists b'. split; [done|]. split; [done|]. intros j Hj. rewrite Hbits, HP1 by done.
    split; [intros [[?|[-> ?]]|[? ?]]; auto with lia|].
    intros [?|[? ?]]; [auto|]. destruct (decide (j = i)); [auto|]. right. split; [lia|done]. }
  destruct (Z.testbit b (Z.of_nat i)) eqn:Ei.
  - apply (Hnext b P HB). intros j Hj. split; [auto|]. intros [?|[-> _]]; [done|]. by apply (proj2 HB).
  - unfold answers at 1. destruct (available w i) eqn:Ea.
    + apply (Hnext _ (λ j, P j ∨ j = i ∧ available w j = true)); [|done]. eapply bitmap_set; [exact HB|lia|].
      intros j Hj. split; [intros [?|[-> _]]; auto|intros [?| ->]; auto].
    + apply (Hnext b P HB). intros j Hj. split; [auto|]. intros [?|[-> ?]]; [done|congruence].
Qed.

Lemma sync_wait_spec rounds w b P :
  bitmap n P b →
  ∃ b' w', sync_wait answers rounds w n (2 ^ Z.of_nat n - 1) b = Ret b' ∧ (w ≤ w' ≤ w + rounds)%nat ∧
    bitmap n (λ j, P j ∨ ∃ v, (w ≤ v < w')%nat ∧ available v j = true) b' ∧
    (b' = 2 ^ Z.of_nat n - 1 ∨ w' = (w + rounds)%nat).
Proof.
  revert w b P. induction rounds as [|rounds IH]; intros w b P HB; cbn [sync_wait].
  { exists b, w. split_and!; [done|lia..| |right; lia]. destruct HB as [Hb Hbits]. split; [done|].
    intros j Hj. rewrite Hbits by done. split; [auto|intros [?|(v & ? & _)]; [done|lia]]. }
  destruct (sync_round_spec w n 0 b P eq_refl HB) as (b1 & -> & HB1).
  destruct (Z.eqb_spec b1 (2 ^ Z.of_nat n - 1)) as [->|Hne].
  - exists (2 ^ Z.of_nat n - 1), (S w). split_and!; [done|lia..| |by left].
    destruct HB1 as [Hb Hbits]. split; [done|]. intros j Hj. rewrite Hbits by done.
    split; [intros [?|[_ ?]]; [auto|right; exists w; auto with lia]|].
    intros [?|(v & ? & ?)]; [auto|]. right. replace w with v by lia. auto with lia.
  - destruct (IH (S w) b1 _ HB1) as (b' & w' & E & Hw & [Hb Hbits] & Hend). exists b', w'.
    split_and!; [done|lia..| |destruct Hend; [by left|right; lia]]. split; [done|].
    intros j Hj. rewrite Hbits by done. split.
    + intros [[?|[_ ?]]|(v & ? & ?)]; [auto|right; exists w; auto with lia|right; exists v; auto with lia].
    + intros [?|(v & Hv & ?)]; [auto|]. destruct (decide (v = w)) as [->|]; [auto with lia|].
      right. exists v. auto with lia.
Qed.
End sync_spec.

(** ** Properties *)

(** C22: whatever messages are made, given a buffer, their own or one that is lent and
    not theirs, copied, swapped and destroyed, no tag buffer is deleted twice or used
    after it was deleted; every buffer that is allocated is a lender's or is owned by
    exactly one live message; the lent buffers are as they were, never deleted; and when
    the last message is gone the heap is what it was before the first. *)
Theorem tag_buffers_owned (buffers : list (list Z)) (ops : list msg_op) :
  Forall (lends (lent_heap buffers)) ops →
  let '(r, s) := run_msg_ops ops (store_new buffers) in
  match r with
  | Ret _ => owned (lent_heap buffers) None s ∧ lent_heap buffers ⊆ heap s ∧ (msgs s = ∅ → heap s = lent_heap buffers)
  | Throw e => e = no_message
  end.
Proof.
  intros Hops. pose proof (run_msg_ops_owned _ ops _ (owned_new buffers) Hops) as H.
  destruct (run_msg_ops ops (store_new buffers)) as [[[]|e] s]; [|done].
  split; [done|]. split; [by apply map_subseteq_spec, H|]. intros Em. apply map_eq. intros a.
  destruct (lent_heap buffers !! a) as [bs|] eqn:Ea; [by apply H|].
  apply eq_None_not_Some. rewrite (own_heap _ _ _ H), Em, Ea. by intros [|[[? ?]|(i & m & E & _)]].
Qed.

(** A packet with a lent buffer, its copy, a buffer of its own instead of the lent one. *)
Definition demo_ops : list msg_op :=
  [OpNew 0 1 (Lent 0); OpCopy 0 1; OpNew 2 1 (Lent 0); OpSetTagbuf 0 (Made [5; 6]); OpSwap 0 2; OpDestroy 0; OpSetTagbuf 1 NoBuffer;
   OpDestroy 1; OpDestroy 2].

Lemma tag_buffers_owned_witness :
  ∃ s, run_msg_ops demo_ops (store_new [[1; 2; 3]]) = (Ret tt, s) ∧ heap s = lent_heap [[1; 2; 3]].
Proof.
  pose proof (tag_buffers_owned [[1; 2; 3]] demo_ops) as H.
  assert (Forall (lends (lent_heap [[1; 2; 3]])) demo_ops) as Hops.
  { unfold demo_ops. repeat apply Forall_cons_2; [..|apply Forall_nil_2]; intros a [=]; subst; by eexists. }
  specialize (H Hops).
  destruct (run_msg_ops demo_ops (store_new [[1; 2; 3]])) as [r s] eqn:E.
  assert (r = Ret tt ∧ msgs s = ∅) as [-> Em] by (split; [apply (f_equal fst) in E|apply (f_equal snd) in E]; cbn in E; subst; by vm_compute).
  exists s. split; [done|]. by apply H.
Defined.

(** With at most 30 tags to wait for, a message is sent on exactly when every
    tag was found available in one of the 100 rounds made before the block gave
    up, or before it saw that all were there. *)
Theorem sync_tag_waits_for_all (available : nat → nat → bool) (n : nat) :
  (n < 31)%nat →
  ∃ w, (w ≤ 100)%nat ∧ ∃ sent, sync_receive (λ w i, Ret (available w i)) true n = Ret sent ∧
    (sent = true ↔ ∀ i, (i < n)%nat → ∃ v, (v < w)%nat ∧ available v i = true) ∧
    (sent = false → w = 100%nat).
Proof.
  intros Hn. unfold sync_receive. rewrite shl_int_small by done.
  assert (0 < 2 ^ Z.of_nat n ≤ 2 ^ 31) by (split; [lia|apply Z.pow_le_mono_r; lia]).
  rewrite u64_small by lia.
  assert (bitmap n (λ _, False) 0) as H0.
  { split; [lia|]. intros i _. rewrite Z.bits_0. split; [done|tauto]. }
  destruct (sync_wait_spec available n Hn 100 0 0 _ H0) as (b & w & E & Hw & HB & Hend). rewrite E.
  exists w. split; [lia|]. eexists. split; [done|]. pose proof (bitmap_full _ _ _ HB) as Hfull. split.
  - rewrite Z.eqb_eq, Hfull. split; intros Hall i Hi; specialize (Hall i Hi).
    + destruct Hall as [[]|(v & ? & ?)]. exists v. split; [lia|done].
    + destruct Hall as (v & ? & ?). right. exists v. split; [lia|done].
  - intros Hne%Z.eqb_neq. by destruct Hend.
Qed.

Lemma sync_tag_waits_for_all_witness :
  ∃ w, (w ≤ 100)%nat ∧ ∃ sent, sync_receive (λ w i, Ret (bool_decide (w = 3 * i)%nat)) true 5 = Ret sent ∧
    (sent = true ↔ ∀ i, (i < 5)%nat → ∃ v, (v < w)%nat ∧ bool_decide (v = 3 * i)%nat = true) ∧
    (sent = false → w = 100%nat).
Proof. apply (sync_tag_waits_for_all (λ w i, bool_decide (w = 3 * i)%nat) 5). lia. Defined.

(** More tags than [int] has bits, which [_configure] lets pass up to 64. *)
Lemma sync_tag_many_tags available n :
  (31 ≤ n)%nat → sync_receive available true n = Throw (undefined_behaviour "1<<n past int").
Proof. intros Hn. unfold sync_receive, shl_int. by rewrite (proj2 (Z.ltb_ge _ _)) by lia. Qed.

Lemma tag_bytes_at i ty a bs own s :
  msgs s !! i = Some (MkMsg ty (Some a) own) → heap s !! a = Some bs → tag_bytes i s = (Ret (a, bs), s).
Proof. intros Hi Ha. unfold tag_bytes, get_msg, read_buffer. run_m. rewrite Hi. cbn [m_tagbuf]. by rewrite Ha. Qed.

(** A block configured for [double] or [long] tags builds an object of the
    other type: with the assertion on types compiled in every packet fails it,
    and without it the bytes of an integer are stored as a [double]. *)
Theorem append_tag_confuses_types h_int h_double h_ulong to_double name r h s i a bs g :
  h_double ≠ h_ulong →
  register_tag (t_double h_double) name registry_new = (Ret h, r) →
  msgs s !! i = Some (MkMsg 0 (Some a) true) → heap s !! a = Some bs → buffer_size r ≤ Z.of_nat (length bs) →
  append_receive h_int h_double h_ulong to_double AssertAborts r (AppendTag TagFl name h) true g i s =
    (Throw (assert_failure "emplace_tag: Tag type mismatch"), s) ∧
  ∃ s', append_receive h_int h_double h_ulong to_double AssertOff r (AppendTag TagFl name h) true g i s = (Ret i, s') ∧
    msg_get_tag AssertOff r i (t_double h_double) h s' = (Ret (Some (le_bytes 8 g)), s').
Proof.
  intros Hne Hreg Hi Ha Hlen.
  assert (h = 0 ∧ r = Registry 16 [TagMetadata 8 0 h_double name]) as [-> ->].
  { unfold register_tag in Hreg. cbn in Hreg. by injection Hreg as <- <-. }
  cbn [buffer_size next_offset] in Hlen.
  set (md := TagMetadata 8 0 h_double name). set (r := Registry 16 [md]).
  assert (∀ t, object_size t = 16 → object_in t 0 bs = true) as Hin.
  { intros t Et. unfold object_in. rewrite Et. lia. }
  pose proof (tag_bytes_at i 0 a bs true s Hi Ha) as Ebs.
  assert (∀ am t bs what, buffer_size r ≤ Z.of_nat (length bs) → check_tag am t bs 0 what r =
    (blockmon_assert_eq am h_double (t_hash t) (what +:+ ": Tag type mismatch");; mret md) r) as Hcheck.
  { intros am t bs' what Hl. unfold check_tag. rewrite (bind_Ret _ _ r md r) by done.
    change (u64 (md_offset md + md_size md)) with 8. cbn in Hl. rewrite (proj2 (Z.leb_le _ _)) by lia.
    by rewrite (bind_Ret _ _ _ _ _ (blockmon_assert_true am _ r)). }
  unfold append_receive, msg_emplace_tag, msg_get_tag, on_registry. cbn [m_tag_type m_handle]. split.
  - run_m. rewrite Ebs. unfold emplace_tag. unfold mbind at 1, M_bind at 1. rewrite Hcheck by (cbn; lia). unfold blockmon_assert_eq. run_m.
    cbn [t_hash t_ulong].
    by rewrite (proj2 (Z.eqb_neq h_double h_ulong) Hne).
  - eexists. split.
    + run_m. rewrite Ebs. unfold emplace_tag. unfold mbind at 1, M_bind at 1. rewrite Hcheck by (cbn; lia). unfold blockmon_assert_eq. run_m.
      cbn [md_offset md]. rewrite Hin by done. reflexivity.
    + rewrite <- take_object_writes.
      match goal with |- context [with_heap ?f s] => pose proof (tag_bytes_at i 0 a _ true (with_heap f s) Hi
        (lookup_insert_eq _ _ _)) as E' end.
      rewrite (bind_Ret _ _ _ _ _ E').
      assert (type_ok (t_double h_double)) as Hok by done.
      unfold get_tag, mbind at 1, M_bind at 1. rewrite Hcheck by (rewrite length_run_writes; cbn; lia). unfold blockmon_assert_eq. run_m.
      cbn [md_offset md]. unfold object_in. rewrite length_run_writes.
      rewrite (proj2 (Z.leb_le _ _)) by (change (object_size _) with 16; lia).
      change (object_writes (t_ulong h_ulong) 0) with (object_writes (t_double h_double) 0).
      rewrite (writes_valid (t_double h_double) 0 _ bs Hok) by (done || by apply Hin).
      by rewrite (writes_value (t_double h_double) 0 _ bs Hok) by (done || lia || by apply Hin).
Qed.

Lemma append_tag_confuses_types_witness :
  let r := (register_tag (t_double 12) "d" registry_new).2 in
  let s := Store {[ 0%nat := replicate 16 0 ]} 1 {[ 5%nat := MkMsg 0 (Some 0%nat) true ]} in
  append_receive 11 12 13 (λ _, []) AssertAborts r (AppendTag TagFl "d" 0) true 77 5 s =
    (Throw (assert_failure "emplace_tag: Tag type mismatch"), s) ∧
  ∃ s', append_receive 11 12 13 (λ _, []) AssertOff r (AppendTag TagFl "d" 0) true 77 5 s = (Ret 5%nat, s') ∧
    msg_get_tag AssertOff r 5 (t_double 12) 0 s' = (Ret (Some (le_bytes 8 77)), s').
Proof.
  apply (append_tag_confuses_types 11 12 13 (λ _, []) "d" _ 0 _ 5 0 (replicate 16 0) 77); try reflexivity; done.
Defined.

(** The copy of a message without a tag buffer has a buffer, of no bytes: the
    test for a null buffer passes and reading a tag leaves the buffer. *)
Lemma copy_without_tagbuf i j ty own s :
  msgs s !! i = Some (MkMsg ty None own) →
  ∃ s', copy_msg i j s = (Ret tt, s') ∧ tag_bytes j s' = (Ret (next_addr s, []), s').
Proof.
  intros Hi. eexists. split.
  - unfold copy_msg, get_msg, read_buffer. run_m. rewrite Hi. reflexivity.
  - eapply tag_bytes_at; apply lookup_insert_eq.
Qed.

Lemma copy_defeats_null_check r s i j md t :
  tag_info r = [md] → 0 ≤ md_offset md → type_ok t → msgs s !! i = Some (MkMsg 0 None false) →
  msg_get_tag AssertOff r i t 0 s = (Throw no_tagbuf, s) ∧
  ∃ s', copy_msg i j s = (Ret tt, s') ∧
    msg_get_tag AssertOff r j t 0 s' = (Throw (undefined_behaviour "tag read outside its buffer"), s').
Proof.
  intros Er Ho (? & ? & _) Hi. unfold msg_get_tag. split.
  - unfold tag_bytes, get_msg. run_m. by rewrite Hi.
  - destruct (copy_without_tagbuf i j 0 false s Hi) as (s' & Ec & Eb). exists s'. split; [done|].
    rewrite (bind_Ret _ _ _ _ _ Eb). unfold on_registry, get_tag, check_tag.
    assert (get_info 0 r = (Ret md, r)) as Eg by (by apply (get_info_at r 0); rewrite ?Er).
    run_m. rewrite Eg. unfold blockmon_assert, blockmon_assert_eq. run_m. unfold object_in, object_size.
    by rewrite (proj2 (Z.leb_gt _ _)) by (cbn [length]; lia).
Qed.
