(* ===== verification/Alloc.v ===== *)
(** * Allocators of messages

    Models [core/SliceAllocator.hpp], [core/message/MemoryBatch.hpp],
    [core/DynamicBuffer.hpp] and the pointer arithmetic of [core/Utility.hpp].

    Both allocators give out pieces of a large arena ([slice_manager],
    [MemoryBatch]) from the front to the back, take a new arena when it is full,
    and let the pieces share the ownership of the arena they are in: it is freed
    with the last of them.  What they share is the interface [Arena]; the pool of
    arenas with its reference counts is modelled once, over it.

    A piece is a range of bytes of one of the buffers of an arena. *)

From S2P Require Export MachineInt.

(** Buffer of the arena, offset and length. *)
Record region := Region { r_buf : nat; r_off : Z; r_len : Z }.

(** Two ranges of one buffer do not meet. *)
Definition apart (x y : region) : Prop :=
  r_buf x = r_buf y → r_off x + r_len x ≤ r_off y ∨ r_off y + r_len y ≤ r_off x.

(** ** The interface of an arena

    [take_piece] is [None] when the arena is full.  The laws: a piece lies
    behind everything given out before, and within the buffer. *)
Class Arena (A Req : Type) := {
  arena_new : A;
  take_piece : Req → A → option (list region * A);
  capacity : A → nat → Z;
  used : A → nat → Z;
  arena_ok : A → Prop;
  req_ok : Req → Prop;
  arena_new_ok : arena_ok arena_new;
  arena_bounds a k : arena_ok a → 0 ≤ used a k ≤ capacity a k;
  take_ok q a rs a' : take_piece q a = Some (rs, a') → req_ok q → arena_ok a →
    arena_ok a' ∧ (∀ k, used a k ≤ used a' k) ∧
    ∀ r, r ∈ rs → used a (r_buf r) ≤ r_off r ∧ 0 ≤ r_len r ∧ r_off r + r_len r ≤ used a' (r_buf r)
}.

(** ** The pool: shared ownership of arenas *)

Record pool (A : Type) := Pool {
  cur : nat;
  arenas : gmap nat A;
  live : list (nat * list region);
  next_arena : nat
}.
Arguments Pool {A} _ _ _ _.
Arguments cur {A} _.
Arguments arenas {A} _.
Arguments live {A} _.
Arguments next_arena {A} _.

Section pool.
Context {A Req : Type} `{HA : Arena A Req}.
Implicit Types (p : pool A) (q : Req).

Definition pool_new (a : A) : pool A := Pool 0 {[ 0%nat := a ]} [] 1.

(** A reference to arena [i] is gone: freed unless another one is left. *)
Definition drop_reference (i : nat) p : pool A :=
  if bool_decide (i = cur p ∨ i ∈ (live p).*1) then p
  else Pool (cur p) (delete i (arenas p)) (live p) (next_arena p).

(** [manager_.reset(new ...)], [mem_block = make_shared<...>()]. *)
Definition renew_with (a : A) p : pool A :=
  drop_reference (cur p)
    (Pool (next_arena p) (<[next_arena p := a]> (arenas p)) (live p) (S (next_arena p))).
Definition renew : pool A → pool A := renew_with arena_new.

(** The piece, and a pointer to it that shares the ownership of the arena. *)
Definition take_from_current q : M (pool A) (option (list region)) := λ p,
  match arenas p !! cur p with
  | None => (Throw (undefined_behaviour "arena freed"), p)
  | Some a =>
      match take_piece q a with
      | None => (Ret None, p)
      | Some (rs, a') =>
          (Ret (Some rs), Pool (cur p) (<[cur p := a']> (arenas p)) (live p ++ [(cur p, rs)]) (next_arena p))
      end
  end.

Definition pool_alloc q : M (pool A) (list region) :=
  o ← take_from_current q;
  match o with
  | Some rs => mret rs
  | None =>
      modify renew;;
      o ← take_from_current q;
      match o with
      | Some rs => mret rs
      | None => throw (undefined_behaviour "object built at a null pointer")
      end
  end.

(** The [j]-th pointer is released. *)
Definition release (j : nat) p : pool A :=
  match live p !! j with
  | None => p
  | Some (i, _) =>
      drop_reference i (Pool (cur p) (arenas p) (delete j (live p)) (next_arena p))
  end.

Inductive pool_op := Alloc q | Release (j : nat).

Definition run_pool_op (alloc : Req → M (pool A) (list region)) (op : pool_op) : M (pool A) unit :=
  match op with
  | Alloc q => alloc q;; mret tt
  | Release j => modify (release j)
  end.

Fixpoint run_pool (alloc : Req → M (pool A) (list region)) (ops : list pool_op) : M (pool A) unit :=
  match ops with
  | [] => mret tt
  | op :: ops => run_pool_op alloc op;; run_pool alloc ops
  end.

(** Every pointer is to a live arena and inside it, pieces do not overlap, and
    no arena is kept that is neither current nor pointed into. *)
Record pool_ok p : Prop := PoolOk {
  ok_next : ∀ i, is_Some (arenas p !! i) → (i < next_arena p)%nat;
  ok_kept : ∀ i, is_Some (arenas p !! i) ↔ i = cur p ∨ i ∈ (live p).*1;
  ok_arena : ∀ i a, arenas p !! i = Some a → arena_ok a;
  ok_inside : ∀ i rs a r, (i, rs) ∈ live p → arenas p !! i = Some a → r ∈ rs →
    0 ≤ r_off r ∧ 0 ≤ r_len r ∧ r_off r + r_len r ≤ used a (r_buf r);
  ok_apart : ∀ j j' i rs rs' r r', j ≠ j' → live p !! j = Some (i, rs) → live p !! j' = Some (i, rs') →
    r ∈ rs → r' ∈ rs' → apart r r'
}.

Lemma pool_new_ok a : arena_ok a → pool_ok (pool_new a).
Proof.
  intros Hok. split; cbn.
  - intros i. rewrite lookup_singleton_is_Some. lia.
  - intros i. rewrite lookup_singleton_is_Some. set_solver.
  - by intros i b [<- <-]%lookup_singleton_Some.
  - by intros i rs b r ?%not_elem_of_nil.
  - by intros.
Qed.

Lemma drop_reference_ok i p :
  (∀ j, is_Some (arenas p !! j) ↔ j = i ∨ j = cur p ∨ j ∈ (live p).*1) →
  (∀ j, is_Some (arenas p !! j) → (j < next_arena p)%nat) →
  (∀ j a, arenas p !! j = Some a → arena_ok a) →
  (∀ i rs a r, (i, rs) ∈ live p → arenas p !! i = Some a → r ∈ rs →
    0 ≤ r_off r ∧ 0 ≤ r_len r ∧ r_off r + r_len r ≤ used a (r_buf r)) →
  (∀ j j' i rs rs' r r', j ≠ j' → live p !! j = Some (i, rs) → live p !! j' = Some (i, rs') →
    r ∈ rs → r' ∈ rs' → apart r r') →
  pool_ok (drop_reference i p).
Proof.
  intros Hk Hn Hu Hi Ha. unfold drop_reference. case_bool_decide as Hd.
  - split; try done. intros j. rewrite Hk. naive_solver.
  - split; cbn.
    + intros j [_ ?]%lookup_delete_is_Some. by apply Hn.
    + intros j. rewrite lookup_delete_is_Some, Hk. naive_solver.
    + intros j a [_ ?]%lookup_delete_Some. by eapply Hu.
    + intros j rs a r Hin [_ ?]%lookup_delete_Some. by eapply Hi.
    + done.
Qed.

Lemma renew_ok p : pool_ok p → pool_ok (renew p).
Proof.
  intros [Hn Hk Hu Hi Ha].
  assert (arenas p !! next_arena p = None) as Hfresh.
  { apply eq_None_not_Some. intros ?%Hn. lia. }
  apply drop_reference_ok; cbn.
  - intros j. rewrite lookup_insert_is_Some', Hk. naive_solver.
  - intros j [<-|?%Hn]%lookup_insert_is_Some'; lia.
  - intros j a [[<- <-]|[_ ?]]%lookup_insert_Some; [apply arena_new_ok|by eapply Hu].
  - intros j rs a r Hin [[<- <-]|[_ ?]]%lookup_insert_Some; [|by eapply Hi].
    assert (is_Some (arenas p !! next_arena p)) as [? E].
    { apply Hk. right. by apply (list_elem_of_fmap_2 fst) in Hin. }
    by rewrite Hfresh in E.
  - done.
Qed.

Lemma take_from_current_ok q p :
  req_ok q → pool_ok p →
  match take_from_current q p with
  | (Ret None, p') => p' = p
  | (Ret (Some rs), p') => pool_ok p' ∧ live p' = live p ++ [(cur p, rs)]
  | (Throw _, _) => False
  end.
Proof.
  intros Hq [Hn Hk Hu Hi Ha]. unfold take_from_current.
  assert (is_Some (arenas p !! cur p)) as [a E] by (apply Hk; by left). rewrite E.
  destruct (take_piece q a) as [[rs a']|] eqn:Et; [|done].
  destruct (take_ok _ _ _ _ Et Hq (Hu _ _ E)) as (Hok' & Hmono & Hpiece).
  assert (∀ rs' r r', (cur p, rs') ∈ live p → r' ∈ rs' → r ∈ rs → r_buf r = r_buf r' →
    r_off r' + r_len r' ≤ r_off r) as Hbehind.
  { intros rs' r r' Hin Hr' Hr Eb. destruct (Hi _ _ _ _ Hin E Hr') as (? & ? & ?).
    destruct (Hpiece r Hr) as (? & ? & ?). rewrite Eb in *. lia. }
  split; [|done]. split; cbn.
  - intros i [<-|?]%lookup_insert_is_Some'; apply Hn; eauto.
  - intros i. rewrite lookup_insert_is_Some', Hk, fmap_app, elem_of_app. cbn.
    rewrite list_elem_of_singleton. naive_solver.
  - intros i b [[<- <-]|[_ ?]]%lookup_insert_Some; [done|by eapply Hu].
  - intros i rs' b r [Hin|[= -> ->]%list_elem_of_singleton]%elem_of_app.
    + intros [[<- <-]|[_ ?]]%lookup_insert_Some Hr; [|by eapply Hi].
      destruct (Hi _ _ _ _ Hin E Hr) as (? & ? & ?).
      specialize (Hmono (r_buf r)). lia.
    + rewrite lookup_insert_eq. intros [= <-] Hr.
      destruct (Hpiece r Hr) as (? & ? & ?). pose proof (arena_bounds a (r_buf r) (Hu _ _ E)). lia.
  - intros j j' i rs1 rs2 r r' Hne [Hj|[Hj Hj1]]%lookup_app_Some [Hj'|[Hj' Hj2]]%lookup_app_Some Hr Hr' Eb.
    + by eapply (Ha j j').
    + apply list_lookup_singleton_Some in Hj2 as [_ [= <- <-]]. left.
      eapply Hbehind; [by eapply list_elem_of_lookup_2|done..].
    + apply list_lookup_singleton_Some in Hj1 as [_ [= <- <-]]. right.
      eapply Hbehind; [by eapply list_elem_of_lookup_2|done..].
    + apply list_lookup_singleton_Some in Hj1 as [? _]. apply list_lookup_singleton_Some in Hj2 as [? _]. lia.
Qed.

Lemma release_ok j p : pool_ok p → pool_ok (release j p).
Proof.
  intros Hok. pose proof Hok as [Hn Hk Hu Hi Ha]. unfold release.
  destruct (live p !! j) as [[i rs]|] eqn:Ej; [|done].
  assert (∀ k x, delete j (live p) !! k = Some x → live p !! (if decide (k < j)%nat then k else S k) = Some x) as Hdel.
  { intros k x. case_decide; [by rewrite list_lookup_delete_lt by done|by rewrite list_lookup_delete_ge by lia]. }
  assert (∀ x, x ∈ delete j (live p) → x ∈ live p) as Hsub.
  { intros x [k Hx%Hdel]%list_elem_of_lookup. by eapply list_elem_of_lookup_2. }
  assert (live p ≡ₚ (i, rs) :: delete j (live p)) as HP by by apply delete_Permutation.
  apply drop_reference_ok; cbn.
  - intros k. rewrite Hk. rewrite HP at 1. cbn. rewrite elem_of_cons. naive_solver.
  - done.
  - done.
  - intros k rs' a r Hin. by apply Hi, Hsub.
  - intros k k' l rs1 rs2 r r' Hne Hx%Hdel Hx'%Hdel. eapply Ha; [|done..]. repeat case_decide; lia.
Qed.

Lemma renew_current p : pool_ok p → arenas (renew p) !! cur (renew p) = Some arena_new.
Proof.
  intros Hok. assert (cur p ≠ next_arena p) as Hne.
  { intros Ec. pose proof (ok_next p Hok (cur p) (proj2 (ok_kept p Hok _) (or_introl eq_refl))). lia. }
  unfold renew, renew_with, drop_reference. case_bool_decide; cbn; rewrite ?lookup_delete_ne by done; apply lookup_insert_eq.
Qed.

Lemma pool_alloc_ok q p :
  req_ok q → pool_ok p →
  match pool_alloc q p with
  | (Ret rs, p') => pool_ok p' ∧ ∃ i, last (live p') = Some (i, rs)
  | (Throw e, p') => pool_ok p' ∧ take_piece q arena_new = None
  end.
Proof.
  intros Hq Hok. unfold pool_alloc. run_m.
  pose proof (take_from_current_ok q p Hq Hok) as H1.
  destruct (take_from_current q p) as [[[rs|]|e] p1]; [|subst p1|done].
  - destruct H1 as [H1 ->]. split; [done|]. eexists. by rewrite last_snoc.
  - pose proof (take_from_current_ok q _ Hq (renew_ok p Hok)) as H2.
    destruct (take_from_current q (renew p)) as [[[rs|]|e] p2] eqn:E; [|subst p2|done].
    + destruct H2 as [H2 ->]. split; [done|]. eexists. by rewrite last_snoc.
    + split; [by apply renew_ok|]. revert E. unfold take_from_current. rewrite (renew_current p Hok).
      by destruct (take_piece q arena_new) as [[? ?]|].
Qed.

(** Requests that are sensible and fit into a new arena. *)
Definition op_fits (op : pool_op) : Prop :=
  match op with Alloc q => req_ok q ∧ take_piece q arena_new ≠ None | Release _ => True end.

Lemma run_pool_ok alloc ops p :
  (∀ q p, pool_ok p → alloc q p = pool_alloc q p) → pool_ok p → Forall op_fits ops →
  ∃ p', run_pool alloc ops p = (Ret tt, p') ∧ pool_ok p'.
Proof.
  intros Halloc Hok Hops. revert p Hok. induction Hops as [|op ops Hop _ IH]; intros p Hok; cbn [run_pool]; [by exists p|].
  destruct op as [q|j]; cbn [run_pool_op]; run_m.
  - destruct Hop as [Hq Hfit]. pose proof (pool_alloc_ok q p Hq Hok) as Ha. rewrite Halloc by done. destruct (pool_alloc q p) as [[rs|e] p1]; [apply IH, Ha|].
    by destruct Ha.
  - by apply IH, release_ok.
Qed.
End pool.

(** ** Slices

    A slice has an object of each of the types [Ts]; the sizes of the types are
    what [size_of<T>()] answers for each. *)

(** [dynamic_buffer::size_of]: the static variable, and what a call answers. *)
Definition dynamic_size_of (init : Z) : M Z Z :=
  if negb (init =? 0) then modify (λ _, init);; mret init
  else value ← gets id;
    if value =? 0 then throw (runtime_error "dynamic_buffer::size_of not set") else mret value.

Section slices.
Context (sizes : list Z) (NSlots : Z).

Record slice_manager := SliceManager { index_ : Z; bases : list Z }.

(** [details::allocate]: the bytes of each buffer. *)
Definition allocate (sizes : list Z) : list Z := (λ size, u64 (size * NSlots)) <$> sizes.

Definition slice_manager_new : slice_manager := SliceManager 0 (allocate sizes).

(** [advance_ptr], and [details::construct] for the types from index [k] on. *)
Definition advance_ptr (size n : Z) : Z := u64 (size * n).

Definition construct (offset : Z) : list region := imap (λ k size, Region k (advance_ptr size offset) size) sizes.

Definition slice_manager_alloc : M slice_manager (list region) :=
  index ← gets index_;
  if index =? NSlots then throw (runtime_error "slice_manager<Ts...>::alloc() overflow")
  else
    modify (λ m, SliceManager (index + 1) (bases m));;
    mret (construct index).

(** [slice_allocator::new_slice], with the pointer [bind_shared] makes of it. *)
Definition new_slice : M (pool slice_manager) (list region) := λ p,
  match arenas p !! cur p with
  | None => (Throw (undefined_behaviour "arena freed"), p)
  | Some m =>
      let p := if index_ m =? NSlots then renew_with slice_manager_new p else p in
      match arenas p !! cur p with
      | None => (Throw (undefined_behaviour "arena freed"), p)
      | Some m =>
          match slice_manager_alloc m with
          | (Throw e, _) => (Throw e, p)
          | (Ret rs, m) =>
              (Ret rs, Pool (cur p) (<[cur p := m]> (arenas p)) (live p ++ [(cur p, rs)]) (next_arena p))
          end
      end
  end.

Context (HN : 0 < NSlots) (Hsizes : Forall (λ size, 0 < size ∧ size * NSlots < 2 ^ 64) sizes).

(** A manager as an arena. *)
Definition slice_take (q : unit) (m : slice_manager) : option (list region * slice_manager) :=
  match slice_manager_alloc m with (Ret rs, m) => Some (rs, m) | _ => None end.

Definition size_at (k : nat) : Z := default 0 (sizes !! k).

#[refine] #[local] Instance slice_arena : Arena slice_manager unit := {|
  arena_new := slice_manager_new;
  take_piece := slice_take;
  capacity m k := size_at k * NSlots;
  used m k := size_at k * index_ m;
  arena_ok m := 0 ≤ index_ m ≤ NSlots ∧ bases m = allocate sizes;
  req_ok _ := True
|}.
Proof.
  - cbn. split; [lia|done].
  - intros m k [Hm _]. unfold size_at. destruct (sizes !! k) eqn:E; cbn; [|lia].
    pose proof (Forall_lookup_1 _ _ _ _ Hsizes E) as Hs. cbn in Hs. nia.
  - intros q m rs m' Ht _ [Hm Hb]. revert Ht. unfold slice_take, slice_manager_alloc. run_m.
    destruct (Z.eqb_spec (index_ m) NSlots); [done|]. intros [= <- <-]. cbn. split_and!; [lia..|done| |].
    + intros k. unfold size_at. destruct (sizes !! k) eqn:E; cbn; [|lia].
      pose proof (Forall_lookup_1 _ _ _ _ Hsizes E) as Hs. cbn in Hs. nia.
    + intros r [k Hr]%list_elem_of_lookup. unfold construct in Hr. rewrite list_lookup_imap in Hr.
      destruct (sizes !! k) as [size|] eqn:E; [|done]. injection Hr as <-. cbn.
      pose proof (Forall_lookup_1 _ _ _ _ Hsizes E) as Hs. cbn in Hs.
      unfold advance_ptr, size_at. rewrite E. cbn. rewrite u64_small by nia. nia.
Defined.

Lemma new_slice_alloc p : pool_ok p → new_slice p = pool_alloc tt p.
Proof.
  intros Hok. pose proof (renew_current p Hok) as Hnew. revert Hnew. cbn [arena_new slice_arena].
  unfold new_slice, pool_alloc, take_from_current, renew. run_m.
  destruct (arenas p !! cur p) as [m|] eqn:E; [|done]. cbn [take_piece arena_new slice_arena].
  unfold slice_take, slice_manager_alloc. run_m. destruct (index_ m =? NSlots) eqn:Em; intros Hnew.
  - rewrite Hnew. cbn [slice_manager_new index_]. by rewrite (proj2 (Z.eqb_neq 0 NSlots)) by lia.
  - rewrite E. run_m. by rewrite Em.
Qed.
End slices.

(** ** Batches of messages *)

Record memory_batch := MemoryBatch { m_size : Z; m_curr : Z }.

Definition batch_new (size : Z) : memory_batch := MemoryBatch size 0.

(** [reserve]: the offset in the buffer, [None] for a null pointer. *)
Definition reserve (size : Z) : M memory_batch (option Z) :=
  curr ← gets m_curr;
  total ← gets m_size;
  if total <? u64 (curr + size) then mret None
  else
    modify (λ b, MemoryBatch (m_size b) (u64 (m_curr b + size)));;
    mret (Some curr).

Definition BATCH_SIZE : Z := 4096 * 256.

Definition reserve_current (size : Z) : M (pool memory_batch) (option Z) := λ p,
  match arenas p !! cur p with
  | None => (Throw (undefined_behaviour "arena freed"), p)
  | Some b =>
      let '(r, b) := reserve size b in
      (r, Pool (cur p) (<[cur p := b]> (arenas p)) (live p) (next_arena p))
  end.

(** [alloc_msg_from_buffer] for a message class of [sizeof_T] bytes. *)
Definition alloc_msg_from_buffer (sizeof_T additional_space : Z) : M (pool memory_batch) (list region) :=
  let size := u64 (sizeof_T + additional_space) in
  mbuf ← reserve_current size;
  mbuf ← match mbuf with
    | Some o => mret (Some o)
    | None =>
        modify (renew_with (batch_new BATCH_SIZE));;
        reserve_current size
    end;
  match mbuf with
  | None => throw (undefined_behaviour "object built at a null pointer")
  | Some o =>
      let rs := [Region 0 o size] in
      modify (λ p, Pool (cur p) (arenas p) (live p ++ [(cur p, rs)]) (next_arena p));;
      mret rs
  end.

Definition batch_take (size : Z) (b : memory_batch) : option (list region * memory_batch) :=
  match reserve size b with (Ret (Some o), b) => Some ([Region 0 o size], b) | _ => None end.

#[refine] #[export] Instance batch_arena : Arena memory_batch Z := {|
  arena_new := batch_new BATCH_SIZE;
  take_piece := batch_take;
  capacity b k := m_size b;
  used b k := m_curr b;
  arena_ok b := 0 ≤ m_curr b ≤ m_size b ∧ m_size b < 2 ^ 63;
  req_ok size := 0 ≤ size < 2 ^ 63
|}.
Proof.
  - done.
  - cbn. lia.
  - intros size b rs b' Ht Hq Hb. revert Ht. unfold batch_take, reserve. run_m.
    destruct (Z.ltb_spec (m_size b) (u64 (m_curr b + size))) as [|Hle]; [done|]. intros [= <- <-]. cbn.
    rewrite u64_small in * by lia. split_and!; [lia..|].
    intros r ->%list_elem_of_singleton. cbn. lia.
Defined.

Lemma alloc_msg_alloc sizeof_T additional_space p :
  0 ≤ sizeof_T → 0 ≤ additional_space → sizeof_T + additional_space < 2 ^ 63 → pool_ok p →
  alloc_msg_from_buffer sizeof_T additional_space p = pool_alloc (sizeof_T + additional_space) p.
Proof.
  intros H0 H1 Hlt Hok. pose proof (renew_current p Hok) as Hnew. revert Hnew.
  unfold alloc_msg_from_buffer, pool_alloc, take_from_current, reserve_current. rewrite u64_small by lia.
  destruct (proj2 (ok_kept p Hok (cur p)) (or_introl eq_refl)) as [b E]. run_m. rewrite E.
  cbn [take_piece arena_new batch_arena]. unfold batch_take, reserve, renew. cbn [arena_new batch_arena]. run_m.
  set (size := sizeof_T + additional_space).
  destruct (m_size b <? u64 (m_curr b + size)); intros Hnew; [|done].
  assert (Pool (cur p) (<[cur p := b]> (arenas p)) (live p) (next_arena p) = p) as ->.
  { rewrite insert_id by done. by destruct p. }
  destruct (renew_with (batch_new BATCH_SIZE) p) as [c ar lv nx]. cbn [cur arenas live next_arena] in *.
  rewrite Hnew. cbn [m_size m_curr batch_new]. destruct (BATCH_SIZE <? u64 (0 + size)); [|done].
  by rewrite insert_id.
Qed.

(** ** Properties *)

(** C23: however slices are taken from a [slice_allocator] and the pointers to them
    released, no call fails; every slice that is still pointed to has each of its
    objects inside the buffer of its type of a manager that was not freed, no two
    of them overlap, and no manager is kept that is neither the current one nor
    pointed into. *)
Theorem slices_never_overlap sizes NSlots (ops : list (pool_op (Req:=unit))) :
  0 < NSlots → Forall (λ size, 0 < size ∧ size * NSlots < 2 ^ 64) sizes →
  ∃ p, run_pool (λ _, new_slice sizes NSlots) ops (pool_new (slice_manager_new sizes NSlots)) = (Ret tt, p) ∧
    (∀ i, is_Some (arenas p !! i) ↔ i = cur p ∨ i ∈ (live p).*1) ∧
    (∀ i rs, (i, rs) ∈ live p → ∃ m, arenas p !! i = Some m ∧
      ∀ r, r ∈ rs → 0 ≤ r_off r ∧ 0 ≤ r_len r ∧ r_off r + r_len r ≤ default 0 (bases m !! r_buf r)) ∧
    (∀ j j' i rs rs' r r', j ≠ j' → live p !! j = Some (i, rs) → live p !! j' = Some (i, rs') →
      r ∈ rs → r' ∈ rs' → apart r r').
Proof.
  intros HN Hs. pose (HA := slice_arena sizes NSlots HN Hs).
  destruct (run_pool_ok (λ _, new_slice sizes NSlots) ops (pool_new (slice_manager_new sizes NSlots)))
    as (p & E & Hok).
  - intros [] p Hok. by apply (new_slice_alloc sizes NSlots HN Hs).
  - apply pool_new_ok. cbn. split; [lia|done].
  - apply Forall_forall. intros [[]|j] _; [|done]. split; [done|]. cbn. unfold slice_take, slice_manager_alloc. run_m.
    cbn [index_ slice_manager_new]. by rewrite (proj2 (Z.eqb_neq 0 NSlots)) by lia.
  - exists p. split; [done|]. split; [apply Hok|]. split; [|apply Hok].
    intros i rs Hin. assert (is_Some (arenas p !! i)) as [m Em].
    { apply Hok. right. by apply (list_elem_of_fmap_2 fst) in Hin. }
    exists m. split; [done|]. intros r Hr. destruct (ok_inside p Hok i rs m r Hin Em Hr) as (? & ? & ?).
    destruct (ok_arena p Hok i m Em) as [Hm ->]. cbn [used HA slice_arena] in *.
    unfold allocate, size_at in *. rewrite list_lookup_fmap. destruct (sizes !! r_buf r) as [size|] eqn:Es; cbn in *.
    + pose proof (Forall_lookup_1 _ _ _ _ Hs Es) as Hsz. cbn in Hsz. rewrite u64_small by nia. nia.
    + lia.
Qed.

Lemma slices_never_overlap_witness :
  ∃ p, run_pool (λ _, new_slice [8; 100] 2) [Alloc tt; Alloc tt; Alloc tt; Release 0; Release 0; Alloc tt]
      (pool_new (slice_manager_new [8; 100] 2)) = (Ret tt, p) ∧
    (∀ i, is_Some (arenas p !! i) ↔ i = cur p ∨ i ∈ (live p).*1) ∧
    (∀ i rs, (i, rs) ∈ live p → ∃ m, arenas p !! i = Some m ∧
      ∀ r, r ∈ rs → 0 ≤ r_off r ∧ 0 ≤ r_len r ∧ r_off r + r_len r ≤ default 0 (bases m !! r_buf r)) ∧
    (∀ j j' i rs rs' r r', j ≠ j' → live p !! j = Some (i, rs) → live p !! j' = Some (i, rs') →
      r ∈ rs → r' ∈ rs' → apart r r').
Proof.
  apply (slices_never_overlap [8; 100] 2 [Alloc tt; Alloc tt; Alloc tt; Release 0; Release 0; Alloc tt]); [done|].
  repeat constructor.
Defined.

(** Messages of at most 1 MB, with their additional space, are built without
    failing in a batch that is alive as long as one of its messages is pointed
    to, inside its buffer and without overlap; [q] is the whole size of a
    message. *)
Theorem messages_never_overlap sizeof_T size (ops : list (pool_op (Req:=Z))) :
  0 ≤ sizeof_T → 0 ≤ size < 2 ^ 63 →
  Forall (λ op, match op with Alloc q => sizeof_T ≤ q ≤ BATCH_SIZE | Release _ => True end) ops →
  ∃ p, run_pool (λ q, alloc_msg_from_buffer sizeof_T (q - sizeof_T)) ops (pool_new (batch_new size)) = (Ret tt, p) ∧
    (∀ i, is_Some (arenas p !! i) ↔ i = cur p ∨ i ∈ (live p).*1) ∧
    (∀ i rs, (i, rs) ∈ live p → ∃ b, arenas p !! i = Some b ∧
      ∀ r, r ∈ rs → 0 ≤ r_off r ∧ 0 ≤ r_len r ∧ r_off r + r_len r ≤ m_size b) ∧
    (∀ j j' i rs rs' r r', j ≠ j' → live p !! j = Some (i, rs) → live p !! j' = Some (i, rs') →
      r ∈ rs → r' ∈ rs' → apart r r').
Proof.
  intros H0 Hs Hops.
  (* requests out of the range never occur: replace the operation there by the pool's *)
  pose (alloc q := if decide (sizeof_T ≤ q ≤ BATCH_SIZE)
    then alloc_msg_from_buffer sizeof_T (q - sizeof_T) else pool_alloc q).
  assert (∀ p, run_pool (λ q, alloc_msg_from_buffer sizeof_T (q - sizeof_T)) ops p = run_pool alloc ops p) as Eruns.
  { clear Hs. induction Hops as [|op ops Hop _ IH]; intros p; cbn [run_pool]; [done|].
    assert (run_pool_op (λ q, alloc_msg_from_buffer sizeof_T (q - sizeof_T)) op = run_pool_op alloc op) as ->.
    { destruct op as [q|j]; [|done]. unfold alloc. cbn [run_pool_op]. by rewrite decide_True by done. }
    run_m. destruct (run_pool_op alloc op p) as [[[]|e] p1]; [apply IH|done]. }
  rewrite Eruns. destruct (run_pool_ok alloc ops (pool_new (batch_new size))) as (p & E & Hok).
  - intros q p Hok. unfold alloc. case_decide as Hq; [|done]. unfold BATCH_SIZE in Hq.
    rewrite alloc_msg_alloc by (done || lia). f_equal. lia.
  - apply pool_new_ok. cbn. lia.
  - eapply Forall_impl; [exact Hops|]. intros [q|j] Hq; [|done]. cbn in *. unfold BATCH_SIZE in *. split; [lia|].
    unfold batch_take, reserve. run_m. cbn [m_size m_curr batch_new]. rewrite u64_small by lia. unfold BATCH_SIZE.
    by rewrite (proj2 (Z.ltb_ge _ _)) by lia.
  - exists p. split; [done|]. split; [apply Hok|]. split; [|apply Hok].
    intros i rs Hin. assert (is_Some (arenas p !! i)) as [b Eb].
    { apply Hok. right. by apply (list_elem_of_fmap_2 fst) in Hin. }
    exists b. split; [done|]. intros r Hr. destruct (ok_inside p Hok i rs b r Hin Eb Hr) as (? & ? & ?).
    destruct (ok_arena p Hok i b Eb) as [? _]. cbn [used batch_arena] in *. lia.
Qed.

Lemma messages_never_overlap_witness :
  ∃ p, run_pool (λ q, alloc_msg_from_buffer 96 (q - 96)) [Alloc 1096; Alloc 200; Alloc 16000; Release 1; Alloc 600]
      (pool_new (batch_new 16384)) = (Ret tt, p) ∧
    (∀ i, is_Some (arenas p !! i) ↔ i = cur p ∨ i ∈ (live p).*1) ∧
    (∀ i rs, (i, rs) ∈ live p → ∃ b, arenas p !! i = Some b ∧
      ∀ r, r ∈ rs → 0 ≤ r_off r ∧ 0 ≤ r_len r ∧ r_off r + r_len r ≤ m_size b) ∧
    (∀ j j' i rs rs' r r', j ≠ j' → live p !! j = Some (i, rs) → live p !! j' = Some (i, rs') →
      r ∈ rs → r' ∈ rs' → apart r r').
Proof.
  apply (messages_never_overlap 96 16384 [Alloc 1096; Alloc 200; Alloc 16000; Release 1; Alloc 600]);
    [done|done|]. repeat constructor; done.
Defined.

(** A message that does not fit into a new batch is built at a null pointer. *)
Lemma large_message_undefined sizeof_T additional_space p b :
  0 ≤ sizeof_T → 0 ≤ additional_space → BATCH_SIZE < sizeof_T + additional_space < 2 ^ 63 → pool_ok p →
  arenas p !! cur p = Some b → m_size b < sizeof_T + additional_space →
  (alloc_msg_from_buffer sizeof_T additional_space p).1 = Throw (undefined_behaviour "object built at a null pointer").
Proof.
  intros H0 H1 Hbig Hok Eb Hsmall. rewrite alloc_msg_alloc by (done || lia).
  unfold pool_alloc, take_from_current. run_m. rewrite Eb. cbn [take_piece batch_arena]. unfold batch_take, reserve. run_m.
  destruct (ok_arena p Hok _ b Eb) as [? _]. unfold BATCH_SIZE in *.
  rewrite u64_small, (proj2 (Z.ltb_lt _ _)) by lia. rewrite (renew_current p Hok). cbn [arena_new batch_arena].
  cbn [m_size m_curr batch_new]. rewrite u64_small by lia. by rewrite (proj2 (Z.ltb_lt _ _)) by (unfold BATCH_SIZE; lia).
Qed.
