(* ===== verification/Filters.v ===== *)
(** * The filter and demultiplexer blocks

    Models [blocks/Filter.hpp] with [PacketFilter.cpp] and [FlowFilter.cpp]
    derived from it, [ProtocolFilter.cpp], [L4Demux.cpp], [Nofrag.cpp],
    [RRDemux.cpp] and the counting of [Counter.hpp].  A handler's result is
    the list of messages it sent, with the gate where there are several.
    Packets are an interface; [inet_pton] is a parameter. *)

From S2P Require Export Xml Flow.

(** What the blocks ask a packet for. *)
Class PacketHeaderI (P : Type) := {
  l3_protocol : P → Z;
  l4_protocol : P → Z;
  ip_src : P → Z;
  ip_dst : P → Z;
  p_src_port : P → Z;
  p_dst_port : P → Z;
  p_is_tcp : P → bool;
  p_is_udp : P → bool;
  ip_fragoff : P → Z;
  p_length : P → Z
}.

(** [Packet::kPktTypeIP4], [kTCP], [kUDP] *)
Definition kPktTypeIP4 : Z := 0x0800.
Definition kTCP : Z := 6.
Definition kUDP : Z := 17.

Inductive message (P : Type) := MPacket (p : P) | MFlow (f : flow P) | MOther.
Arguments MPacket {P} _.
Arguments MFlow {P} _.
Arguments MOther {P}.

(** ** The base class *)

Definition FIELD_ACTIVE : Z := 1.
Definition FILTER_OUT : Z := 2.

Record filter_base := FilterBase {
  m_ip_src_address : Z; m_ip_src_mask : Z; m_ip_src_mode : Z;
  m_ip_dst_address : Z; m_ip_dst_mask : Z; m_ip_dst_mode : Z;
  m_layer4_proto : Z; m_layer4_mode : Z;
  m_src_port_mode : Z; m_dst_port_mode : Z
}.

Definition filter_new : filter_base := FilterBase 0 0 0 0 0 0 0 0 0 0.

Definition mode_bit (mode bit : Z) : bool := negb (Z.land mode (Z.shiftl 1 bit) =? 0).

Definition go_ahead (filter_result : bool) (filter_mode : Z) : bool :=
  (mode_bit filter_mode FILTER_OUT && negb filter_result) ||
  (negb (mode_bit filter_mode FILTER_OUT) && filter_result).

Definition is_indirect (filter_mode : Z) : bool := mode_bit filter_mode FIELD_ACTIVE.

Section base.
Context {N : Type} `{XmlNode N} (inet_pton : string → option Z).

(** [string_to_ip]; [inet_pton] stores the address in network order. *)
Definition string_to_ip (str_ip : string) : outcome Z :=
  match inet_pton str_ip with
  | Some ret_val => Ret (ntohl ret_val)
  | None => Throw (runtime_error "PacketFilter : cannot parse ip address")
  end.

Definition signal_error {A} (fieldname : string) : outcome A :=
  Throw (runtime_error ("PacketFilter:: malformed xml node for the field " ++ fieldname)).

(** [parse_filter_mode]: the result and the mode byte, set in any case. *)
Definition parse_filter_mode (field_node : N) (mode_byte : Z) : bool * Z :=
  match child field_node "filter_mode" with
  | None => (false, mode_byte)
  | Some mode =>
      let mode_byte := Z.lor mode_byte (Z.shiftl 1 FIELD_ACTIVE) in
      match attribute mode "behavior" with
      | Some behavior =>
          if bool_decide (behavior = "discard"%string) then (true, Z.lor mode_byte (Z.shiftl 1 FILTER_OUT))
          else if bool_decide (behavior = "accept"%string) then (true, mode_byte)
          else (false, mode_byte)
      | None => (false, mode_byte)
      end
  end.

(** One address field of [_configure]: address, mask and mode. *)
Definition configure_address (n : N) (field : string) (old : Z * Z * Z) : outcome (Z * Z * Z) :=
  match child n field with
  | None => Ret old
  | Some c =>
      let '(address, mask, mode) := old in
      let '(ok, mode) := parse_filter_mode c mode in
      if ok then
        match attribute c "address" with
        | None => signal_error field
        | Some a =>
            match string_to_ip a with
            | Throw e => Throw e
            | Ret address =>
                match attribute c "netmask" with
                | None => signal_error field
                | Some m =>
                    match string_to_ip m with
                    | Throw e => Throw e
                    | Ret mask => Ret (address, mask, mode)
                    end
                end
            end
        end
      else signal_error field
  end.

(** A field with one [number]: value and mode; [w] is the width of the member. *)
Definition configure_number (n : N) (field : string) (w : Z → Z) (old : Z * Z) : outcome (Z * Z) :=
  match child n field with
  | None => Ret old
  | Some c =>
      let '(ok, mode) := parse_filter_mode c old.2 in
      if ok then
        match attribute c "number" with
        | Some a => Ret (w (as_uint a), mode)
        | None => signal_error field
        end
      else signal_error field
  end.

(** [Filter::_configure] *)
Definition filter_configure (n : N) (f : filter_base) : outcome filter_base :=
  match configure_address n "ip_src" (m_ip_src_address f, m_ip_src_mask f, m_ip_src_mode f) with
  | Throw e => Throw e
  | Ret (src, src_mask, src_mode) =>
      match configure_address n "ip_dst" (m_ip_dst_address f, m_ip_dst_mask f, m_ip_dst_mode f) with
      | Throw e => Throw e
      | Ret (dst, dst_mask, dst_mode) =>
          match configure_number n "l4_protocol" u16 (m_layer4_proto f, m_layer4_mode f) with
          | Throw e => Throw e
          | Ret (proto, proto_mode) =>
              Ret (FilterBase src src_mask src_mode dst dst_mask dst_mode proto proto_mode
                     (m_src_port_mode f) (m_dst_port_mode f))
          end
      end
  end.

(** ** PacketFilter *)

Record packet_filter := PacketFilter {
  pf_base : filter_base;
  m_layer3_proto : Z;
  m_layer3_mode : Z;
  m_src_ports : list Z;
  m_dst_ports : list Z
}.

Definition packet_filter_new : packet_filter := PacketFilter filter_new 0 0 [] [].

(** The overload of [go_ahead] for a list of ports. *)
Definition ports_go_ahead (mode : Z) (port_list : list Z) (port : Z) : bool :=
  if is_indirect mode then
    let is_mode_discard := mode_bit mode FILTER_OUT in
    if existsb (Z.eqb port) port_list then negb is_mode_discard else is_mode_discard
  else true.

(** The [number] children, until one lacks its [value]. *)
Fixpoint collect_ports (field : string) (nodes : list N) (ports : list Z) : outcome (list Z) :=
  match nodes with
  | [] => Ret ports
  | c :: nodes =>
      match attribute c "value" with
      | Some a => collect_ports field nodes (ports ++ [u16 (as_uint a)])
      | None => signal_error field
      end
  end.

Definition parse_port_configuration (n : N) (field : string) (old : Z * list Z) : outcome (Z * list Z) :=
  match child n field with
  | None => Ret old
  | Some node_port =>
      let '(ok, mode) := parse_filter_mode node_port old.1 in
      if ok then
        match collect_ports field (children node_port "number") old.2 with
        | Throw e => Throw e
        | Ret [] =>
            match attribute node_port "number" with
            | None => signal_error field
            | Some a => Ret (mode, [u16 (as_uint a)])
            end
        | Ret ports => Ret (mode, ports)
        end
      else signal_error field
  end.

Definition packet_filter_configure (n : N) (f : packet_filter) : outcome packet_filter :=
  match filter_configure n (pf_base f) with
  | Throw e => Throw e
  | Ret b =>
      match configure_number n "l3_protocol" u16 (m_layer3_proto f, m_layer3_mode f) with
      | Throw e => Throw e
      | Ret (proto, mode) =>
          match parse_port_configuration n "src_port" (m_src_port_mode b, m_src_ports f) with
          | Throw e => Throw e
          | Ret (src_mode, src_ports) =>
              match parse_port_configuration n "dst_port" (m_dst_port_mode b, m_dst_ports f) with
              | Throw e => Throw e
              | Ret (dst_mode, dst_ports) =>
                  Ret (PacketFilter
                    (FilterBase (m_ip_src_address b) (m_ip_src_mask b) (m_ip_src_mode b)
                       (m_ip_dst_address b) (m_ip_dst_mask b) (m_ip_dst_mode b)
                       (m_layer4_proto b) (m_layer4_mode b) src_mode dst_mode)
                    proto mode src_ports dst_ports)
              end
          end
      end
  end.
End base.

Section blocks.
Context {P : Type} `{PacketHeaderI P}.
Implicit Types (p : P) (m : message P).

(** [PacketFilter::_receive_msg]: what is sent. *)
Definition packet_filter_receive (f : packet_filter) m : outcome (list P) :=
  let b := pf_base f in
  match m with
  | MPacket p =>
      if is_indirect (m_layer3_mode f) &&
         negb (go_ahead (m_layer3_proto f =? l3_protocol p) (m_layer3_mode f)) then Ret []
      else if negb (l3_protocol p =? kPktTypeIP4) then Ret [p]
      else if is_indirect (m_ip_src_mode b) &&
         negb (go_ahead (Z.land (m_ip_src_address b) (m_ip_src_mask b) =? Z.land (ip_src p) (m_ip_src_mask b))
                 (m_ip_src_mode b)) then Ret []
      else if is_indirect (m_ip_dst_mode b) &&
         negb (go_ahead (Z.land (m_ip_dst_address b) (m_ip_dst_mask b) =? Z.land (ip_dst p) (m_ip_dst_mask b))
                 (m_ip_dst_mode b)) then Ret []
      else if is_indirect (m_layer4_mode b) &&
         negb (go_ahead (m_layer4_proto b =? l4_protocol p) (m_layer4_mode b)) then Ret []
      else if negb (p_is_udp p) && negb (p_is_tcp p) then Ret [p]
      else if negb (ports_go_ahead (m_src_port_mode b) (m_src_ports f) (p_src_port p)) then Ret []
      else if negb (ports_go_ahead (m_dst_port_mode b) (m_dst_ports f) (p_dst_port p)) then Ret []
      else Ret [p]
  | _ => Throw (runtime_error "PacketFiler: wrong message type")
  end.

(** ** FlowFilter *)

Record flow_filter := FlowFilter { ff_base : filter_base; m_src_port : Z; m_dst_port : Z }.

Definition flow_filter_new : flow_filter := FlowFilter filter_new 0 0.

Definition flow_filter_configure {N} `{XmlNode N} (inet_pton : string → option Z) (n : N)
    (f : flow_filter) : outcome flow_filter :=
  match filter_configure inet_pton n (ff_base f) with
  | Throw e => Throw e
  | Ret b =>
      match configure_number n "src_port" u16 (m_src_port f, m_src_port_mode b) with
      | Throw e => Throw e
      | Ret (src, src_mode) =>
          match configure_number n "dst_port" u16 (m_dst_port f, m_dst_port_mode b) with
          | Throw e => Throw e
          | Ret (dst, dst_mode) =>
              Ret (FlowFilter
                (FilterBase (m_ip_src_address b) (m_ip_src_mask b) (m_ip_src_mode b)
                   (m_ip_dst_address b) (m_ip_dst_mask b) (m_ip_dst_mode b)
                   (m_layer4_proto b) (m_layer4_mode b) src_mode dst_mode)
                src dst)
          end
      end
  end.

(** [FlowFilter::_receive_msg].  [connected]: the gate has a peer, which takes
    the pointer over and leaves null; [kept]: someone still holds the flow
    after that, else reading it is undefined.  The sends are listed. *)
Definition flow_filter_receive (connected kept : bool) (f : flow_filter) m
    : outcome (list (option (flow P))) :=
  let b := ff_base f in
  match m with
  | MFlow fl =>
      let key := Flow.m_key fl in
      if is_indirect (m_ip_src_mode b) &&
         negb (go_ahead (Z.land (m_ip_src_address b) (m_ip_src_mask b) =? Z.land (src_ip4 key) (m_ip_src_mask b))
                 (m_ip_src_mode b)) then Ret []
      else if is_indirect (m_ip_dst_mode b) &&
         negb (go_ahead (Z.land (m_ip_dst_address b) (m_ip_dst_mask b) =? Z.land (dst_ip4 key) (m_ip_dst_mask b))
                 (m_ip_dst_mode b)) then Ret []
      else if is_indirect (m_layer4_mode b) &&
         negb (go_ahead (m_layer4_proto b =? proto key) (m_layer4_mode b)) then Ret []
      else
        let passed := negb (proto key =? kUDP) && negb (proto key =? kTCP) in
        let sent := if passed then [Some fl] else [] in
        let ptr := if passed && connected then None else Some fl in
        let gone := passed && connected && negb kept in
        if is_indirect (m_src_port_mode b) && gone then Throw (undefined_behaviour "flow used after move")
        else if is_indirect (m_src_port_mode b) &&
           negb (go_ahead (m_src_port f =? src_port key) (m_src_port_mode b)) then Ret sent
        else if is_indirect (m_dst_port_mode b) && gone then Throw (undefined_behaviour "flow used after move")
        else if is_indirect (m_dst_port_mode b) &&
           negb (go_ahead (m_dst_port f =? dst_port key) (m_dst_port_mode b)) then Ret sent
        else Ret (sent ++ [ptr])
  | _ => Throw (runtime_error "FlowFilter: wrong message type")
  end.

(** ** ProtocolFilter, L4Demux, Nofrag *)

Definition protocol_filter_receive (m_proto : Z) m : outcome (list P) :=
  match m with
  | MPacket p => if l3_protocol p =? m_proto then Ret [p] else Ret []
  | _ => Throw (runtime_error "PacketFiler: wrong message type")
  end.

Inductive l4_gate := out_tcp | out_udp | out_unknown.

Definition l4_demux_receive m : outcome (l4_gate * P) :=
  match m with
  | MPacket p =>
      if p_is_tcp p then Ret (out_tcp, p)
      else if p_is_udp p then Ret (out_udp, p)
      else Ret (out_unknown, p)
  | _ => Throw (runtime_error "counter: unexpected msg type")
  end.

Definition IPHDR_MF : Z := 0x8000.
Definition IPHDR_FRAGOFF (v : Z) : Z := Z.land v 0x1000.

(** [Nofrag::_receive_msg]: the test of the type builds an exception and does
    not throw it, so another message is read as a packet. *)
Definition nofrag_receive m : outcome (list P) :=
  match m with
  | MPacket p =>
      let fragoff := ntohs (ip_fragoff p) in
      if (Z.land fragoff IPHDR_MF =? 0) && (IPHDR_FRAGOFF fragoff =? 0) then Ret [p] else Ret []
  | _ => Throw (undefined_behaviour "message read as a Packet")
  end.

(** ** RRDemux *)

Record rr_demux := RRDemux { m_outgates_number : Z; m_current_outgate : Z; rr_gates : list Z }.

Definition rr_new : rr_demux := RRDemux 2 0 [].

(** The smallest [k] with [n <= 10 ^ k], which is [ceil(log10(n))]. *)
Fixpoint ceil_log10 (fuel : nat) (k pow n : Z) : Z :=
  match fuel with
  | O => k
  | S fuel => if n <=? pow then k else ceil_log10 fuel (k + 1) (pow * 10) n
  end.
(** The characters of a positive number in decimal. *)
Fixpoint decimal_length (fuel : nat) (n : Z) : Z :=
  match fuel with
  | O => 1
  | S fuel => if n <? 10 then 1 else 1 + decimal_length fuel (n / 10)
  end.

(** The loop of [_configure]: the names "output<i + 1>" with their terminator
    are written in [size] bytes. *)
Fixpoint rr_register (k : nat) (i size : Z) (gates : list Z) : outcome (list Z) :=
  match k with
  | O => Ret gates
  | S k =>
      if 6 + decimal_length 10 (i + 1) + 1 <=? size then rr_register k (i + 1) size (gates ++ [i + 1])
      else Throw (undefined_behaviour "sprintf past output_name")
  end.

Definition rr_configure (number : option Z) : M rr_demux unit :=
  modify (λ d, RRDemux (default (m_outgates_number d) number) (m_current_outgate d) (rr_gates d));;
  d ← gets id;
  let n := m_outgates_number d in
  ensure (1 <=? n) (undefined_behaviour "log10 of a number that is not positive");;
  match rr_register (Z.to_nat n) 0 (7 + ceil_log10 10 0 1 n) (rr_gates d) with
  | Throw e => throw e
  | Ret gates => modify (λ d, RRDemux (m_outgates_number d) (m_current_outgate d) gates)
  end.

(** [RRDemux::_receive_msg]: the gate the message goes to. *)
Definition rr_receive : M rr_demux Z :=
  g ← gets m_current_outgate;
  modify (λ d, RRDemux (m_outgates_number d) (m_current_outgate d + 1) (rr_gates d));;
  modify (λ d, if m_outgates_number d <=? m_current_outgate d
               then RRDemux (m_outgates_number d) 0 (rr_gates d) else d);;
  mret g.

Fixpoint rr_run (k : nat) : M rr_demux (list Z) :=
  match k with
  | O => mret []
  | S k => g ← rr_receive; gs ← rr_run k; mret (g :: gs)
  end.

(** ** Counter *)

Record counter_block := CounterBlock { m_flow_cnt : Z; m_pkt_cnt : Z; m_byte_cnt : Z; m_reset : Z }.

Definition counter_receive m : M counter_block unit :=
  match m with
  | MOther => throw (runtime_error "wrong message type in counter")
  | _ =>
      modify (λ c, if m_reset c =? 1 then CounterBlock 0 0 0 0 else c);;
      modify (λ c,
        match m with
        | MFlow f => CounterBlock (u64 (m_flow_cnt c + 1)) (u64 (m_pkt_cnt c + m_packets f))
                       (u64 (m_byte_cnt c + m_bytes f)) (m_reset c)
        | MPacket p => CounterBlock (m_flow_cnt c) (u64 (m_pkt_cnt c + 1))
                         (u64 (m_byte_cnt c + p_length p)) (m_reset c)
        | MOther => c
        end)
  end.
End blocks.

(** ** What a configuration selects *)

(** One field's condition: absent, or whether a match is discarded, with what
    is matched. *)
Definition field_ok {A} (r : option (bool * A)) (matches : A → bool) : bool :=
  match r with
  | None => true
  | Some (discard, a) => xorb discard (matches a)
  end.

Record selection := Selection {
  want_src : option (bool * (Z * Z));
  want_dst : option (bool * (Z * Z));
  want_l4 : option (bool * Z);
  want_l3 : option (bool * Z);
  want_sports : option (bool * list Z);
  want_dports : option (bool * list Z)
}.

Definition in_net (addr : Z) (net : Z * Z) : bool := Z.land net.1 net.2 =? Z.land addr net.2.

(** The fields that exist in the packet satisfy their conditions. *)
Definition selects_packet {P} `{PacketHeaderI P} (w : selection) (p : P) : bool :=
  field_ok (want_l3 w) (λ v, v =? l3_protocol p) &&
  (negb (l3_protocol p =? kPktTypeIP4) ||
   (field_ok (want_src w) (in_net (ip_src p)) && field_ok (want_dst w) (in_net (ip_dst p)) &&
    field_ok (want_l4 w) (λ v, v =? l4_protocol p) &&
    (negb (p_is_udp p || p_is_tcp p) ||
     (field_ok (want_sports w) (existsb (Z.eqb (p_src_port p))) &&
      field_ok (want_dports w) (existsb (Z.eqb (p_dst_port p))))))).

(** All conditions, as the block's description has them, and that the packet has the
    headers they are about. *)
Definition matches_all {P} `{PacketHeaderI P} (w : selection) (p : P) : bool :=
  field_ok (want_l3 w) (λ v, v =? l3_protocol p) &&
  field_ok (want_src w) (in_net (ip_src p)) && field_ok (want_dst w) (in_net (ip_dst p)) &&
  field_ok (want_l4 w) (λ v, v =? l4_protocol p) &&
  field_ok (want_sports w) (existsb (Z.eqb (p_src_port p))) && field_ok (want_dports w) (existsb (Z.eqb (p_dst_port p))).

Definition given {A} (r : option A) : bool := match r with Some _ => true | None => false end.

Definition has_headers {P} `{PacketHeaderI P} (w : selection) (p : P) : bool :=
  let ports := given (want_sports w) || given (want_dports w) in
  ((l3_protocol p =? kPktTypeIP4) || negb (given (want_src w) || given (want_dst w) || given (want_l4 w) || ports)) &&
  (p_is_udp p || p_is_tcp p || negb ports).

Lemma selects_matches {P} `{PacketHeaderI P} (w : selection) (p : P) :
  has_headers w p = true → selects_packet w p = matches_all w p.
Proof.
  unfold has_headers, selects_packet, matches_all. intros [H1 H2]%andb_prop.
  destruct (field_ok (want_l3 w) _), (l3_protocol p =? kPktTypeIP4), (p_is_udp p), (p_is_tcp p), (want_src w), (want_dst w),
    (want_l4 w), (want_sports w), (want_dports w); cbn in H1, H2 |- *; try done; by rewrite ?andb_true_r, ?andb_assoc.
Qed.

Section describes.
Context {N : Type} `{XmlNode N} (inet_pton : string → option Z).

(** The node of a field holds the condition. *)
Definition describes_mode (c : N) (discard : bool) : Prop :=
  ∃ m, child c "filter_mode" = Some m ∧
    attribute m "behavior" = Some (if discard then "discard" else "accept")%string.

Definition describes_address (n : N) (field : string) (r : option (bool * (Z * Z))) : Prop :=
  match r with
  | None => child n field = None
  | Some (d, (a, m)) => ∃ c sa sm, child n field = Some c ∧ describes_mode c d ∧
      attribute c "address" = Some sa ∧ inet_pton sa = Some (htonl a) ∧
      attribute c "netmask" = Some sm ∧ inet_pton sm = Some (htonl m) ∧
      0 ≤ a < 2 ^ 32 ∧ 0 ≤ m < 2 ^ 32
  end.

Definition describes_number (n : N) (field : string) (r : option (bool * Z)) : Prop :=
  match r with
  | None => child n field = None
  | Some (d, v) => ∃ c s, child n field = Some c ∧ describes_mode c d ∧
      attribute c "number" = Some s ∧ as_uint s = v ∧ 0 ≤ v < 2 ^ 16
  end.

(** Ports: [number] children with a [value] each, or one [number] attribute. *)
Definition describes_ports (n : N) (field : string) (r : option (bool * list Z)) : Prop :=
  match r with
  | None => child n field = None
  | Some (d, ports) => ∃ c, child n field = Some c ∧ describes_mode c d ∧
      Forall (λ v, 0 ≤ v < 2 ^ 16) ports ∧
      ((ports ≠ [] ∧
        Forall2 (λ k v, ∃ s, attribute k "value" = Some s ∧ as_uint s = v) (children c "number") ports) ∨
       (children c "number" = [] ∧
        ∃ v s, ports = [v] ∧ attribute c "number" = Some s ∧ as_uint s = v))
  end.

(** The fields both filters have, then those of each. *)
Record describes_base (n : N) (w : selection) : Prop := {
  d_src : describes_address n "ip_src" (want_src w);
  d_dst : describes_address n "ip_dst" (want_dst w);
  d_l4 : describes_number n "l4_protocol" (want_l4 w)
}.

Record describes (n : N) (w : selection) : Prop := {
  d_base : describes_base n w;
  d_l3 : describes_number n "l3_protocol" (want_l3 w);
  d_sports : describes_ports n "src_port" (want_sports w);
  d_dports : describes_ports n "dst_port" (want_dports w)
}.

(** A flow has one source and one destination port, and the block takes one number. *)
Record describes_flow (n : N) (w : selection) (sport dport : option (bool * Z)) : Prop := {
  df_base : describes_base n w;
  df_sports : describes_number n "src_port" sport;
  df_dports : describes_number n "dst_port" dport
}.

(** The mode byte of a field, from zero. *)
Definition mode_of {A} (r : option (bool * A)) : Z :=
  match r with None => 0 | Some (d, _) => if d then 6 else 2 end.

Lemma parse_mode c d : describes_mode c d → parse_filter_mode c 0 = (true, if d then 6 else 2).
Proof. intros (m & Hm & Ha). unfold parse_filter_mode. rewrite Hm, Ha. by destruct d. Qed.

Lemma configure_address_spec n field r :
  describes_address n field r →
  configure_address inet_pton n field (0, 0, 0) =
  Ret (match r with Some (_, (a, m)) => (a, m) | None => (0, 0) end, mode_of r).
Proof.
  unfold configure_address, string_to_ip. destruct r as [[d [a m]]|]; simpl.
  - intros (c & sa & sm & Hc & Hd & Ha & Hpa & Hm & Hpm & Ra & Rm).
    rewrite Hc, (parse_mode c d Hd), Ha, Hm, Hpa, Hpm.
    unfold ntohl, htonl. rewrite !bswap_bswap, !Z.mod_small by done. by destruct d.
  - by intros ->.
Qed.

Lemma configure_number_spec n field r :
  describes_number n field r →
  configure_number n field u16 (0, 0) =
  Ret (match r with Some (_, v) => v | None => 0 end, mode_of r).
Proof.
  unfold configure_number. destruct r as [[d v]|]; simpl.
  - intros (c & s & Hc & Hd & Ha & Hv & Rv).
    rewrite Hc, (parse_mode c d Hd), Ha, Hv, u16_small by done. by destruct d.
  - by intros ->.
Qed.

Lemma collect_ports_spec field nodes ports acc :
  Forall (λ v, 0 ≤ v < 2 ^ 16) ports →
  Forall2 (λ k v, ∃ s, attribute k "value" = Some s ∧ as_uint s = v) nodes ports →
  collect_ports field nodes acc = Ret (acc ++ ports).
Proof.
  intros Hr Hf. revert acc Hr. induction Hf as [|k v nodes ports (s & Hs & Hv) Hf IH]; intros acc Hr; simpl.
  - by rewrite app_nil_r.
  - apply Forall_cons in Hr as [Rv Hr].
    rewrite Hs, Hv, u16_small, IH by done. by rewrite <- app_assoc.
Qed.

Lemma parse_port_configuration_spec n field r :
  describes_ports n field r →
  parse_port_configuration n field (0, []) =
  Ret (mode_of r, match r with Some (_, l) => l | None => [] end).
Proof.
  unfold parse_port_configuration. destruct r as [[d ports]|]; simpl.
  - intros (c & Hc & Hd & Hr & Hp). rewrite Hc, (parse_mode c d Hd).
    destruct Hp as [[Hne Hp]|(Hk & v & s & -> & Ha & Hv)].
    + rewrite (collect_ports_spec _ _ ports []) by done. destruct ports; [done|]. by destruct d.
    + rewrite Hk. simpl. apply Forall_inv in Hr. rewrite Ha, Hv, u16_small by done. by destruct d.
  - by intros ->.
Qed.

(** What the mode bytes of [mode_of] do. *)
Lemma go_ahead_mode {A} (r : option (bool * A)) (matches : A → bool) (b : bool) :
  (∀ d a, r = Some (d, a) → matches a = b) →
  is_indirect (mode_of r) && negb (go_ahead b (mode_of r)) = negb (field_ok r matches).
Proof.
  intros Hb. destruct r as [[d a]|]; [|done]. simpl.
  rewrite (Hb d a eq_refl). by destruct d, b.
Qed.

Lemma ports_go_ahead_mode (r : option (bool * list Z)) port :
  ports_go_ahead (mode_of r) (match r with Some (_, l) => l | None => [] end) port =
  field_ok r (existsb (Z.eqb port)).
Proof.
  unfold ports_go_ahead. destruct r as [[d l]|]; [|done]. simpl.
  destruct d; simpl; by destruct (existsb _ l).
Qed.

(** The configured base of either filter. *)
Definition base_of (w : selection) : filter_base :=
  let net r := match r with Some (_, x) => x | None => (0, 0) end in
  FilterBase (net (want_src w)).1 (net (want_src w)).2 (mode_of (want_src w))
    (net (want_dst w)).1 (net (want_dst w)).2 (mode_of (want_dst w))
    (match want_l4 w with Some (_, v) => v | None => 0 end) (mode_of (want_l4 w)) 0 0.

Lemma filter_configure_spec n w :
  describes_base n w → filter_configure inet_pton n filter_new = Ret (base_of w).
Proof.
  intros D. unfold filter_configure, filter_new, m_ip_src_address, m_ip_src_mask, m_ip_src_mode,
    m_ip_dst_address, m_ip_dst_mask, m_ip_dst_mode, m_layer4_proto, m_layer4_mode,
    m_src_port_mode, m_dst_port_mode.
  rewrite (configure_address_spec n _ _ (d_src n w D)), (configure_address_spec n _ _ (d_dst n w D)),
    (configure_number_spec n _ _ (d_l4 n w D)).
  unfold base_of. by destruct (want_src w) as [[? []]|], (want_dst w) as [[? []]|].
Qed.
End describes.

(** C29: a packet filter configured by a node that describes a selection sends a
    packet that has the headers which the conditions are about on exactly when it
    matches all of them, as the block's description says: absent conditions accept,
    those in mode [discard] are negated, addresses are compared under the mask and ports
    searched in the list.  Of any other packet only the conditions on headers it has
    count, and that differs from the description ([missing_header_passes]). *)
Theorem packet_filter_selects {N} `{XmlNode N} (inet_pton : string → option Z) (n : N) (w : selection) :
  describes inet_pton n w →
  ∃ f, packet_filter_configure inet_pton n packet_filter_new = Ret f ∧
    ∀ P (HP : PacketHeaderI P) (p : P),
      (has_headers w p = true → packet_filter_receive f (MPacket p) = Ret (if matches_all w p then [p] else [])) ∧
      packet_filter_receive f (MPacket p) = Ret (if selects_packet w p then [p] else []).
Proof.
  intros D. unfold packet_filter_configure, packet_filter_new. cbn [pf_base m_layer3_proto m_layer3_mode
    m_src_ports m_dst_ports].
  rewrite (filter_configure_spec inet_pton n w (d_base _ n w D)), (configure_number_spec n _ _ (d_l3 _ n w D)).
  change (m_src_port_mode (base_of w)) with 0. change (m_dst_port_mode (base_of w)) with 0.
  rewrite (parse_port_configuration_spec n _ _ (d_sports _ n w D)),
    (parse_port_configuration_spec n _ _ (d_dports _ n w D)).
  eexists. split; [done|]. intros P HP p.
  match goal with |- (_ → ?l = _) ∧ _ => enough (l = Ret (if selects_packet w p then [p] else [])) as E
    by (split; [intros Hh; by rewrite E, selects_matches|done]) end.
  unfold packet_filter_receive, selects_packet, base_of.
  cbn [pf_base m_layer3_mode m_layer3_proto m_ip_src_address m_ip_src_mask m_ip_src_mode
    m_ip_dst_address m_ip_dst_mask m_ip_dst_mode m_layer4_proto m_layer4_mode
    m_src_port_mode m_dst_port_mode m_src_ports m_dst_ports].
  rewrite !ports_go_ahead_mode.
  rewrite (go_ahead_mode (want_l3 w) (λ v, v =? l3_protocol p)) by (by intros d a ->).
  rewrite (go_ahead_mode (want_src w) (in_net (ip_src p))) by (by intros d [a m] ->).
  rewrite (go_ahead_mode (want_dst w) (in_net (ip_dst p))) by (by intros d [a m] ->).
  rewrite (go_ahead_mode (want_l4 w) (λ v, v =? l4_protocol p)) by (by intros d a ->).
  destruct (field_ok (want_l3 w) _), (l3_protocol p =? kPktTypeIP4), (field_ok (want_src w) _),
    (field_ok (want_dst w) _), (field_ok (want_l4 w) _), (p_is_udp p), (p_is_tcp p),
    (field_ok (want_sports w) _), (field_ok (want_dports w) _); reflexivity.
Qed.

(** A packet without the header that a condition is about is sent on: one that is not
    IPv4 whatever the filter wants of addresses, protocol and ports, and one that is
    neither UDP nor TCP whatever it wants of the ports. *)
Lemma missing_header_passes {P} `{PacketHeaderI P} (f : packet_filter) (p : P) :
  is_indirect (m_layer3_mode f) = false →
  (l3_protocol p ≠ kPktTypeIP4 ∨
   (let b := pf_base f in
    is_indirect (m_ip_src_mode b) = false ∧ is_indirect (m_ip_dst_mode b) = false ∧ is_indirect (m_layer4_mode b) = false ∧
    p_is_udp p = false ∧ p_is_tcp p = false)) →
  packet_filter_receive f (MPacket p) = Ret [p].
Proof.
  intros H3 Hp. unfold packet_filter_receive. rewrite H3. cbn [andb].
  destruct Hp as [Hp|(-> & -> & -> & -> & ->)]; [by rewrite (proj2 (Z.eqb_neq _ _) Hp)|].
  by destruct (negb _).
Qed.

(** The conditions on the fields of a flow's key; one port each. *)
Definition selects_key (w : selection) (k : FlowKey) : bool :=
  field_ok (want_src w) (in_net (src_ip4 k)) && field_ok (want_dst w) (in_net (dst_ip4 k)) &&
  field_ok (want_l4 w) (λ v, v =? proto k).

Definition selects_ports (sport dport : option (bool * Z)) (k : FlowKey) : bool :=
  field_ok sport (λ v, v =? src_port k) && field_ok dport (λ v, v =? dst_port k).

Lemma flow_filter_receive_spec {N} `{XmlNode N} (inet_pton : string → option Z) (n : N) w sport dport :
  describes_flow inet_pton n w sport dport →
  ∃ f, flow_filter_configure inet_pton n flow_filter_new = Ret f ∧
    ∀ P (fl : flow P) connected,
      let passed := negb (proto (Flow.m_key fl) =? kUDP) && negb (proto (Flow.m_key fl) =? kTCP) in
      flow_filter_receive connected true f (MFlow fl) =
      Ret (if selects_key w (Flow.m_key fl) then
             (if passed then [Some fl] else []) ++
             (if selects_ports sport dport (Flow.m_key fl)
              then [if passed && connected then None else Some fl] else [])
           else []).
Proof.
  intros D. unfold flow_filter_configure, flow_filter_new. cbn [ff_base m_src_port m_dst_port].
  rewrite (filter_configure_spec inet_pton n w (df_base _ n w _ _ D)).
  change (m_src_port_mode (base_of w)) with 0. change (m_dst_port_mode (base_of w)) with 0.
  rewrite (configure_number_spec n _ _ (df_sports _ n w _ _ D)),
    (configure_number_spec n _ _ (df_dports _ n w _ _ D)).
  eexists. split; [done|]. intros P fl connected. cbn zeta.
  unfold flow_filter_receive, selects_key, selects_ports, base_of.
  cbn [ff_base m_ip_src_address m_ip_src_mask m_ip_src_mode m_src_port m_dst_port
    m_ip_dst_address m_ip_dst_mask m_ip_dst_mode m_layer4_proto m_layer4_mode
    m_src_port_mode m_dst_port_mode].
  rewrite (go_ahead_mode (want_src w) (in_net (src_ip4 (Flow.m_key fl)))) by (by intros d [a m] ->).
  rewrite (go_ahead_mode (want_dst w) (in_net (dst_ip4 (Flow.m_key fl)))) by (by intros d [a m] ->).
  rewrite (go_ahead_mode (want_l4 w) (λ v, v =? proto (Flow.m_key fl))) by (by intros d a ->).
  rewrite (go_ahead_mode sport (λ v, v =? src_port (Flow.m_key fl))) by (by intros d a ->).
  rewrite (go_ahead_mode dport (λ v, v =? dst_port (Flow.m_key fl))) by (by intros d a ->).
  rewrite !andb_false_r.
  set (passed := negb _ && negb _).
  destruct (field_ok (want_src w) _), (field_ok (want_dst w) _), (field_ok (want_l4 w) _),
    (field_ok sport _), (field_ok dport _), passed, connected; reflexivity.
Qed.

(** A configured flow filter sends a TCP or UDP flow on exactly when its
    key satisfies the conditions. *)
Theorem flow_filter_selects {N} `{XmlNode N} (inet_pton : string → option Z) (n : N) w sport dport :
  describes_flow inet_pton n w sport dport →
  ∃ f, flow_filter_configure inet_pton n flow_filter_new = Ret f ∧
    ∀ P (fl : flow P) connected,
      proto (Flow.m_key fl) = kTCP ∨ proto (Flow.m_key fl) = kUDP →
      flow_filter_receive connected true f (MFlow fl) =
      Ret (if selects_key w (Flow.m_key fl) && selects_ports sport dport (Flow.m_key fl)
           then [Some fl] else []).
Proof.
  intros D. destruct (flow_filter_receive_spec inet_pton n w sport dport D) as (f & Ef & Hf).
  exists f. split; [done|]. intros P fl connected Hp. rewrite Hf.
  assert (negb (proto (Flow.m_key fl) =? kUDP) && negb (proto (Flow.m_key fl) =? kTCP) = false) as ->.
  { destruct Hp as [-> | ->]; reflexivity. }
  by destruct (selects_key _ _), (selects_ports _ _ _).
Qed.

(** Any other flow that satisfies the address and protocol conditions of a
    filter without port conditions is sent twice, the second time as a null
    pointer when the gate is connected. *)
Theorem flow_filter_sends_twice {N} `{XmlNode N} (inet_pton : string → option Z) (n : N) w :
  describes_flow inet_pton n w None None →
  ∃ f, flow_filter_configure inet_pton n flow_filter_new = Ret f ∧
    ∀ P (fl : flow P) connected,
      proto (Flow.m_key fl) ≠ kTCP → proto (Flow.m_key fl) ≠ kUDP →
      selects_key w (Flow.m_key fl) = true →
      flow_filter_receive connected true f (MFlow fl) =
      Ret [Some fl; if connected then None else Some fl].
Proof.
  intros D. destruct (flow_filter_receive_spec inet_pton n w None None D) as (f & Ef & Hf).
  exists f. split; [done|]. intros P fl connected H1 H2 Hs. rewrite Hf, Hs.
  apply Z.eqb_neq in H1, H2. rewrite H1, H2. done.
Qed.

(** A concrete configuration: discard the source net 10.0.0.0/8, accept the
    destination ports 80 and 443. *)
Definition sample_pton (s : string) : option Z :=
  if bool_decide (s = "10.0.0.0"%string) then Some (htonl 0x0a000000)
  else if bool_decide (s = "255.0.0.0"%string) then Some (htonl 0xff000000) else None.

Definition sample_mode (b : string) : xml := Elem "filter_mode" [("behavior", b)] [].

Definition sample_src : xml :=
  Elem "ip_src" [("address", "10.0.0.0"); ("netmask", "255.0.0.0")]%string [sample_mode "discard"].

Definition sample_params : xml :=
  Elem "params" [] [sample_src;
    Elem "dst_port" [] [sample_mode "accept"; Elem "number" [("value", "80")]%string [];
                        Elem "number" [("value", "443")]%string []]].

Definition sample_selection : selection :=
  Selection (Some (true, (0x0a000000, 0xff000000))) None None None None (Some (false, [80; 443])).

Lemma sample_src_described n :
  child n "ip_src" = Some sample_src →
  describes_address sample_pton n "ip_src" (want_src sample_selection).
Proof.
  intros Hc. exists sample_src, "10.0.0.0"%string, "255.0.0.0"%string.
  split_and!; try done. by exists (sample_mode "discard").
Qed.

Lemma packet_filter_selects_witness :
  ∃ f, packet_filter_configure sample_pton sample_params packet_filter_new = Ret f ∧
    ∀ P (HP : PacketHeaderI P) (p : P),
      (has_headers sample_selection p = true →
        packet_filter_receive f (MPacket p) = Ret (if matches_all sample_selection p then [p] else [])) ∧
      packet_filter_receive f (MPacket p) = Ret (if selects_packet sample_selection p then [p] else []).
Proof.
  apply (packet_filter_selects sample_pton sample_params sample_selection).
  constructor; [constructor; [by apply sample_src_described|done|done]|done|done|].
  eexists. split; [reflexivity|]. split; [by exists (sample_mode "accept")|].
  split; [repeat constructor; lia|]. left. split; [done|].
  repeat constructor; eexists; split; reflexivity.
Defined.

Definition sample_flow_params : xml :=
  Elem "params" [] [sample_src; Elem "dst_port" [("number", "80")]%string [sample_mode "accept"]].

Lemma flow_filter_selects_witness :
  ∃ f, flow_filter_configure sample_pton sample_flow_params flow_filter_new = Ret f ∧
    ∀ P (fl : flow P) connected,
      proto (Flow.m_key fl) = kTCP ∨ proto (Flow.m_key fl) = kUDP →
      flow_filter_receive connected true f (MFlow fl) =
      Ret (if selects_key sample_selection (Flow.m_key fl) &&
              selects_ports None (Some (false, 80)) (Flow.m_key fl)
           then [Some fl] else []).
Proof.
  apply (flow_filter_selects sample_pton sample_flow_params sample_selection None (Some (false, 80))).
  split; [split; [by apply sample_src_described|done|done]|done|].
  eexists _, "80"%string. split_and!; try reflexivity; [by exists (sample_mode "accept")|lia].
Defined.

Lemma flow_filter_sends_twice_witness :
  ∃ f, flow_filter_configure sample_pton (Elem "params" [] [sample_src]) flow_filter_new = Ret f ∧
    ∀ P (fl : flow P) connected,
      proto (Flow.m_key fl) ≠ kTCP → proto (Flow.m_key fl) ≠ kUDP →
      selects_key sample_selection (Flow.m_key fl) = true →
      flow_filter_receive connected true f (MFlow fl) =
      Ret [Some fl; if connected then None else Some fl].
Proof.
  apply (flow_filter_sends_twice sample_pton (Elem "params" [] [sample_src]) sample_selection).
  constructor; [constructor; [by apply sample_src_described|done|done]|done|done].
Defined.

(** ** The fragments Nofrag lets through *)

Lemma land_pow2 v k : 0 ≤ k → Z.land v (2 ^ k) = if Z.testbit v k then 2 ^ k else 0.
Proof.
  intros Hk. apply Z.bits_inj'. intros i Hi. rewrite Z.land_spec, Z.pow2_bits_eqb by done.
  destruct (Z.eqb_spec k i) as [->|Hne].
  - destruct (Z.testbit v i); [by rewrite Z.pow2_bits_true|by rewrite Z.bits_0].
  - rewrite andb_false_r. destruct (Z.testbit v k); [by rewrite Z.pow2_bits_false|by rewrite Z.bits_0].
Qed.

(** A packet whose header has the more-fragments flag of IPv4 (0x2000) and
    any fragment offset below 4096 passes the block that is to stop fragments. *)
Theorem nofrag_passes_fragments {P} `{PacketHeaderI P} (p : P) offset :
  0 ≤ offset < 0x1000 → ntohs (ip_fragoff p) = Z.lor 0x2000 offset →
  nofrag_receive (MPacket p) = Ret [p].
Proof.
  intros Ho E. cbn [nofrag_receive]. rewrite E. unfold IPHDR_FRAGOFF, IPHDR_MF.
  change 0x8000 with (2 ^ 15). change 0x1000 with (2 ^ 12). rewrite !land_pow2 by done.
  assert (∀ k, 12 ≤ k → Z.testbit offset k = false) as Hk.
  { intros k Hk. rewrite Z.testbit_odd, Z.shiftr_div_pow2, Z.div_small; [done| |lia].
    pose proof (Z.pow_le_mono_r 2 12 k). lia. }
  rewrite !Z.lor_spec, !Hk by lia. done.
Qed.

(** A fragment's header: only the field that matters differs from zero. *)
#[export] Instance fragment_header : PacketHeaderI Z := {|
  l3_protocol _ := kPktTypeIP4; l4_protocol _ := kUDP; ip_src _ := 0; ip_dst _ := 0;
  p_src_port _ := 0; p_dst_port _ := 0; p_is_tcp _ := false; p_is_udp _ := true;
  ip_fragoff v := v; p_length _ := 0
|}.

Lemma nofrag_passes_fragments_witness :
  ntohs (ip_fragoff (htons 0x20b9)) = Z.lor 0x2000 0xb9 ∧ nofrag_receive (MPacket (htons 0x20b9)) = Ret [htons 0x20b9].
Proof.
  split; [reflexivity|]. apply (nofrag_passes_fragments (htons 0x20b9) 0xb9); [lia|reflexivity].
Defined.

(** ** RRDemux *)

Lemma rr_run_spec k d n :
  m_outgates_number d = n → 0 ≤ m_current_outgate d < n →
  rr_run k d = (Ret ((λ i, (m_current_outgate d + i) `mod` n) <$> seqZ 0 (Z.of_nat k)),
    RRDemux n ((m_current_outgate d + Z.of_nat k) `mod` n) (rr_gates d)).
Proof.
  revert d. induction k as [|k IH]; intros [n0 c gs]; cbn [m_outgates_number m_current_outgate rr_gates];
    intros -> Hc.
  - cbn [rr_run]. run_m. by rewrite Z.add_0_r, Z.mod_small.
  - cbn [rr_run]. set (d' := RRDemux n ((c + 1) `mod` n) gs).
    assert (rr_receive (RRDemux n c gs) = (Ret c, d')) as E.
    { unfold rr_receive, d'. run_m. cbn [m_outgates_number m_current_outgate rr_gates].
      destruct (Z.leb_spec n (c + 1)).
      - replace (c + 1) with n by lia. by rewrite Z.mod_same by lia.
      - by rewrite Z.mod_small by lia. }
    rewrite (bind_Ret _ _ _ _ _ E).
    pose proof (Z.mod_pos_bound (c + 1) n ltac:(lia)) as Hb.
    rewrite (bind_Ret _ _ _ _ _ (IH d' eq_refl Hb)). run_m. unfold d'.
    cbn [m_outgates_number m_current_outgate rr_gates].
    rewrite (seqZ_cons 0 (Z.of_nat (S k))) by lia.
    replace (Z.pred (Z.of_nat (S k))) with (Z.of_nat k) by lia.
    change (Z.succ 0) with (1 + 0). rewrite fmap_cons, Z.add_0_r, (Z.mod_small c) by done.
    rewrite <- (fmap_add_seqZ 1 0), <- list_fmap_compose, Z.add_mod_idemp_l by lia.
    replace (c + 1 + Z.of_nat k) with (c + Z.of_nat (S k)) by lia.
    f_equal. f_equal. f_equal. apply list_fmap_ext. intros _ i _. cbn [compose].
    rewrite Z.add_mod_idemp_l by lia. f_equal. lia.
Qed.

(** The size of the name's buffer against the decimal length of its number. *)
Lemma ceil_log10_spec j fuel k n :
  10 ^ (k + Z.of_nat j) < n → n <= 10 ^ (k + Z.of_nat j + 1) → (S j < fuel)%nat → 0 ≤ k →
  ceil_log10 fuel k (10 ^ k) n = k + Z.of_nat j + 1.
Proof.
  revert fuel k. induction j as [|j IH]; intros [|[|fuel]] k Hlo Hhi Hf Hk; try lia;
    cbn [ceil_log10].
  - rewrite Z.add_0_r in *. rewrite (proj2 (Z.leb_gt _ _)) by lia.
    rewrite Z.pow_add_r in Hhi by lia. change (10 ^ 1) with 10 in Hhi.
    rewrite (proj2 (Z.leb_le _ _)) by lia. lia.
  - pose proof (Z.pow_le_mono_r 10 k (k + Z.of_nat (S j))).
    rewrite (proj2 (Z.leb_gt _ _)) by lia.
    replace (10 ^ k * 10) with (10 ^ (k + 1)) by (rewrite Z.pow_add_r by lia; done).
    specialize (IH (S fuel) (k + 1)). cbn [ceil_log10] in IH. rewrite IH; try lia.
    + by replace (k + 1 + Z.of_nat j) with (k + Z.of_nat (S j)) by lia.
    + by replace (k + 1 + Z.of_nat j + 1) with (k + Z.of_nat (S j) + 1) by lia.
Qed.

Lemma decimal_length_spec j fuel n :
  10 ^ Z.of_nat j <= n < 10 ^ (Z.of_nat j + 1) → (j < fuel)%nat → decimal_length fuel n = Z.of_nat j + 1.
Proof.
  revert fuel n. induction j as [|j IH]; intros [|fuel] n Hn Hf; try lia; cbn [decimal_length].
  - change (10 ^ Z.of_nat 0) with 1 in Hn. change (10 ^ (Z.of_nat 0 + 1)) with 10 in Hn.
    rewrite (proj2 (Z.ltb_lt _ _)) by lia. done.
  - replace (Z.of_nat (S j)) with (Z.of_nat j + 1) in Hn by lia.
    rewrite !Z.pow_add_r in Hn by lia. change (10 ^ 1) with 10 in Hn.
    pose proof (Z.pow_pos_nonneg 10 (Z.of_nat j)).
    rewrite (proj2 (Z.ltb_ge _ _)) by lia. rewrite IH by (rewrite ?Z.pow_add_r; lia || (split; [apply Z.div_le_lower_bound|apply Z.div_lt_upper_bound]; rewrite ?Z.pow_add_r by lia; lia)).
    lia.
Qed.

Lemma decimal_length_bounds j n :
  1 ≤ n < 10 ^ (Z.of_nat j + 1) → (j < 10)%nat → decimal_length 10 n ≤ Z.of_nat j + 1.
Proof.
  induction j as [|j IH]; intros Hn Hj.
  - rewrite (decimal_length_spec 0) by (rewrite ?Z.pow_0_r; simpl Z.of_nat in *; lia). lia.
  - destruct (Z.lt_ge_cases n (10 ^ (Z.of_nat j + 1))) as [Hlt|Hge]; [specialize (IH ltac:(lia) ltac:(lia)); lia|].
    rewrite (decimal_length_spec (S j)); [lia| |lia].
    replace (Z.of_nat (S j)) with (Z.of_nat j + 1) in * by lia. lia.
Qed.

Lemma rr_register_ok k i size gates :
  (∀ v, i < v ≤ i + Z.of_nat k → 7 + decimal_length 10 v ≤ size) →
  rr_register k i size gates = Ret (gates ++ seqZ (i + 1) (Z.of_nat k)).
Proof.
  revert i gates. induction k as [|k IH]; intros i gates Hs; cbn [rr_register].
  - by rewrite app_nil_r.
  - rewrite (proj2 (Z.leb_le _ _)) by (specialize (Hs (i + 1)); lia).
    rewrite IH by (intros v Hv; apply Hs; lia).
    rewrite (seqZ_cons (i + 1) (Z.of_nat (S k))), <- app_assoc by lia.
    by replace (Z.pred (Z.of_nat (S k))) with (Z.of_nat k) by lia.
Qed.

Lemma rr_register_fails k i size gates v :
  i < v ≤ i + Z.of_nat k → size < 7 + decimal_length 10 v →
  rr_register k i size gates = Throw (undefined_behaviour "sprintf past output_name").
Proof.
  revert i gates. induction k as [|k IH]; intros i gates Hv Hs; cbn [rr_register]; [lia|].
  destruct (Z.leb_spec (6 + decimal_length 10 (i + 1) + 1) size); [|done].
  apply IH; [|done]. assert (v ≠ i + 1) by (intros ->; lia). lia.
Qed.

(** A demultiplexer configured with [n] gates, [n] not a power of ten,
    registers the gates 1 to [n] and sends the [i]-th message it receives
    through the gate with index [i mod n]. *)
Theorem rr_demux_round_robin j n k :
  (j < 9)%nat → 10 ^ Z.of_nat j < n < 10 ^ (Z.of_nat j + 1) →
  (rr_configure (Some n);; rr_run k) rr_new =
  (Ret ((λ i, i `mod` n) <$> seqZ 0 (Z.of_nat k)), RRDemux n (Z.of_nat k `mod` n) (seqZ 1 n)).
Proof.
  intros Hj Hn. pose proof (Z.pow_pos_nonneg 10 (Z.of_nat j)).
  assert (rr_configure (Some n) rr_new = (Ret tt, RRDemux n 0 (seqZ 1 n))) as E.
  { unfold rr_configure, rr_new. run_m. cbn [m_outgates_number m_current_outgate rr_gates default].
    rewrite (proj2 (Z.leb_le _ _)) by lia.
    change (ceil_log10 10 0 1 n) with (ceil_log10 10 0 (10 ^ 0) n).
    rewrite (ceil_log10_spec j 10 0 n) by (rewrite ?Z.add_0_l; lia).
    rewrite rr_register_ok; [by rewrite Z2Nat.id by lia|].
    intros v Hv. pose proof (decimal_length_bounds j v). lia. }
  rewrite (bind_Ret _ _ _ _ _ E), (rr_run_spec k _ n) by (cbn; lia). done.
Qed.

Lemma rr_demux_round_robin_witness :
  (rr_configure (Some 3);; rr_run 5) rr_new = (Ret [0; 1; 2; 0; 1], RRDemux 3 2 [1; 2; 3]).
Proof. refine (rr_demux_round_robin 0 3 5 _ _); cbn; lia. Defined.

(** Configured with a power of ten as number of gates, [_configure] writes
    the last gate's name past the end of its buffer. *)
Theorem rr_demux_overflow j :
  (j ≤ 9)%nat → rr_configure (Some (10 ^ Z.of_nat j)) rr_new =
    (Throw (undefined_behaviour "sprintf past output_name"), RRDemux (10 ^ Z.of_nat j) 0 []).
Proof.
  intros Hj. pose proof (Z.pow_pos_nonneg 10 (Z.of_nat j)).
  unfold rr_configure, rr_new. run_m. cbn [m_outgates_number m_current_outgate rr_gates default].
  rewrite (proj2 (Z.leb_le _ _)) by lia.
  rewrite (rr_register_fails _ _ _ _ (10 ^ Z.of_nat j)); [done|lia|].
  rewrite (decimal_length_spec j); [|split; [lia|apply Z.pow_lt_mono_r; lia]|lia].
  destruct j as [|j]; [done|].
  replace (Z.of_nat (S j)) with (Z.of_nat j + 1) by lia.
  change (ceil_log10 10 0 1) with (ceil_log10 10 0 (10 ^ 0)).
  rewrite (ceil_log10_spec j 10 0); rewrite ?Z.add_0_l; try lia.
  apply Z.pow_lt_mono_r; lia.
Qed.

Lemma rr_demux_overflow_witness :
  rr_configure (Some 10) rr_new =
    (Throw (undefined_behaviour "sprintf past output_name"), RRDemux 10 0 []).
Proof. refine (rr_demux_overflow 1 _). lia. Defined.

(** ** Counter *)

Fixpoint counter_run {P} `{PacketHeaderI P} (ms : list (message P)) : M counter_block unit :=
  match ms with
  | [] => mret tt
  | m :: ms => counter_receive m;; counter_run ms
  end.

Definition msg_flows {P} (m : message P) : Z := match m with MFlow _ => 1 | _ => 0 end.
Definition msg_packets {P} (m : message P) : Z :=
  match m with MFlow f => m_packets f | MPacket _ => 1 | MOther => 0 end.
Definition msg_bytes {P} `{PacketHeaderI P} (m : message P) : Z :=
  match m with MFlow f => m_bytes f | MPacket p => p_length p | MOther => 0 end.

(** After a reset, and after any packets and flows that follow, the counts
    are the sums over those messages, modulo 2^64, whatever they were before. *)
Theorem counter_counts_since_reset {P} `{PacketHeaderI P} (m : message P) (ms : list (message P)) c :
  m_reset c = 1 → Forall (λ m, m ≠ MOther) (m :: ms) →
  counter_run (m :: ms) c =
  (Ret tt, CounterBlock (u64 (sumZ msg_flows (m :: ms))) (u64 (sumZ msg_packets (m :: ms)))
             (u64 (sumZ msg_bytes (m :: ms))) 0).
Proof.
  intros Hr Hall. apply Forall_cons in Hall as [Hm Hall].
  assert (∀ ms a b d, Forall (λ m : message P, m ≠ MOther) ms →
    counter_run ms (CounterBlock (u64 a) (u64 b) (u64 d) 0) =
    (Ret tt, CounterBlock (u64 (a + sumZ msg_flows ms)) (u64 (b + sumZ msg_packets ms))
      (u64 (d + sumZ msg_bytes ms)) 0)) as Hrun.
  { clear. induction ms as [|m ms IH]; intros a b d Hall.
    - cbn [sumZ foldr counter_run]. by rewrite !Z.add_0_r.
    - apply Forall_cons in Hall as [Hm Hall]. cbn [counter_run]. rewrite !sumZ_cons, !Z.add_assoc.
      assert (∀ x y, u64 (u64 x + y) = u64 (x + y)) as W.
      { intros x y. apply u64_add_cong. unfold u64. by rewrite Z.mod_mod. }
      rewrite <- IH by done. destruct m as [p|f|]; [| |done]; unfold counter_receive; run_m;
        cbn [m_reset m_flow_cnt m_pkt_cnt m_byte_cnt msg_flows msg_packets msg_bytes];
        change (0 =? 1) with false; cbn [m_reset m_flow_cnt m_pkt_cnt m_byte_cnt];
        rewrite ?W, ?Z.add_0_r; reflexivity. }
  specialize (Hrun ms (msg_flows m) (msg_packets m) (msg_bytes m) Hall). rewrite !sumZ_cons, <- Hrun.
  cbn [counter_run]. unfold counter_receive.
  destruct m as [p|f|]; [| |done]; run_m; rewrite Hr; done.
Qed.

Lemma counter_counts_since_reset_witness :
  counter_run [MPacket (htons 0); MPacket 5] (CounterBlock 77 88 99 1) = (Ret tt, CounterBlock 0 2 0 0).
Proof.
  refine (counter_counts_since_reset (MPacket (htons 0)) [MPacket 5] (CounterBlock 77 88 99 1) eq_refl _).
  by repeat constructor.
Defined.
