(* ===== verification/Packet.v ===== *)
(** * Packets

    Models the class [Packet] of [messages/Packet.hpp] and [messages/Packet.cpp]
    with the header layouts of [messages/NetTypes.hpp]: the headers are parsed on
    demand, once, by accessors that cache what they found.

    The packet's buffer is the list of its bytes, of the captured length; the
    pointers into it are offsets.  Reading outside the buffer is undefined, and
    so the parsers check every read against it.  Members that the constructor
    leaves uninitialised get their values as arguments.  The mutexes of the
    parsers, which one thread takes and releases around each, are not modelled. *)

From S2P Require Export Flow Filters Payload.

(** ** Header layouts *)

Definition sizeof_ethhdr : Z := 14.
Definition sizeof_eth1qhdr : Z := 4.
Definition sizeof_ip4hdr : Z := 20.
Definition sizeof_porthdr : Z := 4.
Definition sizeof_tcphdr : Z := 17.
Definition sizeof_udphdr : Z := 8.

(** ** The packet *)

Definition kEthernet : Z := 1.
Definition kRawIP : Z := 2.
Definition kPktTypeRuntL2 : Z := 0xFFF2.
Definition kPktTypeRuntL3 : Z := 0xFFF3.
Definition kPktTypeRuntL4 : Z := 0xFFF4.
Definition kPktType1q : Z := 0x8100.
Definition kSYN : Z := 0x02.
Definition kACK : Z := 0x10.
Definition kFIN : Z := 0x01.
Definition kRST : Z := 0x04.
Definition kPSH : Z := 0x08.
Definition kURG : Z := 0x20.

Record ip_fields := IpFields { m_iptos : Z; m_ipttl : Z; m_iplen : Z; m_iphlen : Z }.
Record tcp_fields := TcpFields {
  m_tcpflags : Z; m_tcpseq : Z; m_tcpack : Z; m_tcpurg : Z; m_tcpwin : Z; m_tcphlen : Z }.
Record parsed := Parsed { machdr_parsed : bool; iphdr_parsed : bool; ports_parsed : bool; l4hdr_parsed : bool }.

(** What the parsers set. *)
Record cache := Cache {
  done_ : parsed;
  m_iphdr_ptr : option Z;
  m_l4hdr_ptr : option Z;
  m_l4payload_ptr : option Z;
  m_pkttype : Z;
  m_key : FlowKey;
  m_ip : ip_fields;
  m_tcp : tcp_fields;
  m_udplen : Z;
  m_payload_len : Z
}.

Record packet := Packet {
  m_buffer : list Z;
  m_length : Z;
  m_tstamp : Z * Z;
  m_mactype : Z;
  m_cache : cache
}.

Definition m_caplen (p : packet) : Z := Z.of_nat (length (m_buffer p)).

(** The constructors; [junk] are the members left uninitialised. *)
Definition packet_new (junk : Z * ip_fields * tcp_fields * Z) (buf : list Z) (timestamp : Z * Z) (len mac_type : Z) : packet :=
  let '(pkttype, ip, tcp, udplen) := junk in
  Packet buf (if len =? 0 then Z.of_nat (length buf) else len) timestamp mac_type
    (Cache (Parsed false false false false) None None None pkttype (MkFlowKey 0 0 0 0 0) ip tcp udplen 0).

(** [clone]: the content, without the fields parsed. *)
Definition clone (junk : Z * ip_fields * tcp_fields * Z) (p : packet) : packet :=
  packet_new junk (m_buffer p) (m_tstamp p) (m_length p) (m_mactype p).

(** ** Reading the buffer *)

Section parsers.
Context (buf : list Z) (mactype : Z).
Let caplen : Z := Z.of_nat (length buf).

(** A header of [n] bytes at offset [o] is inside. *)
Definition readable (o n : Z) : bool := (0 <=? o) && (o + n <=? caplen).
Definition read_header (o n : Z) : M cache unit := ensure (readable o n) (undefined_behaviour "read outside the packet").

(** A field of a header that was checked. *)
Definition load (o : Z) (n : nat) : Z := le_value (take n (drop (Z.to_nat o) buf)).
Definition load8 (o : Z) : Z := load o 1.
Definition load16 (o : Z) : Z := ntohs (load o 2).
Definition load32 (o : Z) : Z := ntohl (load o 4).

(** The bytes from offset [o] to the end, as the code computes them. *)
Definition remaining (o : Z) : Z := u64 (caplen - o).

Definition set_done (f : parsed → parsed) (c : cache) : cache :=
  Cache (f (done_ c)) (m_iphdr_ptr c) (m_l4hdr_ptr c) (m_l4payload_ptr c) (m_pkttype c) (m_key c) (m_ip c) (m_tcp c)
    (m_udplen c) (m_payload_len c).
Definition set_pkttype (t : Z) (c : cache) : cache :=
  Cache (done_ c) (m_iphdr_ptr c) (m_l4hdr_ptr c) (m_l4payload_ptr c) t (m_key c) (m_ip c) (m_tcp c)
    (m_udplen c) (m_payload_len c).
Definition set_iphdr_ptr (o : option Z) (c : cache) : cache :=
  Cache (done_ c) o (m_l4hdr_ptr c) (m_l4payload_ptr c) (m_pkttype c) (m_key c) (m_ip c) (m_tcp c)
    (m_udplen c) (m_payload_len c).
Definition set_l4hdr_ptr (o : option Z) (c : cache) : cache :=
  Cache (done_ c) (m_iphdr_ptr c) o (m_l4payload_ptr c) (m_pkttype c) (m_key c) (m_ip c) (m_tcp c)
    (m_udplen c) (m_payload_len c).
Definition set_payload (o : option Z) (len : Z) (c : cache) : cache :=
  Cache (done_ c) (m_iphdr_ptr c) (m_l4hdr_ptr c) o (m_pkttype c) (m_key c) (m_ip c) (m_tcp c) (m_udplen c) len.
Definition set_key (f : FlowKey → FlowKey) (c : cache) : cache :=
  Cache (done_ c) (m_iphdr_ptr c) (m_l4hdr_ptr c) (m_l4payload_ptr c) (m_pkttype c) (f (m_key c)) (m_ip c) (m_tcp c)
    (m_udplen c) (m_payload_len c).
Definition set_ip (i : ip_fields) (c : cache) : cache :=
  Cache (done_ c) (m_iphdr_ptr c) (m_l4hdr_ptr c) (m_l4payload_ptr c) (m_pkttype c) (m_key c) i (m_tcp c)
    (m_udplen c) (m_payload_len c).
Definition set_tcp (t : tcp_fields) (c : cache) : cache :=
  Cache (done_ c) (m_iphdr_ptr c) (m_l4hdr_ptr c) (m_l4payload_ptr c) (m_pkttype c) (m_key c) (m_ip c) t
    (m_udplen c) (m_payload_len c).
Definition set_udplen (l : Z) (c : cache) : cache :=
  Cache (done_ c) (m_iphdr_ptr c) (m_l4hdr_ptr c) (m_l4payload_ptr c) (m_pkttype c) (m_key c) (m_ip c) (m_tcp c)
    l (m_payload_len c).

Definition mac_done (d : parsed) : parsed := Parsed true (iphdr_parsed d) (ports_parsed d) (l4hdr_parsed d).
Definition ip_done (d : parsed) : parsed := Parsed (machdr_parsed d) true (ports_parsed d) (l4hdr_parsed d).
Definition ports_done (d : parsed) : parsed := Parsed (machdr_parsed d) (iphdr_parsed d) true (l4hdr_parsed d).
Definition l4_done (d : parsed) : parsed := Parsed (machdr_parsed d) (iphdr_parsed d) (ports_parsed d) true.
Definition above_mac_done (d : parsed) : parsed := ip_done (ports_done (l4_done d)).

(** [decode_hlv] and [decode_payoff] *)
Definition decode_hlv (hlv : Z) : Z * Z := (Z.shiftl (Z.land hlv 0x0f) 2, Z.shiftr (Z.land hlv 0xf0) 4).
Definition decode_payoff (payoff : Z) : Z := Z.shiftr (Z.land payoff 0xf0) 2.

(** The loop over the 802.1q headers: the packet type and the end of the
    headers, or a runt. *)
Fixpoint vlan_loop (fuel : nat) (macbuf pkttype : Z) : M cache (option (Z * Z)) :=
  match fuel with
  | O => mret None
  | S fuel =>
      if pkttype =? kPktType1q then
        if remaining macbuf <? sizeof_ethhdr then mret None
        else
          read_header macbuf sizeof_eth1qhdr;;
          vlan_loop fuel (macbuf + sizeof_eth1qhdr) (load16 (macbuf + 2))
      else mret (Some (macbuf, pkttype))
  end.

Definition vlan_fuel : nat := S (length buf).

Definition mac_runt : M cache unit :=
  modify (set_pkttype kPktTypeRuntL2);;
  modify (set_done (λ d, mac_done (above_mac_done d))).

(** The end of [parse_mac], for a packet type and the end of the link header. *)
Definition finish_mac (macbuf : Z) : M cache unit :=
  t ← gets m_pkttype;
  (if t =? kPktTypeIP4 then modify (set_iphdr_ptr (Some macbuf))
   else modify (set_done above_mac_done));;
  modify (set_done mac_done).

Definition parse_mac : M cache unit :=
  c ← gets id;
  if machdr_parsed (done_ c) then mret tt
  else if mactype =? kEthernet then
    if caplen <? sizeof_ethhdr then mac_runt
    else
      read_header 0 sizeof_ethhdr;;
      r ← vlan_loop vlan_fuel sizeof_ethhdr (load16 12);
      match r with
      | None => mac_runt
      | Some (macbuf, t) => modify (set_pkttype t);; finish_mac macbuf
      end
  else
    (if mactype =? kRawIP then modify (set_pkttype kPktTypeIP4) else mret tt);;
    finish_mac 0.

Definition ip_runt (c : cache) : cache :=
  set_done (λ d, ports_done (l4_done d)) (set_pkttype kPktTypeRuntL3 c).

(** The part of [parse_iphdr] behind [parse_mac]. *)
Definition iphdr_body : M cache unit :=
  c ← gets id;
  match m_iphdr_ptr c with
  | None => mret tt
  | Some iphoff =>
      if sizeof_ip4hdr <=? remaining iphoff then
        read_header iphoff sizeof_ip4hdr;;
        modify (set_key (λ k, MkFlowKey (load32 (iphoff + 12)) (load32 (iphoff + 16)) (src_port k) (dst_port k)
          (load8 (iphoff + 9))));;
        let iphlen := (decode_hlv (load8 iphoff)).1 in
        modify (set_ip (IpFields (load8 (iphoff + 1)) (load8 (iphoff + 8)) (load16 (iphoff + 2)) iphlen));;
        (if iphlen <=? remaining iphoff then modify (set_l4hdr_ptr (Some (iphoff + iphlen))) else mret tt)
      else modify ip_runt
  end;;
  modify (set_done ip_done).

Definition parse_iphdr : M cache unit :=
  c ← gets id;
  if iphdr_parsed (done_ c) then mret tt
  else
    parse_mac;;
    iphdr_body.

Definition with_ports (sp dp : Z) (k : FlowKey) : FlowKey := MkFlowKey (src_ip4 k) (dst_ip4 k) sp dp (proto k).

Definition ports_body : M cache unit :=
  c ← gets id;
  match m_l4hdr_ptr c with
  | Some l4hoff =>
      if (proto (m_key c) =? kTCP) || (proto (m_key c) =? kUDP) then
        if sizeof_porthdr <=? remaining l4hoff then
          read_header l4hoff sizeof_porthdr;;
          modify (set_key (with_ports (load16 l4hoff) (load16 (l4hoff + 2))));;
          if (proto (m_key c) =? kUDP) && (sizeof_udphdr <=? remaining l4hoff) then
            read_header l4hoff sizeof_udphdr;;
            modify (set_udplen (load16 (l4hoff + 4)));;
            modify (set_payload (Some (l4hoff + sizeof_udphdr))
              (u64 (m_iplen (m_ip c) - m_iphlen (m_ip c) - sizeof_udphdr)))
          else mret tt
        else
          modify (set_pkttype kPktTypeRuntL4);;
          modify (set_done l4_done)
      else mret tt
  | None => mret tt
  end;;
  modify (set_done ports_done).

Definition parse_ports : M cache unit :=
  c ← gets id;
  if ports_parsed (done_ c) then mret tt
  else
    parse_iphdr;;
    ports_body.

Definition tcphdr_body : M cache unit :=
  c ← gets id;
  match m_l4hdr_ptr c with
  | Some tcphoff =>
      if proto (m_key c) =? kTCP then
        if sizeof_tcphdr <=? remaining tcphoff then
          read_header tcphoff sizeof_tcphdr;;
          modify (set_key (with_ports (load16 tcphoff) (load16 (tcphoff + 2))));;
          let tcphlen := decode_payoff (load8 (tcphoff + 12)) in
          modify (set_tcp (TcpFields (load8 (tcphoff + 13)) (load32 (tcphoff + 4)) (load32 (tcphoff + 8))
            (load8 (tcphoff + 16)) (load8 (tcphoff + 14)) tcphlen));;
          if tcphlen <=? remaining tcphoff then
            modify (set_payload (Some (tcphoff + tcphlen)) (u64 (m_iplen (m_ip c) - m_iphlen (m_ip c) - tcphlen)))
          else mret tt
        else modify (set_pkttype kPktTypeRuntL4)
      else mret tt
  | None => mret tt
  end;;
  modify (set_done l4_done).

Definition parse_tcphdr : M cache unit :=
  c ← gets id;
  if l4hdr_parsed (done_ c) then mret tt
  else
    parse_iphdr;;
    tcphdr_body.
End parsers.

(** ** The accessors *)

Definition on_cache {A} (f : list Z → Z → M cache A) : M packet A := λ p,
  let '(r, c) := f (m_buffer p) (m_mactype p) (m_cache p) in
  (r, Packet (m_buffer p) (m_length p) (m_tstamp p) (m_mactype p) c).

(** The accessors that return a number or, as offset, a pointer. *)
Inductive accessor :=
| iphdr | l4hdr | payload | payload_len | l3_protocol | ip_src | ip_dst | src_port | dst_port | l4_protocol
| ip_tos | ip_ttl | ip_length | ip_header_length | tcp_flags | tcp_seq | tcp_win | tcp_header_length | udp_length.

Inductive parser := ParseMac | ParseIphdr | ParsePorts | ParseTcphdr.

Definition run_parser (k : parser) (buf : list Z) (mactype : Z) : M cache unit :=
  match k with
  | ParseMac => parse_mac buf mactype
  | ParseIphdr => parse_iphdr buf mactype
  | ParsePorts => parse_ports buf mactype
  | ParseTcphdr => parse_tcphdr buf mactype
  end.

(** The parsers an accessor calls, and what it returns then. *)
Definition is_tcp (c : cache) : bool := proto (m_key c) =? kTCP.
Definition is_udp (c : cache) : bool := proto (m_key c) =? kUDP.

Definition parse_payload (buf : list Z) (mactype : Z) : M cache unit :=
  parse_iphdr buf mactype;;
  c ← gets id;
  if is_tcp c then parse_tcphdr buf mactype else parse_ports buf mactype.

Definition access_parse (a : accessor) : list Z → Z → M cache unit :=
  match a with
  | iphdr | l3_protocol => parse_mac
  | l4hdr | ip_src | ip_dst | l4_protocol | ip_tos | ip_ttl | ip_length | ip_header_length => parse_iphdr
  | src_port | dst_port | udp_length => parse_ports
  | tcp_flags | tcp_seq | tcp_win | tcp_header_length => parse_tcphdr
  | payload | payload_len => parse_payload
  end.

Definition access_field (a : accessor) (c : cache) : option Z :=
  match a with
  | iphdr => m_iphdr_ptr c
  | l4hdr => m_l4hdr_ptr c
  | payload => m_l4payload_ptr c
  | payload_len => Some (m_payload_len c)
  | l3_protocol => Some (m_pkttype c)
  | ip_src => Some (src_ip4 (m_key c))
  | ip_dst => Some (dst_ip4 (m_key c))
  | src_port => Some (Flow.src_port (m_key c))
  | dst_port => Some (Flow.dst_port (m_key c))
  | l4_protocol => Some (proto (m_key c))
  | ip_tos => Some (m_iptos (m_ip c))
  | ip_ttl => Some (m_ipttl (m_ip c))
  | ip_length => Some (m_iplen (m_ip c))
  | ip_header_length => Some (m_iphlen (m_ip c))
  | tcp_flags => Some (m_tcpflags (m_tcp c))
  | tcp_seq => Some (m_tcpseq (m_tcp c))
  | tcp_win => Some (m_tcpwin (m_tcp c))
  | tcp_header_length => Some (m_tcphlen (m_tcp c))
  | udp_length => Some (m_udplen c)
  end.

Definition access (a : accessor) : M packet (option Z) :=
  on_cache (access_parse a);;
  p ← gets id;
  mret (access_field a (m_cache p)).

Fixpoint access_all (xs : list accessor) : M packet unit :=
  match xs with
  | [] => mret tt
  | a :: xs => access a;; access_all xs
  end.

(** [key], [tcp_has_syn] .. [tcp_has_psh], [tcp_ack] and [tcp_urg]. *)
Definition key : M packet FlowKey := on_cache parse_ports;; gets (λ p, m_key (m_cache p)).

Definition tcp_has (bits : Z) : M packet bool :=
  f ← access tcp_flags;
  mret (negb (Z.land (default 0 f) bits =? 0)).

Definition tcp_ack : M packet (option Z) :=
  b ← tcp_has kACK;
  if b : bool then gets (λ p, Some (m_tcpack (m_tcp (m_cache p)))) else mret None.

Definition tcp_urg : M packet (option Z) :=
  b ← tcp_has kURG;
  if b : bool then gets (λ p, Some (u8 (m_tcpurg (m_tcp (m_cache p))))) else mret None.

(** [caplen], [length], [timestamp_us], [timestamp_ms], [timestamp_s]. *)
Definition packet_length (p : packet) : Z := m_length p.
Definition timespec_to_us (ts : Z * Z) : Z := u64 (ts.1 * 1000000 + ts.2 / 1000).
Definition timestamp_us (p : packet) : Z := timespec_to_us (m_tstamp p).
Definition timestamp_ms (p : packet) : Z := timespec_to_us (m_tstamp p) / 1000.
Definition timestamp_s (p : packet) : Z := (m_tstamp p).1.

(** ** The states of a packet's cache *)

(** Just constructed. *)
Definition fresh_cache (c : cache) : Prop :=
  done_ c = Parsed false false false false ∧ m_iphdr_ptr c = None ∧ m_l4hdr_ptr c = None ∧ m_l4payload_ptr c = None.

Lemma decode_hlv_range h : 0 ≤ (decode_hlv h).1 ≤ 60.
Proof.
  unfold decode_hlv. cbn [fst]. change 0x0f with (Z.ones 4). rewrite Z.land_ones, Z.shiftl_mul_pow2 by lia.
  pose proof (Z.mod_pos_bound h (2 ^ 4) ltac:(lia)). lia.
Qed.

Lemma decode_payoff_range h : 0 ≤ decode_payoff h ≤ 60.
Proof.
  unfold decode_payoff. split; [apply Z.shiftr_nonneg, Z.land_nonneg; lia|].
  assert (Z.land h 0xf0 ≤ 0xf0) as Hle.
  { replace (Z.land h 0xf0) with (Z.land 0xf0 h) by apply Z.land_comm.
    assert (0 ≤ Z.ldiff 0xf0 h) by (apply Z.ldiff_nonneg; lia).
    pose proof (Z.sub_nocarry_ldiff 0xf0 (Z.land 0xf0 h)) as Hs.
    assert (Z.ldiff (Z.land 0xf0 h) 0xf0 = 0) as E.
    { apply Z.bits_inj'. intros n Hn. rewrite Z.ldiff_spec, Z.land_spec, Z.bits_0.
      by destruct (Z.testbit 0xf0 n), (Z.testbit h n). }
    specialize (Hs E). pose proof (Z.ldiff_nonneg 0xf0 (Z.land 0xf0 h)) as [_ Hn]. lia. }
  rewrite Z.shiftr_div_pow2 by lia. apply Z.div_le_upper_bound; lia.
Qed.

Section shapes.
Context (buf : list Z) (mactype : Z).
Let caplen : Z := Z.of_nat (length buf).
Context (Hsmall : caplen < 2 ^ 63).

Lemma remaining_small o : 0 ≤ o ≤ caplen → remaining buf o = caplen - o.
Proof. intros Ho. unfold remaining. apply u64_small. fold caplen. lia. Qed.

Lemma read_header_ok o n c :
  0 ≤ o → 0 ≤ n → o + n ≤ caplen → read_header buf o n c = (Ret tt, c).
Proof.
  intros H0 Hn Hle. unfold read_header, readable. fold caplen.
  rewrite (proj2 (Z.leb_le 0 o)), (proj2 (Z.leb_le (o + n) caplen)) by lia. done.
Qed.

Lemma vlan_loop_ok fuel macbuf t c :
  0 ≤ macbuf ≤ caplen → (Z.to_nat (caplen - macbuf) < fuel)%nat →
  vlan_loop buf fuel macbuf t c = (Ret None, c) ∨
  ∃ m' t', vlan_loop buf fuel macbuf t c = (Ret (Some (m', t')), c) ∧ 0 ≤ m' ≤ caplen.
Proof.
  revert macbuf t. induction fuel as [|fuel IH]; intros macbuf t Hm Hf; [lia|]. cbn [vlan_loop].
  destruct (t =? kPktType1q); [|right; by exists macbuf, t].
  rewrite remaining_small by done. unfold sizeof_ethhdr, sizeof_eth1qhdr.
  destruct (Z.ltb_spec (caplen - macbuf) 14); [by left|].
  rewrite (bind_Ret _ _ _ _ _ (read_header_ok macbuf 4 c ltac:(lia) ltac:(lia) ltac:(lia))).
  apply IH; lia.
Qed.

(** Nothing above the link layer. *)
Definition not_ip (c : cache) (t : Z) : cache :=
  Cache (Parsed true true true true) None None None t (m_key c) (m_ip c) (m_tcp c) (m_udplen c) (m_payload_len c).
(** An IP header at [o]. *)
Definition ip_at (c : cache) (o : Z) : cache :=
  Cache (Parsed true false false false) (Some o) None None kPktTypeIP4 (m_key c) (m_ip c) (m_tcp c) (m_udplen c)
    (m_payload_len c).

Lemma parse_mac_fresh c :
  fresh_cache c →
  (∃ t, parse_mac buf mactype c = (Ret tt, not_ip c t)) ∨
  (∃ o, parse_mac buf mactype c = (Ret tt, ip_at c o) ∧ 0 ≤ o ≤ caplen).
Proof.
  destruct c as [d ip l4 pay t0 k i tc ul pl]. intros (Ed & E1 & E2 & E3). cbn in Ed, E1, E2, E3. subst.
  unfold parse_mac. run_m. cbn [done_ machdr_parsed].
  assert (∀ o t, 0 ≤ o ≤ caplen → (∃ t', finish_mac o (Cache (Parsed false false false false) None None None t k i tc ul pl)
      = (Ret tt, not_ip (Cache (Parsed false false false false) None None None t0 k i tc ul pl) t')) ∨
    (∃ o', finish_mac o (Cache (Parsed false false false false) None None None t k i tc ul pl)
      = (Ret tt, ip_at (Cache (Parsed false false false false) None None None t0 k i tc ul pl) o') ∧ 0 ≤ o' ≤ caplen))
    as Hfin.
  { intros o t Ho. unfold finish_mac. run_m. cbn [m_pkttype]. destruct (Z.eqb_spec t kPktTypeIP4) as [->|].
    - right. exists o. by split.
    - left. by exists t. }
  destruct (mactype =? kEthernet).
  - fold caplen. destruct (Z.ltb_spec caplen sizeof_ethhdr) as [|Hl]; [left; by eexists|].
    unfold sizeof_ethhdr in *. rewrite read_header_ok by lia.
    destruct (vlan_loop_ok (vlan_fuel buf) 14 (load16 buf 12)
      (Cache (Parsed false false false false) None None None t0 k i tc ul pl)) as [->|(m' & t' & -> & Hm)];
      [lia|unfold vlan_fuel; lia|left; by eexists|]. by apply Hfin.
  - destruct (mactype =? kRawIP); apply Hfin; lia.
Qed.

(** The IP header at [o] is a runt. *)
Definition ip_runt_at (c : cache) (o : Z) : cache :=
  Cache (Parsed true true true true) (Some o) None None kPktTypeRuntL3 (m_key c) (m_ip c) (m_tcp c) (m_udplen c)
    (m_payload_len c).
(** It is parsed, and the next header is at [l4]. *)
Definition ip_parsed_at (c : cache) (o : Z) (l4 : option Z) (src dst pr : Z) (i : ip_fields) : cache :=
  Cache (Parsed true true false false) (Some o) l4 None kPktTypeIP4
    (MkFlowKey src dst (Flow.src_port (m_key c)) (Flow.dst_port (m_key c)) pr) i (m_tcp c) (m_udplen c) (m_payload_len c).

Lemma parse_iphdr_ip c o :
  0 ≤ o ≤ caplen →
  parse_iphdr buf mactype (ip_at c o) = (Ret tt, ip_runt_at c o) ∨
  ∃ l4 src dst pr i, parse_iphdr buf mactype (ip_at c o) = (Ret tt, ip_parsed_at c o l4 src dst pr i) ∧
    match l4 with Some l => 0 ≤ l ≤ caplen | None => True end.
Proof.
  intros Ho. unfold parse_iphdr, iphdr_body, parse_mac. run_m. unfold ip_at. cbn [done_ iphdr_parsed machdr_parsed m_iphdr_ptr].
  rewrite remaining_small by done. unfold sizeof_ip4hdr.
  destruct (Z.leb_spec 20 (caplen - o)) as [Hl|Hl]; [right|by left].
  rewrite read_header_ok by lia. pose proof (decode_hlv_range (load8 buf o)).
  destruct (Z.leb_spec (decode_hlv (load8 buf o)).1 (caplen - o)); repeat eexists; lia.
Qed.
End shapes.

(** ** The stages of parsing

    A packet's cache goes through at most these stages, whatever is called. *)

Inductive stage := S0 | SMac | SIp | SPorts | STcp | SAll.

Definition advance_stage (k : parser) (s : stage) : stage :=
  match k, s with
  | ParseMac, S0 => SMac
  | ParseIphdr, (S0 | SMac) => SIp
  | ParsePorts, (S0 | SMac | SIp) => SPorts
  | ParsePorts, STcp => SAll
  | ParseTcphdr, (S0 | SMac | SIp) => STcp
  | ParseTcphdr, SPorts => SAll
  | _, s => s
  end.

(** From which stage on an accessor's field does not change; the packet type may
    change until everything is parsed. *)
Definition settled (a : accessor) (tcp : bool) (s : stage) : bool :=
  match a, s with
  | _, SAll => true
  | iphdr, (SMac | SIp | SPorts | STcp) => true
  | (l4hdr | ip_src | ip_dst | l4_protocol | ip_tos | ip_ttl | ip_length | ip_header_length),
    (SIp | SPorts | STcp) => true
  | (src_port | dst_port | udp_length), SPorts => true
  | (tcp_flags | tcp_seq | tcp_win | tcp_header_length), STcp => true
  | (payload | payload_len), STcp => tcp
  | (payload | payload_len), SPorts => negb tcp
  | _, _ => false
  end.

Definition pointers_inside (caplen : Z) (c : cache) : Prop :=
  ∀ o, (m_iphdr_ptr c = Some o ∨ m_l4hdr_ptr c = Some o ∨ m_l4payload_ptr c = Some o) → 0 ≤ o ≤ caplen.

(** The caches of the stages: the parsers go from one to the next without
    failing, the fields are settled as listed, pointers stay in the buffer. *)
Record stages (buf : list Z) (mactype : Z) (at_ : stage → cache) : Prop := Stages {
  stages_step k s : run_parser k buf mactype (at_ s) = (Ret tt, at_ (advance_stage k s));
  stages_settled a s : settled a (is_tcp (at_ SIp)) s = true → access_field a (at_ s) = access_field a (at_ SAll);
  stages_tcp s : s ≠ S0 → s ≠ SMac → is_tcp (at_ s) = is_tcp (at_ SIp);
  stages_inside s : pointers_inside (Z.of_nat (length buf)) (at_ s)
}.

Section stages.
Context (buf : list Z) (mactype : Z).
Let caplen : Z := Z.of_nat (length buf).
Context (Hsmall : caplen < 2 ^ 63).

(** The parser of a layer from the cache of a layer below. *)
Lemma parse_iphdr_via c c1 :
  iphdr_parsed (done_ c) = false → parse_mac buf mactype c = (Ret tt, c1) →
  parse_iphdr buf mactype c = iphdr_body buf c1.
Proof. intros Hd E. unfold parse_iphdr. run_m. by rewrite Hd, E. Qed.

Lemma parse_ports_via c c2 :
  ports_parsed (done_ c) = false → parse_iphdr buf mactype c = (Ret tt, c2) →
  parse_ports buf mactype c = ports_body buf c2.
Proof. intros Hd E. unfold parse_ports. run_m. by rewrite Hd, E. Qed.

Lemma parse_tcphdr_via c c2 :
  l4hdr_parsed (done_ c) = false → parse_iphdr buf mactype c = (Ret tt, c2) →
  parse_tcphdr buf mactype c = tcphdr_body buf c2.
Proof. intros Hd E. unfold parse_tcphdr. run_m. by rewrite Hd, E. Qed.

(** Parsers that find their layer parsed. *)
Lemma parsed_mac c : machdr_parsed (done_ c) = true → parse_mac buf mactype c = (Ret tt, c).
Proof. intros Hd. unfold parse_mac. run_m. by rewrite Hd. Qed.
Lemma parsed_iphdr c : iphdr_parsed (done_ c) = true → parse_iphdr buf mactype c = (Ret tt, c).
Proof. intros Hd. unfold parse_iphdr. run_m. by rewrite Hd. Qed.
Lemma parsed_ports c : ports_parsed (done_ c) = true → parse_ports buf mactype c = (Ret tt, c).
Proof. intros Hd. unfold parse_ports. run_m. by rewrite Hd. Qed.
Lemma parsed_tcphdr c : l4hdr_parsed (done_ c) = true → parse_tcphdr buf mactype c = (Ret tt, c).
Proof. intros Hd. unfold parse_tcphdr. run_m. by rewrite Hd. Qed.

(** The caches of the stages, one by one. *)
Definition caches (c c1 c2 cP cT cF : cache) (s : stage) : cache :=
  match s with S0 => c | SMac => c1 | SIp => c2 | SPorts => cP | STcp => cT | SAll => cF end.

Definition flags (c : cache) (p t : bool) : Prop := done_ c = Parsed true true p t.

Lemma steps_from c c1 c2 cP cT cF :
  done_ c = Parsed false false false false → done_ c1 = Parsed true false false false →
  parse_mac buf mactype c = (Ret tt, c1) → iphdr_body buf c1 = (Ret tt, c2) →
  ports_body buf c2 = (Ret tt, cP) → tcphdr_body buf c2 = (Ret tt, cT) →
  parse_ports buf mactype c2 = (Ret tt, cP) → parse_tcphdr buf mactype c2 = (Ret tt, cT) →
  parse_tcphdr buf mactype cP = (Ret tt, cF) → parse_ports buf mactype cT = (Ret tt, cF) →
  (∃ p t, flags c2 p t) → (∃ t, flags cP true t) → (∃ p, flags cT p true) → flags cF true true →
  ∀ k s, run_parser k buf mactype (caches c c1 c2 cP cT cF s) =
    (Ret tt, caches c c1 c2 cP cT cF (advance_stage k s)).
Proof.
  intros Ed Ed1 E1 E2 EP ET EP2 ET2 EF EF' (p2 & t2 & D2) (tP & DP) (pT & DT) DF.
  assert (parse_iphdr buf mactype c = (Ret tt, c2)) as E02 by (rewrite (parse_iphdr_via c c1); [done|by rewrite Ed|done]).
  assert (parse_iphdr buf mactype c1 = (Ret tt, c2)) as E12.
  { rewrite (parse_iphdr_via c1 c1); [done|by rewrite Ed1|]. apply parsed_mac. by rewrite Ed1. }
  intros [] []; cbn [run_parser caches advance_stage]; try done;
    try (apply parsed_mac; by rewrite ?Ed1, ?D2, ?DP, ?DT, ?DF);
    try (apply parsed_iphdr; by rewrite ?D2, ?DP, ?DT, ?DF);
    try (apply parsed_ports; by rewrite ?DP, ?DF);
    try (apply parsed_tcphdr; by rewrite ?DT, ?DF).
  - rewrite (parse_ports_via c c2); [done|by rewrite Ed|done].
  - rewrite (parse_ports_via c1 c2); [done|by rewrite Ed1|done].
  - rewrite (parse_tcphdr_via c c2); [done|by rewrite Ed|done].
  - rewrite (parse_tcphdr_via c1 c2); [done|by rewrite Ed1|done].
Qed.

(** The three shapes of a packet. *)
Lemma stages_not_ip c t :
  fresh_cache c → parse_mac buf mactype c = (Ret tt, not_ip c t) →
  let n := not_ip c t in stages buf mactype (caches c n n n n n).
Proof.
  intros (Ed & E1 & E2 & E3) Em n.
  assert (iphdr_body buf n = (Ret tt, n) ∧ ports_body buf n = (Ret tt, n) ∧ tcphdr_body buf n = (Ret tt, n))
    as (Bi & Bp & Bt) by done.
  assert (parse_iphdr buf mactype c = (Ret tt, n)) as Ei by (rewrite (parse_iphdr_via c n); [done|by rewrite Ed|done]).
  split.
  - intros [] []; try done; cbn [run_parser caches advance_stage].
    + rewrite (parse_ports_via c n); [done|by rewrite Ed|done].
    + rewrite (parse_tcphdr_via c n); [done|by rewrite Ed|done].
  - by intros [] [].
  - by intros [].
  - intros [] o; cbn [caches]; rewrite ?E1, ?E2, ?E3; cbn; naive_solver.
Qed.

Lemma stages_ip_runt c o :
  fresh_cache c → parse_mac buf mactype c = (Ret tt, ip_at c o) → 0 ≤ o ≤ caplen →
  iphdr_body buf (ip_at c o) = (Ret tt, ip_runt_at c o) →
  let r := ip_runt_at c o in stages buf mactype (caches c (ip_at c o) r r r r).
Proof.
  intros (Ed & E1 & E2 & E3) Em Ho Ei r. split.
  - apply steps_from; try done; by repeat eexists.
  - by intros [] [].
  - by intros [].
  - intros [] x; cbn [caches]; rewrite ?E1, ?E2, ?E3; cbn; naive_solver.
Qed.

(** The bodies of the upper parsers for a header at [l]. *)
Definition ports_result (l : Z) (c : cache) : cache :=
  set_done ports_done
    (if (proto (m_key c) =? kTCP) || (proto (m_key c) =? kUDP) then
       if sizeof_porthdr <=? caplen - l then
         let c' := set_key (with_ports (load16 buf l) (load16 buf (l + 2))) c in
         if (proto (m_key c) =? kUDP) && (sizeof_udphdr <=? caplen - l) then
           set_payload (Some (l + sizeof_udphdr)) (u64 (m_iplen (m_ip c) - m_iphlen (m_ip c) - sizeof_udphdr))
             (set_udplen (load16 buf (l + 4)) c')
         else c'
       else set_done l4_done (set_pkttype kPktTypeRuntL4 c)
     else c).

Definition tcphdr_result (l : Z) (c : cache) : cache :=
  set_done l4_done
    (if proto (m_key c) =? kTCP then
       if sizeof_tcphdr <=? caplen - l then
         let tcphlen := decode_payoff (load8 buf (l + 12)) in
         let c' := set_tcp (TcpFields (load8 buf (l + 13)) (load32 buf (l + 4)) (load32 buf (l + 8))
           (load8 buf (l + 16)) (load8 buf (l + 14)) tcphlen)
           (set_key (with_ports (load16 buf l) (load16 buf (l + 2))) c) in
         if tcphlen <=? caplen - l then
           set_payload (Some (l + tcphlen)) (u64 (m_iplen (m_ip c) - m_iphlen (m_ip c) - tcphlen)) c'
         else c'
       else set_pkttype kPktTypeRuntL4 c
     else c).

Lemma ports_body_at l c :
  m_l4hdr_ptr c = Some l → 0 ≤ l ≤ caplen → ports_body buf c = (Ret tt, ports_result l c).
Proof.
  intros El Hl. unfold ports_body, ports_result. run_m. rewrite El.
  rewrite (remaining_small buf Hsmall) by done. fold caplen.
  destruct ((proto (m_key c) =? kTCP) || (proto (m_key c) =? kUDP)); [|done].
  destruct (Z.leb_spec sizeof_porthdr (caplen - l)) as [H4|]; [|done]. unfold sizeof_porthdr in *.
  rewrite (read_header_ok buf) by (fold caplen; lia).
  destruct (Z.leb_spec sizeof_udphdr (caplen - l)) as [H8|]; [|by rewrite !andb_false_r].
  unfold sizeof_udphdr in *. destruct (proto (m_key c) =? kUDP); [|done]. cbn [andb].
  by rewrite (read_header_ok buf) by (fold caplen; lia).
Qed.

Lemma tcphdr_body_at l c :
  m_l4hdr_ptr c = Some l → 0 ≤ l ≤ caplen → tcphdr_body buf c = (Ret tt, tcphdr_result l c).
Proof.
  intros El Hl. unfold tcphdr_body, tcphdr_result. run_m. rewrite El.
  rewrite (remaining_small buf Hsmall) by done. fold caplen.
  destruct (proto (m_key c) =? kTCP); [|done].
  destruct (Z.leb_spec sizeof_tcphdr (caplen - l)) as [H17|]; [|done]. unfold sizeof_tcphdr in *.
  rewrite (read_header_ok buf) by (fold caplen; lia). run_m.
  by destruct (decode_payoff (load8 buf (l + 12)) <=? caplen - l).
Qed.

(** The rest of parsing after the IP header. *)
Definition all_result (l : Z) (c : cache) : cache :=
  if l4hdr_parsed (done_ (ports_result l c)) then ports_result l c else tcphdr_result l (ports_result l c).

Lemma parse_tcphdr_at l c t :
  flags c true t → m_l4hdr_ptr c = Some l → 0 ≤ l ≤ caplen →
  parse_tcphdr buf mactype c = (Ret tt, if t then c else tcphdr_result l c).
Proof.
  intros Ed El Hl. destruct t; [apply parsed_tcphdr; by rewrite Ed|].
  rewrite (parse_tcphdr_via c c); [by apply tcphdr_body_at|by rewrite Ed|apply parsed_iphdr; by rewrite Ed].
Qed.

Lemma parse_ports_at l c p :
  flags c p true → m_l4hdr_ptr c = Some l → 0 ≤ l ≤ caplen →
  parse_ports buf mactype c = (Ret tt, if p then c else ports_result l c).
Proof.
  intros Ed El Hl. destruct p; [apply parsed_ports; by rewrite Ed|].
  rewrite (parse_ports_via c c); [by apply ports_body_at|by rewrite Ed|apply parsed_iphdr; by rewrite Ed].
Qed.

(** Both orders of the upper parsers give the same. *)
Ltac upper_cases l pr :=
  let Et := fresh in let Eu := fresh in let E4 := fresh in let E8 := fresh in let E17 := fresh in let Eh := fresh in
  destruct (pr =? kTCP) eqn:Et, (pr =? kUDP) eqn:Eu; try (exfalso; unfold kTCP, kUDP in *; lia);
  destruct (sizeof_porthdr <=? caplen - l) eqn:E4, (sizeof_udphdr <=? caplen - l) eqn:E8,
    (sizeof_tcphdr <=? caplen - l) eqn:E17;
  try (exfalso; unfold sizeof_porthdr, sizeof_udphdr, sizeof_tcphdr in *; lia);
  destruct (decode_payoff (load8 buf (l + 12)) <=? caplen - l) eqn:Eh;
  unfold all_result, ports_result, tcphdr_result;
  repeat (progress (cbn -[load8 load16 load32 u64 decode_payoff Z.leb Z.sub Z.add Z.eqb];
    rewrite ?Et, ?Eu, ?E4, ?E8, ?E17, ?Eh)).

(** What the upper parsers leave alone. *)
Definition below (c : cache) := (m_iphdr_ptr c, m_l4hdr_ptr c, src_ip4 (m_key c), dst_ip4 (m_key c), proto (m_key c), m_ip c).

Lemma ports_result_below l c : below (ports_result l c) = below c.
Proof. unfold ports_result, below. by repeat case_match. Qed.
Lemma tcphdr_result_below l c : below (tcphdr_result l c) = below c.
Proof. unfold tcphdr_result, below. by repeat case_match. Qed.
Lemma all_result_below l c : below (all_result l c) = below c.
Proof. unfold all_result. case_match; by rewrite ?tcphdr_result_below, ports_result_below. Qed.

Lemma below_fields c c' : below c = below c' →
  m_iphdr_ptr c = m_iphdr_ptr c' ∧ m_l4hdr_ptr c = m_l4hdr_ptr c' ∧ src_ip4 (m_key c) = src_ip4 (m_key c') ∧
  dst_ip4 (m_key c) = dst_ip4 (m_key c') ∧ proto (m_key c) = proto (m_key c') ∧ m_ip c = m_ip c'.
Proof. unfold below. intros [=]. by split_and!. Qed.

Lemma stages_ip c o l src dst pr i :
  fresh_cache c → parse_mac buf mactype c = (Ret tt, ip_at c o) → 0 ≤ o ≤ caplen → 0 ≤ l ≤ caplen →
  let c2 := ip_parsed_at c o (Some l) src dst pr i in
  iphdr_body buf (ip_at c o) = (Ret tt, c2) →
  stages buf mactype (caches c (ip_at c o) c2 (ports_result l c2) (tcphdr_result l c2) (all_result l c2)).
Proof.
  intros (Ed & E1 & E2 & E3) Em Ho Hl c2 Ei.
  assert (parse_iphdr buf mactype c2 = (Ret tt, c2)) as Ei2 by done.
  assert (∃ t, flags (ports_result l c2) true t ∧ m_l4hdr_ptr (ports_result l c2) = Some l ∧
    all_result l c2 = if t then ports_result l c2 else tcphdr_result l (ports_result l c2)) as (t & Dp & Lp & Ea).
  { unfold all_result. exists (l4hdr_parsed (done_ (ports_result l c2))). split_and!; [| |done];
      unfold flags, c2; upper_cases l pr; done. }
  assert (flags (tcphdr_result l c2) false true ∧ m_l4hdr_ptr (tcphdr_result l c2) = Some l ∧
    ports_result l (tcphdr_result l c2) = all_result l c2) as (Dt & Lt & Ea').
  { split_and!; unfold flags, c2; upper_cases l pr; done. }
  split.
  - apply steps_from; try done.
    + by apply ports_body_at.
    + by apply tcphdr_body_at.
    + rewrite (parse_ports_via c2 c2) by done. by apply ports_body_at.
    + rewrite (parse_tcphdr_via c2 c2) by done. by apply tcphdr_body_at.
    + rewrite (parse_tcphdr_at l _ t) by done. by rewrite Ea.
    + rewrite (parse_ports_at l _ false) by done. by rewrite Ea'.
    + by repeat eexists.
    + by exists t.
    + by exists false.
    + unfold flags, c2. upper_cases l pr; done.
  - destruct (below_fields _ _ (all_result_below l c2)) as (Fa1 & Fa2 & Fa3 & Fa4 & Fa5 & Fa6).
    destruct (below_fields _ _ (ports_result_below l c2)) as (Fp1 & Fp2 & Fp3 & Fp4 & Fp5 & Fp6).
    destruct (below_fields _ _ (tcphdr_result_below l c2)) as (Ft1 & Ft2 & Ft3 & Ft4 & Ft5 & Ft6).
    intros [] []; cbn [settled caches access_field]; try done;
      rewrite ?Fa1, ?Fa2, ?Fa3, ?Fa4, ?Fa5, ?Fa6, ?Fp1, ?Fp2, ?Fp3, ?Fp4, ?Fp5, ?Fp6, ?Ft1, ?Ft2, ?Ft3, ?Ft4, ?Ft5, ?Ft6;
      try done; unfold is_tcp, c2; upper_cases l pr; done.
  - assert (∀ c, below c = below c2 → is_tcp c = is_tcp c2) as Hb.
    { intros c' (_ & _ & _ & _ & Ep & _)%below_fields. unfold is_tcp. by rewrite Ep. }
    intros []; cbn [caches]; try done; intros _ _; apply Hb;
      [apply ports_result_below|apply tcphdr_result_below|apply all_result_below].
  - pose proof (decode_payoff_range (load8 buf (l + 12))).
    assert (∀ c, below c = below c2 → (∀ x, m_l4payload_ptr c = Some x → 0 ≤ x ≤ caplen) → pointers_inside caplen c) as Hb.
    { intros c' (Ei' & El' & _)%below_fields Hpay x [Hx|[Hx|Hx]]; [rewrite Ei' in Hx|rewrite El' in Hx|by apply Hpay];
        by injection Hx as <-. }
    intros []; cbn [caches].
    + intros x. rewrite E1, E2, E3. naive_solver.
    + intros x. cbn. naive_solver.
    + by apply Hb.
    + apply Hb; [apply ports_result_below|]. intros x. unfold c2. upper_cases l pr; intros [=]; unfold sizeof_udphdr in *; lia.
    + apply Hb; [apply tcphdr_result_below|]. intros x. unfold c2. upper_cases l pr; intros [=]; unfold sizeof_udphdr in *; lia.
    + apply Hb; [apply all_result_below|]. intros x. unfold c2. upper_cases l pr; intros [=]; unfold sizeof_udphdr in *; lia.
Qed.

Lemma stages_ip_no_l4 c o src dst pr i :
  fresh_cache c → parse_mac buf mactype c = (Ret tt, ip_at c o) → 0 ≤ o ≤ caplen →
  let c2 := ip_parsed_at c o None src dst pr i in
  iphdr_body buf (ip_at c o) = (Ret tt, c2) →
  stages buf mactype (caches c (ip_at c o) c2 (set_done ports_done c2) (set_done l4_done c2)
    (set_done ports_done (set_done l4_done c2))).
Proof.
  intros (Ed & E1 & E2 & E3) Em Ho c2 Ei.
  split; [apply steps_from; try done; by repeat eexists|by intros [] []|by intros []|].
  intros [] x; cbn [caches]; rewrite ?E1, ?E2, ?E3; cbn; naive_solver.
Qed.
End stages.

(** ** Any packet, any accessors *)

Lemma packet_stages buf mactype c :
  Z.of_nat (length buf) < 2 ^ 63 → fresh_cache c → ∃ at_, stages buf mactype at_ ∧ at_ S0 = c.
Proof.
  intros Hs Hc. destruct (parse_mac_fresh buf mactype Hs c Hc) as [(t & Em)|(o & Em & Ho)].
  - eexists. split; [by apply (stages_not_ip buf mactype c t)|done].
  - assert (parse_iphdr buf mactype (ip_at c o) = iphdr_body buf (ip_at c o)) as Evia
      by (by apply parse_iphdr_via).
    destruct (parse_iphdr_ip buf mactype Hs c o Ho) as [E|(l4 & src & dst & pr & i & E & Hl)]; rewrite Evia in E.
    + eexists. split; [by apply (stages_ip_runt buf mactype c o)|done].
    + destruct l4 as [l|].
      * eexists. split; [by eapply (stages_ip buf mactype Hs c o l)|done].
      * eexists. split; [by eapply (stages_ip_no_l4 buf mactype c o)|done].
Qed.

(** The packet with the cache of a stage. *)
Definition with_cache (p : packet) (c : cache) : packet :=
  Packet (m_buffer p) (m_length p) (m_tstamp p) (m_mactype p) c.

Lemma with_cache_id p : with_cache p (m_cache p) = p.
Proof. by destruct p. Qed.

(** Where an accessor leads. *)
Definition access_stage (a : accessor) (tcp : bool) (s : stage) : stage :=
  match a with
  | iphdr | l3_protocol => advance_stage ParseMac s
  | l4hdr | ip_src | ip_dst | l4_protocol | ip_tos | ip_ttl | ip_length | ip_header_length => advance_stage ParseIphdr s
  | src_port | dst_port | udp_length => advance_stage ParsePorts s
  | tcp_flags | tcp_seq | tcp_win | tcp_header_length => advance_stage ParseTcphdr s
  | payload | payload_len => advance_stage (if tcp then ParseTcphdr else ParsePorts) (advance_stage ParseIphdr s)
  end.

Lemma access_settles a tcp s : a ≠ l3_protocol → settled a tcp (access_stage a tcp s) = true.
Proof. destruct a, tcp, s; done. Qed.

Lemma access_at a p at_ s :
  stages (m_buffer p) (m_mactype p) at_ →
  let t := access_stage a (is_tcp (at_ SIp)) s in
  access a (with_cache p (at_ s)) = (Ret (access_field a (at_ t)), with_cache p (at_ t)).
Proof.
  intros HS t.
  assert (∀ k, run_parser k (m_buffer p) (m_mactype p) (at_ s) = (Ret tt, at_ (advance_stage k s))) as Hstep
    by (intros k; apply HS).
  assert (access_parse a (m_buffer p) (m_mactype p) (at_ s) = (Ret tt, at_ t)) as Hp.
  { destruct a; try apply (Hstep ParseMac); try apply (Hstep ParseIphdr); try apply (Hstep ParsePorts);
      try apply (Hstep ParseTcphdr); cbn [access_parse]; unfold parse_payload;
      rewrite (bind_Ret _ _ _ _ _ (Hstep ParseIphdr)); run_m;
      rewrite (stages_tcp _ _ _ HS) by (by destruct s); subst t; cbn [access_stage];
      destruct (is_tcp (at_ SIp)); apply (stages_step _ _ _ HS ParseTcphdr) || apply (stages_step _ _ _ HS ParsePorts). }
  unfold access, on_cache. run_m. cbn [m_buffer m_mactype m_cache with_cache]. by rewrite Hp.
Qed.

Lemma access_all_at xs p at_ s :
  stages (m_buffer p) (m_mactype p) at_ →
  ∃ t, access_all xs (with_cache p (at_ s)) = (Ret tt, with_cache p (at_ t)).
Proof.
  intros HS. revert s. induction xs as [|a xs IH]; intros s; cbn [access_all]; [by exists s|].
  rewrite (bind_Ret _ _ _ _ _ (access_at a p at_ s HS)). apply IH.
Qed.

(** A packet that was not looked at yet. *)
Definition fresh_packet (p : packet) : Prop := m_caplen p < 2 ^ 63 ∧ fresh_cache (m_cache p).

Lemma packet_new_fresh junk buf ts len mac : Z.of_nat (length buf) < 2 ^ 63 → fresh_packet (packet_new junk buf ts len mac).
Proof. intros Hb. by destruct junk as [[[? ?] ?] ?]. Qed.

(** ** Frames *)

(** A number in network order. *)
Definition be (n : nat) (v : Z) : list Z := rev (le_bytes n v).

Lemma length_be n v : length (be n v) = n.
Proof. unfold be. by rewrite length_rev, length_le_bytes. Qed.

Lemma load_at buf o n pre bs post :
  buf = pre ++ bs ++ post → o = Z.of_nat (length pre) → length bs = n → load buf o n = le_value bs.
Proof.
  intros -> -> <-. unfold load. by rewrite Nat2Z.id, drop_app_length, take_app_length.
Qed.

Lemma bswap_be n v : bswap n (le_value (be n v)) = v `mod` 2 ^ (8 * Z.of_nat n).
Proof. unfold be. apply (bswap_bswap n v). Qed.

Lemma load16_at buf o v pre post :
  buf = pre ++ be 2 v ++ post → o = Z.of_nat (length pre) → 0 ≤ v < 2 ^ 16 → load16 buf o = v.
Proof.
  intros E Eo Hv. unfold load16, ntohs. rewrite (load_at buf o 2 pre (be 2 v) post E Eo (length_be _ _)), bswap_be.
  by apply Z.mod_small.
Qed.

Lemma load32_at buf o v pre post :
  buf = pre ++ be 4 v ++ post → o = Z.of_nat (length pre) → 0 ≤ v < 2 ^ 32 → load32 buf o = v.
Proof.
  intros E Eo Hv. unfold load32, ntohl. rewrite (load_at buf o 4 pre (be 4 v) post E Eo (length_be _ _)), bswap_be.
  by apply Z.mod_small.
Qed.

Lemma load8_at buf o v pre post :
  buf = pre ++ [v] ++ post → o = Z.of_nat (length pre) → load8 buf o = v.
Proof. intros E Eo. unfold load8. rewrite (load_at buf o 1 pre [v] post E Eo eq_refl). cbn. lia. Qed.

(** The fields of an IPv4 header. *)
Record ip_view := IpView {
  w_tos : Z; w_len : Z; w_id : Z; w_frag : Z; w_ttl : Z; w_proto : Z; w_cksum : Z; w_src : Z; w_dst : Z;
  w_options : list Z
}.

Definition ip_header_bytes (w : ip_view) : list Z :=
  [0x45 + Z.of_nat (length (w_options w)) / 4] ++ [w_tos w] ++ be 2 (w_len w) ++ be 2 (w_id w) ++ be 2 (w_frag w) ++
  [w_ttl w] ++ [w_proto w] ++ be 2 (w_cksum w) ++ be 4 (w_src w) ++ be 4 (w_dst w) ++ w_options w.

Definition ip_view_ok (w : ip_view) : Prop :=
  0 ≤ w_len w < 2 ^ 16 ∧ 0 ≤ w_src w < 2 ^ 32 ∧ 0 ≤ w_dst w < 2 ^ 32 ∧
  ∃ n : nat, (n ≤ 10)%nat ∧ length (w_options w) = (4 * n)%nat.

Definition vlan_bytes (tags : list Z) : list Z := concat ((λ t, be 2 kPktType1q ++ be 2 t) <$> tags).

(** An Ethernet frame: the two addresses, 802.1q tags, the packet type, the IP
    header, ports and the rest. *)
Definition frame (macs : list Z) (tags : list Z) (w : ip_view) (sp dp : Z) (rest : list Z) : list Z :=
  macs ++ vlan_bytes tags ++ be 2 kPktTypeIP4 ++ ip_header_bytes w ++ be 2 sp ++ be 2 dp ++ rest.

Lemma length_ip_header w : length (ip_header_bytes w) = (20 + length (w_options w))%nat.
Proof. unfold ip_header_bytes. rewrite !length_app, !length_be. cbn. lia. Qed.

Lemma length_vlan_bytes tags : length (vlan_bytes tags) = (4 * length tags)%nat.
Proof. unfold vlan_bytes. induction tags as [|t tags IH]; cbn; [done|]. cbn in IH. lia. Qed.

Section frames.
Context (buf : list Z) (Hsmall : Z.of_nat (length buf) < 2 ^ 63).

Lemma vlan_loop_frame tags pre tail fuel c :
  buf = pre ++ vlan_bytes tags ++ be 2 kPktTypeIP4 ++ tail → (14 ≤ length tail)%nat → (length tags < fuel)%nat →
  vlan_loop buf fuel (Z.of_nat (length pre) + 2) (load16 buf (Z.of_nat (length pre))) c =
  (Ret (Some (Z.of_nat (length pre) + 2 + 4 * Z.of_nat (length tags), kPktTypeIP4)), c).
Proof.
  revert pre fuel. induction tags as [|t tags IH]; intros pre [|fuel] E Ht Hf; cbn [length] in *; try lia.
  - cbn [vlan_loop vlan_bytes fmap list_fmap concat app] in *.
    rewrite (load16_at buf _ kPktTypeIP4 pre tail) by done. rewrite Z.mul_0_r, Z.add_0_r. reflexivity.
  - cbn [vlan_loop]. change (vlan_bytes (t :: tags)) with ((be 2 kPktType1q ++ be 2 t) ++ vlan_bytes tags) in E.
    assert (length buf = length pre + (4 + length (vlan_bytes tags ++ be 2 kPktTypeIP4 ++ tail)))%nat as El.
    { rewrite E. by rewrite !length_app, !length_be. }
    rewrite !length_app, length_be in El.
    rewrite (load16_at buf _ kPktType1q pre (be 2 t ++ vlan_bytes tags ++ be 2 kPktTypeIP4 ++ tail));
      [|by rewrite E, <- !app_assoc|done|done].
    rewrite Z.eqb_refl, (remaining_small buf Hsmall) by lia. unfold sizeof_ethhdr, sizeof_eth1qhdr.
    rewrite (proj2 (Z.ltb_ge _ _)) by lia.
    assert (read_header buf (Z.of_nat (length pre) + 2) 4 c = (Ret tt, c)) as Er by (apply read_header_ok; lia).
    rewrite (bind_Ret _ _ _ _ _ Er). pose proof (IH (pre ++ be 2 kPktType1q ++ be 2 t) fuel) as IHt. rewrite !length_app, !length_be in IHt.
    replace (Z.of_nat (length pre + (2 + 2))) with (Z.of_nat (length pre) + 2 + 2) in IHt by lia.
    replace (Z.of_nat (length pre) + 2 + 4) with (Z.of_nat (length pre) + 2 + 2 + 2) by lia.
    rewrite IHt; [|by rewrite E, <- !app_assoc|done|lia].
    replace (Z.of_nat (length pre) + 2 + 2 + 2 + 4 * Z.of_nat (length tags))
      with (Z.of_nat (length pre) + 2 + 4 * Z.of_nat (S (length tags))) by lia. done.
Qed.

Lemma parse_mac_frame macs tags tail c :
  buf = macs ++ vlan_bytes tags ++ be 2 kPktTypeIP4 ++ tail → length macs = 12%nat → (14 ≤ length tail)%nat →
  fresh_cache c → parse_mac buf kEthernet c = (Ret tt, ip_at c (14 + 4 * Z.of_nat (length tags))).
Proof.
  intros E Em Ht (Ed & E1 & E2 & E3).
  assert (length buf = 12 + (4 * length tags + (2 + length tail)))%nat as El.
  { rewrite E, !length_app, length_vlan_bytes, length_be, Em. done. }
  unfold parse_mac. run_m. rewrite Ed. cbn [machdr_parsed]. unfold sizeof_ethhdr.
  rewrite Z.eqb_refl, (proj2 (Z.ltb_ge _ _)) by lia. rewrite read_header_ok by lia.
  pose proof (vlan_loop_frame tags macs tail (vlan_fuel buf) c E Ht) as Hl. rewrite Em in Hl. cbn [Z.of_nat] in Hl.
  change (Z.of_nat 12) with 12 in Hl. change (12 + 2) with 14 in Hl. rewrite Hl by (unfold vlan_fuel; lia).
  unfold finish_mac. run_m. cbn. destruct c. cbn in *. by subst.
Qed.

Lemma decode_hlv_options (n : nat) : (n ≤ 10)%nat → (decode_hlv (0x45 + Z.of_nat n)).1 = 20 + 4 * Z.of_nat n.
Proof. intros Hn. do 11 (destruct n as [|n]; [reflexivity|]). lia. Qed.

Lemma iphdr_body_frame pre w tail c o :
  buf = pre ++ ip_header_bytes w ++ tail → o = Z.of_nat (length pre) → ip_view_ok w →
  let hl := 20 + Z.of_nat (length (w_options w)) in
  iphdr_body buf (ip_at c o) = (Ret tt, ip_parsed_at c o (Some (o + hl)) (w_src w) (w_dst w) (w_proto w)
    (IpFields (w_tos w) (w_ttl w) (w_len w) hl)).
Proof.
  intros E -> (Hlen & Hsrc & Hdst & n & Hn & Hopt) hl.
  assert (length buf = length pre + (20 + length (w_options w) + length tail))%nat as El.
  { by rewrite E, !length_app, length_ip_header. }
  unfold ip_header_bytes in E.
  set (o := Z.of_nat (length pre)).
  assert (load8 buf o = 0x45 + Z.of_nat n) as E0.
  { erewrite (load8_at buf o _ pre); [|by rewrite E, <- !app_assoc|done]. rewrite Hopt.
    replace (Z.of_nat (4 * n)) with (Z.of_nat n * 4) by lia. rewrite Z.div_mul by lia. done. }
  assert (load8 buf (o + 1) = w_tos w) as E1.
  { eapply (load8_at buf _ _ (pre ++ [_])); [by rewrite E, <- !app_assoc|rewrite length_app; cbn; lia]. }
  assert (load16 buf (o + 2) = w_len w) as E2.
  { eapply (load16_at buf _ _ (pre ++ [_] ++ [_])); [by rewrite E, <- !app_assoc|rewrite !length_app; cbn; lia|done]. }
  assert (load8 buf (o + 8) = w_ttl w) as E8.
  { eapply (load8_at buf _ _ (pre ++ [_] ++ [_] ++ be 2 _ ++ be 2 _ ++ be 2 _));
      [by rewrite E, <- !app_assoc|rewrite !length_app, !length_be; cbn; lia]. }
  assert (load8 buf (o + 9) = w_proto w) as E9.
  { eapply (load8_at buf _ _ (pre ++ [_] ++ [_] ++ be 2 _ ++ be 2 _ ++ be 2 _ ++ [_]));
      [by rewrite E, <- !app_assoc|rewrite !length_app, !length_be; cbn; lia]. }
  assert (load32 buf (o + 12) = w_src w) as E12.
  { eapply (load32_at buf _ _ (pre ++ [_] ++ [_] ++ be 2 _ ++ be 2 _ ++ be 2 _ ++ [_] ++ [_] ++ be 2 _));
      [by rewrite E, <- !app_assoc|rewrite !length_app, !length_be; cbn; lia|done]. }
  assert (load32 buf (o + 16) = w_dst w) as E16.
  { eapply (load32_at buf _ _ (pre ++ [_] ++ [_] ++ be 2 _ ++ be 2 _ ++ be 2 _ ++ [_] ++ [_] ++ be 2 _ ++ be 4 _));
      [by rewrite E, <- !app_assoc|rewrite !length_app, !length_be; cbn; lia|done]. }
  unfold iphdr_body. run_m. cbn [m_iphdr_ptr ip_at]. rewrite (remaining_small buf Hsmall) by lia. unfold sizeof_ip4hdr.
  rewrite (proj2 (Z.leb_le _ _)) by lia. rewrite read_header_ok by lia.
  rewrite E0, E1, E2, E8, E9, E12, E16, (decode_hlv_options n Hn).
  replace (20 + 4 * Z.of_nat n) with hl by lia. rewrite (proj2 (Z.leb_le hl _)) by lia. reflexivity.
Qed.
End frames.

(** ** A packet built from a frame *)

Lemma length_of_frame macs tags w sp dp rest : length macs = 12%nat →
  length (frame macs tags w sp dp rest) =
  (12 + (4 * length tags + (2 + (length (ip_header_bytes w) + (2 + (2 + length rest))))))%nat.
Proof. intros Hm. unfold frame. by rewrite !length_app, length_vlan_bytes, !length_be, Hm. Qed.

Lemma frame_ports macs tags w sp dp rest :
  let buf := frame macs tags w sp dp rest in
  let l := 14 + 4 * Z.of_nat (length tags) + (20 + Z.of_nat (length (w_options w))) in
  length macs = 12%nat → 0 ≤ sp < 2 ^ 16 → 0 ≤ dp < 2 ^ 16 → load16 buf l = sp ∧ load16 buf (l + 2) = dp.
Proof.
  intros buf l Hm Hsp Hdp. pose proof (length_ip_header w). split.
  - eapply (load16_at _ _ _ (macs ++ vlan_bytes tags ++ be 2 kPktTypeIP4 ++ ip_header_bytes w)); [| |done].
    + unfold buf, frame. by rewrite <- !app_assoc.
    + rewrite !length_app, length_vlan_bytes, length_be. unfold l. lia.
  - eapply (load16_at _ _ _ (macs ++ vlan_bytes tags ++ be 2 kPktTypeIP4 ++ ip_header_bytes w ++ be 2 sp)); [| |done].
    + unfold buf, frame. by rewrite <- !app_assoc.
    + rewrite !length_app, length_vlan_bytes, !length_be. unfold l. lia.
Qed.

(** The cache of such a packet after [parse_iphdr]. *)
Definition frame_ip_cache (p : packet) (o : Z) (w : ip_view) : cache :=
  let hl := 20 + Z.of_nat (length (w_options w)) in
  ip_parsed_at (m_cache p) o (Some (o + hl)) (w_src w) (w_dst w) (w_proto w) (IpFields (w_tos w) (w_ttl w) (w_len w) hl).

Lemma frame_stages junk macs tags w sp dp rest ts len :
  let buf := frame macs tags w sp dp rest in
  let o := 14 + 4 * Z.of_nat (length tags) in
  let l := o + (20 + Z.of_nat (length (w_options w))) in
  let p := packet_new junk buf ts len kEthernet in
  let c2 := frame_ip_cache p o w in
  Z.of_nat (length buf) < 2 ^ 63 → length macs = 12%nat → ip_view_ok w →
  stages (m_buffer p) (m_mactype p)
    (caches (m_cache p) (ip_at (m_cache p) o) c2 (ports_result buf l c2) (tcphdr_result buf l c2) (all_result buf l c2)).
Proof.
  intros buf o l p c2 Hs Hmacs Hw. pose proof (length_ip_header w) as Eih.
  assert (length buf = 12 + (4 * length tags + (2 + (length (ip_header_bytes w) + (2 + (2 + length rest))))))%nat as El
    by (by apply length_of_frame).
  assert (m_buffer p = buf ∧ m_mactype p = kEthernet ∧ fresh_cache (m_cache p)) as (Eb & Em & Hf) by (by destruct junk as [[[? ?] ?] ?]).
  pose proof (parse_mac_frame buf Hs macs tags (ip_header_bytes w ++ be 2 sp ++ be 2 dp ++ rest) (m_cache p)
    eq_refl Hmacs ltac:(rewrite !length_app, Eih; lia) Hf) as Emac. fold o in Emac.
  assert (iphdr_body buf (ip_at (m_cache p) o) = (Ret tt, c2)) as Eip.
  { eapply (iphdr_body_frame buf Hs (macs ++ vlan_bytes tags ++ be 2 kPktTypeIP4) w (be 2 sp ++ be 2 dp ++ rest)); [|  |done].
    - unfold buf, frame. by rewrite <- !app_assoc.
    - rewrite !length_app, length_vlan_bytes, length_be. lia. }
  rewrite Eb, Em. apply (stages_ip buf kEthernet Hs (m_cache p) o l (w_src w) (w_dst w) (w_proto w) _ Hf Emac); [lia|lia|done].
Qed.

Lemma frame_access junk macs tags w sp dp rest ts len :
  let buf := frame macs tags w sp dp rest in
  let o := 14 + 4 * Z.of_nat (length tags) in
  let l := o + (20 + Z.of_nat (length (w_options w))) in
  let p := packet_new junk buf ts len kEthernet in
  let c2 := frame_ip_cache p o w in
  let at_ := caches (m_cache p) (ip_at (m_cache p) o) c2 (ports_result buf l c2) (tcphdr_result buf l c2) (all_result buf l c2) in
  Z.of_nat (length buf) < 2 ^ 63 → length macs = 12%nat → ip_view_ok w →
  ∀ a, (access a p).1 = Ret (access_field a (at_ (access_stage a (is_tcp c2) S0))).
Proof.
  intros buf o l p c2 at_ Hs Hmacs Hw a.
  pose proof (frame_stages junk macs tags w sp dp rest ts len Hs Hmacs Hw : stages (m_buffer p) (m_mactype p) at_) as HS.
  assert (p = with_cache p (at_ S0)) as Ep by (symmetry; apply with_cache_id).
  pose proof (access_at a p at_ S0 HS) as Ha. rewrite <- Ep in Ha. by rewrite Ha.
Qed.

(** The fields of such a packet. *)
Lemma frame_fields junk macs tags w sp dp rest ts len :
  let buf := frame macs tags w sp dp rest in
  let o := 14 + 4 * Z.of_nat (length tags) in
  let hl := 20 + Z.of_nat (length (w_options w)) in
  Z.of_nat (length buf) < 2 ^ 63 → length macs = 12%nat → ip_view_ok w → w_proto w = kTCP ∨ w_proto w = kUDP →
  0 ≤ sp < 2 ^ 16 → 0 ≤ dp < 2 ^ 16 →
  Forall (λ '(a, v), (access a (packet_new junk buf ts len kEthernet)).1 = Ret (Some v))
    [(l3_protocol, kPktTypeIP4); (iphdr, o); (l4hdr, o + hl); (ip_src, w_src w); (ip_dst, w_dst w);
     (l4_protocol, w_proto w); (ip_tos, w_tos w); (ip_ttl, w_ttl w); (ip_length, w_len w); (ip_header_length, hl);
     (src_port, sp); (dst_port, dp)].
Proof.
  intros buf o hl Hs Hmacs Hw Hproto Hsp Hdp.
  set (p := packet_new junk buf ts len kEthernet).
  set (c2 := frame_ip_cache p o w).
  assert (Flow.src_port (m_key (ports_result buf (o + hl) c2)) = sp ∧ Flow.dst_port (m_key (ports_result buf (o + hl) c2)) = dp)
    as [Fsp Fdp].
  { destruct (frame_ports macs tags w sp dp rest Hmacs Hsp Hdp) as [Esp Edp]. fold buf o hl in Esp, Edp.
    assert (length buf = 12 + (4 * length tags + (2 + (length (ip_header_bytes w) + (2 + (2 + length rest))))))%nat as El
      by (by apply length_of_frame).
    rewrite length_ip_header in El. unfold ports_result. cbn -[load16 Z.leb Z.add Z.sub].
    assert (sizeof_porthdr <=? Z.of_nat (length buf) - (o + hl) = true) as ->
      by (apply Z.leb_le; unfold sizeof_porthdr, o, hl; lia).
    rewrite Esp, Edp. destruct (sizeof_udphdr <=? Z.of_nat (length buf) - (o + hl)), Hproto as [-> | ->]; done. }
  pose proof (frame_access junk macs tags w sp dp rest ts len Hs Hmacs Hw) as Hacc. cbn zeta in Hacc.
  fold buf o hl p c2 in Hacc.
  repeat constructor; rewrite Hacc; cbn [access_stage advance_stage access_field caches]; rewrite ?Fsp, ?Fdp; reflexivity.
Qed.

(** The payload of a UDP packet is behind the eight bytes of its header. *)
Lemma frame_udp_payload junk macs tags w sp dp rest ts len :
  let buf := frame macs tags w sp dp rest in
  Z.of_nat (length buf) < 2 ^ 63 → length macs = 12%nat → ip_view_ok w → w_proto w = kUDP → (4 ≤ length rest)%nat →
  (access payload (packet_new junk buf ts len kEthernet)).1 =
  Ret (Some (14 + 4 * Z.of_nat (length tags) + (20 + Z.of_nat (length (w_options w))) + 8)).
Proof.
  intros buf Hs Hm Hw Hp Hr. rewrite (frame_access junk macs tags w sp dp rest ts len Hs Hm Hw). fold buf.
  pose proof (length_ip_header w) as Eih. assert (length buf = 12 + _)%nat as El by (by apply length_of_frame).
  unfold is_tcp, frame_ip_cache. cbn [m_key ip_parsed_at proto]. rewrite Hp.
  cbn -[ports_result buf Z.add Z.mul Z.of_nat]. unfold ports_result. cbn -[buf load16 Z.leb Z.add Z.sub Z.of_nat Z.mul].
  rewrite !(proj2 (Z.leb_le _ _)) by (unfold sizeof_porthdr, sizeof_udphdr; lia). cbn -[buf Z.add Z.mul Z.of_nat]. by rewrite !Z.add_assoc.
Qed.

(** ** Real packets for the blocks

    The interfaces of the filters, the flow meters and [get_payload], by the
    accessors of a packet. *)

Definition value (a : accessor) (p : packet) : Z := match access a p with (Ret (Some v), _) => v | _ => 0 end.

#[export] Instance packet_header : PacketHeaderI packet := {|
  Filters.l3_protocol := value l3_protocol;
  Filters.l4_protocol := value l4_protocol;
  Filters.ip_src := value ip_src;
  Filters.ip_dst := value ip_dst;
  p_src_port := value src_port;
  p_dst_port := value dst_port;
  p_is_tcp p := value l4_protocol p =? kTCP;
  p_is_udp p := value l4_protocol p =? kUDP;
  ip_fragoff p := match access iphdr p with (Ret (Some o), _) => load16 (m_buffer p) (o + 6) | _ => 0 end;
  p_length := packet_length
|}.

#[export] Instance packet_flow : PacketI packet := {|
  pkt_key p := match key p with (Ret k, _) => k | _ => MkFlowKey 0 0 0 0 0 end;
  pkt_length := packet_length
|}.

#[export] Instance packet_payload : PayloadI packet := {|
  Payload.is_tcp p := value l4_protocol p =? kTCP;
  Payload.is_udp p := value l4_protocol p =? kUDP;
  Payload.tcp_has_syn p := match tcp_has kSYN p with (Ret b, _) => b | _ => false end;
  Payload.tcp_seq := value tcp_seq;
  Payload.ip_length := value ip_length;
  Payload.ip_header_length := value ip_header_length;
  Payload.tcp_header_length := value tcp_header_length;
  Payload.udp_length := value udp_length;
  pkt_payload p := match access payload p with (Ret (Some o), _) => drop (Z.to_nat o) (m_buffer p) | _ => [] end
|}.

(** ** Properties *)

(** C10: a packet of any bytes can be asked anything in any order: no header is
    read outside the captured bytes, the parsers return, the pointers given out
    stay inside the buffer (or at its end), and what an accessor answers does not
    depend on what was asked before, the packet type excepted. *)
Theorem packet_accessors_stable (p : packet) (xs : list accessor) (a : accessor) :
  fresh_packet p →
  ∃ p1 v p2, access_all xs p = (Ret tt, p1) ∧ access a p1 = (Ret v, p2) ∧
    pointers_inside (m_caplen p) (m_cache p2) ∧ m_buffer p2 = m_buffer p ∧
    (a ≠ l3_protocol → (access a p).1 = Ret v).
Proof.
  intros [Hs Hc]. destruct (packet_stages (m_buffer p) (m_mactype p) (m_cache p) Hs Hc) as (at_ & HS & E0).
  assert (p = with_cache p (at_ S0)) as Ep by (rewrite E0; by destruct p).
  destruct (access_all_at xs p at_ S0 HS) as (t & Eall). rewrite <- Ep in Eall.
  do 3 eexists. split; [exact Eall|]. split; [by apply access_at|].
  split; [apply (stages_inside _ _ _ HS)|]. split; [done|]. intros Ha.
  rewrite Ep at 1. rewrite (access_at a p at_ S0 HS). cbn [fst]. f_equal.
  trans (access_field a (at_ SAll)); [|symmetry]; apply (stages_settled _ _ _ HS a); by apply access_settles.
Qed.

(** C11: an Ethernet frame with any 802.1q tags, an IPv4 header with any options
    and TCP or UDP ports is decoded to the fields it was built from. *)
Theorem packet_decodes_frame junk macs tags w sp dp rest ts len :
  let buf := frame macs tags w sp dp rest in
  let o := 14 + 4 * Z.of_nat (length tags) in
  let hl := 20 + Z.of_nat (length (w_options w)) in
  Z.of_nat (length buf) < 2 ^ 63 → length macs = 12%nat → ip_view_ok w → w_proto w = kTCP ∨ w_proto w = kUDP →
  0 ≤ sp < 2 ^ 16 → 0 ≤ dp < 2 ^ 16 →
  Forall (λ '(a, v), (access a (packet_new junk buf ts len kEthernet)).1 = Ret (Some v))
    [(l3_protocol, kPktTypeIP4); (iphdr, o); (l4hdr, o + hl); (ip_src, w_src w); (ip_dst, w_dst w);
     (l4_protocol, w_proto w); (ip_tos, w_tos w); (ip_ttl, w_ttl w); (ip_length, w_len w); (ip_header_length, hl);
     (src_port, sp); (dst_port, dp)].
Proof. apply frame_fields. Qed.

(** ** Findings *)

Definition junk0 : Z * ip_fields * tcp_fields * Z := (0, IpFields 0 0 0 0, TcpFields 0 0 0 0 0 0, 0).

(** A TCP packet cut four bytes into its TCP header. *)
Definition runt_tcp : packet :=
  packet_new junk0 (frame (replicate 12 0) [] (IpView 0 24 0 0 64 kTCP 0 0x0A000001 0x0A000002 []) 80 1024 []) (0, 0) 0
    kEthernet.

(** [l3_protocol] answers IPv4, and after [tcp_flags] was asked a runt. *)
Lemma l3_protocol_depends_on_history :
  (access l3_protocol runt_tcp).1 = Ret (Some kPktTypeIP4) ∧
  (access_all [tcp_flags] runt_tcp).2 ≠ runt_tcp ∧
  (access l3_protocol (access_all [tcp_flags] runt_tcp).2).1 = Ret (Some kPktTypeRuntL4).
Proof. by vm_compute. Qed.

(** A full TCP header with window 0x1234: [tcp_win] gives its first byte only. *)
Definition tcp_window_packet : packet :=
  packet_new junk0 (frame (replicate 12 0) [] (IpView 0 40 0 0 64 kTCP 0 0x0A000001 0x0A000002 []) 80 1024
    (be 4 1 ++ be 4 2 ++ [0x50; kACK] ++ be 2 0x1234 ++ be 2 0 ++ be 2 0)) (0, 0) 0 kEthernet.

Lemma tcp_win_one_byte : (access tcp_win tcp_window_packet).1 = Ret (Some 0x12).
Proof. by vm_compute. Qed.

(** A UDP packet whose IP length field is smaller than its headers. *)
Definition short_ip_length : packet :=
  packet_new junk0 (frame (replicate 12 0) [] (IpView 0 20 0 0 64 kUDP 0 0x0A000001 0x0A000002 []) 53 53
    (be 2 8 ++ be 2 0)) (0, 0) 0 kEthernet.

(** [payload_len] wraps around below zero. *)
Lemma payload_len_wraps : (access payload_len short_ip_length).1 = Ret (Some (2 ^ 64 - 8)).
Proof. by vm_compute. Qed.

(** ** Witnesses *)

Lemma packet_accessors_stable_witness :
  ∃ p1 v p2, access_all [payload; l3_protocol] tcp_window_packet = (Ret tt, p1) ∧ access tcp_seq p1 = (Ret v, p2) ∧
    pointers_inside (m_caplen tcp_window_packet) (m_cache p2) ∧ m_buffer p2 = m_buffer tcp_window_packet ∧
    (tcp_seq ≠ l3_protocol → (access tcp_seq tcp_window_packet).1 = Ret v).
Proof.
  apply (packet_accessors_stable tcp_window_packet [payload; l3_protocol] tcp_seq).
  split; [by vm_compute|by repeat split].
Defined.

Lemma packet_decodes_frame_witness :
  (access dst_port (packet_new junk0 (frame (replicate 12 7) [3; 4]
    (IpView 0 48 0 0 64 kUDP 0 0x0A000001 0x0A000002 [1; 1; 1; 1]) 53 5353 [0; 8; 0; 0]) (0, 0) 0 kEthernet)).1 =
  Ret (Some 5353).
Proof.
  pose proof (packet_decodes_frame junk0 (replicate 12 7) [3; 4]
    (IpView 0 48 0 0 64 kUDP 0 0x0A000001 0x0A000002 [1; 1; 1; 1]) 53 5353 [0; 8; 0; 0] (0, 0) 0
    ltac:(by vm_compute) eq_refl ltac:(unfold ip_view_ok; cbn; repeat split; [lia..|by exists 1%nat; split; [lia|]])
    (or_intror eq_refl) ltac:(lia) ltac:(lia)) as H.
  rewrite Forall_forall in H. apply (H (dst_port, 5353)). rewrite list_elem_of_In. cbn. tauto.
Defined.
