(* ===== verification/Gates.v ===== *)
(** * Gates: the links between blocks

    Models [core/block/InGate.hpp], [InGate.cpp], [OutGate.hpp] and the queue
    of [core/MpMcQueue.hpp].  A gate is addressed by its block and its index
    there, which stands for its address: blocks register their gates when they
    are built and configured, before any link is made, so the vectors that
    hold them do not move afterwards.  The message queue of an input gate is
    the interface [GateQueue]; [DBQueue] implements it. *)

From S2P Require Export DBQueue.

(** ** What a gate asks of its queue *)

(** [q_holds q l]: the queue works and [l] are the pointers to come out, in
    order.  A null pointer is a possible content. *)
Class GateQueue (Msg Q : Type) := {
  q_new : Q;
  q_push : option Msg → Q → bool * Q;
  q_pop : Q → option Msg * Q;
  q_reset : Q → Q;
  q_holds : Q → list (option Msg) → Prop;
  q_capacity : nat;
  q_new_holds : q_holds q_new [];
  q_push_holds q l m : q_holds q l →
    q_holds (q_push m q).2 (if (q_push m q).1 then l ++ [m] else l);
  q_push_room q l m : q_holds q l → (length l < q_capacity)%nat → (q_push m q).1 = true;
  q_pop_holds q l : q_holds q l →
    (q_pop q).1 = default None (head l) ∧ q_holds (q_pop q).2 (tail l);
  q_reset_holds q l : q_holds q l → q_holds (q_reset q) []
}.

(** [DBQueue<std::shared_ptr<const Msg>,1024>] *)
Definition queue_length : nat := Z.to_nat 1024.

Section dbqueue_gate.
Context {Msg : Type}.

Definition dbq : Type := db_queue (option Msg).
Definition dbq_push (m : option Msg) (q : dbq) : bool * dbq :=
  match push queue_length m q with (Ret b, q') => (b, q') | (Throw _, q') => (false, q') end.
Definition dbq_pop (q : dbq) : option Msg * dbq :=
  let '((_, tmp), q') := pop None queue_length None q in (tmp, q').
Definition dbq_holds (q : dbq) (l : list (option Msg)) : Prop :=
  ∃ cl pl, db_rep None queue_length q cl pl ∧ l = cl ++ pl.

Lemma queue_length_ok : (0 < queue_length)%nat ∧ Z.of_nat queue_length < 2 ^ 30 - 1.
Proof. unfold queue_length. split; [lia|]. rewrite Z2Nat.id; lia. Qed.

Lemma dbq_new_holds : dbq_holds (db_new None queue_length) [].
Proof.
  exists [], []. split; [|done]. apply db_new_rep; apply queue_length_ok.
Qed.

Lemma dbq_push_holds q l m :
  dbq_holds q l → dbq_holds (dbq_push m q).2 (if (dbq_push m q).1 then l ++ [m] else l).
Proof.
  intros (cl & pl & Hr & ->). unfold dbq_push.
  destruct (decide (length pl = queue_length)) as [E|E].
  - rewrite (push_full _ _ _ _ _ _ Hr E). by exists cl, pl.
  - destruct queue_length_ok as [P1 P2].
    destruct (push_rep _ _ P1 P2 m _ _ _ Hr E) as (q' & -> & Hr'). exists cl, (pl ++ [m]).
    split; [done|]. simpl. by rewrite app_assoc.
Qed.

Lemma dbq_push_room q l m :
  dbq_holds q l → (length l < queue_length)%nat → (dbq_push m q).1 = true.
Proof.
  intros (cl & pl & Hr & ->) Hl. unfold dbq_push. rewrite length_app in Hl.
  destruct queue_length_ok as [P1 P2].
  destruct (push_rep _ _ P1 P2 m _ _ _ Hr) as (q' & -> & _); [lia|done].
Qed.

Lemma dbq_pop_holds q l :
  dbq_holds q l → (dbq_pop q).1 = default None (head l) ∧ dbq_holds (dbq_pop q).2 (tail l).
Proof.
  intros (cl & pl & Hr & ->). unfold dbq_pop. destruct queue_length_ok as [P1 P2].
  destruct (pop_rep _ _ P1 P2 None _ _ _ Hr) as (q' & -> & Hr').
  destruct cl as [|x cl]; [destruct pl as [|x pl]|]; cbn in *; split; try done; eexists _, _;
    (split; [exact Hr'|]); by rewrite ?app_nil_r.
Qed.

Lemma dbq_reset_holds q l : dbq_holds q l → dbq_holds (reset None q) [].
Proof.
  intros (cl & pl & Hr & ->). destruct queue_length_ok as [P1 P2].
  exists [], []. split; [|done]. by eapply reset_rep.
Qed.

#[export] Instance dbqueue_gate_queue : GateQueue Msg dbq := {|
  q_new := db_new None queue_length;
  q_push := dbq_push;
  q_pop := dbq_pop;
  q_reset := reset None;
  q_holds := dbq_holds;
  q_capacity := queue_length;
  q_new_holds := dbq_new_holds;
  q_push_holds := dbq_push_holds;
  q_push_room := dbq_push_room;
  q_pop_holds := dbq_pop_holds;
  q_reset_holds := dbq_reset_holds
|}.
End dbqueue_gate.

(** ** Gates and their links *)

(** The address of a gate: its owner and its index. *)
Notation gate := (nat * nat)%type.

Record in_gate (Q : Type) := InGate { ig_queue : Q; ig_peers : list gate }.
Arguments InGate {Q} _ _.
Arguments ig_queue {Q} _.
Arguments ig_peers {Q} _.

Record net (Q : Type) := Net {
  in_gates : gmap gate (in_gate Q);
  out_gates : gmap gate (list gate)
}.
Arguments Net {Q} _ _.
Arguments in_gates {Q} _.
Arguments out_gates {Q} _.

(** Following a pointer to a gate that is gone. *)
Definition dangling : exn := undefined_behaviour "gate does not exist".

Section gates.
Context {Msg Q : Type} `{GateQueue Msg Q}.
Implicit Types (n : net Q) (i o : gate).

(** [InGate(own, id)], [OutGate(own, id)] *)
Definition in_gate_new i : M (net Q) unit :=
  modify (λ n, Net (<[i := InGate q_new []]> (in_gates n)) (out_gates n)).
Definition out_gate_new o : M (net Q) unit :=
  modify (λ n, Net (in_gates n) (<[o := []]> (out_gates n))).

Definition get_in i : M (net Q) (in_gate Q) := λ n,
  match in_gates n !! i with Some g => (Ret g, n) | None => (Throw dangling, n) end.
Definition put_in i g : M (net Q) unit :=
  modify (λ n, Net (<[i := g]> (in_gates n)) (out_gates n)).
Definition get_out o : M (net Q) (list gate) := λ n,
  match out_gates n !! o with Some ps => (Ret ps, n) | None => (Throw dangling, n) end.
Definition put_out o ps : M (net Q) unit :=
  modify (λ n, Net (in_gates n) (<[o := ps]> (out_gates n))).

(** [InGate::connect], [OutGate::connect] *)
Definition in_connect i o : M (net Q) unit :=
  g ← get_in i; put_in i (InGate (ig_queue g) (ig_peers g ++ [o])).
Definition out_connect o i : M (net Q) unit :=
  ps ← get_out o; put_out o (ps ++ [i]).

Definition not_connected : exn := runtime_error "trying to disconect a non-connected gate".

(** [InGate::disconnect], [OutGate::disconnect]: every occurrence goes. *)
Definition in_disconnect i o : M (net Q) unit :=
  g ← get_in i;
  ensure (bool_decide (o ∈ ig_peers g)) not_connected;;
  put_in i (InGate (ig_queue g) (remove_all o (ig_peers g))).
Definition out_disconnect o i : M (net Q) unit :=
  ps ← get_out o;
  ensure (bool_decide (i ∈ ps)) not_connected;;
  put_out o (remove_all i ps).

Fixpoint for_each (f : gate → M (net Q) unit) (ps : list gate) : M (net Q) unit :=
  match ps with
  | [] => mret tt
  | p :: ps => f p;; for_each f ps
  end.

(** [disconnect_all] of either side. *)
Definition in_disconnect_all i : M (net Q) unit :=
  g ← get_in i;
  for_each (λ o, out_disconnect o i) (ig_peers g);;
  g ← get_in i;
  put_in i (InGate (q_reset (ig_queue g)) []).
Definition out_disconnect_all o : M (net Q) unit :=
  ps ← get_out o;
  for_each (λ i, in_disconnect i o) ps;;
  put_out o [].

Definition is_connected i : M (net Q) bool :=
  g ← get_in i; mret (negb (bool_decide (ig_peers g = []))).

(** [Composition::create_link], [delete_link] on the gates they found. *)
Definition link o i : M (net Q) unit := in_connect i o;; out_connect o i.
Definition unlink o i : M (net Q) unit := in_disconnect i o;; out_disconnect o i.

(** [InGate::dequeue] *)
Definition dequeue i : M (net Q) (option Msg) :=
  g ← get_in i;
  let '(tmp, q) := q_pop (ig_queue g) in
  put_in i (InGate q (ig_peers g));;
  mret tmp.

(** The push of [InGate::receive] for a block that is not direct. *)
Definition enqueue i (m : option Msg) : M (net Q) bool :=
  g ← get_in i;
  let '(queued, q) := q_push m (ig_queue g) in
  put_in i (InGate q (ig_peers g));;
  mret queued.

(** ** The links are symmetric *)

Definition occ (x : gate) (l : list gate) : nat := length (filter (eq x) l).

Definition peers_in n i : list gate := default [] (ig_peers <$> in_gates n !! i).
Definition peers_out n o : list gate := default [] (out_gates n !! o).

(** Either side lists the other equally often, and what it lists exists. *)
Definition linked n : Prop :=
  (∀ i o, occ o (peers_in n i) = occ i (peers_out n o)) ∧
  (∀ i o, o ∈ peers_in n i → is_Some (out_gates n !! o)) ∧
  (∀ i o, i ∈ peers_out n o → is_Some (in_gates n !! i)).

Lemma occ_app x l1 l2 : occ x (l1 ++ l2) = (occ x l1 + occ x l2)%nat.
Proof. unfold occ. by rewrite filter_app, length_app. Qed.

Lemma occ_singleton x y : occ x [y] = if decide (x = y) then 1%nat else 0%nat.
Proof. unfold occ. rewrite filter_cons. by destruct (decide (x = y)). Qed.

Lemma occ_elem_of x l : x ∈ l ↔ (0 < occ x l)%nat.
Proof.
  induction l as [|y l IH]; [split; [by intros ?%not_elem_of_nil|cbn; lia]|].
  change (y :: l) with ([y] ++ l). rewrite occ_app, occ_singleton, elem_of_app, list_elem_of_singleton, IH.
  destruct (decide (x = y)) as [->|Hne]; [split; [lia|by left]|].
  split; [intros [?|?]; [done|lia]|intros; right; lia].
Qed.

Lemma occ_remove x y l : occ x (remove_all y l) = if decide (x = y) then 0%nat else occ x l.
Proof.
  induction l as [|z l IH]; [by destruct (decide _)|].
  change (z :: l) with ([z] ++ l). rewrite remove_all_app, !occ_app, IH.
  unfold remove_all. rewrite filter_cons. destruct (decide (z ≠ y)) as [Hz|Hz]; cbn [filter list_filter].
  - rewrite !occ_singleton. repeat destruct (decide _); naive_solver lia.
  - rewrite !occ_singleton. change (occ x []) with 0%nat. repeat destruct (decide _); naive_solver lia.
Qed.

(** What the operations do to the peers, when the gates exist. *)
Definition set_peers (f : list gate → list gate) (i : gate) n : net Q :=
  Net (alter (λ g, InGate (ig_queue g) (f (ig_peers g))) i (in_gates n)) (out_gates n).
Definition set_peers_out (f : list gate → list gate) (o : gate) n : net Q :=
  Net (in_gates n) (alter f o (out_gates n)).

Lemma peers_in_set f i i' n :
  peers_in (set_peers f i n) i' =
  if decide (i = i') then match in_gates n !! i with Some g => f (ig_peers g) | None => [] end
  else peers_in n i'.
Proof.
  unfold peers_in, set_peers. cbn [in_gates]. destruct (decide (i = i')) as [->|Hne].
  - rewrite lookup_alter_eq. by destruct (in_gates n !! i').
  - by rewrite lookup_alter_ne.
Qed.

Lemma peers_out_set f o o' n :
  peers_out (set_peers_out f o n) o' =
  if decide (o = o') then match out_gates n !! o with Some ps => f ps | None => [] end
  else peers_out n o'.
Proof.
  unfold peers_out, set_peers_out. cbn [out_gates]. destruct (decide (o = o')) as [->|Hne].
  - rewrite lookup_alter_eq. by destruct (out_gates n !! o').
  - by rewrite lookup_alter_ne.
Qed.

Lemma insert_as_alter {K A} `{Countable K} (f : A → A) (m : gmap K A) k x :
  m !! k = Some x → <[k := f x]> m = alter f k m.
Proof.
  intros E. apply map_eq. intros k'. destruct (decide (k = k')) as [->|Hne].
  - by rewrite lookup_insert_eq, lookup_alter_eq, E.
  - by rewrite lookup_insert_ne, lookup_alter_ne.
Qed.

Lemma is_Some_alter {K A} `{Countable K} (f : A → A) (m : gmap K A) k k' :
  is_Some (alter f k m !! k') ↔ is_Some (m !! k').
Proof.
  destruct (decide (k = k')) as [->|Hne]; [|by rewrite lookup_alter_ne].
  rewrite lookup_alter_eq, fmap_is_Some. done.
Qed.

(** A gate's peers, when both sides of [n] are changed along one link. *)
Lemma linked_change f_in f_out o i n :
  linked n → is_Some (in_gates n !! i) → is_Some (out_gates n !! o) →
  (∀ o' l, o' ≠ o → occ o' (f_in l) = occ o' l) → (∀ i' l, i' ≠ i → occ i' (f_out l) = occ i' l) →
  occ o (f_in (peers_in n i)) = occ i (f_out (peers_out n o)) →
  linked (set_peers f_in i (set_peers_out f_out o n)).
Proof.
  intros (Hs & Hi & Ho) [g Eg] [ps Eo] Hfi Hfo Hx.
  assert (∀ i' o', occ o' (peers_in (set_peers f_in i (set_peers_out f_out o n)) i') =
    if decide (i' = i) then occ o' (f_in (peers_in n i)) else occ o' (peers_in n i')) as Pin.
  { intros i' o'. rewrite peers_in_set. cbn [set_peers_out in_gates]. rewrite Eg.
    unfold peers_in. rewrite Eg. by destruct (decide (i = i')), (decide (i' = i)); subst. }
  assert (∀ i' o', occ i' (peers_out (set_peers f_in i (set_peers_out f_out o n)) o') =
    if decide (o' = o) then occ i' (f_out (peers_out n o)) else occ i' (peers_out n o')) as Pout.
  { intros i' o'. unfold set_peers at 1, peers_out at 1. cbn [out_gates].
    change (default [] (out_gates (set_peers_out f_out o n) !! o')) with (peers_out (set_peers_out f_out o n) o').
    rewrite peers_out_set, Eo. unfold peers_out. rewrite Eo. by destruct (decide (o = o')), (decide (o' = o)); subst. }
  split_and!.
  - intros i' o'. rewrite Pin, Pout.
    destruct (decide (i' = i)) as [->|Ni], (decide (o' = o)) as [->|No]; [done| | |done].
    + by rewrite Hfi.
    + by rewrite Hfo.
  - intros i' o' Hin. cbn [set_peers set_peers_out out_gates]. rewrite is_Some_alter.
    apply occ_elem_of in Hin. rewrite Pin in Hin.
    destruct (decide (o' = o)) as [->|No]; [by exists ps|]. apply (Hi i').
    apply occ_elem_of. destruct (decide (i' = i)) as [->|]; [by rewrite Hfi in Hin|done].
  - intros i' o' Hin. cbn [set_peers set_peers_out in_gates]. rewrite is_Some_alter.
    apply occ_elem_of in Hin. rewrite Pout in Hin.
    destruct (decide (i' = i)) as [->|Ni]; [by exists g|]. apply (Ho _ o').
    apply occ_elem_of. destruct (decide (o' = o)) as [->|]; [by rewrite Hfo in Hin|done].
Qed.

Lemma link_spec o i n :
  link o i n =
  match in_gates n !! i, out_gates n !! o with
  | Some _, Some _ => (Ret tt, set_peers (λ l, l ++ [o]) i (set_peers_out (λ l, l ++ [i]) o n))
  | Some _, None => (Throw dangling, set_peers (λ l, l ++ [o]) i n)
  | None, _ => (Throw dangling, n)
  end.
Proof.
  unfold link, in_connect, out_connect, get_in, put_in, get_out, put_out, set_peers, set_peers_out. run_m.
  destruct (in_gates n !! i) as [g|] eqn:Ei; [|done]. cbn [out_gates].
  rewrite (insert_as_alter (λ g, InGate (ig_queue g) (ig_peers g ++ [o])) _ _ _ Ei).
  destruct (out_gates n !! o) as [ps|] eqn:Eo; [|done]. cbn [in_gates out_gates].
  by rewrite (insert_as_alter (λ l, l ++ [i]) _ _ _ Eo).
Qed.

Lemma unlink_spec o i n :
  is_Some (in_gates n !! i) → is_Some (out_gates n !! o) →
  o ∈ peers_in n i → i ∈ peers_out n o →
  unlink o i n = (Ret tt, set_peers (remove_all o) i (set_peers_out (remove_all i) o n)).
Proof.
  unfold unlink, in_disconnect, out_disconnect, get_in, put_in, get_out, put_out, set_peers, set_peers_out,
    peers_in, peers_out. intros [g Ei] [ps Eo]. rewrite Ei, Eo. cbn [fmap option_fmap option_map default from_option].
  intros Hi Ho. run_m. rewrite Ei, (bool_decide_true _ Hi). cbn [out_gates]. rewrite Eo, (bool_decide_true _ Ho).
  cbn [in_gates out_gates].
  rewrite (insert_as_alter (λ g, InGate (ig_queue g) (remove_all o (ig_peers g))) _ _ _ Ei).
  by rewrite (insert_as_alter (remove_all i) _ _ _ Eo).
Qed.

Lemma link_linked o i n : linked n → (link o i n).1 = Ret tt → linked (link o i n).2.
Proof.
  intros HL. rewrite link_spec.
  destruct (in_gates n !! i) as [g|] eqn:Ei, (out_gates n !! o) as [ps|] eqn:Eo; try done. intros _.
  apply linked_change; try done.
  - intros o' l Hne. rewrite occ_app, occ_singleton. destruct (decide _); [done|lia].
  - intros i' l Hne. rewrite occ_app, occ_singleton. destruct (decide _); [done|lia].
  - rewrite !occ_app, !occ_singleton, !decide_True by done. destruct HL as [Hs _]. by rewrite Hs.
Qed.

Lemma unlink_linked o i n :
  linked n → o ∈ peers_in n i → (unlink o i n).1 = Ret tt ∧ linked (unlink o i n).2.
Proof.
  intros HL Hin. pose proof HL as (Hs & Hi & Ho).
  assert (i ∈ peers_out n o) as Hout.
  { apply occ_elem_of. rewrite <- Hs. by apply occ_elem_of. }
  rewrite unlink_spec by (eauto using occ_elem_of). split; [done|].
  apply linked_change; eauto.
  - intros o' l Hne. rewrite occ_remove. by destruct (decide _).
  - intros i' l Hne. rewrite occ_remove. by destruct (decide _).
  - by rewrite !occ_remove, !decide_True.
Qed.

(** A link that is not there is not deleted and nothing changes. *)
Lemma unlink_absent o i n :
  is_Some (in_gates n !! i) → o ∉ peers_in n i → unlink o i n = (Throw not_connected, n).
Proof.
  unfold unlink, in_disconnect, get_in, peers_in. intros [g Ei]. rewrite Ei. cbn.
  intros Hn. run_m. by rewrite Ei, (bool_decide_false _ Hn).
Qed.

(** ** Disconnecting everything *)

(** The loop of [InGate::disconnect_all]: [i] leaves the peers of every gate. *)
Lemma for_each_disconnect i ps n :
  (∀ o, o ∈ ps → is_Some (out_gates n !! o)) →
  in_gates (for_each (λ o, out_disconnect o i) ps n).2 = in_gates n ∧
    (NoDup ps ∧ (∀ o, o ∈ ps → i ∈ peers_out n o) →
      (for_each (λ o, out_disconnect o i) ps n).1 = Ret tt ∧
      out_gates (for_each (λ o, out_disconnect o i) ps n).2 =
        foldr (alter (remove_all i)) (out_gates n) (rev ps)) ∧
    (¬ (NoDup ps ∧ (∀ o, o ∈ ps → i ∈ peers_out n o)) →
      (for_each (λ o, out_disconnect o i) ps n).1 = Throw not_connected).
Proof.
  revert n. induction ps as [|o ps IH]; intros n Hex.
  { split; [done|]. split; [done|]. intros Hno. destruct Hno. split; [constructor|]. by intros o ?%not_elem_of_nil. }
  destruct (Hex o) as [l El]; [by left|].
  assert (peers_out n o = l) as Pl by (unfold peers_out; by rewrite El).
  cbn [for_each].
  assert (out_disconnect o i n = if decide (i ∈ l) then (Ret tt, set_peers_out (remove_all i) o n)
    else (Throw not_connected, n)) as Ed.
  { unfold out_disconnect, get_out, put_out, set_peers_out. run_m. rewrite El.
    destruct (decide (i ∈ l)) as [Hin|Hout]; [|by rewrite bool_decide_false].
    by rewrite bool_decide_true, (insert_as_alter (remove_all i) _ _ _ El). }
  destruct (decide (i ∈ l)) as [Hin|Hout].
  2:{ rewrite (bind_Throw _ _ _ _ _ Ed). split; [done|]. split; [|done].
      intros [_ Hall]. destruct Hout. rewrite <- Pl. apply Hall. by left. }
  rewrite (bind_Ret _ _ _ _ _ Ed).
  destruct (IH (set_peers_out (remove_all i) o n)) as (I1 & I2 & I3).
  { intros o' Ho'. cbn [set_peers_out out_gates]. rewrite is_Some_alter. apply Hex. by right. }
  assert (∀ o', peers_out (set_peers_out (remove_all i) o n) o' =
    if decide (o = o') then remove_all i l else peers_out n o') as Po.
  { intros o'. rewrite peers_out_set, El. by destruct (decide (o = o')). }
  split; [exact I1|]. split.
  - intros [Hnd Hall]. apply NoDup_cons in Hnd as [Hno Hnd]. destruct I2 as [E1 E2].
    { split; [done|]. intros o' Ho'. rewrite Po, decide_False by (intros ->; done). apply Hall. by right. }
    split; [exact E1|]. cbn [rev]. rewrite foldr_app. exact E2.
  - intros Hno. apply I3. intros [Hnd Hall]. apply Hno.
    assert (o ∉ ps) as Hops.
    { intros Hops. specialize (Hall o Hops). rewrite Po, decide_True in Hall by done.
      apply elem_of_remove_all in Hall as [Hc _]. done. }
    split; [by constructor|]. intros o' Ho'. apply elem_of_cons in Ho' as [->|Ho']; [by rewrite Pl|].
    specialize (Hall o' Ho'). rewrite Po in Hall. by rewrite decide_False in Hall by (intros ->; done).
Qed.

Lemma lookup_foldr_alter i (ps : list gate) (m : gmap gate (list gate)) o :
  foldr (alter (remove_all i)) m ps !! o =
  (if decide (o ∈ ps) then remove_all i else id) <$> m !! o.
Proof.
  induction ps as [|p ps IH]; cbn [foldr].
  - rewrite decide_False by apply not_elem_of_nil. by destruct (m !! o).
  - destruct (decide (p = o)) as [->|Hne].
    + rewrite lookup_alter_eq, IH, (decide_True (P:=o ∈ o :: ps)) by (by left).
      destruct (m !! o) as [l|]; cbn; [|done]. f_equal. destruct (decide (o ∈ ps)); [|done].
      apply list_filter_all, Forall_forall. intros x [Hx _]%elem_of_remove_all. done.
    + rewrite lookup_alter_ne, IH by done. f_equal.
      destruct (decide (o ∈ ps)); [rewrite decide_True by (by right)|
        rewrite decide_False by (by intros [->|]%elem_of_cons)]; done.
Qed.

Lemma in_disconnect_all_spec i n g :
  linked n → in_gates n !! i = Some g →
  if decide (NoDup (ig_peers g)) then
    ∃ n', in_disconnect_all i n = (Ret tt, n') ∧ linked n' ∧
      in_gates n' = <[i := InGate (q_reset (ig_queue g)) []]> (in_gates n) ∧
      ∀ o, out_gates n' !! o = (if decide (o ∈ ig_peers g) then remove_all i else id) <$> out_gates n !! o
  else ∃ n', in_disconnect_all i n = (Throw not_connected, n') ∧ in_gates n' = in_gates n.
Proof.
  intros HL Ei. pose proof HL as (Hs & Hi & Ho).
  assert (peers_in n i = ig_peers g) as Pi by (unfold peers_in; by rewrite Ei).
  destruct (for_each_disconnect i (ig_peers g) n) as (Hin & Hok & Hbad).
  { intros o Hin. apply (Hi i). by rewrite Pi. }
  assert (∀ o, o ∈ ig_peers g → i ∈ peers_out n o) as Hall.
  { intros o Hin'. apply occ_elem_of. rewrite <- Hs, Pi. by apply occ_elem_of. }
  unfold in_disconnect_all, get_in. run_m. rewrite Ei.
  destruct (for_each _ _ n) as [r n']. cbn [fst snd] in *.
  destruct (decide (NoDup (ig_peers g))) as [Hnd|Hnd].
  2:{ rewrite Hbad by tauto. eauto. }
  destruct Hok as [-> Eo]; [done|]. rewrite Hin, Ei. unfold put_in. run_m. rewrite Hin.
  eexists. split; [done|]. cbn [in_gates out_gates].
  assert (∀ o, out_gates n' !! o =
    (if decide (o ∈ ig_peers g) then remove_all i else id) <$> out_gates n !! o) as Hlook.
  { intros o. rewrite Eo, lookup_foldr_alter. f_equal.
    assert (o ∈ rev (ig_peers g) ↔ o ∈ ig_peers g) as Hr by (by rewrite !list_elem_of_In, <- in_rev).
    destruct (decide (o ∈ ig_peers g)), (decide (o ∈ rev (ig_peers g))); tauto. }
  split; [|done].
  set (n1 := Net _ _).
  assert (∀ i', peers_in n1 i' = if decide (i' = i) then [] else peers_in n i') as Pin.
  { intros i'. unfold n1, peers_in. cbn [in_gates]. destruct (decide (i' = i)) as [->|Hne].
    - by rewrite lookup_insert_eq.
    - by rewrite lookup_insert_ne. }
  assert (∀ i' o, occ i' (peers_out n1 o) = if decide (i' = i) then 0%nat else occ i' (peers_out n o)) as Pout.
  { intros i' o. unfold n1, peers_out. cbn [out_gates]. rewrite Hlook.
    destruct (out_gates n !! o) as [l|] eqn:El; cbn [fmap option_fmap option_map default from_option id];
      [|by destruct (decide _)].
    destruct (decide (o ∈ ig_peers g)) as [Hin'|Hout].
    - rewrite occ_remove. by destruct (decide _).
    - destruct (decide (i' = i)) as [->|]; [|done]. cbn [id].
      destruct (decide (0 < occ i l)%nat) as [Hp|]; [|lia]. exfalso. apply Hout.
      rewrite <- Pi. apply occ_elem_of. rewrite Hs. unfold peers_out. by rewrite El. }
  split_and!.
  - intros i' o. rewrite Pin, Pout. by destruct (decide (i' = i)).
  - intros i' o. rewrite Pin. destruct (decide _); [by intros ?%not_elem_of_nil|]. intros Hin'.
    unfold n1. cbn [out_gates]. rewrite Hlook, fmap_is_Some. eauto.
  - intros i' o Hin'%occ_elem_of. rewrite Pout in Hin'. unfold n1. cbn [in_gates].
    destruct (decide (i' = i)) as [->|Hne]; [lia|]. rewrite lookup_insert_ne by done.
    apply (Ho i' o). by apply occ_elem_of.
Qed.

(** ** The specification: a list of links *)

Notation links := (list (gate * gate)).
Definition sources (L : links) i : list gate := fst <$> filter (λ l, l.2 = i) L.
Definition targets (L : links) o : list gate := snd <$> filter (λ l, l.1 = o) L.

(** Every gate lists its peers in the order the links were made. *)
Definition links_rep n (L : links) : Prop :=
  (∀ i, peers_in n i = sources L i) ∧ (∀ o, peers_out n o = targets L o) ∧
  (∀ o i, (o, i) ∈ L → is_Some (in_gates n !! i) ∧ is_Some (out_gates n !! o)).

Inductive link_op := CreateLink o i | DeleteLink o i | Isolate i.

Definition run_link (x : link_op) : M (net Q) unit :=
  match x with
  | CreateLink o i => link o i
  | DeleteLink o i => unlink o i
  | Isolate i => in_disconnect_all i
  end.
Fixpoint run_links (xs : list link_op) : M (net Q) unit :=
  match xs with [] => mret tt | x :: xs => run_link x;; run_links xs end.

Definition spec_link (x : link_op) (L : links) : links :=
  match x with
  | CreateLink o i => L ++ [(o, i)]
  | DeleteLink o i => remove_all (o, i) L
  | Isolate i => filter (λ l, l.2 ≠ i) L
  end.

Lemma sources_cons o i L i' :
  sources ((o, i) :: L) i' = if decide (i = i') then o :: sources L i' else sources L i'.
Proof. unfold sources. rewrite filter_cons. by destruct (decide _). Qed.

Lemma targets_cons o i L o' :
  targets ((o, i) :: L) o' = if decide (o = o') then i :: targets L o' else targets L o'.
Proof. unfold targets. rewrite filter_cons. by destruct (decide _). Qed.

Lemma sources_app L1 L2 i : sources (L1 ++ L2) i = sources L1 i ++ sources L2 i.
Proof. unfold sources. by rewrite filter_app, fmap_app. Qed.

Lemma targets_app L1 L2 o : targets (L1 ++ L2) o = targets L1 o ++ targets L2 o.
Proof. unfold targets. by rewrite filter_app, fmap_app. Qed.

Lemma filter_cons_if {A} (P : A → Prop) `{∀ x, Decision (P x)} x l :
  filter P (x :: l) = if decide (P x) then x :: filter P l else filter P l.
Proof. apply filter_cons. Qed.

Lemma sources_remove o i L i' :
  sources (remove_all (o, i) L) i' = if decide (i = i') then remove_all o (sources L i') else sources L i'.
Proof.
  induction L as [|[o1 i1] L IH]; [by destruct (decide _)|]. unfold remove_all in *.
  rewrite filter_cons_if, sources_cons.
  destruct (decide ((o1, i1) ≠ (o, i))) as [Hne|Heq].
  - rewrite sources_cons, IH. destruct (decide (i1 = i')) as [->|]; [|done].
    destruct (decide (i = i')) as [->|]; [|done]. rewrite filter_cons_True; [done|congruence].
  - apply dec_stable in Heq as [= -> ->]. rewrite IH. destruct (decide (i = i')) as [->|]; [|done].
    by rewrite filter_cons_False by naive_solver.
Qed.

Lemma targets_remove o i L o' :
  targets (remove_all (o, i) L) o' = if decide (o = o') then remove_all i (targets L o') else targets L o'.
Proof.
  induction L as [|[o1 i1] L IH]; [by destruct (decide _)|]. unfold remove_all in *.
  rewrite filter_cons_if, targets_cons.
  destruct (decide ((o1, i1) ≠ (o, i))) as [Hne|Heq].
  - rewrite targets_cons, IH. destruct (decide (o1 = o')) as [->|]; [|done].
    destruct (decide (o = o')) as [->|]; [|done]. rewrite filter_cons_True; [done|congruence].
  - apply dec_stable in Heq as [= -> ->]. rewrite IH. destruct (decide (o = o')) as [->|]; [|done].
    by rewrite filter_cons_False by naive_solver.
Qed.

Lemma sources_isolate i L i' :
  sources (filter (λ l, l.2 ≠ i) L) i' = if decide (i' = i) then [] else sources L i'.
Proof.
  induction L as [|[o1 i1] L IH]; [by destruct (decide _)|].
  rewrite filter_cons_if. cbn [snd]. rewrite !sources_cons.
  destruct (decide (i1 ≠ i)) as [Hne|Heq]; [|apply dec_stable in Heq as ->]; rewrite ?sources_cons, IH;
    repeat destruct (decide _); congruence.
Qed.

Lemma targets_isolate i L o :
  targets (filter (λ l, l.2 ≠ i) L) o = remove_all i (targets L o).
Proof.
  induction L as [|[o1 i1] L IH]; [done|]. unfold remove_all in *.
  rewrite filter_cons_if. cbn [snd]. rewrite !targets_cons.
  destruct (decide (i1 ≠ i)) as [Hne|Heq]; [|apply dec_stable in Heq as ->]; rewrite ?targets_cons, IH;
    destruct (decide (o1 = o)); [by rewrite filter_cons_True|done|by rewrite filter_cons_False by naive_solver|done].
Qed.

Lemma elem_of_sources L i o : o ∈ sources L i ↔ (o, i) ∈ L.
Proof.
  unfold sources. rewrite list_elem_of_fmap. split.
  - intros ([o' i'] & -> & [Hi Hin]%list_elem_of_filter). cbn in *. by subst.
  - intros Hin. exists (o, i). by rewrite list_elem_of_filter.
Qed.

Lemma elem_of_targets L i o : i ∈ targets L o ↔ (o, i) ∈ L.
Proof.
  unfold targets. rewrite list_elem_of_fmap. split.
  - intros ([o' i'] & -> & [Hi Hin]%list_elem_of_filter). cbn in *. by subst.
  - intros Hin. exists (o, i). by rewrite list_elem_of_filter.
Qed.

Lemma links_rep_linked n L : links_rep n L → linked n.
Proof.
  intros (Hi & Ho & Hex). split_and!.
  - intros i o. rewrite Hi, Ho. clear. induction L as [|[o1 i1] L IH]; [done|].
    rewrite sources_cons, targets_cons. unfold occ in *.
    destruct (decide (i1 = i)) as [->|], (decide (o1 = o)) as [->|]; rewrite ?filter_cons; rewrite ?decide_True by done;
      rewrite ?(decide_False (P:=o = o1)), ?(decide_False (P:=i = i1)) by congruence; cbn [length]; auto.
  - intros i o Hin. rewrite Hi, elem_of_sources in Hin. by apply Hex in Hin as [_ ?].
  - intros i o Hin. rewrite Ho, elem_of_targets in Hin. by apply Hex in Hin as [? _].
Qed.

(** Changing one link on both sides. *)
Lemma links_rep_change n L L' f_in f_out o i :
  links_rep n L → is_Some (in_gates n !! i) → is_Some (out_gates n !! o) →
  (∀ i', sources L' i' = if decide (i = i') then f_in (sources L i') else sources L i') →
  (∀ o', targets L' o' = if decide (o = o') then f_out (targets L o') else targets L o') →
  (∀ l, l ∈ L' → l ∈ L ∨ l = (o, i)) →
  links_rep (set_peers f_in i (set_peers_out f_out o n)) L'.
Proof.
  intros (Hi & Ho & Hex) [g Eg] [ps Eo] Hs Ht Hl. split_and!.
  - intros i'. rewrite peers_in_set, Hs. cbn [set_peers_out in_gates]. rewrite Eg.
    destruct (decide (i = i')) as [->|]; [|by rewrite <- Hi]. rewrite <- Hi. unfold peers_in. by rewrite Eg.
  - intros o'. change (peers_out (set_peers_out f_out o n) o' = targets L' o'). rewrite peers_out_set, Ht, Eo.
    destruct (decide (o = o')) as [->|]; [|by rewrite <- Ho]. rewrite <- Ho. unfold peers_out. by rewrite Eo.
  - intros o' i' Hin. cbn [set_peers set_peers_out in_gates out_gates]. rewrite !is_Some_alter.
    destruct (Hl _ Hin) as [Hin'|[= -> ->]]; eauto.
Qed.

Lemma run_link_rep x n L n' :
  links_rep n L → run_link x n = (Ret tt, n') → links_rep n' (spec_link x L).
Proof.
  intros HL. destruct x as [o i|o i|i]; cbn [run_link spec_link].
  - rewrite link_spec. destruct (in_gates n !! i) eqn:Ei, (out_gates n !! o) eqn:Eo; intros [= <-].
    apply (links_rep_change n L _ _ _ o i HL); eauto.
    + intros i'. rewrite sources_app, sources_cons. by destruct (decide _); rewrite ?app_nil_r.
    + intros o'. rewrite targets_app, targets_cons. by destruct (decide _); rewrite ?app_nil_r.
    + intros x [Hin|Hin%list_elem_of_singleton]%elem_of_app; auto.
  - destruct (in_gates n !! i) as [g|] eqn:Ei.
    2:{ unfold unlink, in_disconnect, get_in. run_m. by rewrite Ei. }
    destruct (decide (o ∈ peers_in n i)) as [Hin|Hin].
    2:{ by rewrite unlink_absent by (rewrite ?Ei; eauto). }
    pose proof (links_rep_linked _ _ HL) as (Hs & Hio & Hoo).
    rewrite unlink_spec; [intros [= <-]|by rewrite Ei|by eapply Hio|done|].
    2:{ apply occ_elem_of. rewrite <- Hs. by apply occ_elem_of. }
    apply (links_rep_change n L _ _ _ o i HL); [by rewrite Ei|by eapply Hio| | |].
    + intros i'. rewrite sources_remove. by destruct (decide (i = i')).
    + intros o'. rewrite targets_remove. by destruct (decide (o = o')).
    + intros l [_ Hl]%elem_of_remove_all. by left.
  - destruct (in_gates n !! i) as [g|] eqn:Ei.
    2:{ unfold in_disconnect_all, get_in. run_m. by rewrite Ei. }
    pose proof (in_disconnect_all_spec i n g (links_rep_linked _ _ HL) Ei) as Hspec.
    destruct (decide (NoDup (ig_peers g))) as [Hnd|Hnd].
    2:{ destruct Hspec as (n1 & -> & _). discriminate. }
    destruct Hspec as (n1 & -> & _ & Hin & Hout). intros [= <-]. destruct HL as (Hi & Ho & Hex).
    split_and!.
    + intros i'. rewrite sources_isolate. unfold peers_in. rewrite Hin.
      destruct (decide (i' = i)) as [->|Hne]; [by rewrite lookup_insert_eq|].
      rewrite lookup_insert_ne by done. apply Hi.
    + intros o. rewrite targets_isolate, <- Ho. unfold peers_out. rewrite Hout.
      destruct (out_gates n !! o) as [l|] eqn:El; cbn [fmap option_fmap option_map default from_option id]; [|done].
      destruct (decide (o ∈ ig_peers g)) as [Hin'|Hno]; [done|]. cbn [id].
      symmetry. apply remove_all_not_elem. intros Hil. apply Hno.
      assert (i ∈ peers_out n o) as Hp by (unfold peers_out; by rewrite El).
      rewrite Ho, elem_of_targets, <- elem_of_sources, <- Hi in Hp. unfold peers_in in Hp. by rewrite Ei in Hp.
    + intros o i' [Hne Hin']%list_elem_of_filter. destruct (Hex _ _ Hin') as [H1 H2].
      rewrite Hin, Hout, lookup_insert_ne, fmap_is_Some by (by intros ->). done.
Qed.

Lemma run_links_rep xs n L n' :
  links_rep n L → run_links xs n = (Ret tt, n') → links_rep n' (foldl (λ L x, spec_link x L) L xs).
Proof.
  revert n L. induction xs as [|x xs IH]; intros n L HL; cbn [run_links foldl].
  - by intros [= <-].
  - intros ([] & n1 & E1 & E2)%bind_inv_Ret. eapply IH; [|done]. by eapply run_link_rep.
Qed.
End gates.

Arguments link_op : clear implicits.

(** ** Properties *)

Definition no_links {Q} (n : net Q) : Prop :=
  (∀ i g, in_gates n !! i = Some g → ig_peers g = []) ∧ (∀ o ps, out_gates n !! o = Some ps → ps = []).

Lemma no_links_rep {Msg Q} `{GateQueue Msg Q} (n : net Q) : no_links n → links_rep n [].
Proof.
  intros [Hi Ho]. split_and!.
  - intros i. unfold peers_in. destruct (in_gates n !! i) eqn:E; [by eapply Hi|done].
  - intros o. unfold peers_out. destruct (out_gates n !! o) eqn:E; [by eapply Ho|done].
  - by intros o i ?%not_elem_of_nil.
Qed.

(** C26: whatever links are created, deleted and disconnected, if no call
    throws every gate lists as peers the other ends of exactly the links made
    and not removed since, in the order they were made, on both sides. *)
Theorem gate_links_refine_list {Msg Q} `{GateQueue Msg Q} (xs : list link_op) (n n' : net Q) :
  no_links n → run_links xs n = (Ret tt, n') →
  let L := foldl (λ L x, spec_link x L) [] xs in
  (∀ i, peers_in n' i = sources L i) ∧ (∀ o, peers_out n' o = targets L o).
Proof.
  intros Hn Hrun L. destruct (run_links_rep xs n [] n' (no_links_rep n Hn) Hrun) as (Hi & Ho & _).
  by split.
Qed.

(** A splitter with two receivers. *)
Definition demo_net : net (dbq (Msg:=unit)) :=
  Net {[ (1, 0)%nat := InGate (q_new (Msg:=unit)) []; (2, 0)%nat := InGate (q_new (Msg:=unit)) [] ]} {[ (0, 0)%nat := [] ]}.

Lemma demo_net_no_links : no_links demo_net.
Proof.
  split.
  - intros i g. unfold demo_net. cbn [in_gates].
    intros [[<- <-]|[_ [<- <-]%lookup_singleton_Some]]%lookup_insert_Some; done.
  - intros o ps. unfold demo_net. cbn [out_gates]. by intros [<- <-]%lookup_singleton_Some.
Qed.

Lemma demo_net_symmetric xs n' :
  run_links (Msg:=unit) xs demo_net = (Ret tt, n') → links_rep n' (foldl (λ L x, spec_link x L) [] xs).
Proof. apply run_links_rep, no_links_rep, demo_net_no_links. Qed.

Definition demo_links : list link_op :=
  [CreateLink (0, 0)%nat (1, 0)%nat; CreateLink (0, 0)%nat (2, 0)%nat; Isolate (1, 0)%nat].

Lemma gate_links_refine_list_witness :
  (∀ i, peers_in (run_links (Msg:=unit) demo_links demo_net).2 i = sources [((0, 0)%nat, (2, 0)%nat)] i) ∧
  (∀ o, peers_out (run_links (Msg:=unit) demo_links demo_net).2 o = targets [((0, 0)%nat, (2, 0)%nat)] o).
Proof.
  refine (gate_links_refine_list (Msg:=unit) demo_links demo_net _ demo_net_no_links _).
  vm_compute. reflexivity.
Defined.

(** [disconnect_all] of an input gate that is connected twice to the same
    output gate throws: the first call removes both entries at the peer, the
    second finds none.  The gate keeps its peers and its queued messages. *)
Theorem disconnect_all_duplicate_throws {Msg Q} `{GateQueue Msg Q} (n : net Q) L i :
  links_rep n L → is_Some (in_gates n !! i) → ¬ NoDup (sources L i) →
  ∃ n', in_disconnect_all i n = (Throw not_connected, n') ∧ in_gates n' = in_gates n.
Proof.
  intros HL [g Eg] Hd. pose proof (in_disconnect_all_spec i n g (links_rep_linked _ _ HL) Eg) as Hs.
  assert (ig_peers g = sources L i) as Ep.
  { destruct HL as [<- _]. unfold peers_in. by rewrite Eg. }
  rewrite Ep in Hs. by rewrite decide_False in Hs.
Qed.

Definition twice : list link_op :=
  [CreateLink (0, 0)%nat (1, 0)%nat; CreateLink (0, 0)%nat (1, 0)%nat].

Lemma disconnect_all_duplicate_throws_witness :
  ∃ n', in_disconnect_all (Msg:=unit) (1, 0)%nat (run_links (Msg:=unit) twice demo_net).2 =
    (Throw not_connected, n') ∧ in_gates n' = in_gates (run_links (Msg:=unit) twice demo_net).2.
Proof.
  apply (disconnect_all_duplicate_throws (Msg:=unit) _ [((0, 0)%nat, (1, 0)%nat); ((0, 0)%nat, (1, 0)%nat)]).
  - apply (demo_net_symmetric twice). vm_compute. reflexivity.
  - vm_compute. by eexists.
  - intros Hn. vm_compute in Hn. apply NoDup_cons in Hn as [Hn _]. apply Hn. by left.
Defined.
