(* ===== verification/Block.v ===== *)
(** * Blocks: entry points, invocation and locking

    Models [core/block/Block.hpp] and [Block.cpp], with the delivery of
    [OutGate::deliver] and [InGate::receive] that call into other blocks.  What
    a subclass implements ([_receive_msg], [_handle_timer], [_do_async]) is a
    [logic]: a program that changes the block's state and sends messages.  One
    thread runs; its call stack has room for [depth] nested calls.  The build
    is the default one, without [BLOCKING_QUEUE]: [InGate::receive] drops a
    message its queue has no room for.  The loop of the other build is
    [receive_blocking].  [w_log] is a ghost list of what happened. *)

From S2P Require Export Gates Xml.

Inductive invocation_type := Direct | Indirect | Async.

#[export] Instance invocation_type_eq_dec : EqDecision invocation_type.
Proof. solve_decision. Defined.

Definition QUEUETYPE_DROPPING : Z := -2.
Definition QUEUETYPE_MUTEX : Z := -1.
Definition QUEUETYPE_YIELDING : Z := 0.
Definition MAX_MSG_DEQUEUE : nat := 10.

(** A handler: it ends with the block's new state, throws, or sends a message
    through a gate and goes on with the state it finds afterwards. *)
Inductive proc (St Msg : Type) :=
| Done (s : St)
| Fails (e : exn) (s : St)
| Send (s : St) (m : option Msg) (id : Z) (k : St → proc St Msg).
Arguments Done {St Msg} _.
Arguments Fails {St Msg} _ _.
Arguments Send {St Msg} _ _ _ _.

Record logic (St Msg Tm : Type) := Logic {
  on_receive : St → option Msg → nat → proc St Msg;
  on_timer : St → Tm → proc St Msg;
  on_async : St → proc St Msg
}.
Arguments Logic {St Msg Tm} _ _ _.
Arguments on_receive {St Msg Tm} _ _ _ _.
Arguments on_timer {St Msg Tm} _ _ _.
Arguments on_async {St Msg Tm} _ _.

(** The virtual methods a subclass does not override. *)
Definition default_logic {St Msg Tm} : logic St Msg Tm :=
  Logic (λ s _ _, Done s)
    (λ s _, Fails (logic_error "timer set on block without _handle_timer()") s) (λ s, Done s).

Record block (St Msg Tm : Type) := MkBlock {
  b_name : string;
  b_invocation : invocation_type;
  b_issynchronized : bool;
  b_running : bool;
  b_locked : bool;
  b_input_ids : gmap string nat;
  b_output_ids : gmap string nat;
  b_last_in_id : nat;
  b_last_out_id : nat;
  b_timer_queue : list Tm;
  b_queue_type : Z;
  b_logic : logic St Msg Tm;
  b_state : St
}.
Arguments MkBlock {St Msg Tm} _ _ _ _ _ _ _ _ _ _ _ _ _.
Arguments b_name {St Msg Tm} _.
Arguments b_invocation {St Msg Tm} _.
Arguments b_issynchronized {St Msg Tm} _.
Arguments b_running {St Msg Tm} _.
Arguments b_locked {St Msg Tm} _.
Arguments b_input_ids {St Msg Tm} _.
Arguments b_output_ids {St Msg Tm} _.
Arguments b_last_in_id {St Msg Tm} _.
Arguments b_last_out_id {St Msg Tm} _.
Arguments b_timer_queue {St Msg Tm} _.
Arguments b_queue_type {St Msg Tm} _.
Arguments b_logic {St Msg Tm} _.
Arguments b_state {St Msg Tm} _.

Inductive event (Msg Tm : Type) :=
| Received (g : gate) (m : option Msg)
| TimerHandled (b : nat) (t : Tm)
| AsyncRun (b : nat)
| Dropped (g : gate) (m : option Msg).
Arguments Received {Msg Tm} _ _.
Arguments TimerHandled {Msg Tm} _ _.
Arguments AsyncRun {Msg Tm} _.
Arguments Dropped {Msg Tm} _ _.

Record world (Q St Msg Tm : Type) := World {
  w_net : net Q;
  w_blocks : gmap nat (block St Msg Tm);
  w_log : list (event Msg Tm)
}.
Arguments World {Q St Msg Tm} _ _ _.
Arguments w_net {Q St Msg Tm} _.
Arguments w_blocks {Q St Msg Tm} _.
Arguments w_log {Q St Msg Tm} _.

Definition destroyed : exn := undefined_behaviour "use of a destroyed block".
Definition relocked : exn := undefined_behaviour "mutex locked by the thread that holds it".
Definition stack_overflow : exn := undefined_behaviour "call stack exhausted".

Section block.
Context {Q St Msg Tm : Type} `{GateQueue Msg Q}.
Notation block := (block St Msg Tm).
Notation world := (world Q St Msg Tm).
Notation proc := (proc St Msg).
Implicit Types (b : nat) (g : gate) (w : world) (m : option Msg).

(** [Block(name, invocation)] *)
Definition block_new (name : string) (invocation : invocation_type) (l : logic St Msg Tm) (s : St) : block :=
  MkBlock name invocation true false false ∅ ∅ 0 0 [] QUEUETYPE_DROPPING l s.

Definition is_direct (x : block) : bool := bool_decide (b_invocation x = Direct).

Definition with_blocks f w : world := World (w_net w) (f (w_blocks w)) (w_log w).
Definition log (e : event Msg Tm) : M world unit := modify (λ w, World (w_net w) (w_blocks w) (w_log w ++ [e])).
Definition on_net {A} (m : M (net Q) A) : M world A :=
  zoom w_net (λ n w, World n (w_blocks w) (w_log w)) m.

Definition get_block b : M world block := λ w,
  match w_blocks w !! b with Some x => (Ret x, w) | None => (Throw destroyed, w) end.
Definition change_block b (f : block → block) : M world unit := modify (with_blocks (alter f b)).

Definition set_state (s : St) (x : block) : block :=
  MkBlock (b_name x) (b_invocation x) (b_issynchronized x) (b_running x) (b_locked x) (b_input_ids x)
    (b_output_ids x) (b_last_in_id x) (b_last_out_id x) (b_timer_queue x) (b_queue_type x) (b_logic x) s.
Definition set_locked (l : bool) (x : block) : block :=
  MkBlock (b_name x) (b_invocation x) (b_issynchronized x) (b_running x) l (b_input_ids x)
    (b_output_ids x) (b_last_in_id x) (b_last_out_id x) (b_timer_queue x) (b_queue_type x) (b_logic x) (b_state x).
Definition set_timers (ts : list Tm) (x : block) : block :=
  MkBlock (b_name x) (b_invocation x) (b_issynchronized x) (b_running x) (b_locked x) (b_input_ids x)
    (b_output_ids x) (b_last_in_id x) (b_last_out_id x) ts (b_queue_type x) (b_logic x) (b_state x).
Definition set_queue_type (t : Z) (x : block) : block :=
  MkBlock (b_name x) (b_invocation x) (b_issynchronized x) (b_running x) (b_locked x) (b_input_ids x)
    (b_output_ids x) (b_last_in_id x) (b_last_out_id x) (b_timer_queue x) t (b_logic x) (b_state x).
Definition set_synchronized (s : bool) (x : block) : block :=
  MkBlock (b_name x) (b_invocation x) s (b_running x) (b_locked x) (b_input_ids x)
    (b_output_ids x) (b_last_in_id x) (b_last_out_id x) (b_timer_queue x) (b_queue_type x) (b_logic x) (b_state x).
Definition set_running (r : bool) (x : block) : block :=
  MkBlock (b_name x) (b_invocation x) (b_issynchronized x) r (b_locked x) (b_input_ids x)
    (b_output_ids x) (b_last_in_id x) (b_last_out_id x) (b_timer_queue x) (b_queue_type x) (b_logic x) (b_state x).
Definition put_invocation (i : invocation_type) (x : block) : block :=
  MkBlock (b_name x) i (b_issynchronized x) (b_running x) (b_locked x) (b_input_ids x)
    (b_output_ids x) (b_last_in_id x) (b_last_out_id x) (b_timer_queue x) (b_queue_type x) (b_logic x) (b_state x).
Definition set_inputs (ids : gmap string nat) (last : nat) (x : block) : block :=
  MkBlock (b_name x) (b_invocation x) (b_issynchronized x) (b_running x) (b_locked x) ids
    (b_output_ids x) last (b_last_out_id x) (b_timer_queue x) (b_queue_type x) (b_logic x) (b_state x).
Definition set_outputs (ids : gmap string nat) (last : nat) (x : block) : block :=
  MkBlock (b_name x) (b_invocation x) (b_issynchronized x) (b_running x) (b_locked x) (b_input_ids x)
    ids (b_last_in_id x) last (b_timer_queue x) (b_queue_type x) (b_logic x) (b_state x).

(** [set_invocation] *)
Definition set_invocation b (i : invocation_type) : M world unit :=
  x ← get_block b;
  ensure (negb (b_running x)) (runtime_error "cannot change invocation while block is running");;
  change_block b (put_invocation i).

(** [register_input_gate], [register_output_gate]: [std::map::insert] keeps
    the id an already registered name has. *)
Definition insert_new (name : string) (id : nat) (ids : gmap string nat) : gmap string nat :=
  match ids !! name with Some _ => ids | None => <[name := id]> ids end.

Definition register_input_gate b (name : string) : M world nat :=
  x ← get_block b;
  let id := b_last_in_id x in
  on_net (in_gate_new (b, id));;
  change_block b (set_inputs (insert_new name id (b_input_ids x)) (S id));;
  mret id.
Definition register_output_gate b (name : string) : M world nat :=
  x ← get_block b;
  let id := b_last_out_id x in
  on_net (out_gate_new (b, id));;
  change_block b (set_outputs (insert_new name id (b_output_ids x)) (S id));;
  mret id.

(** [get_input_gate], [get_output_gate] *)
Definition get_input_gate b (name : string) : M world gate :=
  x ← get_block b;
  match b_input_ids x !! name with
  | Some id => mret (b, id)
  | None => throw (runtime_error ("Gate '" ++ name ++ "' does not exist for block '" ++ b_name x ++ "'."))
  end.
Definition get_output_gate b (name : string) : M world gate :=
  x ← get_block b;
  match b_output_ids x !! name with
  | Some id => mret (b, id)
  | None => throw (runtime_error ("Gate '" ++ name ++ "' does not exist."))
  end.
Definition get_output_gate_at b (id : Z) : M world gate :=
  x ← get_block b;
  ensure ((0 <=? id) && (id <? Z.of_nat (b_last_out_id x))) (out_of_range "vector::at");;
  mret (b, Z.to_nat id).

(** [std::lock_guard] around [body]: released however the body ends. *)
Definition with_lock b (body : M world unit) : M world unit := λ w,
  match w_blocks w !! b with
  | None => (Throw destroyed, w)
  | Some x =>
      if b_locked x then (Throw relocked, w)
      else
        let '(r, w) := body (with_blocks (alter (set_locked true) b) w) in
        (r, with_blocks (alter (set_locked false) b) w)
  end.

(** A handler's program, its sends made by [send]. *)
Fixpoint run_proc (send : option Msg → Z → M world unit) b (p : proc) : M world unit :=
  match p with
  | Done s => change_block b (set_state s)
  | Fails e s => change_block b (set_state s);; throw e
  | Send s m id k =>
      change_block b (set_state s);;
      send m id;;
      x ← get_block b;
      run_proc send b (k (b_state x))
  end.

Fixpoint for_gates (f : gate → M world unit) (gs : list gate) : M world unit :=
  match gs with
  | [] => mret tt
  | g :: gs => f g;; for_gates f gs
  end.

(** [send_out_through] and [OutGate::deliver], [receive] being what the
    peers do with the message. *)
Definition send_with (receive : gate → option Msg → M world unit) b m (id : Z) : M world unit :=
  x ← get_block b;
  ensure ((0 <=? id) && (id <? Z.of_nat (b_last_out_id x)))
    (assert_failure "(id >= 0) && (id < (int)m_outgates.size())");;
  peers ← on_net (get_out (b, Z.to_nat id));
  for_gates (λ g, receive g m) peers.

(** [_receive_msg] and [receive_msg] *)
Definition call_receive (send : option Msg → Z → M world unit) g m : M world unit :=
  x ← get_block g.1;
  log (Received g m);;
  run_proc send g.1 (on_receive (b_logic x) (b_state x) m g.2).

Definition receive_msg (send : option Msg → Z → M world unit) g m : M world unit :=
  x ← get_block g.1;
  if b_issynchronized x then with_lock g.1 (call_receive send g m)
  else call_receive send g m.

(** [InGate::receive]; a direct block's handler runs, and sends, inside it. *)
Fixpoint receive (depth : nat) g m : M world unit :=
  match depth with
  | O => throw stack_overflow
  | S depth =>
      x ← get_block g.1;
      if is_direct x then receive_msg (send_with (receive depth) g.1) g m
      else
        queued ← on_net (enqueue g m);
        if queued : bool then mret tt else log (Dropped g m)
  end.

Definition send_out_through (depth : nat) b m (id : Z) : M world unit := send_with (receive depth) b m id.

(** [handle_timer] and [_handle_timer] *)
Definition call_timer (depth : nat) b (t : Tm) : M world unit :=
  x ← get_block b;
  log (TimerHandled b t);;
  run_proc (send_out_through depth b) b (on_timer (b_logic x) (b_state x) t).

Definition handle_timer (depth : nat) b (t : Tm) : M world unit :=
  x ← get_block b;
  if is_direct x then
    if b_issynchronized x then with_lock b (call_timer depth b t) else call_timer depth b t
  else change_block b (λ x, set_timers (b_timer_queue x ++ [t]) x).

(** [run]: the queued timers, then up to [MAX_MSG_DEQUEUE] messages of each
    gate, then [_do_async].  [fuel] bounds the first loop. *)
Fixpoint run_timers (fuel : nat) (depth : nat) b : M world unit :=
  match fuel with
  | O => mret tt
  | S fuel =>
      x ← get_block b;
      match b_timer_queue x with
      | [] => mret tt
      | t :: ts =>
          change_block b (set_timers ts);;
          call_timer depth b t;;
          run_timers fuel depth b
      end
  end.

Fixpoint run_gate (n : nat) (depth : nat) g : M world unit :=
  match n with
  | O => mret tt
  | S n =>
      m ← on_net (dequeue g);
      match m with
      | None => mret tt
      | Some _ => call_receive (send_out_through depth g.1) g m;; run_gate n depth g
      end
  end.

Definition call_async (depth : nat) b : M world unit :=
  x ← get_block b;
  log (AsyncRun b);;
  run_proc (send_out_through depth b) b (on_async (b_logic x) (b_state x)).

Definition run (depth : nat) b : M world unit :=
  x ← get_block b;
  run_timers (S (length (b_timer_queue x))) depth b;;
  for_gates (run_gate MAX_MSG_DEQUEUE depth) ((λ i, (b, i)) <$> seq 0 (b_last_in_id x));;
  call_async depth b.

(** [update_config]: [_update_config] and [_synchronize_access] are the
    subclass's answers. *)
Definition update_config b (_update_config : M world bool) (_synchronize_access : bool) : M world bool :=
  ok ← _update_config;
  if ok : bool then change_block b (set_synchronized _synchronize_access);; mret true
  else mret false.

(** [configure]; [blocking] is [BLOCKING_QUEUE], [as_int] the attribute's
    conversion and [_configure] the subclass's method, given [params]. *)
Definition to_lower (c : Ascii.ascii) : Ascii.ascii :=
  let n := Ascii.nat_of_ascii c in
  if (65 <=? n)%nat && (n <=? 90)%nat then Ascii.ascii_of_nat (n + 32) else c.
Fixpoint lower (s : string) : string :=
  match s with EmptyString => EmptyString | String c s => String (to_lower c) (lower s) end.

Definition blocking_mode {N} `{XmlNode N} (as_int : option string → Z) (node : N) b (x : block) (mode : string)
    : M world unit :=
  let s := lower mode in
  if bool_decide (s = "drop"%string) then change_block b (set_queue_type QUEUETYPE_DROPPING)
  else if bool_decide (s = "yield"%string) then change_block b (set_queue_type QUEUETYPE_YIELDING)
  else if bool_decide (s = "sleep"%string) then
    let us := as_int (attribute node "sleep_usec") in
    change_block b (set_queue_type us);;
    ensure (negb (us <=? 0)) (runtime_error ("For block '" ++ b_name x ++
      "': 'blocking_mode=sleep' but 'sleep_usec' attribute not set or not > 0"))
  else if bool_decide (s = "mutex"%string) then change_block b (set_queue_type QUEUETYPE_MUTEX)
  else throw (runtime_error ("'blocking_mode' attribute value '" ++ s ++ "' for block '" ++ b_name x ++ "' is invalid")).

Definition configure {N} `{XmlNode N} (blocking : bool) (as_int : option string → Z) (node : N) b
    (_configure : option N → M world unit) (_synchronize_access : bool) : M world unit :=
  x ← get_block b;
  (if blocking then
     match attribute node "blocking_mode" with
     | Some mode =>
         if bool_decide (b_invocation x ≠ Indirect) then mret tt
         else blocking_mode as_int node b x mode
     | None =>
         if bool_decide (b_invocation x ≠ Indirect) then change_block b (set_queue_type QUEUETYPE_DROPPING)
         else mret tt
     end
   else mret tt);;
  _configure (child node "params");;
  change_block b (set_synchronized _synchronize_access).

(** [InGate::receive] with [BLOCKING_QUEUE], for a block that is not direct:
    while the queue is full the sender waits, [env] being what the other
    threads do between its attempts.  The result: has it stopped waiting? *)
Fixpoint retry_push g m (running : M world bool) (env : list (M world unit)) : M world bool :=
  x ← get_block g.1;
  is_running ← running;
  if bool_decide (b_queue_type x ≠ QUEUETYPE_DROPPING) && (is_running : bool) then
    match env with
    | [] => mret false
    | others :: env =>
        others;;
        queued ← on_net (enqueue g m);
        if queued : bool then mret true else retry_push g m running env
    end
  else mret true.

Definition receive_blocking g m (running : M world bool) (env : list (M world unit)) : M world bool :=
  queued ← on_net (enqueue g m);
  if queued : bool then mret true else retry_push g m running env.

(** ** Delivery through direct blocks ends and does not lock twice *)

(** Nothing but states, queues and the log differs. *)
Record frame w w' : Prop := {
  frame_out : out_gates (w_net w') = out_gates (w_net w);
  frame_in g : is_Some (in_gates (w_net w) !! g) → is_Some (in_gates (w_net w') !! g);
  frame_blocks b x : w_blocks w !! b = Some x → ∃ s, w_blocks w' !! b = Some (set_state s x);
  frame_back b x' : w_blocks w' !! b = Some x' → ∃ s x, w_blocks w !! b = Some x ∧ x' = set_state s x
}.

Lemma set_state_id x : set_state (b_state x) x = x.
Proof. by destruct x. Qed.
Lemma set_state_twice s s' (x : block) : set_state s (set_state s' x) = set_state s x.
Proof. done. Qed.

#[export] Instance frame_reflexive : Reflexive frame.
Proof.
  intros w. split; [done|done| |].
  - intros b x E. exists (b_state x). by rewrite set_state_id.
  - intros b x E. exists (b_state x), x. by rewrite set_state_id.
Qed.

#[export] Instance frame_transitive : Transitive frame.
Proof.
  intros w1 w2 w3 [O1 I1 B1 C1] [O2 I2 B2 C2]. split.
  - congruence.
  - auto.
  - intros b x (s & E)%B1. apply B2 in E as (s' & E). exists s'. by rewrite E.
  - intros b x3 (s & x2 & (s' & x1 & E & ->)%C1 & ->)%C2. by exists s, x1.
Qed.

(** Every gate a block registered is there, and so are its peers. *)
Definition wired w : Prop :=
  (∀ b x id, w_blocks w !! b = Some x → (id < b_last_out_id x)%nat → is_Some (out_gates (w_net w) !! (b, id))) ∧
  (∀ o ps g, out_gates (w_net w) !! o = Some ps → g ∈ ps →
     is_Some (in_gates (w_net w) !! g) ∧ is_Some (w_blocks w !! g.1)).

(** Links into direct blocks go down in rank: no cycle of direct blocks. *)
Definition ranked (rank : nat → nat) w : Prop := ∀ o ps g x,
  out_gates (w_net w) !! o = Some ps → g ∈ ps → w_blocks w !! g.1 = Some x →
  is_direct x = true → (rank g.1 < rank o.1)%nat.

Definition unlocked_below (rank : nat → nat) (r : nat) w : Prop := ∀ b x,
  w_blocks w !! b = Some x → (rank b < r)%nat → b_locked x = false.

Fixpoint throws_only (P : exn → Prop) (p : proc) : Prop :=
  match p with
  | Done _ => True
  | Fails e _ => P e
  | Send _ _ _ k => ∀ s, throws_only P (k s)
  end.

Definition logics_throw_only (P : exn → Prop) w : Prop := ∀ b x, w_blocks w !! b = Some x →
  ∀ s m i, throws_only P (on_receive (b_logic x) s m i).

Section acyclic.
Context (rank : nat → nat) (P : exn → Prop).
Hypothesis P_assert : P (assert_failure "(id >= 0) && (id < (int)m_outgates.size())").

Record sound (r : nat) w : Prop := {
  sound_wired : wired w;
  sound_ranked : ranked rank w;
  sound_unlocked : unlocked_below rank r w;
  sound_logic : logics_throw_only P w
}.

Lemma sound_frame r w w' : frame w w' → sound r w → sound r w'.
Proof.
  intros [HO HI HB HC] [[W1 W2] HR HU HL]. split.
  - split.
    + intros b x' id (s & x & E & ->)%HC Hid. rewrite HO. by apply (W1 b x).
    + intros o ps g Eo Hg. rewrite HO in Eo. destruct (W2 o ps g Eo Hg) as [Hi [x Ex]].
      split; [auto|]. apply HB in Ex as (s & ->). eauto.
  - intros o ps g x' Eo Hg (s & x & E & ->)%HC Hd. rewrite HO in Eo. by apply (HR o ps g x).
  - intros b x' (s & x & E & ->)%HC Hr. by apply (HU b x).
  - intros b x' (s & x & E & ->)%HC. by apply (HL b x).
Qed.

(** What is shown of every call. *)
Definition good (w : world) (r : outcome unit * world) : Prop :=
  frame w r.2 ∧ match r.1 with Ret _ => True | Throw e => P e end.

Lemma good_bind w (c : M world unit) (k : unit → M world unit) :
  good w (c w) → (∀ w', frame w w' → good w' (k tt w')) → good w ((c ≫= k) w).
Proof.
  unfold mbind, M_bind. destruct (c w) as [[[]|e] w']; intros [Hf HP] Hk; [|done].
  destruct (Hk w' Hf) as [Hf' HP']. split; [by etransitivity|done].
Qed.

Lemma good_state b s w : good w (change_block b (set_state s) w).
Proof.
  split; [|done]. split; [done|done| |].
  - intros b' x E. cbn. destruct (decide (b = b')) as [->|Hne].
    + exists s. by rewrite lookup_alter_eq, E.
    + exists (b_state x). by rewrite lookup_alter_ne, set_state_id.
  - intros b' x'. cbn. destruct (decide (b = b')) as [->|Hne].
    + rewrite lookup_alter_eq. destruct (w_blocks w !! b') as [x|]; [|done]. intros [= <-]. by exists s, x.
    + rewrite lookup_alter_ne by done. intros E. exists (b_state x'), x'. by rewrite set_state_id.
Qed.

Lemma good_log e w : good w (log e w).
Proof. split; [|done]. destruct (frame_reflexive w). by split. Qed.

Lemma good_run_proc r (send : option Msg → Z → M world unit) b p w :
  (∀ m id w', sound r w' → is_Some (w_blocks w' !! b) → good w' (send m id w')) →
  sound r w → is_Some (w_blocks w !! b) → throws_only P p → good w (run_proc send b p w).
Proof.
  intros Hsend. revert w. induction p as [s|e s|s m id k IH]; intros w HS Hb Hp; cbn [run_proc].
  - apply good_state.
  - apply good_bind; [apply good_state|]. intros w' _. by split.
  - assert (∀ w w', frame w w' → is_Some (w_blocks w !! b) → is_Some (w_blocks w' !! b)) as Hex.
    { intros w1 w2 HF [x Ex]. destruct (frame_blocks _ _ HF b x Ex) as (s' & ->). eauto. }
    apply good_bind; [apply good_state|]. intros w1 F1.
    assert (sound r w1) as S1 by (by eapply sound_frame). pose proof (Hex _ _ F1 Hb) as B1.
    apply good_bind; [by apply Hsend|]. intros w2 F2.
    assert (sound r w2) as S2 by (by eapply sound_frame). pose proof (Hex _ _ F2 B1) as B2.
    unfold get_block. destruct B2 as [x Ex]. unfold mbind, M_bind. rewrite Ex. cbn beta iota.
    apply IH; [done|by rewrite Ex|apply Hp].
Qed.

Lemma good_for_gates f gs w :
  (∀ g w', g ∈ gs → frame w w' → good w' (f g w')) → good w (for_gates f gs w).
Proof.
  revert w. induction gs as [|g gs IH]; intros w Hf; cbn [for_gates]; [by split|].
  apply good_bind; [apply Hf; [by left|done]|]. intros w1 F1. apply IH.
  intros g' w' Hg' F'. apply Hf; [by right|by etransitivity].
Qed.

Lemma on_net_get_out o w :
  on_net (get_out o) w =
  (match out_gates (w_net w) !! o with Some ps => Ret ps | None => Throw dangling end, w).
Proof. unfold on_net, get_out, zoom. destruct w as [n bs l]. cbn. by destruct (out_gates n !! o). Qed.

Lemma good_send r (recv : gate → option Msg → M world unit) b m id w :
  (∀ g w', sound r w' → is_Some (in_gates (w_net w') !! g) → is_Some (w_blocks w' !! g.1) →
     (∀ x, w_blocks w' !! g.1 = Some x → is_direct x = true → (rank g.1 < r)%nat) → good w' (recv g m w')) →
  (rank b ≤ r)%nat → sound r w → is_Some (w_blocks w !! b) → good w (send_with recv b m id w).
Proof.
  intros Hrecv Hr HS [x Ex]. unfold send_with, get_block.
  unfold mbind at 1, M_bind at 1. rewrite Ex. cbn beta iota.
  unfold ensure, mbind at 1, M_bind at 1, mret, M_ret, throw.
  destruct ((0 <=? id) && (id <? Z.of_nat (b_last_out_id x))) eqn:Eid; [|by split].
  destruct (sound_wired _ _ HS) as [W1 W2].
  destruct (W1 b x (Z.to_nat id) Ex) as [ps Eps]; [lia|].
  assert (on_net (get_out (b, Z.to_nat id)) w = (Ret ps, w)) as Eo by (by rewrite on_net_get_out, Eps).
  change (good w ((on_net (get_out (b, Z.to_nat id)) ≫= λ peers, for_gates (λ g, recv g m) peers) w)).
  rewrite (bind_Ret _ _ _ _ _ Eo). clear Eo.
  apply good_for_gates. intros g w' Hg HF. pose proof (sound_frame _ _ _ HF HS) as HS'.
  pose proof (frame_out _ _ HF) as Eo. rewrite <- Eo in Eps.
  destruct (sound_wired _ _ HS') as [_ W2']. destruct (W2' _ _ _ Eps Hg) as [Hi Hb].
  apply Hrecv; [done|done|done|]. intros y Ey Hd.
  pose proof (sound_ranked _ _ HS' _ _ _ _ Eps Hg Ey Hd). cbn in *. lia.
Qed.

Lemma good_call_receive r send g m w :
  (∀ m id w', sound r w' → is_Some (w_blocks w' !! g.1) → good w' (send m id w')) →
  sound r w → is_Some (w_blocks w !! g.1) → good w (call_receive send g m w).
Proof.
  intros Hsend HS [x Ex]. unfold call_receive, get_block. unfold mbind at 1, M_bind at 1. rewrite Ex. cbn beta iota.
  apply good_bind; [apply good_log|]. intros w1 F1. destruct (frame_blocks _ _ F1 _ _ Ex) as [s1 E1].
  apply (good_run_proc r); [done|by eapply sound_frame|by rewrite E1|].
  by apply (sound_logic _ _ HS g.1 x).
Qed.

(** Locking [b], running the body and unlocking. *)
Lemma good_with_lock r b body w :
  sound r w → is_Some (w_blocks w !! b) → (rank b < r)%nat →
  (∀ w', sound (rank b) w' → is_Some (w_blocks w' !! b) → good w' (body w')) →
  good w (with_lock b body w).
Proof.
  intros HS [x Ex] Hr Hbody. unfold with_lock. rewrite Ex, (sound_unlocked _ _ HS b x Ex Hr).
  set (w1 := with_blocks (alter (set_locked true) b) w).
  assert (∀ b' x', w_blocks w1 !! b' = Some x' → ∃ l y, w_blocks w !! b' = Some y ∧ x' = set_locked l y ∧
    (b' ≠ b → x' = y)) as Hback.
  { intros b' x'. cbn. destruct (decide (b = b')) as [->|Hne].
    - rewrite lookup_alter_eq, Ex. intros [= <-]. by eexists _, x.
    - rewrite lookup_alter_ne by done. intros E. exists (b_locked x'), x'. split; [done|]. by destruct x'. }
  assert (sound (rank b) w1) as S1.
  { destruct HS as [[W1 W2] HR HU HL]. split.
    - split.
      + intros b' x' id (l & y & E & -> & _)%Hback Hid. by apply (W1 b' y).
      + intros o ps g Eo Hg. destruct (W2 o ps g Eo Hg) as [Hi [y Ey]]. split; [done|].
        cbn. rewrite is_Some_alter. by rewrite Ey.
    - intros o ps g x' Eo Hg (l & y & E & -> & _)%Hback Hd. by apply (HR o ps g y).
    - intros b' x' (l & y & E & _ & Hne)%Hback Hlt.
      rewrite Hne by (intros ->; lia). apply (HU b' y); [done|lia].
    - intros b' x' (l & y & E & -> & _)%Hback. by apply (HL b' y). }
  assert (w_blocks w1 !! b = Some (set_locked true x)) as E1 by (cbn; by rewrite lookup_alter_eq, Ex).
  destruct (Hbody w1 S1) as [HF HP]; [by rewrite E1|].
  destruct (body w1) as [res w2]. cbn [fst snd] in *. split; [|exact HP]. cbn [snd].
  destruct HF as [HO HI HB HC]. destruct (HB _ _ E1) as [s2 E2].
  assert (set_locked false (set_state s2 (set_locked true x)) = set_state s2 x) as Eback.
  { pose proof (sound_unlocked _ _ HS b x Ex Hr) as Hl. destruct x. cbn in *. by subst. }
  split; [exact HO|exact HI| |].
  - intros b' y Ey. cbn. destruct (decide (b = b')) as [<-|Hne].
    + rewrite lookup_alter_eq, E2. cbn. rewrite Eback. exists s2. congruence.
    + rewrite lookup_alter_ne by done. apply HB. cbn. by rewrite lookup_alter_ne.
  - intros b' y'. cbn. destruct (decide (b = b')) as [<-|Hne].
    + rewrite lookup_alter_eq, E2. cbn. rewrite Eback. intros [= <-]. by exists s2, x.
    + rewrite lookup_alter_ne by done. intros (s & y & Ey & ->)%HC. cbn in Ey.
      rewrite lookup_alter_ne in Ey by done. by exists s, y.
Qed.

Lemma good_enqueue g m w :
  is_Some (in_gates (w_net w) !! g) →
  ∃ (queued : bool) w', on_net (enqueue g m) w = (Ret queued, w') ∧ frame w w'.
Proof.
  intros [ig Eg]. unfold on_net, enqueue, get_in, put_in. run_m. rewrite Eg.
  destruct (q_push m (ig_queue ig)) as [bq q]. cbn. eexists _, _. split; [done|].
  destruct (frame_reflexive w) as [HO HI HB HC]. split; [done| |done|done].
  intros g' Hg'. cbn. destruct (decide (g = g')) as [->|Hne]; [by rewrite lookup_insert_eq|by rewrite lookup_insert_ne].
Qed.

Lemma receive_good depth r g m w :
  sound r w → is_Some (in_gates (w_net w) !! g) → is_Some (w_blocks w !! g.1) →
  (∀ x, w_blocks w !! g.1 = Some x → is_direct x = true → (rank g.1 < r)%nat) →
  (r < depth)%nat → good w (receive depth g m w).
Proof.
  revert r g m w. induction depth as [|depth IH]; intros r g m w HS Hi [x Ex] Hd Hdepth; [lia|].
  cbn [receive]. unfold get_block. unfold mbind at 1, M_bind at 1. rewrite Ex. cbn beta iota.
  destruct (is_direct x) eqn:Edir.
  2:{ destruct (good_enqueue g m w Hi) as (bq & w' & E & HF). rewrite (bind_Ret _ _ _ _ _ E).
      destruct bq; [by split|]. split; [|done]. etransitivity; [exact HF|]. apply good_log. }
  specialize (Hd x Ex Edir).
  assert (∀ m id w', sound (rank g.1) w' → is_Some (w_blocks w' !! g.1) →
    good w' (send_with (receive depth) g.1 m id w')) as Hsend.
  { intros m' id w' HS' Hb'. apply (good_send (rank g.1)); [|done|done|done].
    intros g' w2 S2 I2 B2 D2. apply (IH (rank g.1)); [done..|lia]. }
  unfold receive_msg, get_block. unfold mbind at 1, M_bind at 1. rewrite Ex. cbn beta iota.
  destruct (b_issynchronized x).
  - apply (good_with_lock r); [done|by rewrite Ex|done|]. intros w1 S1 B1.
    by apply (good_call_receive (rank g.1)).
  - apply (good_call_receive (rank g.1)); [done| |by rewrite Ex].
    destruct HS as [HW HR HU HL]. split; [done|done| |done]. intros b' y E Hlt. apply (HU b' y); [done|lia].
Qed.
End acyclic.

(** ** Fan-out to queues *)

(** The queue of [g] works and holds [l]. *)
Definition gate_holds w g (l : list (option Msg)) : Prop :=
  ∃ ig, in_gates (w_net w) !! g = Some ig ∧ q_holds (ig_queue ig) l.

(** Only queues differ, and only those of [gs]. *)
Definition queues_differ (gs : list gate) w w' : Prop :=
  w_blocks w' = w_blocks w ∧ w_log w' = w_log w ∧ out_gates (w_net w') = out_gates (w_net w) ∧
  ∀ g, g ∉ gs → in_gates (w_net w') !! g = in_gates (w_net w) !! g.

Lemma enqueue_room g m w l :
  gate_holds w g l → (length l < q_capacity)%nat →
  ∃ w', on_net (enqueue g m) w = (Ret true, w') ∧ gate_holds w' g (l ++ [m]) ∧ queues_differ [g] w w'.
Proof.
  intros (ig & Eg & Hl) Hroom. unfold on_net, enqueue, get_in, put_in. run_m. rewrite Eg.
  pose proof (q_push_room _ _ m Hl Hroom) as Hb. pose proof (q_push_holds _ _ m Hl) as Hh.
  rewrite Hb in Hh. destruct (q_push m (ig_queue ig)) as [bq q]. cbn in *. subst bq.
  eexists. split; [done|]. split.
  - eexists. cbn. by rewrite lookup_insert_eq.
  - split_and!; try done. intros g' Hg'. cbn. rewrite lookup_insert_ne; [done|]. intros <-. apply Hg'. by left.
Qed.

Lemma fan_out (recv : gate → option Msg → M world unit) m gs ls w :
  (∀ g w', w_blocks w' = w_blocks w → g ∈ gs → recv g m w' =
     (queued ← on_net (enqueue g m); if queued : bool then mret tt else log (Dropped g m)) w') →
  (∀ g, g ∈ gs → gate_holds w g (ls g)) →
  (∀ g, g ∈ gs → (length (ls g) + occ g gs ≤ q_capacity)%nat) →
  ∃ w', for_gates (λ g, recv g m) gs w = (Ret tt, w') ∧ queues_differ gs w w' ∧
    ∀ g, g ∈ gs → gate_holds w' g (ls g ++ replicate (occ g gs) m).
Proof.
  revert ls w. induction gs as [|g gs IH]; intros ls w Hrecv Hh Hroom; cbn [for_gates].
  { exists w. split_and!; [done|done|]. by intros g ?%not_elem_of_nil. }
  assert (∀ g', occ g' (g :: gs) = ((if decide (g' = g) then 1 else 0) + occ g' gs)%nat) as Ho.
  { intros g'. change (g :: gs) with ([g] ++ gs). by rewrite occ_app, occ_singleton. }
  destruct (enqueue_room g m w (ls g)) as (w1 & E1 & H1 & B1 & L1 & O1 & Q1); [by apply Hh; left| |].
  { specialize (Hroom g ltac:(by left)). rewrite Ho, decide_True in Hroom by done. lia. }
  assert (recv g m w = (Ret tt, w1)) as Er.
  { rewrite Hrecv by (done || by left). by rewrite (bind_Ret _ _ _ _ _ E1). }
  rewrite (bind_Ret _ _ _ _ _ Er).
  set (ls1 := λ g', if decide (g' = g) then ls g ++ [m] else ls g').
  assert (∀ g', g' ∈ g :: gs → gate_holds w1 g' (ls1 g')) as H1'.
  { intros g' Hg'. unfold ls1. destruct (decide (g' = g)) as [->|Hne]; [done|].
    destruct (Hh g' Hg') as (ig & Eg & Hl). exists ig. by rewrite Q1 by (by rewrite list_elem_of_singleton). }
  destruct (IH ls1 w1) as (w' & E' & (B' & L' & O' & Q') & H').
  - intros g' w2 Eb Hg'. apply Hrecv; [congruence|by right].
  - intros g' Hg'. apply H1'. by right.
  - intros g' Hg'. specialize (Hroom g' ltac:(by right)). rewrite Ho in Hroom. unfold ls1.
    destruct (decide (g' = g)) as [->|Hne]; [rewrite length_app; cbn; lia|lia].
  - exists w'. split; [done|]. split.
    + split_and!; try congruence. intros g' [Hne Hg']%not_elem_of_cons.
      by rewrite Q', Q1 by (by rewrite ?list_elem_of_singleton).
    + intros g' Hg'. rewrite Ho.
      destruct (decide (g' ∈ gs)) as [Hin|Hout].
      * specialize (H' g' Hin). unfold ls1 in H'. destruct (decide (g' = g)) as [->|Hne]; [|done].
        by rewrite <- app_assoc in H'.
      * apply elem_of_cons in Hg' as [->|Hin]; [|done]. rewrite decide_True by done.
        assert (occ g gs = 0%nat) as -> by (rewrite occ_elem_of in Hout; lia).
        destruct H1 as (ig & Eg & Hl). exists ig. by rewrite Q'.
Qed.

(** ** One turn of a block *)

(** The handlers send nothing and do not throw. *)
Definition sink (l : logic St Msg Tm) : Prop :=
  (∀ s m i, ∃ s', on_receive l s m i = Done s') ∧ (∀ s t, ∃ s', on_timer l s t = Done s') ∧
  (∀ s, ∃ s', on_async l s = Done s').

Definition final (p : proc) (s : St) : St := match p with Done s' => s' | _ => s end.

(** The state after the handler of an event of the block. *)
Definition step_event (l : logic St Msg Tm) (s : St) (e : event Msg Tm) : St :=
  match e with
  | Received g m => final (on_receive l s m g.2) s
  | TimerHandled _ t => final (on_timer l s t) s
  | AsyncRun _ => final (on_async l s) s
  | Dropped _ _ => s
  end.

(** The world of one block [b] with logic [l], its state, timers and queues. *)
Record at_rest b (l : logic St Msg Tm) (s : St) (ts : list Tm) (qs : list (list (option Msg)))
    (es : list (event Msg Tm)) w : Prop := {
  rest_block : ∃ x, w_blocks w !! b = Some x ∧ b_logic x = l ∧ b_state x = s ∧ b_timer_queue x = ts ∧
    b_last_in_id x = length qs;
  rest_queues i q : qs !! i = Some q → gate_holds w (b, i) q;
  rest_log : w_log w = es
}.

(** A handler's call as a whole. *)
Lemma run_sink_proc send b l s ts qs es e p w :
  at_rest b l s ts qs es w → (∃ s', p = Done s') →
  ∃ w', (log e;; run_proc send b p) w = (Ret tt, w') ∧ at_rest b l (final p s) ts qs (es ++ [e]) w'.
Proof.
  intros [(x & Ex & El & Es & Et & En) Hq Hl] [s' ->]. cbn [run_proc final].
  eexists. split; [reflexivity|]. split.
  - eexists. cbn. rewrite lookup_alter_eq, Ex. split; [done|]. by cbn.
  - intros i q Hi. destruct (Hq i q Hi) as (ig & Eg & Hh). by exists ig.
  - cbn. by rewrite Hl.
Qed.

Lemma run_timers_sink fuel depth b l s ts qs es w :
  sink l → at_rest b l s ts qs es w → (length ts < fuel)%nat →
  ∃ w', run_timers fuel depth b w = (Ret tt, w') ∧
    at_rest b l (foldl (step_event l) s (TimerHandled b <$> ts)) [] qs (es ++ (TimerHandled b <$> ts)) w'.
Proof.
  intros Hsink. revert s ts es w. induction fuel as [|fuel IH]; intros s ts es w HR Hf; [lia|].
  cbn [run_timers]. destruct HR as [(x & Ex & El & Es & Et & En) Hq Hl].
  assert (get_block b w = (Ret x, w)) as Eg by (unfold get_block; by rewrite Ex).
  rewrite (bind_Ret _ _ _ _ _ Eg), Et. destruct ts as [|t ts].
  { exists w. split; [done|]. rewrite app_nil_r. split; [by eexists|done|done]. }
  cbn [change_block]. unfold mbind at 1, M_bind at 1, change_block at 1, modify.
  set (w1 := with_blocks (alter (set_timers ts) b) w).
  assert (w_blocks w1 !! b = Some (set_timers ts x)) as E1 by (cbn; by rewrite lookup_alter_eq, Ex).
  assert (at_rest b l s ts qs es w1) as R1.
  { split; [by exists (set_timers ts x)| |done]. intros i q Hi. by apply Hq. }
  destruct (run_sink_proc (send_out_through depth b) b l s ts qs es (TimerHandled b t) (on_timer l s t) w1 R1)
    as (w2 & E2 & R2); [apply Hsink|].
  assert (call_timer depth b t w1 = (Ret tt, w2)) as Ec.
  { unfold call_timer, get_block. unfold mbind at 1, M_bind at 1. rewrite E1. cbn beta iota.
    cbn [b_logic b_state set_timers]. by rewrite El, Es. }
  rewrite (bind_Ret _ _ _ _ _ Ec).
  destruct (IH _ _ _ _ R2) as (w3 & E3 & R3); [cbn in Hf; lia|].
  exists w3. split; [exact E3|]. rewrite fmap_cons. cbn [foldl step_event].
  by rewrite <- app_assoc in R3.
Qed.

Lemma dequeue_holds b l s ts qs es i q w :
  at_rest b l s ts qs es w → qs !! i = Some q →
  ∃ w', on_net (dequeue (b, i)) w = (Ret (default None (head q)), w') ∧
    at_rest b l s ts (<[i := tail q]> qs) es w'.
Proof.
  intros [(x & Ex & El & Es & Et & En) Hq Hl] Hi. destruct (Hq i q Hi) as (ig & Eg & Hh).
  unfold on_net, dequeue, get_in, put_in. run_m. rewrite Eg.
  destruct (q_pop_holds _ _ Hh) as [Ep Ht]. destruct (q_pop (ig_queue ig)) as [tmp q']. cbn in *. subst tmp.
  eexists. split; [done|]. split.
  - exists x. rewrite length_insert. by cbn.
  - intros j qj Hj. destruct (decide (i = j)) as [->|Hne].
    + rewrite list_lookup_insert_eq in Hj by (by eapply lookup_lt_Some). injection Hj as <-.
      eexists. cbn. by rewrite lookup_insert_eq.
    + rewrite list_lookup_insert_ne in Hj by done. destruct (Hq j qj Hj) as (igj & Egj & Hhj).
      exists igj. cbn. by rewrite lookup_insert_ne by congruence.
  - done.
Qed.

(** Messages taken from the gate [i]. *)
Definition received b (i : nat) (ms : list Msg) : list (event Msg Tm) :=
  (λ m : Msg, Received (b, i) (Some m)) <$> ms.

Lemma run_gate_sink n depth b l s ts qs es i (ms : list Msg) w :
  sink l → at_rest b l s ts qs es w → qs !! i = Some (Some <$> ms) →
  ∃ w', run_gate n depth (b, i) w = (Ret tt, w') ∧
    at_rest b l (foldl (step_event l) s (received b i (take n ms))) ts
      (<[i := Some <$> drop n ms]> qs) (es ++ received b i (take n ms)) w'.
Proof.
  intros Hsink. revert s qs es ms w. induction n as [|n IH]; intros s qs es ms w HR Hi; cbn [run_gate].
  { exists w. split; [done|]. rewrite app_nil_r. cbn. by rewrite list_insert_id. }
  destruct (dequeue_holds b l s ts qs es i _ w HR Hi) as (w1 & E1 & R1).
  rewrite (bind_Ret _ _ _ _ _ E1). destruct ms as [|m ms]; cbn [fmap list_fmap head tail default from_option].
  { exists w1. split; [done|]. by rewrite app_nil_r. }
  destruct R1 as [(x & Ex & El & Es & Et & En) Hq Hl].
  destruct (run_sink_proc (send_out_through depth b) b l s ts (<[i := Some <$> ms]> qs) es (Received (b, i) (Some m))
    (on_receive l s (Some m) i) w1) as (w2 & E2 & R2); [by split; [exists x|..]|apply Hsink|].
  assert (call_receive (send_out_through depth b) (b, i) (Some m) w1 = (Ret tt, w2)) as Ec.
  { unfold call_receive, get_block. unfold mbind at 1, M_bind at 1. cbn [fst snd]. rewrite Ex. cbn beta iota.
    by rewrite El, Es. }
  cbn [fst id]. rewrite (bind_Ret _ _ _ _ _ Ec).
  destruct (IH _ _ _ ms _ R2) as (w3 & E3 & R3).
  { by rewrite list_lookup_insert_eq by (by eapply lookup_lt_Some). }
  exists w3. split; [exact E3|]. rewrite list_insert_insert_eq in R3. by rewrite <- app_assoc in R3.
Qed.

Definition pointers (ms : list Msg) : list (option Msg) := Some <$> ms.

(** The gates from [k] on, in order. *)
Fixpoint gates_events b k (mss : list (list Msg)) : list (event Msg Tm) :=
  match mss with
  | [] => []
  | ms :: mss => received b k (take MAX_MSG_DEQUEUE ms) ++ gates_events b (S k) mss
  end.

Lemma run_gates_sink depth b l ts (mss : list (list Msg)) pre s es w :
  sink l → at_rest b l s ts (pre ++ (pointers <$> mss)) es w →
  ∃ w', for_gates (run_gate MAX_MSG_DEQUEUE depth) ((λ i : nat, (b, i)) <$> seq (length pre) (length mss)) w = (Ret tt, w') ∧
    at_rest b l (foldl (step_event l) s (gates_events b (length pre) mss)) ts
      (pre ++ ((λ ms, pointers (drop MAX_MSG_DEQUEUE ms)) <$> mss)) (es ++ gates_events b (length pre) mss) w'.
Proof.
  intros Hsink. revert pre s es w. induction mss as [|ms mss IH]; intros pre s es w HR.
  { exists w. split; [done|]. cbn [gates_events foldl fmap list_fmap] in *. rewrite !app_nil_r in *. exact HR. }
  cbn [length seq]. rewrite fmap_cons. cbn [for_gates gates_events].
  destruct (run_gate_sink MAX_MSG_DEQUEUE depth b l s ts _ es (length pre) ms w Hsink HR) as (w1 & E1 & R1).
  { rewrite lookup_app_r, Nat.sub_diag by lia. done. }
  rewrite (bind_Ret _ _ _ _ _ E1).
  rewrite fmap_cons, insert_app_r_alt, Nat.sub_diag in R1 by lia. cbn [insert list_insert] in R1.
  rewrite (cons_middle _ pre), app_assoc in R1. destruct (IH _ _ _ _ R1) as (w2 & E2 & R2).
  rewrite length_app in E2, R2. cbn [length] in E2, R2. rewrite Nat.add_1_r in E2, R2.
  exists w2. split; [exact E2|]. rewrite foldl_app. rewrite fmap_cons.
  by rewrite <- !app_assoc in R2.
Qed.

(** [run] as a whole. *)
Lemma run_sink depth b l s ts (mss : list (list Msg)) es w :
  sink l → at_rest b l s ts (pointers <$> mss) es w →
  ∃ w', run depth b w = (Ret tt, w') ∧
    let evs := (TimerHandled b <$> ts) ++ gates_events b 0 mss ++ [AsyncRun b] in
    at_rest b l (foldl (step_event l) s evs) [] ((λ ms, pointers (drop MAX_MSG_DEQUEUE ms)) <$> mss) (es ++ evs) w'.
Proof.
  intros Hsink HR. destruct (rest_block _ _ _ _ _ _ _ HR) as (x & Ex & El & Es & Et & En).
  assert (get_block b w = (Ret x, w)) as Eg by (unfold get_block; by rewrite Ex).
  unfold run. rewrite (bind_Ret _ _ _ _ _ Eg), Et.
  destruct (run_timers_sink (S (length ts)) depth b l s ts _ es w Hsink HR) as (w1 & E1 & R1); [lia|].
  rewrite (bind_Ret _ _ _ _ _ E1).
  destruct (run_gates_sink depth b l [] mss [] _ _ w1 Hsink R1) as (w2 & E2 & R2).
  rewrite length_fmap in En. rewrite En. cbn [length] in E2, R2. rewrite (bind_Ret _ _ _ _ _ E2).
  set (s2 := foldl _ (foldl _ _ _) _) in *.
  destruct (rest_block _ _ _ _ _ _ _ R2) as (x2 & Ex2 & El2 & Es2 & Et2 & En2).
  unfold call_async, get_block. unfold mbind at 1, M_bind at 1. rewrite Ex2, El2, Es2. cbn beta iota.
  destruct (run_sink_proc (send_out_through depth b) b l _ _ _ _ (AsyncRun b) (on_async l s2) w2 R2) as (w3 & E3 & R3);
    [apply Hsink|].
  exists w3. split; [exact E3|]. cbn zeta. rewrite !foldl_app. cbn [app] in R3.
  by rewrite <- !app_assoc in R3.
Qed.
End block.

(** ** Properties *)

Definition not_undefined (e : exn) : Prop := match e with undefined_behaviour _ => False | _ => True end.

(** C4: sending a message through a gate ends, within a call depth above the
    rank of the direct blocks, when the links into direct blocks have no cycle
    and no mutex is held: no mutex is taken twice, no block or gate that is
    gone is used, and only the states of blocks, the queues and the log change.
    An exception can only be one of the handlers' or the assertion on the
    gate's index. *)
Theorem acyclic_delivery_safe {Q St Msg Tm} `{GateQueue Msg Q} (rank : nat → nat) (w : world Q St Msg Tm)
    r depth b m id :
  wired w → ranked rank w → (∀ b x, w_blocks w !! b = Some x → b_locked x = false) →
  logics_throw_only not_undefined w → (∀ b, is_Some (w_blocks w !! b) → (rank b < r)%nat) → (r < depth)%nat →
  is_Some (w_blocks w !! b) →
  let '(res, w') := send_out_through depth b m id w in
  frame w w' ∧ match res with Ret _ => True | Throw e => not_undefined e end.
Proof.
  intros HW HR HU HL Hrank Hd Hb.
  assert (sound rank not_undefined r w) as HS by (split; try done; intros b' x' E _; by eapply HU).
  assert (good not_undefined w (send_out_through depth b m id w)) as [Hf Hp].
  { apply (good_send rank not_undefined I r); [|specialize (Hrank b Hb); lia|done|done].
    intros g w' HS' Hi Hb' Hrk. by apply (receive_good rank not_undefined I depth r). }
  by destruct (send_out_through depth b m id w).
Qed.

(** A splitter (0) in front of a direct block (1) and a queue (2, a sink), the
    direct block forwarding to the queue as well. *)
Definition forward : logic nat nat unit :=
  Logic (λ s m _, Send (S s) m 0 Done) (λ s _, Done s) (λ s, Done s).
Definition count : logic nat nat unit := Logic (λ s _ _, Done (S s)) (λ s _, Done s) (λ s, Done s).

Definition demo_block (i : invocation_type) (ins outs : nat) (l : logic nat nat unit) : block nat nat unit :=
  MkBlock "demo" i true false false ∅ ∅ ins outs [] QUEUETYPE_DROPPING l 0%nat.

Definition demo_blocks : gmap nat (block nat nat unit) :=
  {[ 0%nat := demo_block Direct 0 1 forward; 1%nat := demo_block Direct 1 1 forward;
     2%nat := demo_block Indirect 1 0 count ]}.

Definition demo_gates : net (dbq (Msg:=nat)) :=
  Net {[ (1, 0)%nat := InGate q_new [(0, 0)%nat]; (2, 0)%nat := InGate q_new [(0, 0)%nat; (1, 0)%nat] ]}
    {[ (0, 0)%nat := [(1, 0)%nat; (2, 0)%nat]; (1, 0)%nat := [(2, 0)%nat] ]}.

Definition demo_world : world (dbq (Msg:=nat)) nat nat unit := World demo_gates demo_blocks [].

Ltac map_cases H :=
  repeat (apply lookup_insert_Some in H as [[? ?]|[_ H]]); [..|apply lookup_singleton_Some in H as [? ?]].

Lemma demo_wired : wired demo_world.
Proof.
  split.
  - intros b x id E Hid. cbn in E. unfold demo_blocks in E.
    map_cases E; subst; cbn in Hid; (lia || (assert (id = 0)%nat as -> by lia)); by eexists.
  - intros o ps g E Hg. cbn in E.
    map_cases E; subst; repeat (apply elem_of_cons in Hg as [->|Hg]); try (by apply not_elem_of_nil in Hg);
      by split; eexists.
Qed.

Lemma demo_ranked : ranked (λ b, (2 - b)%nat) demo_world.
Proof.
  intros o ps g x E Hg Ex Hd. cbn in E, Ex.
  map_cases E; subst; repeat (apply elem_of_cons in Hg as [->|Hg]); try (by apply not_elem_of_nil in Hg);
    cbn in *; lia.
Qed.

Lemma demo_all (P : block nat nat unit → Prop) :
  P (demo_block Direct 0 1 forward) → P (demo_block Direct 1 1 forward) → P (demo_block Indirect 1 0 count) →
  ∀ b x, w_blocks demo_world !! b = Some x → P x.
Proof. intros P0 P1 P2 b x E. cbn in E. unfold demo_blocks in E. map_cases E; by subst. Qed.

Lemma acyclic_delivery_safe_witness :
  let '(res, w') := send_out_through 4 0 (Some 7%nat) 0 demo_world in
  frame demo_world w' ∧ match res with Ret _ => True | Throw e => not_undefined e end.
Proof.
  apply (acyclic_delivery_safe (λ b, (2 - b)%nat) demo_world 3).
  - apply demo_wired.
  - apply demo_ranked.
  - by refine (demo_all (λ x, b_locked x = false) _ _ _).
  - refine (demo_all (λ x, ∀ s m i, throws_only not_undefined (on_receive (b_logic x) s m i)) _ _ _); done.
  - intros b _. lia.
  - lia.
  - by eexists.
Defined.

(** C7: a message sent through a gate whose peers belong to blocks that are not
    direct and whose queues have room is appended to each peer's queue, once
    per link, and nothing else changes. *)
Theorem fan_out_once_per_link {Q St Msg Tm} `{GateQueue Msg Q} (w : world Q St Msg Tm) depth b x m id gs ls :
  w_blocks w !! b = Some x → (id < b_last_out_id x)%nat → out_gates (w_net w) !! (b, id) = Some gs →
  (∀ g, g ∈ gs → ∃ y, w_blocks w !! g.1 = Some y ∧ is_direct y = false) →
  (∀ g, g ∈ gs → gate_holds w g (ls g) ∧ (length (ls g) + occ g gs ≤ q_capacity)%nat) →
  ∃ w', send_out_through (S depth) b m (Z.of_nat id) w = (Ret tt, w') ∧ queues_differ gs w w' ∧
    ∀ g, g ∈ gs → gate_holds w' g (ls g ++ replicate (occ g gs) m).
Proof.
  intros Ex Hid Eg Hind Hq. unfold send_out_through, send_with.
  assert (get_block b w = (Ret x, w)) as Eb by (unfold get_block; by rewrite Ex).
  rewrite (bind_Ret _ _ _ _ _ Eb).
  assert ((0 <=? Z.of_nat id) && (Z.of_nat id <? Z.of_nat (b_last_out_id x)) = true) as -> by lia.
  assert (on_net (get_out (b, Z.to_nat (Z.of_nat id))) w = (Ret gs, w)) as Eo.
  { rewrite Nat2Z.id, on_net_get_out. by rewrite Eg. }
  cbn [ensure]. unfold mbind at 1, M_bind at 1, mret, M_ret.
  change (for_gates (λ g, receive (S depth) g m) gs) with (for_gates (λ g, (λ g m, receive (S depth) g m) g m) gs).
  rewrite (bind_Ret _ _ _ _ _ Eo). apply (fan_out (receive (S depth)) m gs ls).
  - intros g w' Eb' Hg. destruct (Hind g Hg) as (y & Ey & Hd). cbn [receive].
    assert (get_block g.1 w' = (Ret y, w')) as Eb2 by (unfold get_block; by rewrite Eb', Ey).
    by rewrite (bind_Ret _ _ _ _ _ Eb2), Hd.
  - intros g Hg. by apply Hq.
  - intros g Hg. by apply Hq.
Qed.

Lemma fan_out_once_per_link_witness :
  ∃ w', send_out_through 2 1 (Some 7%nat) 0 demo_world = (Ret tt, w') ∧
    queues_differ [(2, 0)%nat] demo_world w' ∧
    ∀ g, g ∈ [(2, 0)%nat] → gate_holds w' g ([] ++ replicate (occ g [(2, 0)%nat]) (Some 7%nat)).
Proof.
  apply (fan_out_once_per_link demo_world 1 1 (demo_block Direct 1 1 forward) (Some 7%nat) 0 [(2, 0)%nat] (λ _, [])).
  - reflexivity.
  - cbn. lia.
  - reflexivity.
  - intros g ->%list_elem_of_singleton. by eexists.
  - intros g ->%list_elem_of_singleton. split.
    + eexists. split; [reflexivity|]. apply q_new_holds.
    + vm_compute. lia.
Defined.

(** One turn of a block whose handlers send nothing handles its pending
    timers in order, then from each input gate, in the order of the gates, the
    first ten messages of its queue, and then the asynchronous work; the rest
    of each queue stays and the state is that after these handlers. *)
Theorem run_takes_turns {Q St Msg Tm} `{GateQueue Msg Q} depth b (l : logic St Msg Tm) s ts mss es
    (w : world Q St Msg Tm) :
  sink l → at_rest b l s ts (pointers <$> mss) es w →
  ∃ w', run depth b w = (Ret tt, w') ∧
    let evs := (TimerHandled b <$> ts) ++ gates_events b 0 mss ++ [AsyncRun b] in
    at_rest b l (foldl (step_event l) s evs) [] ((λ ms, pointers (drop MAX_MSG_DEQUEUE ms)) <$> mss) (es ++ evs) w'.
Proof. apply run_sink. Qed.

Lemma run_takes_turns_witness :
  ∃ w', run 1 2 demo_world = (Ret tt, w') ∧
    at_rest 2 count 0%nat [] [[]] [AsyncRun 2] w'.
Proof.
  apply (run_takes_turns 1 2 count 0%nat [] [[]] [] demo_world).
  - split_and!; intros; by eexists.
  - split.
    + eexists. split; [reflexivity|]. done.
    + intros [|i] q Hq; [|done]. injection Hq as <-. eexists. split; [reflexivity|]. apply q_new_holds.
    + reflexivity.
Defined.
