(* ===== verification/StdMap.v ===== *)
(** * [std::map] with string keys

    Entries in the order of their keys, the order in which the sources iterate
    over a map; [find], [insert], [operator\[\]] and [erase] as the standard
    defines them. *)

From S2P Require Export MachineInt.
From Stdlib Require Import String.

Notation std_map V := (list (string * V)).

Section std_map.
Context {V : Type}.
Implicit Types (m : std_map V) (k : string) (v : V).

Fixpoint map_find k m : option V :=
  match m with
  | [] => None
  | (k', v) :: m => if decide (k = k') then Some v else map_find k m
  end.

(** A new entry before the first greater key. *)
Fixpoint map_put k v m : std_map V :=
  match m with
  | [] => [(k, v)]
  | (k', v') :: m => if String.ltb k k' then (k, v) :: (k', v') :: m else (k', v') :: map_put k v m
  end.

(** [m.insert(pair(k, v))] *)
Definition map_add k v m : std_map V :=
  match map_find k m with Some _ => m | None => map_put k v m end.

(** [m\[k\] = v] *)
Definition map_assign k v m : std_map V :=
  match map_find k m with
  | Some _ => (λ e, if decide (e.1 = k) then (k, v) else e) <$> m
  | None => map_put k v m
  end.

(** [m.erase(k)] *)
Definition map_erase k m : std_map V := filter (λ e, e.1 ≠ k) m.

Definition map_values m : list V := snd <$> m.

Lemma map_find_put k v m k' :
  map_find k m = None → map_find k' (map_put k v m) = if decide (k' = k) then Some v else map_find k' m.
Proof.
  induction m as [|[k1 v1] m IH]; cbn [map_find map_put]; [done|].
  destruct (decide (k = k1)) as [->|Hne]; [done|]. intros Hn.
  destruct (String.ltb k k1); cbn [map_find]; [done|]. rewrite (IH Hn).
  destruct (decide (k' = k1)) as [->|]; [by rewrite decide_False by done|done].
Qed.

Lemma map_find_assign k v m k' :
  map_find k' (map_assign k v m) = if decide (k' = k) then Some v else map_find k' m.
Proof.
  unfold map_assign. destruct (map_find k m) as [v0|] eqn:E; [|by apply map_find_put].
  revert E. induction m as [|[k1 v1] m IH]; cbn [map_find]; [done|]. intros E. rewrite fmap_cons. cbn [fst].
  destruct (decide (k = k1)) as [->|Hne].
  - rewrite decide_True by done. cbn [map_find].
    destruct (decide (k' = k1)) as [->|Hne]; [done|].
    clear -Hne. induction m as [|[k2 v2] m IH]; [done|]. rewrite fmap_cons. cbn [map_find fst].
    destruct (decide (k2 = k1)) as [->|]; cbn [map_find]; rewrite IH; [|done].
    by rewrite !(decide_False (P:=k' = k1)) by done.
  - rewrite (decide_False (P:=k1 = k)) by done. cbn [map_find]. rewrite (IH E).
    destruct (decide (k' = k1)) as [->|]; [|done]. by rewrite (decide_False (P:=k1 = k)) by done.
Qed.

Lemma map_find_erase k m k' :
  map_find k' (map_erase k m) = if decide (k' = k) then None else map_find k' m.
Proof.
  unfold map_erase. induction m as [|[k1 v1] m IH]; [by destruct (decide _)|].
  destruct (decide (k1 = k)) as [->|Hne].
  - rewrite filter_cons_False by (cbn; tauto). rewrite IH. cbn [map_find].
    by destruct (decide (k' = k)).
  - rewrite filter_cons_True by done. cbn [map_find]. rewrite IH.
    destruct (decide (k' = k1)) as [->|]; [by rewrite decide_False by done|done].
Qed.
Lemma Forall_map_assign (P : string * V → Prop) k v m :
  P (k, v) → Forall P m → Forall P (map_assign k v m).
Proof.
  intros Hv Hm. unfold map_assign. destruct (map_find k m).
  - induction Hm as [|e m He Hm IH]; [constructor|]. rewrite fmap_cons. constructor; [|done]. by destruct (decide _).
  - induction Hm as [|[k' v'] m He Hm IH]; cbn [map_put]; [by repeat constructor|].
    destruct (String.ltb k k'); repeat constructor; done.
Qed.
End std_map.

(** ** Keys *)

Section keys.
Context {V : Type}.
Implicit Types (m : std_map V) (k : string) (v : V).

Lemma map_find_elem k v m : map_find k m = Some v → (k, v) ∈ m.
Proof.
  induction m as [|[k' v'] m IH]; cbn [map_find]; [done|]. destruct (decide (k = k')) as [->|].
  - intros [= ->]. by left.
  - intros E. right. by apply IH.
Qed.

Lemma map_find_not_key k m : map_find k m = None ↔ k ∉ m.*1.
Proof.
  induction m as [|[k' v'] m IH]; cbn [map_find fmap list_fmap fst].
  - split; [intros _; apply not_elem_of_nil|done].
  - rewrite not_elem_of_cons, <- IH. destruct (decide (k = k')) as [->|]; naive_solver.
Qed.

Lemma map_put_perm k v m : map_put k v m ≡ₚ (k, v) :: m.
Proof.
  induction m as [|[k' v'] m IH]; [done|]. cbn [map_put]. destruct (String.ltb k k'); [done|].
  rewrite IH. apply Permutation_swap.
Qed.

Lemma map_add_NoDup k v m : NoDup m.*1 → NoDup (map_add k v m).*1.
Proof.
  intros Hm. unfold map_add. destruct (map_find k m) eqn:E; [done|].
  rewrite (fmap_Permutation _ _ _ (map_put_perm k v m)). apply NoDup_cons. split; [|done]. by apply map_find_not_key.
Qed.

Lemma map_assign_keys k v m : is_Some (map_find k m) → (map_assign k v m).*1 = m.*1.
Proof.
  intros [v0 E]. unfold map_assign. rewrite E. rewrite <- list_fmap_compose. apply list_fmap_ext.
  intros i [k' v'] _. cbn. by destruct (decide (k' = k)) as [->|].
Qed.

Lemma map_find_add k v m k' :
  map_find k' (map_add k v m) = match map_find k' m with Some x => Some x | None => if decide (k' = k) then Some v else None end.
Proof.
  unfold map_add. destruct (map_find k m) as [x|] eqn:E.
  - destruct (map_find k' m) eqn:E'; [done|]. by rewrite decide_False by congruence.
  - rewrite map_find_put by done. destruct (decide (k' = k)) as [->|]; [by rewrite E|by destruct (map_find k' m)].
Qed.

(** [insert] of a sequence of pairs: the first with a key stays. *)
Lemma map_find_adds (l : list (string * V)) m k :
  map_find k (foldl (λ m e, map_add e.1 e.2 m) m l) = match map_find k m with Some x => Some x | None => map_find k l end.
Proof.
  revert m. induction l as [|[k1 v1] l IH]; intros m; cbn [foldl map_find]; [by destruct (map_find k m)|].
  rewrite IH, map_find_add. cbn [fst snd]. destruct (map_find k m) as [x|]; [done|].
  by destruct (decide (k = k1)).
Qed.

Lemma length_map_add k v m : (List.length m ≤ List.length (map_add k v m) ≤ S (List.length m))%nat.
Proof. unfold map_add. destruct (map_find k m); [lia|]. rewrite (map_put_perm k v m). cbn [List.length]. lia. Qed.
End keys.
