(* ===== verification/BlockVariable.v ===== *)
(** * Block variables

    Models [core/block/BlockVariable.hpp] and the functions of [Block] that work
    on a block's variables ([core/block/Block.hpp], [Block.cpp]): members of a
    block that the control plane reads and writes as strings.

    A variable is bound to a member by reference: a getter and a setter on the
    block's state.  The stream operators of the member's type are the interface
    [Streamable].  The mutexes a thread holds are a set, taking one twice does
    not return. *)

From S2P Require Export StdMap.
From Stdlib Require Import DecimalString DecimalN DecimalPos DecimalFacts NArith.

(** ** Stream operators *)

(** [s << v] and [ss >> v]: what is extracted, also when the stream fails (the
    second component is the new value). *)
Class Streamable (T : Type) := {
  insert_stream : T → string;
  extract_stream : string → T → bool * T
}.

(** The operators agree on the values of [P]. *)
Definition stream_inverse {T} `{Streamable T} (P : T → Prop) : Prop :=
  ∀ v old, P v → extract_stream (insert_stream v) old = (true, v).

(** ** The variables of a block *)

Section variables.
Context {B : Type}.

(** What the variables of a block work on: the block's members and the mutexes
    held. *)
Record members := Members { m_state : B; held : gset nat }.

Record block_variable := BlockVariable {
  m_writable : bool;
  m_readable : bool;
  m_dirty : bool;
  _write : string → M members unit;
  _read : M members string
}.

Definition set_dirty (val : bool) (v : block_variable) : block_variable :=
  BlockVariable (m_writable v) (m_readable v) val (_write v) (_read v).

Definition is_dirty (v : block_variable) : outcome bool :=
  if m_writable v then Ret (m_dirty v) else Throw (assert_failure "m_writable").

(** [write] and [read] of the base class. *)
Definition write (v : block_variable) (s : string) : M members block_variable :=
  if negb (m_writable v) then throw (runtime_error "variable not writable")
  else
    _write v s;;
    mret (set_dirty true v).

Definition read (v : block_variable) : M members string :=
  if negb (m_readable v) then throw (runtime_error "variable not readable")
  else _read v.

(** [std::lock_guard]: the mutex is released on every way out. *)
Definition lock_guard {A} (mutex : nat) (body : M members A) : M members A := λ s,
  if bool_decide (mutex ∈ held s) then (Throw (undefined_behaviour "mutex locked twice"), s)
  else
    let '(r, s) := body (Members (m_state s) ({[ mutex ]} ∪ held s)) in
    (r, Members (m_state s) (held s ∖ {[ mutex ]})).

(** A reference to a member. *)
Record reference T := Reference { get_ref : B → T; set_ref : T → B → B }.
Arguments get_ref {T} _.
Arguments set_ref {T} _.

Section impl.
Context {T : Type} `{Streamable T} (m_var : reference T).

Definition stream_out : M members string := gets (λ s, insert_stream (get_ref m_var (m_state s))).

(** [ss >> m_var]: the member is assigned in any case. *)
Definition stream_in (str : string) : M members unit :=
  s ← gets id;
  let '(ok, v) := extract_stream str (get_ref m_var (m_state s)) in
  modify (λ s, Members (set_ref m_var v (m_state s)) (held s));;
  ensure ok (runtime_error "cannot write variable").

Definition write_read_only (_ : string) : M members unit :=
  throw (runtime_error "trying to write a read-only variable").
Definition read_write_only : M members string := throw (runtime_error "trying to read a write-only variable").

(** The specialisations of [VariableImpl]. *)
Definition rd_no_lock : block_variable := BlockVariable false true false write_read_only stream_out.
Definition wr_no_lock : block_variable := BlockVariable true false false stream_in read_write_only.
Definition wr_ext_lock (m_mutex : nat) : block_variable :=
  BlockVariable true false false (λ str, lock_guard m_mutex (stream_in str)) read_write_only.
Definition rd_ext_lock (m_mutex : nat) : block_variable :=
  BlockVariable false true false write_read_only (lock_guard m_mutex stream_out).
Definition wr_own_lock (m_mutex : nat) : block_variable :=
  BlockVariable true false false (λ str, lock_guard m_mutex (stream_in str)) read_write_only.
Definition rd_own_lock (m_mutex : nat) : block_variable :=
  BlockVariable false true false write_read_only (lock_guard m_mutex stream_out).

(** The policies; a variable's own mutex is made with it. *)
Inductive lock_policy := no_mutex | ext_mutex (m : nat) | own_mutex (m : nat).

Definition make_rd_var (l : lock_policy) : block_variable :=
  match l with no_mutex => rd_no_lock | ext_mutex m => rd_ext_lock m | own_mutex m => rd_own_lock m end.
Definition make_wr_var (l : lock_policy) : block_variable :=
  match l with no_mutex => wr_no_lock | ext_mutex m => wr_ext_lock m | own_mutex m => wr_own_lock m end.
End impl.

(** ** A block with its variables *)

Record var_block := VarBlock { vb_members : members; m_variables : std_map block_variable }.

Definition on_members {A} (m : M members A) : M var_block A :=
  zoom vb_members (λ ms b, VarBlock ms (m_variables b)) m.

Definition no_such_variable (v_name : string) : exn := runtime_error (v_name ++ " :no such variable").

Definition read_variable (v_name : string) : M var_block string :=
  vars ← gets m_variables;
  match map_find v_name vars with
  | None => throw (no_such_variable v_name)
  | Some v => on_members (read v)
  end.

Definition write_variable (v_name val : string) : M var_block unit :=
  vars ← gets m_variables;
  match map_find v_name vars with
  | None => throw (no_such_variable v_name)
  | Some v =>
      v ← on_members (write v val);
      modify (λ b, VarBlock (vb_members b) (map_assign v_name v (m_variables b)))
  end.

Definition register_variable (name : string) (v : block_variable) : M var_block unit :=
  vars ← gets m_variables;
  match map_find name vars with
  | Some _ => throw (runtime_error (name ++ " variable already registered"))
  | None => modify (λ b, VarBlock (vb_members b) (map_assign name v (m_variables b)))
  end.

(** [isspace] and the word that [ss >> ret] extracts. *)
Definition is_space (c : Ascii.ascii) : bool :=
  let n := Z.of_nat (Ascii.nat_of_ascii c) in (n =? 32) || ((9 <=? n) && (n <=? 13)).

Fixpoint skip_spaces (s : string) : string :=
  match s with
  | String c s' => if is_space c then skip_spaces s' else s
  | EmptyString => EmptyString
  end.

Fixpoint until_space (s : string) : string :=
  match s with
  | String c s' => if is_space c then EmptyString else String c (until_space s')
  | EmptyString => EmptyString
  end.

Definition variable_entry (e : string * block_variable) : string :=
  e.1 ++ (if m_readable e.2 then ",read" else "") ++ (if m_writable e.2 then ",write" else "") ++ ";".

Definition all_entries (vars : std_map block_variable) : string := foldr (λ e s, variable_entry e ++ s)%string EmptyString vars.

Definition list_variables (b : var_block) : string := until_space (skip_spaces (all_entries (m_variables b))).
End variables.
Arguments members : clear implicits.
Arguments block_variable : clear implicits.
Arguments reference : clear implicits.
Arguments var_block : clear implicits.
Arguments Reference {B T} _ _.
Arguments get_ref {B T} _ _.
Arguments set_ref {B T} _ _ _.

(** ** The stream operators of [unsigned long] *)

Definition is_digit (c : Ascii.ascii) : bool :=
  let n := Z.of_nat (Ascii.nat_of_ascii c) in (48 <=? n) && (n <=? 57).

(** The digits at the front of a string. *)
Fixpoint digit_prefix (s : string) : string :=
  match s with
  | String c s' => if is_digit c then String c (digit_prefix s') else EmptyString
  | EmptyString => EmptyString
  end.

Definition show_ulong (n : Z) : string := NilZero.string_of_uint (N.to_uint (Z.to_N n)).

Definition digits_value (s : string) : option Z :=
  match NilZero.uint_of_string (digit_prefix s) with
  | Some d => Some (Z.of_N (N.of_uint d))
  | None => None
  end.

Definition minus_sign : Ascii.ascii := Ascii.ascii_of_nat 45.
Definition plus_sign : Ascii.ascii := Ascii.ascii_of_nat 43.

(** [strtoull] behind [operator>>]: white space, a sign, digits; 0 is stored
    when there are none and the greatest number when it is exceeded. *)
Definition read_ulong (s : string) (old : Z) : bool * Z :=
  let s := skip_spaces s in
  let '(negative, s) :=
    match s with
    | String c s' => if Ascii.eqb c minus_sign then (true, s') else if Ascii.eqb c plus_sign then (false, s') else (false, s)
    | EmptyString => (false, s)
    end in
  match digits_value s with
  | None => (false, 0)
  | Some n =>
      if 2 ^ 64 <=? n then (false, 2 ^ 64 - 1)
      else (true, if negative : bool then u64 (- n) else n)
  end.

#[export] Instance stream_ulong : Streamable Z := {| insert_stream := show_ulong; extract_stream := read_ulong |}.

Lemma digit_prefix_uint d : digit_prefix (NilEmpty.string_of_uint d) = NilEmpty.string_of_uint d.
Proof. induction d as [|d IH|d IH|d IH|d IH|d IH|d IH|d IH|d IH|d IH|d IH]; cbn; by rewrite ?IH. Qed.

Lemma digit_prefix_nil_zero d : digit_prefix (NilZero.string_of_uint d) = NilZero.string_of_uint d.
Proof. destruct d; [done|apply (digit_prefix_uint (_ d))..]. Qed.

(** The first character of a number is a digit. *)
Lemma show_ulong_head n :
  ∃ c s, show_ulong n = String c s ∧ is_space c = false ∧ Ascii.eqb c minus_sign = false ∧ Ascii.eqb c plus_sign = false.
Proof. unfold show_ulong. destruct (N.to_uint (Z.to_N n)); eexists _, _; (split; [reflexivity|done]). Qed.

Lemma stream_ulong_inverse : stream_inverse (T:=Z) (λ n, 0 ≤ n < 2 ^ 64).
Proof.
  intros n old Hn. cbn [insert_stream extract_stream stream_ulong]. unfold read_ulong.
  assert (digits_value (show_ulong n) = Some n) as Hv.
  { unfold digits_value, show_ulong. rewrite digit_prefix_nil_zero, NilZero.usu.
    - by rewrite DecimalN.Unsigned.of_to, Z2N.id by lia.
    - destruct (Z.to_N n); [done|apply DecimalPos.Unsigned.to_uint_nonnil]. }
  destruct (show_ulong_head n) as (c & s & E & Es & Em & Ep). rewrite E in *. cbn [skip_spaces]. rewrite Es, Em, Ep, Hv.
  by rewrite (proj2 (Z.leb_gt _ _)) by lia.
Qed.

(** ** What the functions do *)

Section facts.
Context {B T : Type} `{Streamable T} (m : reference B T).

(** The mutexes of a policy. *)
Definition policy_free (l : lock_policy) (h : gset nat) : Prop :=
  match l with no_mutex => True | ext_mutex x | own_mutex x => x ∉ h end.

Lemma with_lock_free {A} x (body : M (members B) A) s r s' h :
  x ∉ h → body (Members s ({[ x ]} ∪ h)) = (r, Members s' ({[ x ]} ∪ h)) →
  lock_guard x body (Members s h) = (r, Members s' h).
Proof.
  intros Hx Hb. unfold lock_guard. cbn [held m_state]. rewrite bool_decide_eq_false_2 by done. rewrite Hb. cbn.
  do 2 f_equal. set_solver.
Qed.

Lemma read_made l s h :
  policy_free l h → read (make_rd_var m l) (Members s h) = (Ret (insert_stream (get_ref m s)), Members s h).
Proof.
  intros Hl. destruct l as [|x|x]; cbn [make_rd_var policy_free] in *; [done| |]; by apply with_lock_free.
Qed.

Lemma write_made l s h str :
  policy_free l h →
  let '(ok, v) := extract_stream str (get_ref m s) in
  write (make_wr_var m l) str (Members s h) =
  ((if ok then Ret (set_dirty true (make_wr_var m l)) else Throw (runtime_error "cannot write variable")),
   Members (set_ref m v s) h).
Proof.
  intros Hl. destruct (extract_stream str (get_ref m s)) as [ok v] eqn:E.
  assert (∀ h', stream_in m str (Members s h') =
    ((if ok then Ret tt else Throw (runtime_error "cannot write variable")), Members (set_ref m v s) h')) as Hin.
  { intros h'. unfold stream_in. run_m. cbn [m_state held]. rewrite E. by destruct ok. }
  unfold write. destruct l as [|x|x]; cbn [make_wr_var wr_no_lock wr_ext_lock wr_own_lock m_writable _write negb].
  - run_m. rewrite Hin. by destruct ok.
  - run_m. rewrite (with_lock_free x _ s _ _ h Hl (Hin _)). by destruct ok.
  - run_m. rewrite (with_lock_free x _ s _ _ h Hl (Hin _)). by destruct ok.
Qed.

Lemma read_write_refused l s :
  read (make_wr_var m l) s = (Throw (runtime_error "variable not readable"), s) ∧
  ∀ str, write (make_rd_var m l) str s = (Throw (runtime_error "variable not writable"), s).
Proof. by destruct l. Qed.
End facts.

(** Registering, then finding. *)
Lemma register_variable_new {B} name (v : block_variable B) ms vars :
  map_find name vars = None →
  register_variable name v (VarBlock ms vars) = (Ret tt, VarBlock ms (map_assign name v vars)).
Proof. intros E. unfold register_variable. run_m. cbn [m_variables]. by rewrite E. Qed.

Lemma register_variable_twice {B} name (v : block_variable B) ms vars v0 :
  map_find name vars = Some v0 →
  register_variable name v (VarBlock ms vars) =
  (Throw (runtime_error (name ++ " variable already registered")), VarBlock ms vars).
Proof. intros E. unfold register_variable. run_m. cbn [m_variables]. by rewrite E. Qed.

(** ** Properties *)

(** With a writable and a readable variable registered for one member, under
    any locking policies whose mutexes are free, writing a value's text makes the
    member that value and reading gives the text back; no mutex stays locked; the
    writable one cannot be read nor the readable one written. *)
Theorem block_variable_roundtrip {B T} `{Streamable T} (P : T → Prop) (m : reference B T) lw lr nw nr v
    (s : B) (h : gset nat) vars :
  stream_inverse P → P v → (∀ x s, get_ref m (set_ref m x s) = x) →
  nw ≠ nr → map_find nw vars = None → map_find nr vars = None → policy_free lw h → policy_free lr h →
  ∃ b, (register_variable nw (make_wr_var m lw);; register_variable nr (make_rd_var m lr);;
        write_variable nw (insert_stream v)) (VarBlock (Members s h) vars) = (Ret tt, b) ∧
    vb_members b = Members (set_ref m v s) h ∧
    read_variable nr b = (Ret (insert_stream v), b) ∧
    read_variable nw b = (Throw (runtime_error "variable not readable"), b) ∧
    ∀ str, write_variable nr str b = (Throw (runtime_error "variable not writable"), b).
Proof.
  intros Hinv HP Hlens Hne Ew Er Hlw Hlr.
  assert (map_find nr (map_assign nw (make_wr_var m lw) vars) = None) as Er'.
  { rewrite map_find_assign. by rewrite decide_False. }
  pose proof (write_made m lw s h (insert_stream v) Hlw) as Hwr. rewrite (Hinv _ _ HP) in Hwr.
  eexists. split; [|split_and!].
  - rewrite (bind_Ret _ _ _ _ _ (register_variable_new _ _ _ _ Ew)).
    rewrite (bind_Ret _ _ _ _ _ (register_variable_new _ _ _ _ Er')).
    unfold write_variable, on_members. run_m. cbn [m_variables vb_members].
    rewrite !map_find_assign, decide_False, decide_True by done.
    cbn [vb_members]. rewrite Hwr. reflexivity.
  - reflexivity.
  - unfold read_variable, on_members. run_m. cbn [m_variables vb_members].
    rewrite !map_find_assign, decide_False, decide_True by done.
    cbn [vb_members]. rewrite (read_made m lr _ h Hlr), Hlens. reflexivity.
  - unfold read_variable, on_members. run_m. cbn [m_variables vb_members].
    rewrite !map_find_assign, decide_True by done.
    by destruct lw.
  - intros str. unfold write_variable, on_members. run_m. cbn [m_variables vb_members].
    rewrite !map_find_assign, decide_False, decide_True by done.
    cbn [vb_members]. rewrite (proj2 (read_write_refused m lr _)). reflexivity.
Qed.

Definition whole_state : reference Z Z := Reference (λ s, s) (λ x _, x).

Lemma block_variable_roundtrip_witness :
  ∃ b, (register_variable "reset" (make_wr_var whole_state no_mutex);;
        register_variable "pktcnt" (make_rd_var whole_state (ext_mutex 3));;
        write_variable "reset" (insert_stream 1234)) (VarBlock (Members 7 {[ 5%nat ]}) []) = (Ret tt, b) ∧
    vb_members b = Members 1234 {[ 5%nat ]} ∧
    read_variable "pktcnt" b = (Ret (insert_stream 1234), b) ∧
    read_variable "reset" b = (Throw (runtime_error "variable not readable"), b) ∧
    ∀ str, write_variable "pktcnt" str b = (Throw (runtime_error "variable not writable"), b).
Proof.
  apply (block_variable_roundtrip (λ n, 0 ≤ n < 2 ^ 64) whole_state no_mutex (ext_mutex 3)); try done.
  - apply stream_ulong_inverse.
Defined.

(** A text that is no number is refused, but the member is overwritten. *)
Lemma failed_write_changes_member l (s : Z) h :
  policy_free l h →
  write (make_wr_var whole_state l) "abc" (Members s h) =
  (Throw (runtime_error "cannot write variable"), Members 0 h).
Proof. intros Hl. exact (write_made whole_state l s h "abc" Hl). Qed.

(** The list of variables ends at the first white space in a name. *)
Lemma list_variables_stops_at_space :
  list_variables (VarBlock (Members 0 ∅) [("bytes", make_rd_var whole_state no_mutex);
    ("packets sent", make_rd_var whole_state no_mutex); ("reset", make_wr_var whole_state no_mutex)]) =
  "bytes,read;packets"%string.
Proof. reflexivity. Qed.
