(* ===== verification/Scheduler.v ===== *)
(** * Schedulers, thread pools and their threads

    Models [core/MpMcQueue.hpp], [lib/external/more/shared_queue.hpp],
    [core/scheduler/schedulers/DumbScheduler.hpp] and [RRScheduler.hpp], and
    on the interface they share [ThreadPool.hpp], [PoolManager.hpp] and the
    loop of [ThreadHandler.hpp].  A task is the address of a block.  Queue
    operations are atomic: they hold a mutex or are used by one thread. *)

From S2P Require Export StdMap Xml.

(** ** [MpMcQueue]: a list behind a mutex *)

Section mpmc.
Context {A : Type} `{EqDecision A}.

Definition mq_pop : M (list A) (option A) := λ q,
  match q with [] => (Ret None, []) | x :: q => (Ret (Some x), q) end.
Definition mq_push (x : A) : M (list A) unit := modify (λ q, q ++ [x]).
(** [remove]: every pointer to the object leaves. *)
Definition mq_remove (x : A) : M (list A) unit := modify (remove_all x).
End mpmc.

(** ** [shared_queue]: a ring of a power of two slots *)

Section ring.
Context {A : Type} (N : nat).

Record ring := Ring { rq_storage : list (option A); rq_head : nat; rq_tail : nat }.

Definition ring_new : ring := Ring (replicate N None) 0 0.

(** [_S_mod]: [n & (N-1)] *)
Definition s_mod (n : nat) : nat := Z.to_nat (Z.land (Z.of_nat n) (Z.of_nat N - 1)).

Definition pop_front : M ring (option A) := λ r,
  if decide (rq_tail r = rq_head r) then (Ret None, r)
  else (Ret (default None (rq_storage r !! rq_tail r)),
        Ring (<[rq_tail r := None]> (rq_storage r)) (rq_head r) (s_mod (rq_tail r + 1))).

Definition push_back (x : A) : M ring bool := λ r,
  let next := s_mod (rq_head r + 1) in
  if decide (next = rq_tail r) then (Ret false, r)
  else (Ret true, Ring (<[rq_head r := Some x]> (rq_storage r)) next (rq_tail r)).

Definition ring_empty (r : ring) : bool := bool_decide (rq_head r = rq_tail r).

(** [size]: the difference of two unsigned indices read as an [int]. *)
Definition ring_size (r : ring) : Z :=
  let s := s32 (u32 (Z.of_nat (rq_head r) - Z.of_nat (rq_tail r))) in
  if s <? 0 then s + Z.of_nat N else s.

(** The elements between tail and head. *)
Record ring_rep (r : ring) (l : list A) : Prop := {
  rr_len : length (rq_storage r) = N;
  rr_tail : (rq_tail r < N)%nat;
  rr_room : (length l < N)%nat;
  rr_head : rq_head r = ((rq_tail r + length l) mod N)%nat;
  rr_elems i x : l !! i = Some x → rq_storage r !! ((rq_tail r + i) mod N)%nat = Some (Some x)
}.

Context (k : nat).
Hypothesis N_pow : N = (2 ^ k)%nat.
Hypothesis N_small : Z.of_nat N < 2 ^ 31.

Lemma s_mod_spec n : s_mod n = (n mod N)%nat.
Proof.
  unfold s_mod. rewrite N_pow, Nat2Z.inj_pow.
  replace (Z.of_nat 2 ^ Z.of_nat k - 1) with (Z.ones (Z.of_nat k)) by (rewrite Z.ones_equiv; lia).
  rewrite Z.land_ones by lia. rewrite <- (Nat2Z.id (n mod 2 ^ k)), Nat2Z.inj_mod, Nat2Z.inj_pow. done.
Qed.

Lemma N_pos : (0 < N)%nat.
Proof. rewrite N_pow. pose proof (Nat.pow_nonzero 2 k). lia. Qed.

Lemma shared_ring_new_rep : ring_rep ring_new [].
Proof.
  pose proof N_pos. split; cbn; [by rewrite length_replicate|lia|lia| |done].
  by rewrite Nat.Div0.mod_0_l.
Qed.

(** Distinct positions near each other are distinct modulo [N]. *)
Lemma mod_inj a i j : (i < N)%nat → (j < N)%nat → ((a + i) mod N = (a + j) mod N)%nat → i = j.
Proof.
  intros Hi Hj E. pose proof N_pos.
  pose proof (Nat.div_mod_eq (a + i) N). pose proof (Nat.div_mod_eq (a + j) N).
  assert ((a + i) / N = (a + j) / N ∨ (a + i) / N < (a + j) / N ∨ (a + j) / N < (a + i) / N)%nat as [?|[?|?]] by lia;
    nia.
Qed.

Lemma push_back_spec r l x :
  ring_rep r l →
  if decide (length l = N - 1)%nat then push_back x r = (Ret false, r)
  else ∃ r', push_back x r = (Ret true, r') ∧ ring_rep r' (l ++ [x]).
Proof.
  intros [HL HT HR HH HE]. pose proof N_pos. unfold push_back.
  assert (s_mod (rq_head r + 1) = ((rq_tail r + (length l + 1)) mod N)%nat) as En.
  { rewrite s_mod_spec, HH, Nat.Div0.add_mod_idemp_l. f_equal. lia. }
  rewrite En. destruct (decide (length l = N - 1)%nat) as [E|E].
  - rewrite E. replace (rq_tail r + (N - 1 + 1))%nat with (rq_tail r + 1 * N)%nat by lia.
    rewrite Nat.Div0.mod_add, Nat.mod_small by done. by rewrite decide_True.
  - rewrite decide_False.
    2:{ intros Ec. assert (length l + 1 = 0)%nat; [|lia]. apply (mod_inj (rq_tail r)); [lia|lia|].
        rewrite Ec, Nat.add_0_r, Nat.mod_small by done. done. }
    eexists. split; [done|]. split; cbn [rq_storage rq_head rq_tail].
    + by rewrite length_insert.
    + done.
    + rewrite length_app. cbn. lia.
    + rewrite length_app. done.
    + intros i y Hi. destruct (decide (i < length l)%nat) as [Hlt|Hge].
      * rewrite lookup_app_l in Hi by done. rewrite list_lookup_insert_ne; [by apply HE|].
        rewrite HH. intros Ec. apply (mod_inj (rq_tail r)) in Ec; lia.
      * pose proof (lookup_lt_Some _ _ _ Hi) as Hb. rewrite length_app in Hb. cbn in Hb.
        assert (i = length l) as -> by lia. rewrite lookup_app_r, Nat.sub_diag in Hi by lia.
        injection Hi as ->. rewrite HH. apply list_lookup_insert_eq. rewrite HL. apply Nat.mod_upper_bound. lia.
Qed.

Lemma pop_front_spec r l :
  ring_rep r l →
  ∃ r', pop_front r = (Ret (head l), r') ∧ ring_rep r' (tail l).
Proof.
  intros HRep. pose proof HRep as [HL HT HR HH HE]. pose proof N_pos. unfold pop_front.
  destruct l as [|x l].
  - cbn in HH. rewrite Nat.add_0_r, Nat.mod_small in HH by done. rewrite decide_True by done. by exists r.
  - rewrite decide_False.
    2:{ rewrite HH. intros Ec. assert (0 = length (x :: l))%nat; [|done].
        apply (mod_inj (rq_tail r)); [lia|done|]. by rewrite Nat.add_0_r, Nat.mod_small. }
    pose proof (HE 0%nat x eq_refl) as E0. rewrite Nat.add_0_r, Nat.mod_small in E0 by done. rewrite E0.
    eexists. split; [done|]. rewrite s_mod_spec. cbn [length] in HR.
    assert (∀ i, (((rq_tail r + 1) mod N + i) mod N = (rq_tail r + S i) mod N)%nat) as Es.
    { intros i. rewrite Nat.Div0.add_mod_idemp_l. f_equal. lia. }
    split; cbn [rq_storage rq_head rq_tail tail].
    + by rewrite length_insert.
    + apply Nat.mod_upper_bound. lia.
    + lia.
    + by rewrite Es, HH.
    + intros i y Hi. rewrite Es. pose proof (lookup_lt_Some _ _ _ Hi).
      rewrite list_lookup_insert_ne; [by apply HE|]. intros Ec.
      assert (0 = S i)%nat; [|done]. apply (mod_inj (rq_tail r)); [lia|lia|].
      by rewrite Nat.add_0_r, (Nat.mod_small (rq_tail r)).
Qed.

Lemma ring_size_spec r l : ring_rep r l → ring_size r = Z.of_nat (length l).
Proof.
  intros [HL HT HR HH HE]. pose proof N_pos. unfold ring_size.
  assert (rq_head r < N)%nat as Hh by (rewrite HH; apply Nat.mod_upper_bound; lia).
  assert (rq_head r = rq_tail r + length l ∨ rq_head r + N = rq_tail r + length l)%nat as Hcase.
  { rewrite HH. destruct (decide (rq_tail r + length l < N)%nat) as [Hlt|Hge].
    - left. by apply Nat.mod_small.
    - right. assert ((rq_tail r + length l) mod N = rq_tail r + length l - N)%nat as ->; [|lia].
      replace (rq_tail r + length l)%nat with (rq_tail r + length l - N + 1 * N)%nat at 1 by lia.
      rewrite Nat.Div0.mod_add. apply Nat.mod_small. lia. }
  unfold s32, u32. rewrite to_signed_of_mod, to_signed_id by lia. destruct_cmp; lia.
Qed.
End ring.
Arguments Ring {A} _ _ _.
Arguments ring : clear implicits.

(** ** What a thread pool asks of its scheduler ([PluginScheduler]) *)

Definition thrown {A} (o : outcome A) : bool := negb (returns o).

(** [sched_rep s l]: the scheduler works and waiting are the tasks [l]. *)
Class TaskScheduler (Sch : Type) := {
  sched_new : Z → Sch;
  register_thread : Z → M Sch unit;
  add_block : nat → M Sch unit;
  remove_block : nat → M Sch unit;
  next_task : Z → M Sch (option nat);
  task_done : Z → nat → M Sch unit;
  sched_rep : Sch → list nat → Prop;
  sched_register_rep s l i : sched_rep s l → sched_rep (register_thread i s).2 l;
  sched_add_rep s l b : sched_rep s l →
    ∃ l', sched_rep (add_block b s).2 l' ∧ l' ≡ₚ if returns (add_block b s).1 then b :: l else l;
  sched_remove_rep s l b : sched_rep s l → NoDup l →
    ∃ l', sched_rep (remove_block b s).2 l' ∧
      l' ≡ₚ if returns (remove_block b s).1 then remove_all b l else l;
  sched_next_rep s l i : sched_rep s l →
    ∃ l', sched_rep (next_task i s).2 l' ∧
      match (next_task i s).1 with Ret (Some b) => l ≡ₚ b :: l' | _ => l ≡ₚ l' end;
  sched_done_rep s l i b : sched_rep s l →
    ∃ l', sched_rep (task_done i b s).2 l' ∧ l' ≡ₚ if returns (task_done i b s).1 then b :: l else l
}.

(** ** [DumbScheduler] *)

Definition dumb : Type := list nat.

#[export, refine] Instance dumb_scheduler : TaskScheduler dumb := {|
  sched_new _ := [];
  register_thread _ := mret tt;
  add_block b := mq_push b;
  remove_block b := mq_remove b;
  next_task _ := mq_pop;
  task_done _ b := mq_push b;
  sched_rep s l := s = l
|}.
Proof.
  - done.
  - intros s l b ->. eexists. split; [done|]. cbn. by rewrite Permutation_app_comm.
  - intros s l b -> _. by eexists.
  - intros s l i ->. destruct l as [|x l]; cbn; eexists; (split; [reflexivity|]); reflexivity.
  - intros s l i b ->. eexists. split; [done|]. cbn. by rewrite Permutation_app_comm.
Defined.

(** ** [RRScheduler] *)

Definition ring_slots : nat := 32.
Lemma ring_slots_pow : ring_slots = (2 ^ 5)%nat.
Proof. done. Qed.
Lemma ring_slots_small : Z.of_nat ring_slots < 2 ^ 31.
Proof. done. Qed.

Record rr_sched := RRSched { m_last_id : Z; m_nq : Z; m_queues : list (ring nat) }.

Definition rr_sched_new (nq : Z) : rr_sched :=
  RRSched 0 (u32 nq) (replicate (Z.to_nat (u32 nq)) (ring_new ring_slots)).

(** An operation on the [i]-th queue; [operator\[\]] is not checked. *)
Definition on_queue {A} (i : Z) (m : M (ring nat) A) : M rr_sched A := λ s,
  match m_queues s !! Z.to_nat i with
  | None => (Throw (undefined_behaviour "vector index out of range"), s)
  | Some r => let '(res, r') := m r in (res, RRSched (m_last_id s) (m_nq s) (<[Z.to_nat i := r']> (m_queues s)))
  end.

Definition check_id (id : Z) : M rr_sched unit :=
  nq ← gets m_nq; ensure (u32 id <? nq) (runtime_error "RRSCheduler::thread index out of range").

Definition rr_add_block (b : nat) : M rr_sched unit :=
  s ← gets id;
  ensure (negb (m_nq s =? 0)) (undefined_behaviour "division by zero");;
  modify (λ s, RRSched (u32 (m_last_id s + 1)) (m_nq s) (m_queues s));;
  ok ← on_queue (m_last_id s `mod` m_nq s) (push_back ring_slots b);
  ensure ok (runtime_error "RRScheduler:: task queue is full").

(** The inner loop of [remove_block]: true when the block was popped. *)
Fixpoint remove_in (size : nat) (b : nat) : M (ring nat) bool :=
  match size with
  | O => mret false
  | S size =>
      tmp ← pop_front ring_slots;
      match tmp with
      | None => throw (runtime_error "RRScheduler:: wrong size")
      | Some x =>
          if decide (x = b) then mret true
          else push_back ring_slots x;; remove_in size b
      end
  end.

Definition remove_from (b : nat) : M (ring nat) bool :=
  size ← gets (ring_size ring_slots); remove_in (Z.to_nat size) b.

(** [k] queues are left, from the [i]-th on. *)
Fixpoint remove_queues (k : nat) (i : Z) (b : nat) : M rr_sched unit :=
  match k with
  | O => throw (runtime_error "RRScheduler:: block to be removed was not found")
  | S k =>
      found ← on_queue i (remove_from b);
      if found : bool then mret tt else remove_queues k (i + 1) b
  end.

Definition rr_remove_block (b : nat) : M rr_sched unit :=
  s ← gets id; remove_queues (length (m_queues s)) 0 b.

Definition rr_next_task (id : Z) : M rr_sched (option nat) := check_id id;; on_queue id (pop_front ring_slots).

Definition rr_task_done (id : Z) (b : nat) : M rr_sched unit :=
  check_id id;;
  ok ← on_queue id (push_back ring_slots b);
  ensure ok (runtime_error "RRScheduler:: after taks execution task queue has become full").

(** The queues of the scheduler, then all their tasks. *)
Definition rr_queues (s : rr_sched) (ls : list (list nat)) : Prop := Forall2 (ring_rep ring_slots) (m_queues s) ls.
Definition rr_rep (s : rr_sched) (l : list nat) : Prop := ∃ ls, rr_queues s ls ∧ l = concat ls.

Lemma concat_insert (ls : list (list nat)) i l l' :
  ls !! i = Some l → concat (<[i := l']> ls) ≡ₚ l' ++ concat (delete i ls).
Proof.
  revert i. induction ls as [|l0 ls IH]; intros [|i]; [done..|by intros [= ->]|].
  cbn. intros E. rewrite (IH i E), !app_assoc, (Permutation_app_comm l0). done.
Qed.

Lemma concat_lookup (ls : list (list nat)) i l :
  ls !! i = Some l → concat ls ≡ₚ l ++ concat (delete i ls).
Proof. intros E. pose proof (concat_insert ls i l l E) as Hp. by rewrite list_insert_id in Hp. Qed.

(** Rotating a queue until the block is found. *)
Lemma remove_in_spec n b r l1 l2 :
  ring_rep ring_slots r (l1 ++ l2) → length l1 = n →
  ∃ r', remove_in n b r = (Ret (bool_decide (b ∈ l1)), r') ∧
    ring_rep ring_slots r'
      (if decide (b ∈ l1) then match list_find (eq b) l1 with
                               | Some (i, _) => drop (S i) l1 ++ l2 ++ take i l1 | None => [] end
       else l2 ++ l1).
Proof.
  revert r l1 l2. induction n as [|n IH]; intros r l1 l2 HR Hn.
  - destruct l1; [|done]. exists r. cbn [remove_in]. rewrite decide_False, bool_decide_false by apply not_elem_of_nil.
    by rewrite app_nil_r.
  - destruct l1 as [|x l1]; [done|]. cbn [remove_in].
    destruct (pop_front_spec ring_slots 5 ring_slots_pow ring_slots_small r (x :: l1 ++ l2) HR) as (r1 & E1 & R1).
    cbn [head tail] in E1, R1. rewrite (bind_Ret _ _ _ _ _ E1).
    destruct (decide (x = b)) as [->|Hne].
    + exists r1. rewrite bool_decide_true, decide_True by (by left). split; [done|]. cbn [list_find].
      rewrite decide_True by done. cbn. by rewrite drop_0, app_nil_r.
    + pose proof (push_back_spec ring_slots 5 ring_slots_pow ring_slots_small r1 (l1 ++ l2) x R1) as Hp.
      pose proof (rr_room _ _ _ HR) as Hroom. cbn [length app] in Hroom.
      rewrite decide_False in Hp by lia. destruct Hp as (r2 & E2 & R2).
      rewrite (bind_Ret _ _ _ _ _ E2). rewrite <- app_assoc in R2.
      destruct (IH r2 l1 (l2 ++ [x]) R2) as (r3 & E3 & R3); [cbn in Hn; lia|].
      exists r3. rewrite E3.
      assert (b ∈ x :: l1 ↔ b ∈ l1) as Hiff by (rewrite elem_of_cons; naive_solver).
      split; [by rewrite (bool_decide_ext _ _ Hiff)|].
      cbn [list_find]. rewrite (decide_False (P:=b = x)) by congruence.
      destruct (decide (b ∈ l1)) as [Hin|Hout].
      * rewrite decide_True by tauto. destruct (list_find (eq b) l1) as [[i y]|] eqn:Ef.
        -- cbn. by rewrite <- app_assoc in R3.
        -- apply list_find_None in Ef. rewrite Forall_forall in Ef. by apply Ef in Hin.
      * rewrite decide_False by tauto. by rewrite <- app_assoc in R3.
Qed.

(** What is taken out is one occurrence of the block. *)
Lemma remove_from_spec b r l :
  ring_rep ring_slots r l →
  ∃ r' l', remove_from b r = (Ret (bool_decide (b ∈ l)), r') ∧ ring_rep ring_slots r' l' ∧
    if decide (b ∈ l) then l ≡ₚ b :: l' else l' = l.
Proof.
  intros HR. unfold remove_from. unfold mbind, M_bind, gets. cbn beta iota.
  rewrite (ring_size_spec ring_slots 5 ring_slots_pow ring_slots_small r l HR), Nat2Z.id.
  destruct (remove_in_spec (length l) b r l []) as (r' & E & R'); [by rewrite app_nil_r|done|].
  eexists r', _. split; [exact E|]. split; [exact R'|].
  destruct (decide (b ∈ l)) as [Hin|Hout]; [|done].
  destruct (list_find (eq b) l) as [[i y]|] eqn:Ef.
  - apply list_find_Some in Ef as (Ei & <- & _). cbn [app].
    rewrite <- (take_drop_middle l i b Ei) at 1. rewrite (Permutation_app_comm (drop _ _)), Permutation_middle. done.
  - apply list_find_None in Ef. rewrite Forall_forall in Ef. by apply Ef in Hin.
Qed.

Lemma remove_queues_spec k i b s ls :
  rr_queues s ls → (Z.to_nat i + k = length ls)%nat → 0 ≤ i → b ∉ concat (take (Z.to_nat i) ls) →
  ∃ ls', rr_queues (remove_queues k i b s).2 ls' ∧
    if returns (remove_queues k i b s).1 then concat ls ≡ₚ b :: concat ls' else b ∉ concat ls ∧ ls' = ls.
Proof.
  revert i s ls. induction k as [|k IH]; intros i s ls HQ Hk Hi Hb; cbn [remove_queues].
  { exists ls. split; [done|]. cbn. split; [|done]. by rewrite take_ge in Hb by lia. }
  destruct (lookup_lt_is_Some_2 ls (Z.to_nat i)) as [l El]; [lia|].
  destruct (Forall2_lookup_r _ _ _ _ _ HQ El) as (r & Er & Hr).
  destruct (remove_from_spec b r l Hr) as (r' & l' & E & R' & Hl').
  assert (on_queue i (remove_from b) s =
    (Ret (bool_decide (b ∈ l)), RRSched (m_last_id s) (m_nq s) (<[Z.to_nat i := r']> (m_queues s)))) as Eq.
  { unfold on_queue. by rewrite Er, E. }
  rewrite (bind_Ret _ _ _ _ _ Eq). set (s1 := RRSched _ _ _).
  assert (rr_queues s1 (<[Z.to_nat i := l']> ls)) as Q1 by (by apply Forall2_insert).
  destruct (decide (b ∈ l)) as [Hin|Hout].
  - rewrite bool_decide_true by done. eexists. split; [exact Q1|]. cbn.
    by rewrite (concat_insert _ _ _ _ El), (concat_lookup _ _ _ El), Hl'.
  - subst l'. rewrite list_insert_id in Q1 by done. rewrite bool_decide_false by done.
    apply IH; [done|lia|lia|].
    replace (Z.to_nat (i + 1)) with (S (Z.to_nat i)) by lia. rewrite (take_S_r _ _ _ El), concat_app, elem_of_app.
    intros [?|Hx]; [done|]. cbn in Hx. by rewrite app_nil_r in Hx.
Qed.

Lemma on_queue_push i b s ls :
  rr_queues s ls →
  ∃ ls', rr_queues (on_queue i (push_back ring_slots b) s).2 ls' ∧
    concat ls' ≡ₚ match (on_queue i (push_back ring_slots b) s).1 with
                  | Ret true => b :: concat ls | _ => concat ls end.
Proof.
  intros HQ. unfold on_queue. destruct (m_queues s !! Z.to_nat i) as [r|] eqn:Er; [|by exists ls].
  destruct (Forall2_lookup_l _ _ _ _ _ HQ Er) as (l & El & Hr).
  pose proof (push_back_spec ring_slots 5 ring_slots_pow ring_slots_small r l b Hr) as Hp.
  destruct (decide _).
  - rewrite Hp. cbn. exists ls. by rewrite list_insert_id.
  - destruct Hp as (r' & -> & Hr'). cbn. exists (<[Z.to_nat i := l ++ [b]]> ls).
    split; [by apply Forall2_insert|].
    rewrite (concat_insert _ _ _ _ El), (concat_lookup _ _ _ El), <- app_assoc. cbn.
    by rewrite Permutation_middle.
Qed.

Lemma on_queue_pop i s ls :
  rr_queues s ls →
  ∃ ls', rr_queues (on_queue i (pop_front ring_slots) s).2 ls' ∧
    match (on_queue i (pop_front ring_slots) s).1 with
    | Ret (Some b) => concat ls ≡ₚ b :: concat ls' | _ => concat ls ≡ₚ concat ls' end.
Proof.
  intros HQ. unfold on_queue. destruct (m_queues s !! Z.to_nat i) as [r|] eqn:Er; [|by exists ls; split; [exact HQ|cbn; reflexivity]].
  destruct (Forall2_lookup_l _ _ _ _ _ HQ Er) as (l & El & Hr).
  destruct (pop_front_spec ring_slots 5 ring_slots_pow ring_slots_small r l Hr) as (r' & -> & Hr'). cbn.
  exists (<[Z.to_nat i := tail l]> ls). split; [by apply Forall2_insert|].
  destruct l as [|x l]; cbn [head tail] in *.
  - by rewrite (list_insert_id ls (Z.to_nat i) [] El).
  - by rewrite (concat_insert _ _ _ _ El), (concat_lookup _ _ _ El).
Qed.

Lemma check_id_state id s : (check_id id s).2 = s.
Proof. unfold check_id. run_m. by destruct (_ <? _). Qed.

(** [check_id] in front of an operation: either it throws and nothing
    changes, or the operation runs. *)
Lemma after_check {A} id (m : M rr_sched A) s :
  (∃ e, (check_id id;; m) s = (Throw e, s)) ∨ (check_id id;; m) s = m s.
Proof.
  pose proof (check_id_state id s) as E. unfold mbind, M_bind.
  destruct (check_id id s) as [[[]|e] s']; cbn in E; subst; [by right|left; eauto].
Qed.

Lemma perm_remove_all b (l l' : list nat) : NoDup l → l ≡ₚ b :: l' → l' ≡ₚ remove_all b l.
Proof.
  intros Hd Hp. assert (NoDup (b :: l')) as [Hb _]%NoDup_cons by (by rewrite <- Hp).
  unfold remove_all. rewrite Hp, filter_cons_False by naive_solver. by rewrite list_filter_all by
    (apply Forall_forall; intros x Hx ->; done).
Qed.

#[export, refine] Instance rr_scheduler : TaskScheduler rr_sched := {|
  sched_new := rr_sched_new;
  register_thread := check_id;
  add_block := rr_add_block;
  remove_block := rr_remove_block;
  next_task := rr_next_task;
  task_done := rr_task_done;
  sched_rep := rr_rep
|}.
Proof.
  - intros s l i. by rewrite check_id_state.
  - intros s l b (ls & HQ & ->). unfold rr_add_block. run_m.
    destruct (m_nq s =? 0); cbn [negb]; [eexists; split; [by exists ls|done]|].
    set (s1 := RRSched _ _ _).
    destruct (on_queue_push (m_last_id s `mod` m_nq s) b s1 ls HQ) as (ls' & Q' & Hp).
    destruct (on_queue _ _ s1) as [[[]|e] s2]; cbn in *; eexists; (split; [by exists ls'|done]).
  - intros s l b (ls & HQ & ->) Hd. unfold rr_remove_block. run_m.
    pose proof (Forall2_length _ _ _ HQ) as Hlen.
    destruct (remove_queues_spec (length (m_queues s)) 0 b s ls HQ) as (ls' & Q' & Hr);
      [by rewrite Hlen|done|by apply not_elem_of_nil|].
    exists (concat ls'). split; [by exists ls'|].
    destruct (returns _); [by apply perm_remove_all|by destruct Hr as [_ ->]].
  - intros s l i (ls & HQ & ->). unfold rr_next_task.
    destruct (after_check i (on_queue i (pop_front ring_slots)) s) as [[e Ec]|Ec]; rewrite Ec; clear Ec.
    + exists (concat ls). split; [by exists ls|cbn; reflexivity].
    + destruct (on_queue_pop i s ls HQ) as (ls' & Q' & Hp). exists (concat ls'). by split; [exists ls'|].
  - intros s l i b (ls & HQ & ->). unfold rr_task_done.
    match goal with |- context [(check_id i;; ?m) s] => destruct (after_check i m s) as [[e Ec]|Ec]; rewrite Ec; clear Ec end.
    + exists (concat ls). split; [by exists ls|cbn; reflexivity].
    + destruct (on_queue_push i b s ls HQ) as (ls' & Q' & Hp). unfold mbind, M_bind.
      destruct (on_queue _ _ s) as [[[]|e] s2]; cbn in *; exists (concat ls'); (split; [by exists ls'|done]).
Defined.

(** ** The threads of a pool ([ThreadHandler::operator()]) *)

Section workers.
Context {Sch : Type} `{TaskScheduler Sch}.

(** [torun] of each thread while its block runs; [lost] is a ghost list of the
    blocks that were not returned. *)
Record workers := Workers { w_sched : Sch; torun : gmap nat nat; lost : list nat }.

(** One step of a thread: it takes a task, or finds none; the block's [run]
    returns and the block goes back, or it throws, which [catch (...)]
    swallows, and the block is dropped at the next [torun = next_task(m_id)]. *)
Inductive worker_step : workers → workers → Prop :=
| step_take s h ls i b s' :
    h !! i = None → next_task (Z.of_nat i) s = (Ret (Some b), s') →
    worker_step (Workers s h ls) (Workers s' (<[i := b]> h) ls)
| step_idle s h ls i r s' :
    h !! i = None → next_task (Z.of_nat i) s = (r, s') → (∀ b, r ≠ Ret (Some b)) →
    worker_step (Workers s h ls) (Workers s' h ls)
| step_done s h ls i b s' :
    h !! i = Some b → task_done (Z.of_nat i) b s = (Ret tt, s') →
    worker_step (Workers s h ls) (Workers s' (delete i h) ls)
| step_refused s h ls i b e s' :
    h !! i = Some b → task_done (Z.of_nat i) b s = (Throw e, s') →
    worker_step (Workers s h ls) (Workers s' (delete i h) (b :: ls))
| step_throws s h ls i b :
    h !! i = Some b → worker_step (Workers s h ls) (Workers s (delete i h) (b :: ls)).

Definition running_blocks (h : gmap nat nat) : list nat := (map_to_list h).*2.

(** Waiting, running and lost blocks are the blocks of the pool. *)
Definition conserved (l : list nat) (w : workers) : Prop :=
  ∃ q, sched_rep (w_sched w) q ∧ q ++ running_blocks (torun w) ++ lost w ≡ₚ l.

Lemma running_insert h i b :
  h !! i = None → running_blocks (<[i := b]> h) ≡ₚ b :: running_blocks h.
Proof. intros E. unfold running_blocks. by rewrite map_to_list_insert. Qed.

Lemma running_delete h i b :
  h !! i = Some b → running_blocks h ≡ₚ b :: running_blocks (delete i h).
Proof. intros E. unfold running_blocks. by rewrite <- (map_to_list_delete h i b E). Qed.

Lemma worker_step_conserved l w w' : worker_step w w' → conserved l w → conserved l w'.
Proof.
  intros Hs (q & Hq & Hl). destruct Hs as
    [s h ls i b s' Ei E|s h ls i r s' Ei E Hr|s h ls i b s' Ei E|s h ls i b e s' Ei E|s h ls i b Ei];
    cbn [w_sched torun lost] in *.
  - destruct (sched_next_rep s q (Z.of_nat i) Hq) as (q' & Hq' & Hp). rewrite E in Hq', Hp. cbn in Hq', Hp.
    exists q'. split; [done|]. cbn. rewrite <- Hl, Hp, running_insert by done. cbn. symmetry. apply Permutation_middle.
  - destruct (sched_next_rep s q (Z.of_nat i) Hq) as (q' & Hq' & Hp). rewrite E in Hq', Hp. cbn in Hq', Hp.
    exists q'. split; [done|]. cbn. rewrite <- Hl.
    assert (q ≡ₚ q') as -> by (destruct r as [[b|]|]; [by destruct (Hr b eq_refl)|exact Hp|exact Hp]).
    reflexivity.
  - destruct (sched_done_rep s q (Z.of_nat i) b Hq) as (q' & Hq' & Hp). rewrite E in Hq', Hp. cbn in Hq', Hp.
    exists q'. split; [done|]. cbn. rewrite <- Hl, Hp, (running_delete h i b Ei). cbn. apply Permutation_middle.
  - destruct (sched_done_rep s q (Z.of_nat i) b Hq) as (q' & Hq' & Hp). rewrite E in Hq', Hp. cbn in Hq', Hp.
    exists q'. split; [done|]. cbn. rewrite <- Hl, Hp, (running_delete h i b Ei). cbn.
    apply Permutation_app_head. symmetry. apply Permutation_middle.
  - exists q. split; [done|]. cbn. rewrite <- Hl, (running_delete h i b Ei). cbn.
    apply Permutation_app_head. symmetry. apply Permutation_middle.
Qed.

Lemma workers_conserved l w w' : rtc worker_step w w' → conserved l w → conserved l w'.
Proof. induction 1; eauto using worker_step_conserved. Qed.

Lemma lost_stays w w' : rtc worker_step w w' → ∀ b, b ∈ lost w → b ∈ lost w'.
Proof.
  induction 1 as [|w1 w2 w3 Hs _ IH]; [done|]. intros b Hb. apply IH.
  destruct Hs; cbn in *; try done; by right.
Qed.

Lemma conserved_exclusive l w i j b :
  conserved l w → NoDup l → torun w !! i = Some b → torun w !! j = Some b → i = j.
Proof.
  intros (q & _ & Hp) Hd Ei Ej. destruct (decide (i = j)) as [|Hne]; [done|exfalso].
  rewrite <- Hp, (running_delete _ i b Ei) in Hd.
  rewrite (running_delete _ j b) in Hd by (by rewrite lookup_delete_ne).
  apply NoDup_app in Hd as (_ & _ & Hd). cbn in Hd. apply NoDup_cons in Hd as [Hn _]. apply Hn. by left.
Qed.
End workers.
Arguments workers : clear implicits.
Arguments Workers {Sch} _ _ _.

(** ** Starting and stopping a thread ([ThreadHandler::run], [stop]) *)

(** Where the thread is: not created, before [m_stop.store(false)], in its
    loop, or past the last store; where the caller of [stop] is. *)
Inductive thread_pc := NotCreated | Created | Looping | Exited.
Inductive caller_pc := Idle | Joining | Joined.

Record handler := Handler { h_stop : bool; h_thread : thread_pc; h_caller : caller_pc }.

(** [ThreadHandler(sched, id)] *)
Definition handler_new : handler := Handler true NotCreated Idle.

Inductive handler_step : handler → handler → Prop :=
| h_run st c : handler_step (Handler st NotCreated c) (Handler st Created c)
| h_enter st c : handler_step (Handler st Created c) (Handler false Looping c)
| h_iterate c : handler_step (Handler false Looping c) (Handler false Looping c)
| h_leave c : handler_step (Handler true Looping c) (Handler true Exited c)
| h_stop_call st t : t ≠ NotCreated → handler_step (Handler st t Idle) (Handler true t Joining)
| h_join st : handler_step (Handler st Exited Joining) (Handler st Exited Joined).

(** The caller waits and the thread runs with [m_stop] false. *)
Lemma looping_stays h h' :
  rtc handler_step h h' → h = Handler false Looping Joining → h' = Handler false Looping Joining.
Proof.
  induction 1 as [|h1 h2 h3 Hs _ IH]; [done|]. intros ->. apply IH. by inversion Hs.
Qed.

(** ** [ThreadPool] *)

Section pools.
Context {Sch : Type} `{TaskScheduler Sch}.

Record thread_pool := ThreadPool {
  tp_scheduler : Sch;
  tp_affinity : list Z;
  tp_running : bool;
  tp_threadnum : Z;
  tp_started : list bool
}.

Definition thread_pool_new (tnum : Z) (affinity : list Z) : thread_pool :=
  ThreadPool (sched_new tnum) affinity false tnum (replicate (Z.to_nat tnum) false).

Definition on_sched {A} (m : M Sch A) : M thread_pool A :=
  zoom tp_scheduler (λ s p, ThreadPool s (tp_affinity p) (tp_running p) (tp_threadnum p) (tp_started p)) m.
Definition pool_set_running (b : bool) : M thread_pool unit :=
  modify (λ p, ThreadPool (tp_scheduler p) (tp_affinity p) b (tp_threadnum p) (tp_started p)).
Definition set_started (i : nat) (b : bool) : M thread_pool unit :=
  modify (λ p, ThreadPool (tp_scheduler p) (tp_affinity p) (tp_running p) (tp_threadnum p) (<[i := b]> (tp_started p))).

Definition add_task (b : nat) : M thread_pool unit :=
  r ← gets tp_running;
  ensure (negb r) (runtime_error "cannot add task when thread pool is already running");;
  on_sched (add_block b).

Definition remove_task (b : nat) : M thread_pool unit :=
  r ← gets tp_running;
  ensure (negb r) (runtime_error "cannot remove task when thread pool is already running");;
  on_sched (remove_block b).

(** [ThreadHandler::run]: [CPU_SETSIZE] itself passes the test. *)
Definition CPU_SETSIZE : Z := 1024.
Definition thread_run (i : nat) : M thread_pool unit :=
  aff ← gets tp_affinity;
  ensure (forallb (λ a, negb (CPU_SETSIZE <? a)) aff)
    (runtime_error "affinity value higher than maximum allowed");;
  on_sched (register_thread (Z.of_nat i));;
  set_started i true.

Fixpoint for_threads (f : nat → M thread_pool unit) (ids : list nat) : M thread_pool unit :=
  match ids with [] => mret tt | i :: ids => f i;; for_threads f ids end.

Definition pool_run : M thread_pool unit :=
  r ← gets tp_running;
  ensure (negb r) (runtime_error "thread pool il already running");;
  n ← gets (λ p, length (tp_started p));
  for_threads thread_run (seq 0 n);;
  pool_set_running true.

Definition pool_stop : M thread_pool unit :=
  r ← gets tp_running;
  ensure r (runtime_error "thread pool is not running");;
  n ← gets (λ p, length (tp_started p));
  for_threads (λ i, set_started i false) (seq 0 n);;
  pool_set_running false.

(** ** [PoolManager] *)

Record pool_manager := PoolManager { pm_map : std_map thread_pool; pm_running : bool }.

Definition pool_manager_new : pool_manager := PoolManager [] false.

Definition pm_set_running (b : bool) : M pool_manager unit := modify (λ m, PoolManager (pm_map m) b).
Definition pm_set (name : string) (p : thread_pool) : M pool_manager unit :=
  modify (λ m, PoolManager (map_assign name p (pm_map m)) (pm_running m)).

(** An operation on the pool of a name. *)
Definition on_pool {A} (name : string) (missing : exn) (op : M thread_pool A) : M pool_manager A := λ m,
  match map_find name (pm_map m) with
  | None => (Throw missing, m)
  | Some p => let '(r, p') := op p in (r, PoolManager (map_assign name p' (pm_map m)) (pm_running m))
  end.

(** [create_pool]: [as_int] is the attribute's conversion, [scan_uint] what
    [sscanf] with [%u] reads. *)
Fixpoint parse_cores {N} `{XmlNode N} (scan_uint : string → option Z) (nodes : list N) (affinity : list Z)
    : outcome (list Z) :=
  match nodes with
  | [] => Ret affinity
  | t :: nodes =>
      let corenum := default 0xffffffff (scan_uint (default EmptyString (attribute t "number"))) in
      if corenum =? 0xffffffff then Throw (runtime_error "cannot parse core number")
      else parse_cores scan_uint nodes (affinity ++ [corenum])
  end.

Definition create_pool {N} `{XmlNode N} (as_int : option string → Z) (scan_uint : string → option Z) (n : N)
    : M pool_manager unit :=
  let name := default EmptyString (attribute n "id") in
  let nthreads := as_int (attribute n "num_threads") in
  ensure (negb (bool_decide (name = EmptyString) || (nthreads =? 0)))
    (runtime_error "could not parse thread pool paramters");;
  match parse_cores scan_uint (children n "core") [] with
  | Throw e => throw e
  | Ret affinity =>
      m ← gets pm_map;
      match map_find name m with
      | Some _ => throw (runtime_error (name ++ " : thread pool already exists"))
      | None => pm_set name (thread_pool_new nthreads affinity)
      end
  end.

Definition no_pool (name : string) : exn := runtime_error (name ++ " : thread pool does noe exist").
Definition add_to_pool (name : string) (b : nat) : M pool_manager unit := on_pool name (no_pool name) (add_task b).
Definition remove_from_pool (name : string) (b : nat) : M pool_manager unit :=
  on_pool name (no_pool name) (remove_task b).
Definition delete_pool (name : string) : M pool_manager unit :=
  modify (λ m, PoolManager (map_erase name (pm_map m)) (pm_running m)).

Fixpoint for_pools (op : M thread_pool unit) (names : list string) : M pool_manager unit :=
  match names with
  | [] => mret tt
  | name :: names => on_pool name (no_pool name) op;; for_pools op names
  end.

(** [start], [stop]: the pools in the order of their names. *)
Definition pm_start : M pool_manager unit :=
  pm_set_running true;; names ← gets (λ m, (pm_map m).*1); for_pools pool_run names.
Definition pm_stop : M pool_manager unit :=
  pm_set_running false;; names ← gets (λ m, (pm_map m).*1); for_pools pool_stop names.
End pools.
Arguments thread_pool : clear implicits.
Arguments pool_manager : clear implicits.

(** ** Properties *)

(** C6: whatever the threads of a pool do, and with either scheduler, no block
    is run by two threads at once, and every block of the pool is waiting,
    running or, after its [run] threw or was refused, lost. *)
Theorem workers_exclusive {Sch} `{TaskScheduler Sch} (s : Sch) l w :
  sched_rep s l → NoDup l → rtc worker_step (Workers s ∅ []) w →
  (∀ i j b, torun w !! i = Some b → torun w !! j = Some b → i = j) ∧
  ∃ q, sched_rep (w_sched w) q ∧ q ++ running_blocks (torun w) ++ lost w ≡ₚ l.
Proof.
  intros Hs Hd Hrun.
  assert (conserved l w) as Hc.
  { eapply workers_conserved; [done|]. exists l. split; [done|]. cbn. by rewrite app_nil_r. }
  split; [|done]. intros i j b. by apply (conserved_exclusive l).
Qed.

Lemma rr_demo_rep : sched_rep (add_block 9 (add_block 8 (rr_sched_new 2)).2).2 [8; 9]%nat.
Proof.
  exists [[8]; [9]]%nat. split; [|done].
  pose proof (push_back_spec ring_slots 5 ring_slots_pow ring_slots_small (ring_new ring_slots) ([] : list nat)) as Hp.
  destruct (Hp 8%nat) as (r1 & E1 & R1); [by apply (shared_ring_new_rep ring_slots 5 ring_slots_pow)|].
  destruct (Hp 9%nat) as (r2 & E2 & R2); [by apply (shared_ring_new_rep ring_slots 5 ring_slots_pow)|].
  injection E1 as <-. injection E2 as <-. constructor; [exact R1|]. constructor; [exact R2|]. constructor.
Qed.

Lemma workers_exclusive_witness :
  let w := Workers (next_task 0 (add_block 9 (add_block 8 (rr_sched_new 2)).2).2).2 {[ 0%nat := 8%nat ]} [] in
  (∀ i j b, torun w !! i = Some b → torun w !! j = Some b → i = j) ∧
  ∃ q, sched_rep (w_sched w) q ∧ q ++ running_blocks (torun w) ++ lost w ≡ₚ [8; 9]%nat.
Proof.
  apply (workers_exclusive (add_block 9 (add_block 8 (rr_sched_new 2)).2).2 [8; 9]%nat).
  - exact rr_demo_rep.
  - repeat constructor; set_solver.
  - apply rtc_once, (step_take _ ∅ [] 0); reflexivity.
Defined.

(** A block whose [run] threw once is never run again, whatever the threads
    do afterwards. *)
Theorem throwing_block_is_lost {Sch} `{TaskScheduler Sch} (s : Sch) l w w' i b :
  sched_rep s l → NoDup l → rtc worker_step (Workers s ∅ []) w → torun w !! i = Some b →
  rtc worker_step (Workers (w_sched w) (delete i (torun w)) (b :: lost w)) w' →
  ∀ j, torun w' !! j ≠ Some b.
Proof.
  intros Hs Hd Hrun Eb Hrun' j Ej.
  assert (conserved l (Workers s ∅ [])) as H0 by (exists l; split; [done|]; cbn; by rewrite app_nil_r).
  pose proof (workers_conserved l _ _ Hrun H0) as H1. destruct w as [s1 h1 ls1]. cbn in *.
  pose proof (worker_step_conserved l _ _ (step_throws s1 h1 ls1 i b Eb) H1) as H2.
  pose proof (workers_conserved l _ _ Hrun' H2) as (q & _ & Hp).
  assert (b ∈ lost w') as Hb by (apply (lost_stays _ _ Hrun'); by left).
  rewrite <- Hp in Hd. apply NoDup_app in Hd as (_ & _ & Hd). apply NoDup_app in Hd as (_ & Hd & _).
  apply (Hd b); [|done]. rewrite (running_delete _ j b Ej). by left.
Qed.

Lemma throwing_block_is_lost_witness :
  torun (Workers (Sch:=dumb) [9]%nat {[ 0%nat := 8%nat ]} []) !! 0%nat = Some 8%nat ∧
  ∀ j, torun (Workers (Sch:=dumb) [9]%nat ∅ [8]%nat) !! j ≠ Some 8%nat.
Proof.
  split; [reflexivity|]. apply (throwing_block_is_lost (Sch:=dumb) [8; 9]%nat [8; 9]%nat (Workers [9]%nat {[ 0%nat := 8%nat ]} []) _ 0 8).
  - reflexivity.
  - repeat constructor; set_solver.
  - apply rtc_once, (step_take _ ∅ [] 0); reflexivity.
  - reflexivity.
  - cbn [w_sched torun lost]. rewrite delete_singleton_eq. apply rtc_refl.
Defined.

(** [stop] called before the new thread has cleared [m_stop] is lost: there
    is a run after which the thread loops and the caller waits in [join], and
    from there no step changes that. *)
Theorem early_stop_is_lost :
  ∃ h, rtc handler_step handler_new h ∧ h_caller h = Joining ∧
    ∀ h', rtc handler_step h h' → h_caller h' = Joining ∧ h_thread h' = Looping.
Proof.
  exists (Handler false Looping Joining). split_and!.
  - eapply rtc_l; [apply h_run|]. eapply rtc_l; [by apply h_stop_call|]. eapply rtc_l; [apply h_enter|]. apply rtc_refl.
  - done.
  - intros h' Hr. by rewrite (looping_stays _ _ Hr eq_refl).
Qed.
