(* ===== verification/Composition.v ===== *)
(** * Compositions: blocks, links and their installation

    Models [core/composition/Composition.hpp], [Composition.cpp],
    [CompositionManager.hpp], [BlockFactory.hpp] and the generic factory of
    [lib/external/factory/Factory.hpp].  A block is known by its address in the
    world of [Block]; what a block type adds (its constructor, which registers
    the gates, and its virtual methods) is a [block_class].  An object's
    destruction is not modelled: addresses are not used again. *)

From S2P Require Export Timers.
From S2P Require Export Block Scheduler.

(** ** The factory *)

Section factory.
Context {K B : Type} `{EqDecision K}.

(** An allocator per key; [std::map::insert] does not replace. *)
Definition factory : Type := list (K * B).
Definition fac_find (k : K) (f : factory) : option B := snd <$> List.find (λ e, bool_decide (e.1 = k)) f.
Definition regist (k : K) (alloc : B) : M factory bool := λ f,
  match fac_find k f with Some _ => (Ret false, f) | None => (Ret true, (k, alloc) :: f) end.
Definition unregist (k : K) : M factory bool := λ f,
  (Ret (bool_decide (is_Some (fac_find k f))), filter (λ e, e.1 ≠ k) f).
Definition is_registered (k : K) (f : factory) : bool := bool_decide (is_Some (fac_find k f)).
End factory.

Section composition.
Context {N Q St Msg Tm Sch : Type} {HN : XmlNode N} {HGQ : GateQueue Msg Q} {HSch : TaskScheduler Sch}.
Notation bworld := (Block.world Q St Msg Tm).

(** What a subclass of [Block] is made of. *)
Record block_class := BlockClass {
  c_construct : nat → string → invocation_type → M bworld unit;
  c_configure : nat → option N → M bworld unit;
  c_synchronize : bool;
  c_initialize : nat → M bworld unit
}.

(** The map of one composition, and what all compositions share: the blocks,
    the thread pools and the next free address. *)
Record env := Env {
  m_map : std_map (nat * block_class);
  e_world : bworld;
  e_pools : pool_manager Sch;
  e_next : nat
}.

Definition in_world {A} (m : M bworld A) : M env A :=
  zoom e_world (λ w e, Env (m_map e) w (e_pools e) (e_next e)) m.
Definition in_pools {A} (m : M (pool_manager Sch) A) : M env A :=
  zoom e_pools (λ p e, Env (m_map e) (e_world e) p (e_next e)) m.

(** [find_output_gate], [find_input_gate] *)
Definition find_output_gate (from_block from_gate : string) : M env gate :=
  m ← gets m_map;
  match map_find from_block m with
  | None => throw (runtime_error ("Cannot create connection from block '" ++ from_block ++ "': no such block."))
  | Some (b, _) => in_world (get_output_gate b from_gate)
  end.
Definition find_input_gate (to_block to_gate : string) : M env gate :=
  m ← gets m_map;
  match map_find to_block m with
  | None => throw (runtime_error ("Cannot create connection to block '" ++ to_block ++ "': no such block."))
  | Some (b, _) => in_world (get_input_gate b to_gate)
  end.

(** [create_link], [delete_link] *)
Definition create_link (from_block from_gate to_block to_gate : string) : M env unit :=
  from ← find_output_gate from_block from_gate;
  to ← find_input_gate to_block to_gate;
  in_world (on_net (link from to)).
Definition delete_link (from_block from_gate to_block to_gate : string) : M env unit :=
  from ← find_output_gate from_block from_gate;
  to ← find_input_gate to_block to_gate;
  in_world (on_net (unlink from to)).

(** The build option and the conversions of attributes, as in [Block] and
    [Scheduler], and the registered block types. *)
Context (blocking : bool) (as_int : option string → Z) (scan_uint : string → option Z)
  (the_factory : factory (K:=string) (B:=block_class)).

(** [create_block_from_parsed]: an existing name is taken over. *)
Definition create_block_from_parsed (type name : string) (invocation : invocation_type) (blocknode : N) : M env unit :=
  match fac_find type the_factory with
  | None => throw (runtime_error (type ++ ": block type not supported"))
  | Some c =>
      b ← gets e_next;
      modify (λ e, Env (m_map e) (e_world e) (e_pools e) (S (e_next e)));;
      in_world (c_construct c b name invocation);;
      in_world (configure blocking as_int blocknode b (c_configure c b) (c_synchronize c));;
      modify (λ e, Env (map_assign name (b, c) (m_map e)) (e_world e) (e_pools e) (e_next e))
  end.

(** [create_block]: [parsed] is the document the string was parsed to. *)
Definition create_block (name type : string) (invocation : invocation_type) (parsed : option N) : M env unit :=
  match parsed with
  | None => throw (runtime_error "Composition::create_block: cannot parse config info")
  | Some doc =>
      match child doc "block" with
      | None => throw (runtime_error "Composition: cannot find block node")
      | Some block => create_block_from_parsed type name invocation block
      end
  end.

Definition delete_block (name : string) : M env unit :=
  m ← gets m_map;
  ensure (bool_decide (is_Some (map_find name m))) (runtime_error "Composition:: trying to delete non-existing block");;
  modify (λ e, Env (map_erase name (m_map e)) (e_world e) (e_pools e) (e_next e)).

Definition get_block_of (name : string) : M env nat :=
  m ← gets m_map;
  match map_find name m with
  | None => throw (runtime_error ("Composition:: requested non-existing block '" ++ name ++ "'"))
  | Some (b, _) => mret b
  end.

(** [initialize]: the blocks in the order of their names. *)
Fixpoint initialize_all (bs : list (nat * block_class)) : M env unit :=
  match bs with
  | [] => mret tt
  | (b, c) :: bs => in_world (c_initialize c b);; initialize_all bs
  end.
Definition initialize : M env unit := m ← gets m_map; initialize_all (map_values m).

(** ** [install] *)

Definition attr (n : N) (a : string) : string := default EmptyString (attribute n a).

(** The invocation type of a block node.  The two [runtime_error]s for an
    unknown value are built and not thrown. *)
Definition parse_invocation (blocknode : N) : invocation_type :=
  let sched_type := attr blocknode "sched_type" in
  let invocation :=
    if bool_decide (sched_type = EmptyString) then Direct
    else if bool_decide (sched_type = "active"%string) then Indirect else Direct in
  let invocation_str := attr blocknode "invocation" in
  if bool_decide (invocation_str = EmptyString) then invocation
  else if bool_decide (invocation_str = "direct"%string) then Direct
  else if bool_decide (invocation_str = "indirect"%string) then Indirect
  else if bool_decide (invocation_str = "async"%string) then Async
  else invocation.

Definition install_block (blocknode : N) : M env unit :=
  let name := attr blocknode "id" in
  let type := attr blocknode "type" in
  ensure (negb (bool_decide (name = EmptyString) || bool_decide (type = EmptyString)))
    (runtime_error "block name or type missing");;
  let threadpool := attr blocknode "threadpool" in
  let invocation := parse_invocation blocknode in
  create_block_from_parsed type name invocation blocknode;;
  if bool_decide (invocation = Direct) then mret tt
  else
    ensure (negb (bool_decide (threadpool = EmptyString)))
      (runtime_error "need a threadpool for active/async invocation");;
    b ← get_block_of name;
    in_pools (add_to_pool threadpool b).

Definition install_connection (link : N) : M env unit :=
  let from_block := attr link "src_block" in
  ensure (negb (bool_decide (from_block = EmptyString))) (runtime_error "missing begin block in connection");;
  let from_gate := attr link "src_gate" in
  ensure (negb (bool_decide (from_gate = EmptyString))) (runtime_error "missing begin gate in connection");;
  let to_block := attr link "dst_block" in
  ensure (negb (bool_decide (to_block = EmptyString))) (runtime_error "missing dst block in connection");;
  let to_gate := attr link "dst_gate" in
  ensure (negb (bool_decide (to_gate = EmptyString))) (runtime_error "missing begin gate in connection");;
  create_link from_block from_gate to_block to_gate.

Fixpoint for_nodes (f : N → M env unit) (nodes : list N) : M env unit :=
  match nodes with
  | [] => mret tt
  | n :: nodes => f n;; for_nodes f nodes
  end.

Definition install (config : N) : M env unit :=
  for_nodes install_block (children config "block");;
  for_nodes install_connection (children config "connection");;
  initialize.

(** ** [CompositionManager] *)

Record composition := Composition { m_composition_id : string; c_map : std_map (nat * block_class) }.

Definition composition_new (a : string) : composition := Composition a [].

Record manager := Manager {
  m_config_map : std_map composition;
  g_world : bworld;
  g_pools : pool_manager Sch;
  g_next : nat;
  g_clock : clock_source_t
}.

Definition set_config_map (f : std_map composition → std_map composition) : M manager unit :=
  modify (λ g, Manager (f (m_config_map g)) (g_world g) (g_pools g) (g_next g) (g_clock g)).

(** An operation on the composition of a name. *)
Definition on_composition {A} (name : string) (missing : exn) (op : M env A) : M manager A := λ g,
  match map_find name (m_config_map g) with
  | None => (Throw missing, g)
  | Some c =>
      let '(r, e) := op (Env (c_map c) (g_world g) (g_pools g) (g_next g)) in
      (r, Manager (map_assign name (Composition (m_composition_id c) (m_map e)) (m_config_map g))
            (e_world e) (e_pools e) (e_next e) (g_clock g))
  end.

Definition delete_composition (name : string) : M manager unit :=
  m ← gets m_config_map;
  ensure (bool_decide (is_Some (map_find name m))) (runtime_error (name ++ " : composition does not exist"));;
  set_config_map (map_erase name).

Definition add_composition (name : string) : M manager unit :=
  m ← gets m_config_map;
  ensure (bool_decide (map_find name m = None)) (runtime_error (name ++ " : composition already exists"));;
  set_config_map (map_add name (composition_new name)).

Definition not_found : exn := runtime_error "CompositionManager:: composition not found".
Definition init_composition (composition_id : string) : M manager unit :=
  on_composition composition_id not_found initialize.

Definition get_composition (composition_id : string) : M manager composition :=
  m ← gets m_config_map;
  match map_find composition_id m with None => throw not_found | Some c => mret c end.

Definition select_clock_type (clocktype : string) : M manager unit :=
  let set c := modify (λ g, Manager (m_config_map g) (g_world g) (g_pools g) (g_next g) c) in
  if bool_decide (clocktype = "wall"%string) || bool_decide (clocktype = "WALL"%string) then set WALL
  else if bool_decide (clocktype = "packet"%string) || bool_decide (clocktype = "PACKET"%string) then set PACKET
  else throw (runtime_error ("init: Clock type '" ++ clocktype ++ "' is invalid")).

Definition in_g_pools {A} (m : M (pool_manager Sch) A) : M manager A :=
  zoom g_pools (λ p g, Manager (m_config_map g) (g_world g) p (g_next g) (g_clock g)) m.

Fixpoint create_pools (nodes : list N) : M manager unit :=
  match nodes with
  | [] => mret tt
  | p :: nodes => in_g_pools (create_pool as_int scan_uint p);; create_pools nodes
  end.

Definition need {A} (o : option A) (msg : string) : M manager A :=
  match o with Some a => mret a | None => throw (runtime_error msg) end.

(** [add_config_from_file]; [doc] is the document that was loaded. *)
Definition add_config_from_file (doc : option N) : M manager unit :=
  doc ← need doc "init: parse error";
  config ← need (child doc "composition") "composition node not found";
  let composition_id := attr config "id" in
  let app_id := attr config "app_id" in
  general ← need (child config "general") "init: No <general> tag found in composition XML";
  clock ← need (child general "clock") "init: No <clock> tag found within <general> tag in composition XML";
  clocktype ← need (attribute clock "type") "init: No 'type' attribute within <clock> tag found";
  select_clock_type clocktype;;
  inst ← need (child config "install") " only installation is allowed through this entry point";
  create_pools (children inst "threadpool");;
  m ← gets m_config_map;
  ensure (bool_decide (map_find composition_id m = None))
    (runtime_error (composition_id ++ " : composition already exists"));;
  set_config_map (map_add composition_id (composition_new app_id));;
  on_composition composition_id not_found (install inst).

(** ** Installing makes exactly the configured links *)

Notation lnet e := (w_net (e_world e)).

(** Every gate was registered by its block. *)
Definition tidy (w : bworld) : Prop :=
  (∀ b id, is_Some (in_gates (w_net w) !! (b, id)) → ∃ x, w_blocks w !! b = Some x ∧ (id < b_last_in_id x)%nat) ∧
  (∀ b id, is_Some (out_gates (w_net w) !! (b, id)) → ∃ x, w_blocks w !! b = Some x ∧ (id < b_last_out_id x)%nat).

(** A block type's method adds no link and no other block: it only registers
    gates, which have no peers yet. *)
Definition benign (pre : bworld → Prop) (b : nat) (m : M bworld unit) : Prop := ∀ w,
  tidy w → pre w →
  tidy (m w).2 ∧ (∀ L, links_rep (w_net w) L → links_rep (w_net (m w).2) L) ∧
  ∀ b', b' ≠ b → w_blocks w !! b' = None → w_blocks (m w).2 !! b' = None.

Definition any (w : bworld) : Prop := True.

Definition class_ok (c : block_class) : Prop :=
  (∀ b name i, benign (λ w, w_blocks w !! b = None) b (c_construct c b name i)) ∧
  (∀ b n, benign any b (c_configure c b n)) ∧ (∀ b, benign any b (c_initialize c b)).

Hypothesis factory_ok : ∀ type c, fac_find type the_factory = Some c → class_ok c.

(** The map holds classes of the factory, and new addresses are free. *)
Record known (e : env) : Prop := {
  known_class : Forall (λ x, class_ok x.2.2) (m_map e);
  known_tidy : tidy (e_world e);
  known_free b : (e_next e ≤ b)%nat → w_blocks (e_world e) !! b = None
}.

(** The ends of a connection node among the blocks of [e]. *)
Definition out_end (e : env) (block g : string) : option gate :=
  '(b, _) ← map_find block (m_map e); x ← w_blocks (e_world e) !! b; pair b <$> b_output_ids x !! g.
Definition in_end (e : env) (block g : string) : option gate :=
  '(b, _) ← map_find block (m_map e); x ← w_blocks (e_world e) !! b; pair b <$> b_input_ids x !! g.
Definition connects (e : env) (n : N) (l : gate * gate) : Prop :=
  out_end e (attr n "src_block") (attr n "src_gate") = Some l.1 ∧
  in_end e (attr n "dst_block") (attr n "dst_gate") = Some l.2.

Lemma ensure_Ret {S} b (x : exn) (s s' : S) : ensure b x s = (Ret tt, s') → b = true ∧ s' = s.
Proof. unfold ensure. run_m. destruct b; [|done]. by intros [= <-]. Qed.

Lemma find_output_gate_Ret e block g o e' :
  find_output_gate block g e = (Ret o, e') → e' = e ∧ out_end e block g = Some o.
Proof.
  unfold find_output_gate, out_end, in_world, get_output_gate, get_block. run_m.
  destruct (map_find block (m_map e)) as [[b c]|]; [|done].
  destruct e as [mm [nn bb ll] pp xx]; cbn. destruct (bb !! b) as [x|]; [|done].
  cbn. destruct (b_output_ids x !! g) as [id|]; [|done]. by intros [= <- <-].
Qed.

Lemma find_input_gate_Ret e block g o e' :
  find_input_gate block g e = (Ret o, e') → e' = e ∧ in_end e block g = Some o.
Proof.
  unfold find_input_gate, in_end, in_world, get_input_gate, get_block. run_m.
  destruct (map_find block (m_map e)) as [[b c]|]; [|done].
  destruct e as [mm [nn bb ll] pp xx]; cbn. destruct (bb !! b) as [x|]; [|done].
  cbn. destruct (b_input_ids x !! g) as [id|]; [|done]. by intros [= <- <-].
Qed.

Lemma install_connection_Ret n e e' L :
  install_connection n e = (Ret tt, e') → links_rep (lnet e) L →
  ∃ l, connects e n l ∧ links_rep (lnet e') (L ++ [l]) ∧ m_map e' = m_map e ∧
    w_blocks (e_world e') = w_blocks (e_world e) ∧ (tidy (e_world e) → tidy (e_world e')).
Proof.
  unfold install_connection. intros HR HL.
  do 4 (apply bind_inv_Ret in HR as ([] & ? & [_ ->]%ensure_Ret & HR)). unfold create_link in HR.
  apply bind_inv_Ret in HR as (o & e1 & [-> Ho]%find_output_gate_Ret & HR).
  apply bind_inv_Ret in HR as (i & e2 & [-> Hi]%find_input_gate_Ret & HR).
  exists (o, i). split; [done|]. unfold in_world, on_net, zoom in HR.
  destruct e as [mm [nn bb ll] pp xx]. cbn in *.
  destruct (link o i nn) as [[[]|] nn'] eqn:El; [|done]. injection HR as <-. cbn. split_and!; [|done..|].
  { by apply (run_link_rep (CreateLink o i) nn L nn'). }
  rewrite link_spec in El. destruct (in_gates nn !! i), (out_gates nn !! o); try done. injection El as <-.
  intros [T1 T2]. split; intros b id; cbn [w_net set_peers set_peers_out in_gates out_gates]; rewrite is_Some_alter;
    [apply T1|apply T2].
Qed.

Lemma connects_same e e' n l :
  m_map e' = m_map e → w_blocks (e_world e') = w_blocks (e_world e) → connects e' n l → connects e n l.
Proof. intros E1 E2. unfold connects, out_end, in_end. by rewrite E1, E2. Qed.

Lemma install_connections_Ret ns e e' L :
  for_nodes install_connection ns e = (Ret tt, e') → links_rep (lnet e) L →
  ∃ ls, Forall2 (connects e) ns ls ∧ links_rep (lnet e') (L ++ ls) ∧ m_map e' = m_map e ∧
    (tidy (e_world e) → tidy (e_world e')).
Proof.
  revert e L. induction ns as [|n ns IH]; intros e L HR HL; cbn [for_nodes] in HR.
  - injection HR as <-. exists []. rewrite app_nil_r. by split_and!.
  - apply bind_inv_Ret in HR as ([] & e1 & E1 & HR).
    destruct (install_connection_Ret n e e1 L E1 HL) as (l & Hc & H1 & Em & Eb & T1).
    destruct (IH e1 (L ++ [l]) HR H1) as (ls & Hf & H2 & Em2 & T2).
    exists (l :: ls). split_and!; [|by rewrite <- app_assoc in H2|congruence|auto].
    constructor; [done|]. eapply Forall2_impl; [done|]. intros x y. by apply connects_same.
Qed.

Lemma in_world_map {A} (m : M bworld A) e : m_map (in_world m e).2 = m_map e.
Proof. unfold in_world, zoom. by destruct (m (e_world e)). Qed.

Lemma in_world_rest {A} (m : M bworld A) e :
  e_world (in_world m e).2 = (m (e_world e)).2 ∧ e_next (in_world m e).2 = e_next e.
Proof. unfold in_world, zoom. by destruct (m (e_world e)). Qed.

Lemma benign_bind b (m : M bworld unit) (k : unit → M bworld unit) :
  benign any b m → (∀ u, benign any b (k u)) → benign any b (m ≫= k).
Proof.
  intros Hm Hk w HT _. unfold mbind, M_bind. destruct (Hm w HT I) as (T1 & L1 & B1).
  destruct (m w) as [[u|e] w']; [|done]. cbn in *. destruct (Hk u w' T1 I) as (T2 & L2 & B2).
  split_and!; [done|auto|]. intros b' Hne Hn. by apply B2, B1.
Qed.

Lemma benign_nothing b (m : M bworld unit) : (∀ w, (m w).2 = w) → benign any b m.
Proof. intros Hm w HT _. by rewrite Hm. Qed.

(** Changes of a block that keep the count of its gates. *)
Lemma benign_change b f :
  (∀ x, b_last_in_id (f x) = b_last_in_id x ∧ b_last_out_id (f x) = b_last_out_id x) →
  benign any b (change_block b f).
Proof.
  intros Hf w [T1 T2] _.
  assert (∀ b' x, w_blocks w !! b' = Some x → ∃ y, alter f b (w_blocks w) !! b' = Some y ∧
    b_last_in_id y = b_last_in_id x ∧ b_last_out_id y = b_last_out_id x) as Hl.
  { intros b' x E. destruct (decide (b = b')) as [->|Hne].
    - rewrite lookup_alter_eq, E. exists (f x). split; [done|apply Hf].
    - rewrite lookup_alter_ne by done. by exists x. }
  split_and!; [|done|].
  - split; intros b' id Hs; [destruct (T1 b' id Hs) as (x & E & Hx)|destruct (T2 b' id Hs) as (x & E & Hx)];
      destruct (Hl b' x E) as (y & Ey & E1 & E2); exists y; (split; [exact Ey|lia]).
  - intros b' Hne Hn. cbn. by rewrite lookup_alter_ne.
Qed.

(** A gate that is not there can be added without peers. *)
Lemma new_in_gate_links (n : net Q) i L :
  in_gates n !! i = None → links_rep n L → links_rep (in_gate_new i n).2 L.
Proof.
  intros Hn (Hi & Ho & Hex). unfold in_gate_new. run_m. cbn [snd]. split_and!.
  - intros i'. rewrite <- Hi. unfold peers_in. cbn [in_gates]. destruct (decide (i = i')) as [->|Hne].
    + by rewrite lookup_insert_eq, Hn.
    + by rewrite lookup_insert_ne.
  - exact Ho.
  - intros o i' Hin. destruct (Hex o i' Hin) as [H1 H2]. split; [|done]. cbn [in_gates].
    destruct (decide (i = i')) as [->|Hne]; [by rewrite lookup_insert_eq|by rewrite lookup_insert_ne].
Qed.

Lemma new_out_gate_links (n : net Q) o L :
  out_gates n !! o = None → links_rep n L → links_rep (out_gate_new o n).2 L.
Proof.
  intros Hn (Hi & Ho & Hex). unfold out_gate_new. run_m. cbn [snd]. split_and!.
  - exact Hi.
  - intros o'. rewrite <- Ho. unfold peers_out. cbn [out_gates]. destruct (decide (o = o')) as [->|Hne].
    + by rewrite lookup_insert_eq, Hn.
    + by rewrite lookup_insert_ne.
  - intros o' i Hin. destruct (Hex o' i Hin) as [H1 H2]. split; [done|]. cbn [out_gates].
    destruct (decide (o = o')) as [->|Hne]; [by rewrite lookup_insert_eq|by rewrite lookup_insert_ne].
Qed.

(** A step of [register_input_gate] or [register_output_gate]. *)
Lemma register_benign b (m : M bworld nat) (k : nat → M bworld unit) :
  (∀ w, tidy w → tidy (m w).2 ∧ (∀ L, links_rep (w_net w) L → links_rep (w_net (m w).2) L) ∧
     ∀ b', b' ≠ b → w_blocks w !! b' = None → w_blocks (m w).2 !! b' = None) →
  (∀ id, benign any b (k id)) → benign any b (m ≫= k).
Proof.
  intros Hm Hk w HT _. unfold mbind, M_bind. destruct (Hm w HT) as (T1 & L1 & B1).
  destruct (m w) as [[u|e] w']; [|done]. cbn in *. destruct (Hk u w' T1 I) as (T2 & L2 & B2).
  split_and!; [done|auto|]. intros b' Hne Hn. by apply B2, B1.
Qed.

Lemma alter_some_or {A} (f : A → A) (m : gmap nat A) b b' y :
  alter f b m !! b' = Some y → (b' = b ∧ ∃ x, m !! b = Some x ∧ y = f x) ∨ (b' ≠ b ∧ m !! b' = Some y).
Proof.
  destruct (decide (b = b')) as [->|Hne].
  - rewrite lookup_alter_eq. destruct (m !! b') as [x|]; [|done]. intros [= <-]. left. eauto.
  - rewrite lookup_alter_ne by done. auto.
Qed.

Lemma register_input_gate_eq b name (w : bworld) :
  register_input_gate b name w =
  match w_blocks w !! b with
  | None => (Throw destroyed, w)
  | Some x => (Ret (b_last_in_id x),
      World (in_gate_new (b, b_last_in_id x) (w_net w)).2
        (alter (set_inputs (insert_new name (b_last_in_id x) (b_input_ids x)) (S (b_last_in_id x))) b (w_blocks w))
        (w_log w))
  end.
Proof. unfold register_input_gate, Block.get_block. run_m. by destruct (w_blocks w !! b). Qed.

Lemma register_output_gate_eq b name (w : bworld) :
  register_output_gate b name w =
  match w_blocks w !! b with
  | None => (Throw destroyed, w)
  | Some x => (Ret (b_last_out_id x),
      World (out_gate_new (b, b_last_out_id x) (w_net w)).2
        (alter (set_outputs (insert_new name (b_last_out_id x) (b_output_ids x)) (S (b_last_out_id x))) b (w_blocks w))
        (w_log w))
  end.
Proof. unfold register_output_gate, Block.get_block. run_m. by destruct (w_blocks w !! b). Qed.

Lemma register_input_benign b name (k : nat → M bworld unit) :
  (∀ id, benign any b (k id)) → benign any b (register_input_gate b name ≫= k).
Proof.
  apply register_benign. intros w HT. rewrite register_input_gate_eq.
  destruct (w_blocks w !! b) as [x|] eqn:Ex; [|by split_and!]. cbn [snd w_net w_blocks].
  assert (in_gates (w_net w) !! (b, b_last_in_id x) = None) as Hn.
  { destruct (in_gates (w_net w) !! _) eqn:E; [|done]. destruct HT as [T1 _].
    destruct (T1 b (b_last_in_id x)) as (y & Ey & Hy); [by rewrite E|]. rewrite Ex in Ey. injection Ey as <-. lia. }
  split_and!.
  - destruct HT as [T1 T2]. split; intros b' id Hs; cbn in Hs |- *.
    + destruct (decide ((b, b_last_in_id x) = (b', id))) as [[= <- <-]|Hne].
      * rewrite lookup_alter_eq, Ex. eexists. split; [done|]. cbn. lia.
      * rewrite lookup_insert_ne in Hs by done. destruct (T1 b' id Hs) as (y & Ey & Hy).
        destruct (decide (b = b')) as [<-|Hb]; [|rewrite lookup_alter_ne by done; eauto].
        rewrite lookup_alter_eq, Ey. rewrite Ex in Ey. injection Ey as <-. eexists. split; [done|]. cbn. lia.
    + destruct (T2 b' id Hs) as (y & Ey & Hy).
      destruct (decide (b = b')) as [<-|Hb]; [|rewrite lookup_alter_ne by done; eauto].
      rewrite lookup_alter_eq, Ey. eexists. split; [done|]. done.
  - intros L HL. by apply (new_in_gate_links (w_net w)).
  - intros b' Hne Hb. cbn. by rewrite lookup_alter_ne.
Qed.

Lemma register_output_benign b name (k : nat → M bworld unit) :
  (∀ id, benign any b (k id)) → benign any b (register_output_gate b name ≫= k).
Proof.
  apply register_benign. intros w HT. rewrite register_output_gate_eq.
  destruct (w_blocks w !! b) as [x|] eqn:Ex; [|by split_and!]. cbn [snd w_net w_blocks].
  assert (out_gates (w_net w) !! (b, b_last_out_id x) = None) as Hn.
  { destruct (out_gates (w_net w) !! _) eqn:E; [|done]. destruct HT as [_ T2].
    destruct (T2 b (b_last_out_id x)) as (y & Ey & Hy); [by rewrite E|]. rewrite Ex in Ey. injection Ey as <-. lia. }
  split_and!.
  - destruct HT as [T1 T2]. split; intros b' id Hs; cbn in Hs |- *.
    + destruct (T1 b' id Hs) as (y & Ey & Hy).
      destruct (decide (b = b')) as [<-|Hb]; [|rewrite lookup_alter_ne by done; eauto].
      rewrite lookup_alter_eq, Ey. eexists. split; [done|]. done.
    + destruct (decide ((b, b_last_out_id x) = (b', id))) as [[= <- <-]|Hne].
      * rewrite lookup_alter_eq, Ex. eexists. split; [done|]. cbn. lia.
      * rewrite lookup_insert_ne in Hs by done. destruct (T2 b' id Hs) as (y & Ey & Hy).
        destruct (decide (b = b')) as [<-|Hb]; [|rewrite lookup_alter_ne by done; eauto].
        rewrite lookup_alter_eq, Ey. rewrite Ex in Ey. injection Ey as <-. eexists. split; [done|]. cbn. lia.
  - intros L HL. by apply (new_out_gate_links (w_net w)).
  - intros b' Hne Hb. cbn. by rewrite lookup_alter_ne.
Qed.

(** A constructor: the block appears, then its gates are registered. *)
Lemma construct_benign b x (m : M bworld unit) :
  benign any b m →
  benign (λ w, w_blocks w !! b = None) b (modify (with_blocks (<[b := x]>));; m).
Proof.
  intros Hm w [T1 T2] Hn. unfold mbind, M_bind, modify.
  set (w1 := with_blocks _ w).
  assert (∀ b' y, w_blocks w !! b' = Some y → w_blocks w1 !! b' = Some y) as Hk.
  { intros b' y E. cbn. rewrite lookup_insert_ne; [done|]. intros <-. by rewrite Hn in E. }
  destruct (Hm w1) as (T & L & B); [|done|].
  { split; intros b' id Hs; [destruct (T1 b' id Hs) as (y & E & Hy)|destruct (T2 b' id Hs) as (y & E & Hy)];
      eauto. }
  split_and!; [done|done|]. intros b' Hne Hb. apply B; [done|]. cbn. by rewrite lookup_insert_ne.
Qed.

Lemma configure_benign node b cfg sync :
  benign any b (cfg (child node "params")) → benign any b (configure blocking as_int node b cfg sync).
Proof.
  intros Hc. unfold configure.
  assert (∀ t, benign any b (change_block b (set_queue_type t))) as Hq by (intros t; by apply benign_change).
  assert (∀ (bb : bool) e, benign any b (ensure bb e)) as Hen by (intros [] e; by apply benign_nothing).
  assert (benign any b (mret tt)) as Hr by (by apply benign_nothing).
  assert (∀ (k : Block.block St Msg Tm → M bworld unit),
    (∀ x, benign any b (k x)) → benign any b (Block.get_block b ≫= k)) as Hg.
  { intros k Hk w HT Hp. unfold mbind, M_bind, Block.get_block.
    destruct (w_blocks w !! b) as [x|]; [by apply Hk|by split_and!]. }
  apply Hg. intros x. apply benign_bind; [|intros _; apply benign_bind; [done|intros _; by apply benign_change]].
  destruct blocking; [|done]. destruct (attribute node "blocking_mode") as [mode|].
  - destruct (bool_decide _); [done|]. unfold blocking_mode.
    repeat (destruct (bool_decide _); [first [apply Hq|apply benign_bind; [apply Hq|intros _; apply Hen]]|]).
    by apply benign_nothing.
  - destruct (bool_decide _); [apply Hq|done].
Qed.

Lemma in_world_benign pre b (m : M bworld unit) e e' L :
  in_world m e = (Ret tt, e') → benign pre b m → known e → pre (e_world e) → (b < e_next e)%nat →
  links_rep (lnet e) L → known e' ∧ links_rep (lnet e') L ∧ e_next e' = e_next e ∧ m_map e' = m_map e.
Proof.
  intros E Hm [K1 K2 K3] Hp Hb HL.
  pose proof (in_world_rest m e) as [Ew En]. pose proof (in_world_map m e) as Em. rewrite E in Ew, En, Em. cbn in *.
  destruct (Hm _ K2 Hp) as (T & HL' & B). rewrite <- Ew in T, HL', B. split_and!; try done; [|by apply HL'].
  split; [by rewrite Em|done|]. intros b' Hb'. apply B; [lia|]. apply K3. lia.
Qed.

Lemma create_block_net type name i n e L e' :
  create_block_from_parsed type name i n e = (Ret tt, e') → known e → links_rep (lnet e) L →
  known e' ∧ links_rep (lnet e') L.
Proof.
  unfold create_block_from_parsed. destruct (fac_find type the_factory) as [c|] eqn:Ec; [|done].
  intros HR HK HL. destruct (factory_ok type c Ec) as (H1 & H2 & H3).
  apply bind_inv_Ret in HR as (b & ? & [= <- <-] & HR).
  apply bind_inv_Ret in HR as ([] & e1 & [= <-] & HR).
  apply bind_inv_Ret in HR as ([] & e2 & E2 & HR). apply bind_inv_Ret in HR as ([] & e3 & E3 & HR).
  injection HR as <-.
  set (e0 := Env _ _ _ _) in E2.
  assert (known e0) as K0.
  { destruct HK as [K1 KT KF]. split; [done|done|]. intros b' Hb'. apply KF. cbn in Hb'. lia. }
  destruct (in_world_benign _ _ _ _ _ L E2 (H1 _ _ _) K0) as (K2 & L2 & N2 & M2); [by apply HK|cbn; lia|exact HL|].
  destruct (in_world_benign any _ _ _ _ L E3 (configure_benign _ _ _ _ (H2 _ _)) K2) as (K3 & L3 & N3 & M3);
    [done|rewrite N2; cbn; lia|exact L2|].
  split; [|exact L3]. destruct K3 as [K31 K32 K33]. split; [|done|done].
  by apply Forall_map_assign.
Qed.

Lemma install_block_net n e L e' :
  install_block n e = (Ret tt, e') → known e → links_rep (lnet e) L → known e' ∧ links_rep (lnet e') L.
Proof.
  unfold install_block. intros HR HK HL.
  apply bind_inv_Ret in HR as ([] & ? & [_ ->]%ensure_Ret & HR).
  apply bind_inv_Ret in HR as ([] & e1 & E1 & HR).
  destruct (create_block_net _ _ _ _ _ _ _ E1 HK HL) as [K1 L1].
  destruct (bool_decide _); [by injection HR as <-|].
  apply bind_inv_Ret in HR as ([] & ? & [_ ->]%ensure_Ret & HR).
  apply bind_inv_Ret in HR as (b & e2 & E2 & HR).
  assert (e2 = e1) as ->.
  { unfold get_block_of in E2. unfold mbind, M_bind, gets in E2. cbn beta iota in E2.
    destruct (map_find _ (m_map e1)) as [[b' c']|]; [by injection E2|done]. }
  unfold in_pools, zoom in HR. destruct (add_to_pool _ b (e_pools e1)) as [r p]. injection HR as _ <-.
  split; [|exact L1]. destruct K1. by split.
Qed.

Lemma install_blocks_net ns e L e' :
  for_nodes install_block ns e = (Ret tt, e') → known e → links_rep (lnet e) L → known e' ∧ links_rep (lnet e') L.
Proof.
  revert e. induction ns as [|n ns IH]; intros e HR HK HL; cbn [for_nodes] in HR; [by injection HR as <-|].
  apply bind_inv_Ret in HR as ([] & e1 & E1 & HR).
  destruct (install_block_net _ _ _ _ E1 HK HL) as [K1 L1]. by eapply IH.
Qed.

Lemma initialize_all_net bs e L :
  (∀ b c, (b, c) ∈ bs → class_ok c) → tidy (e_world e) → links_rep (lnet e) L →
  links_rep (lnet (initialize_all bs e).2) L.
Proof.
  revert e. induction bs as [|[b c] bs IH]; intros e Hc HT HL; cbn [initialize_all]; [done|].
  destruct (Hc b c) as (_ & _ & Hi); [by left|]. destruct (Hi b (e_world e) HT I) as (T1 & L1 & _).
  destruct (in_world_rest (c_initialize c b) e) as [Ew _]. rewrite <- Ew in T1, L1.
  unfold mbind, M_bind. destruct (in_world _ e) as [[[]|x] e1]; cbn [snd] in *; [|by apply L1].
  apply IH; [|done|by apply L1]. intros b' c' Hin. apply (Hc b' c'). by right.
Qed.
End composition.

(** ** Properties *)

(** C2: when [install] succeeds on a composition without links, the links of
    the gates are exactly the connections of the configuration, in its order,
    between the gates that the configured block and gate names denote once the
    blocks are made. *)
Theorem install_makes_links {N Q St Msg Tm Sch} {HN : XmlNode N} {HGQ : GateQueue Msg Q} {HSch : TaskScheduler Sch}
    blocking as_int (fac : factory (K:=string) (B:=block_class (N:=N) (Q:=Q) (St:=St) (Msg:=Msg) (Tm:=Tm)))
    (config : N) (e e' : env (Sch:=Sch)) :
  (∀ type c, fac_find type fac = Some c → class_ok c) → known e → links_rep (w_net (e_world e)) [] →
  install blocking as_int fac config e = (Ret tt, e') →
  ∃ e1 ls, for_nodes (install_block blocking as_int fac) (children config "block") e = (Ret tt, e1) ∧
    Forall2 (connects e1) (children config "connection") ls ∧ links_rep (w_net (e_world e')) ls.
Proof.
  intros Hf HK HL HR. unfold install in HR.
  apply bind_inv_Ret in HR as ([] & e1 & E1 & HR). apply bind_inv_Ret in HR as ([] & e2 & E2 & HR).
  destruct (install_blocks_net blocking as_int fac Hf _ _ _ _ E1 HK HL) as [K1 L1].
  destruct (install_connections_Ret _ _ _ _ E2 L1) as (ls & Hc & L2 & Em & T2).
  exists e1, ls. split_and!; [done|done|].
  pose proof (f_equal snd HR) as Ee. cbn [snd] in Ee. rewrite <- Ee. unfold initialize.
  apply (initialize_all_net (map_values (m_map e2)) e2 ls); [|apply T2, K1|exact L2].
  intros b c Hin. rewrite Em in Hin. unfold map_values in Hin.
  apply list_elem_of_fmap in Hin as ([name [b' c']] & [= -> ->] & Hin).
  pose proof (known_class _ K1) as Hall. rewrite Forall_forall in Hall. apply (Hall _ Hin).
Qed.

(** A relay: one input, one output, nothing else. *)
Definition relay : block_class (N:=xml) (Q:=dbq (Msg:=nat)) (St:=unit) (Msg:=nat) (Tm:=unit) :=
  BlockClass
    (λ b name i, modify (with_blocks (<[b := block_new name i default_logic tt]>));;
       register_input_gate b "in";; register_output_gate b "out";; mret tt)
    (λ _ _, mret tt) true (λ _, mret tt).

Lemma relay_ok : class_ok relay.
Proof.
  split_and!.
  - intros b name i. apply construct_benign, register_input_benign. intros _. apply register_output_benign.
    intros _. by apply benign_nothing.
  - intros b n. by apply benign_nothing.
  - intros b. by apply benign_nothing.
Qed.

Definition demo_factory : factory (K:=string) (B:=block_class (N:=xml) (Q:=dbq (Msg:=nat)) (St:=unit) (Msg:=nat) (Tm:=unit)) :=
  [("Relay"%string, relay)].

Definition demo_config : xml :=
  Elem "install" []
    [Elem "block" [("id", "a"); ("type", "Relay"); ("invocation", "direct")]%string [];
     Elem "block" [("id", "b"); ("type", "Relay"); ("invocation", "direct")]%string [];
     Elem "connection" [("src_block", "a"); ("src_gate", "out"); ("dst_block", "b"); ("dst_gate", "in")]%string []].

Definition empty_env : env (N:=xml) (Q:=dbq (Msg:=nat)) (St:=unit) (Msg:=nat) (Tm:=unit) (Sch:=dumb) :=
  Env [] (World (Net ∅ ∅) ∅ []) pool_manager_new 0.

Definition no_int (_ : option string) : Z := 0.

Lemma install_makes_links_witness :
  ∃ e1 ls, for_nodes (install_block false no_int demo_factory) (children demo_config "block") empty_env = (Ret tt, e1) ∧
    Forall2 (connects e1) (children demo_config "connection") ls ∧
    links_rep (w_net (e_world (install false no_int demo_factory demo_config empty_env).2)) ls.
Proof.
  apply (install_makes_links false no_int demo_factory demo_config empty_env).
  - intros type c E. unfold demo_factory, fac_find in E. cbn in E.
    destruct (bool_decide _); [injection E as <-; exact relay_ok|discriminate].
  - split; [constructor| |done]. split; intros b id [x E]; discriminate E.
  - split_and!; [done|done|]. intros o i Hin. by apply not_elem_of_nil in Hin.
  - assert ((install false no_int demo_factory demo_config empty_env).1 = Ret tt) as E by (vm_compute; reflexivity).
    destruct (install _ _ _ _ _) as [r e']. cbn in E. by subst.
Defined.

(** A block node whose [invocation] attribute is misspelt is installed with
    direct invocation (without the old attribute): the error for it is built
    and not thrown. *)
Theorem misspelt_invocation_is_direct {N} {HN : XmlNode N} (n : N) s :
  attribute n "invocation" = Some s → s ≠ "direct"%string → s ≠ "indirect"%string → s ≠ "async"%string →
  attribute n "sched_type" = None → parse_invocation n = Direct.
Proof.
  intros Ei H1 H2 H3 Es. unfold parse_invocation, attr. rewrite Ei, Es. cbn [default from_option].
  rewrite (bool_decide_false (s = "direct"%string)), (bool_decide_false (s = "indirect"%string)),
    (bool_decide_false (s = "async"%string)) by done.
  cbn [id]. by destruct (bool_decide (s = "")).
Qed.

Lemma misspelt_invocation_is_direct_witness :
  parse_invocation (Elem "block" [("id", "a"); ("invocation", "Indirect")]%string []) = Direct.
Proof. by apply (misspelt_invocation_is_direct _ "Indirect"). Defined.
