(* ===== verification/StatMsg.v ===== *)
(** * Messages of the anomaly detection application

    Models [messages/TicketMsg.hpp], [TicketMsg.cpp], [HistoMsg.hpp], [HistoMsg.cpp],
    [ADResultMsg.hpp], [ADResultMsg.cpp], [ADAnomalMsg.hpp] and [ADAnomalMsg.cpp]: the
    records the blocks of [usr/app_Stat_AD] exchange, their setters, copies and texts.

    How a stream prints a [double] is an argument; a [float] is the result of
    rounding a double to binary32.  A member the constructor does not set holds
    whatever the memory held. *)

From stdpp Require Export pretty.
From S2P Require Export Double StdMap.

(** ** Texts *)

Definition tab : string := String (Ascii.ascii_of_nat 9) "".
Definition newline : string := String (Ascii.ascii_of_nat 10) "".

(** [ss << x] for the elements of a list. *)
Definition texts {A} (f : A → string) (l : list A) : string := foldr (λ x s, f x +:+ s) "" l.

(** ** [TicketMsg] *)

Record ticket := Ticket { t_timestamp : Z; t_userID : Z; t_featurePairs : std_map Z }.

Definition ticket_new (timestamp userID : Z) : ticket := Ticket timestamp userID [].
Definition add_feature (featureID : string) (featureVal : Z) (t : ticket) : ticket :=
  Ticket (t_timestamp t) (t_userID t) (map_add featureID featureVal (t_featurePairs t)).
Definition set_features (fs : std_map Z) (t : ticket) : ticket := Ticket (t_timestamp t) (t_userID t) fs.
Definition ticket_set_timestamp (timestamp : Z) (t : ticket) : ticket := Ticket timestamp (t_userID t) (t_featurePairs t).
Definition set_userID (userID : Z) (t : ticket) : ticket := Ticket (t_timestamp t) userID (t_featurePairs t).
Definition clear_features (t : ticket) : ticket := set_features [] t.
Definition get_extracted_features (t : ticket) : Z := u32 (Z.of_nat (length (t_featurePairs t))).
Definition ticket_clone (t : ticket) : ticket := set_features (t_featurePairs t) (ticket_new (t_timestamp t) (t_userID t)).

(** The bytes of the address from the last in memory to the first. *)
Definition ip_to_string (ip : Z) : string :=
  match le_bytes 4 ip with
  | [b0; b1; b2; b3] => pretty b3 +:+ "." +:+ pretty b2 +:+ "." +:+ pretty b1 +:+ "." +:+ pretty b0
  | _ => ""
  end.

Definition ticket_to_string (t : ticket) : string :=
  "Ticket timestamp: " +:+ pretty (t_timestamp t) +:+ " ; User ID: " +:+ ip_to_string (t_userID t) +:+
  " ; Number of extracted features: " +:+ pretty (s32 (Z.of_nat (length (t_featurePairs t)))) +:+ newline +:+
  texts (λ e, "Feat ID: " +:+ e.1 +:+ " => Feat Val: " +:+ pretty e.2 +:+ newline) (t_featurePairs t).

Definition ticket_to_string_file (t : ticket) : string :=
  pretty (t_timestamp t) +:+ tab +:+ ip_to_string (t_userID t) +:+ tab +:+ pretty (t_userID t) +:+ tab +:+
  pretty (s32 (Z.of_nat (length (t_featurePairs t)))) +:+ tab +:+
  texts (λ e, e.1 +:+ tab +:+ pretty e.2 +:+ tab) (t_featurePairs t) +:+ newline.

Definition ticket_to_string_qoe (t : ticket) : string :=
  pretty (t_timestamp t) +:+ tab +:+ pretty (t_userID t) +:+ texts (λ x, tab +:+ x)
    ["000"; "000"; "000"; "000"; "1"; "000"; "000"; "000"; "fake_apn"; "2"; "000"; "0"; "65535"; "0"; ""] +:+
  texts (λ e, pretty e.2 +:+ texts (λ x, tab +:+ x) ["0"; "0"; "0"; "0"; "0"; "0"; "0"; "0"; "0"] +:+ newline)
    (t_featurePairs t).

(** ** [HistoMsg] *)

Record histo := Histo {
  h_timestamp : Z; h_featureID : string; h_nr_unique_users : Z; h_histogram : list Z; h_total_value : Z
}.

(** [junk] is what the memory of [m_total_value] held. *)
Definition histo_new (timestamp : Z) (featID : string) (junk : Z) : histo := Histo timestamp featID 0 [] junk.
Definition histo_set_timestamp (x : Z) (h : histo) : histo :=
  Histo x (h_featureID h) (h_nr_unique_users h) (h_histogram h) (h_total_value h).
Definition histo_set_featureID (x : string) (h : histo) : histo :=
  Histo (h_timestamp h) x (h_nr_unique_users h) (h_histogram h) (h_total_value h).
Definition histo_set_unique_users (x : Z) (h : histo) : histo :=
  Histo (h_timestamp h) (h_featureID h) x (h_histogram h) (h_total_value h).
Definition set_histogram (x : list Z) (h : histo) : histo :=
  Histo (h_timestamp h) (h_featureID h) (h_nr_unique_users h) x (h_total_value h).
Definition histo_set_total_value (x : Z) (h : histo) : histo :=
  Histo (h_timestamp h) (h_featureID h) (h_nr_unique_users h) (h_histogram h) x.
Definition clear_histogram (h : histo) : histo := set_histogram [] h.

(** [insert] before position [index]: past the end the behaviour is undefined. *)
Definition add_element (index : nat) (h : histo) : outcome histo :=
  if (index <=? length (h_histogram h))%nat
  then Ret (set_histogram (take index (h_histogram h) ++ 1 :: drop index (h_histogram h)) h)
  else Throw (undefined_behaviour "add_element").

Definition histo_clone (junk : Z) (h : histo) : histo :=
  histo_set_total_value (h_total_value h) (set_histogram (h_histogram h)
    (histo_set_unique_users (h_nr_unique_users h) (histo_new (h_timestamp h) (h_featureID h) junk))).

Definition histo_to_string (h : histo) : string :=
  "Histo timestamp: " +:+ pretty (h_timestamp h) +:+ " ; Feature ID: " +:+ h_featureID h +:+
  " ; Number of unique users: " +:+ pretty (h_nr_unique_users h) +:+ " ; Total value: " +:+ pretty (h_total_value h) +:+
  newline +:+ "Histogram: " +:+ texts (λ x, pretty x +:+ " ") (h_histogram h) +:+ newline.

Definition histo_to_string_file (h : histo) : string :=
  pretty (h_timestamp h) +:+ tab +:+ h_featureID h +:+ tab +:+ pretty (h_nr_unique_users h) +:+ tab +:+
  pretty (h_total_value h) +:+ tab +:+ texts (λ x, pretty x +:+ ";") (h_histogram h) +:+ newline.

(** ** [ADResultMsg] *)

(** [(float) x]: binary32, as a double. *)
Definition to_float (x : double) : double :=
  match x with S754_finite s m e => binary_normalize 24 128 (cond_Zopp s (Zpos m)) e s | _ => x end.

Record ad_result := ADResult {
  r_timestamp : Z; r_timescale : Z; r_featureID : string; r_nr_unique_users : Z; r_total_value : Z; r_CCDF_size : Z;
  r_CCDF : list double; r_phase : bool; r_AR_LB : double; r_AR_UB : double; r_ID_mean : double; r_ED_mean : double;
  r_Anomaly_code : Z
}.

Definition ad_result_new (timestamp timescale : Z) (featID : string) : ad_result :=
  ADResult timestamp timescale featID 0 0 0 [] true dzero dzero dzero dzero 255.

(** The setters the detection block calls, in the order of its calls. *)
Definition ad_result_fill (users total size : Z) (CCDF : list double) (phase : bool) (arlb arub idm edm : double)
    (code : Z) (r : ad_result) : ad_result :=
  ADResult (r_timestamp r) (r_timescale r) (r_featureID r) users total (u16 size) CCDF phase
    (to_float arlb) (to_float arub) (to_float idm) (to_float edm) (u16 code).

Definition ad_result_clear_CCDF (r : ad_result) : ad_result :=
  ADResult (r_timestamp r) (r_timescale r) (r_featureID r) (r_nr_unique_users r) (r_total_value r) (r_CCDF_size r) []
    (r_phase r) (r_AR_LB r) (r_AR_UB r) (r_ID_mean r) (r_ED_mean r) (r_Anomaly_code r).

Definition ad_result_clone (r : ad_result) : ad_result :=
  let c := ad_result_new (r_timestamp r) (r_timescale r) (r_featureID r) in
  ADResult (r_timestamp c) (r_timescale c) (r_featureID c) (r_nr_unique_users r) (r_total_value r) (r_CCDF_size r)
    (r_CCDF r) (r_phase r) (r_AR_LB r) (r_AR_UB r) (r_ID_mean r) (r_ED_mean r) (r_Anomaly_code r).

Definition phase_name (phase : bool) : string := if phase then "Learning" else "Detection".

Section texts_of_doubles.
Context (show : double → string).

Definition ad_result_to_string_file (r : ad_result) : string :=
  pretty (r_timestamp r) +:+ tab +:+ pretty (r_timescale r) +:+ tab +:+ r_featureID r +:+ tab +:+
  pretty (r_nr_unique_users r) +:+ tab +:+ pretty (r_total_value r) +:+ tab +:+ pretty (r_CCDF_size r) +:+ tab +:+
  texts (λ x, show x +:+ ";") (r_CCDF r) +:+ tab +:+ phase_name (r_phase r) +:+ tab +:+ show (r_AR_LB r) +:+ tab +:+
  show (r_AR_UB r) +:+ tab +:+ show (r_ID_mean r) +:+ tab +:+ show (r_ED_mean r) +:+ tab +:+
  pretty (r_Anomaly_code r) +:+ newline.

Definition ad_result_to_string (r : ad_result) : string :=
  "CCDF timestamp: " +:+ pretty (r_timestamp r) +:+ " ; Timescale: " +:+ pretty (r_timescale r) +:+
  " ; Feature ID: " +:+ r_featureID r +:+ " ; Number of unique users: " +:+ pretty (r_nr_unique_users r) +:+
  " ; Total value: " +:+ pretty (r_total_value r) +:+ " ; CCDF_size: " +:+ pretty (r_CCDF_size r) +:+ newline +:+
  "CCDF:" +:+ newline +:+ texts (λ x, show x +:+ " ") (r_CCDF r) +:+ newline +:+
  "phase: " +:+ phase_name (r_phase r) +:+ " ; Acceptance Region Lower Bound: " +:+ show (r_AR_LB r) +:+
  " ; Acceptance Region Upper Bound: " +:+ show (r_AR_UB r) +:+ " ; Internal Dispersion Mean: " +:+ show (r_ID_mean r) +:+
  " ; External Dispersion Mean: " +:+ show (r_ED_mean r) +:+ " ; Anomaly code: " +:+ pretty (r_Anomaly_code r) +:+ newline.

(** ** [ADAnomalMsg] *)

Record window_element := WindowElement {
  w_timestamp : Z; w_nr_unique_users : Z; w_PDF_size : Z; w_PDF : list double; w_L_phase : bool
}.

Record ad_anomal := ADAnomal {
  a_timestamp : Z; a_timescale : Z; a_featureID : string; a_CCDF_size : Z; a_CCDF : list double; a_RefSet_size : Z;
  a_RefSet : list window_element
}.

Definition ad_anomal_new (timestamp timescale : Z) (featID : string) : ad_anomal :=
  ADAnomal timestamp timescale featID 0 [] 0 [].

Definition ad_anomal_fill (size : Z) (CCDF : list double) (refset_size : Z) (RefSet : list window_element)
    (a : ad_anomal) : ad_anomal :=
  ADAnomal (a_timestamp a) (a_timescale a) (a_featureID a) (u16 size) CCDF (u16 refset_size) RefSet.

Definition ad_anomal_clear_CCDF (a : ad_anomal) : ad_anomal :=
  ADAnomal (a_timestamp a) (a_timescale a) (a_featureID a) (a_CCDF_size a) [] (a_RefSet_size a) (a_RefSet a).
Definition ad_anomal_clear_RefSet (a : ad_anomal) : ad_anomal :=
  ADAnomal (a_timestamp a) (a_timescale a) (a_featureID a) (a_CCDF_size a) (a_CCDF a) (a_RefSet_size a) [].

Definition ad_anomal_clone (a : ad_anomal) : ad_anomal :=
  let c := ad_anomal_new (a_timestamp a) (a_timescale a) (a_featureID a) in
  ADAnomal (a_timestamp c) (a_timescale c) (a_featureID c) (a_CCDF_size a) (a_CCDF a) (a_RefSet_size a) (a_RefSet a).

(** [CDF[0] = p[0]], then the sums; [1 - CDF[i]]. *)
Fixpoint cumulative (sum : double) (pdf : list double) : list double :=
  match pdf with
  | [] => []
  | p :: pdf => dadd sum p :: cumulative (dadd sum p) pdf
  end.

Definition CDF_of (pdf : list double) : list double :=
  match pdf with [] => [] | p :: pdf => p :: cumulative p pdf end.

Definition PDF_to_CCDF (pdf : list double) : list double := dsub (double_of_Z 1) <$> CDF_of pdf.

Definition ad_anomal_to_string (a : ad_anomal) : string :=
  "CCDF timestamp: " +:+ pretty (a_timestamp a) +:+ " ; Timescale: " +:+ pretty (a_timescale a) +:+
  " ; Feature ID: " +:+ a_featureID a +:+ " ; CCDF_size: " +:+ pretty (a_CCDF_size a) +:+ newline +:+
  "CCDF: " +:+ texts (λ x, show x +:+ " ") (a_CCDF a) +:+ newline +:+
  "Reference Set size: " +:+ pretty (a_RefSet_size a) +:+ newline +:+ "ReferenceSet CCDFs:" +:+ newline +:+
  texts (λ w, texts (λ x, show x +:+ " ") (PDF_to_CCDF (w_PDF w)) +:+ newline) (a_RefSet a) +:+ newline.

Definition ad_anomal_to_string_file (a : ad_anomal) : string :=
  pretty (a_timestamp a) +:+ tab +:+ pretty (a_timescale a) +:+ tab +:+ a_featureID a +:+ tab +:+
  pretty (a_CCDF_size a) +:+ tab +:+ texts (λ x, show x +:+ ";") (a_CCDF a) +:+ tab +:+
  pretty (a_RefSet_size a) +:+ tab +:+
  texts (λ w, texts (λ x, show x +:+ ";") (PDF_to_CCDF (w_PDF w)) +:+ "[+]") (a_RefSet a) +:+ newline.
End texts_of_doubles.

(** ** Properties *)

(** Copies have the content of the original. *)
Lemma clones_equal t h r a junk :
  ticket_clone t = t ∧ histo_clone junk h = h ∧ ad_result_clone r = r ∧ ad_anomal_clone a = a.
Proof. by destruct t, h, r, a. Qed.

(** The address is printed in dotted quad notation, its most significant byte first. *)
Lemma ip_to_string_quad b3 b2 b1 b0 :
  is_byte b3 → is_byte b2 → is_byte b1 → is_byte b0 →
  ip_to_string (b3 * 2 ^ 24 + b2 * 2 ^ 16 + b1 * 2 ^ 8 + b0) =
    pretty b3 +:+ "." +:+ pretty b2 +:+ "." +:+ pretty b1 +:+ "." +:+ pretty b0.
Proof.
  intros H3 H2 H1 H0.
  assert (le_bytes 4 (b3 * 2 ^ 24 + b2 * 2 ^ 16 + b1 * 2 ^ 8 + b0) = [b0; b1; b2; b3]) as E.
  { rewrite <- (le_bytes_le_value [b0; b1; b2; b3]) by (do 4 (constructor; [done|]); constructor).
    cbn [length]. f_equal. cbn [le_value]. lia. }
  unfold ip_to_string. by rewrite E.
Qed.

(** [add_element] does not add to the histogram's element at the position: it
    makes a new element there, so the later ones move. *)
Lemma add_element_inserts index h :
  (index ≤ length (h_histogram h))%nat →
  ∃ h', add_element index h = Ret h' ∧ length (h_histogram h') = S (length (h_histogram h)) ∧
    h_histogram h' !! index = Some 1 ∧ ∀ j, (index ≤ j)%nat → h_histogram h' !! S j = h_histogram h !! j.
Proof.
  intros Hi. unfold add_element. rewrite (proj2 (Nat.leb_le _ _) Hi). eexists. split; [reflexivity|].
  cbn [h_histogram set_histogram]. assert (length (take index (h_histogram h)) = index) as El by (rewrite length_take; lia).
  split; [|split].
  - rewrite length_app, El. cbn [length]. rewrite length_drop. lia.
  - rewrite lookup_app_r by lia. by rewrite El, Nat.sub_diag.
  - intros j Hj. rewrite lookup_app_r by lia. rewrite El. replace (S j - index)%nat with (S (j - index)) by lia.
    change ((1 :: drop index (h_histogram h)) !! S (j - index)%nat) with (drop index (h_histogram h) !! (j - index)%nat).
    rewrite lookup_drop. f_equal. lia.
Qed.
