(* ===== verification/Features.v ===== *)
(** * Feature extraction

    Models [usr/app_Stat_AD/blocks/FeaturesExtractor.cpp]: a block that turns every
    packet into a ticket with the values of the features the configuration selects,
    and announces each new minute with an empty ticket.

    The four arrays with an entry per group of features are one array of records;
    [x_sent] lists the tickets that left through the output gate. *)

From S2P Require Export Packet StatMsg.

(** What the block asks a packet for, besides its headers. *)
Class TicketPacket (P : Type) := {
  tp_timestamp_s : P → Z;
  tp_has_fin : P → bool;
  tp_has_syn : P → bool;
  tp_has_rst : P → bool;
  tp_has_psh : P → bool;
  tp_ack : P → bool
}.

#[export] Instance packet_ticket : TicketPacket packet := {|
  tp_timestamp_s p := u64 (timestamp_s p);
  tp_has_fin p := match tcp_has kFIN p with (Ret b, _) => b | _ => false end;
  tp_has_syn p := match tcp_has kSYN p with (Ret b, _) => b | _ => false end;
  tp_has_rst p := match tcp_has kRST p with (Ret b, _) => b | _ => false end;
  tp_has_psh p := match tcp_has kPSH p with (Ret b, _) => b | _ => false end;
  tp_ack p := match tcp_ack p with (Ret (Some _), _) => true | _ => false end
|}.

(** ** State *)

Definition N_MAX_FEATURES_GROUPS : nat := 20.
Definition UPLINK : Z := 1.
Definition DOWNLINK : Z := 2.
Definition PACKETS_ACTIVE : Z := 1.
Definition BYTES_ACTIVE : Z := 2.
Definition NUMPORTS_ACTIVE : Z := 4.
Definition NUMIPS_ACTIVE : Z := 8.
Definition FIN : Z := 1.
Definition SYN : Z := 2.
Definition RST : Z := 4.
Definition PSH : Z := 8.
Definition ACK : Z := 16.
Definition TCP : Z := 6.
Definition UDP : Z := 17.

Record group := Group { g_L4_prot : Z; g_flags : Z; g_port : Z; g_mode : Z }.

Record extractor := Extractor {
  x_current_minute : Z; x_direction : Z; x_num_of_ticket_features : Z; x_groups : list group; x_sent : list ticket
}.

Definition set_current_minute (m : Z) (x : extractor) : extractor :=
  Extractor m (x_direction x) (x_num_of_ticket_features x) (x_groups x) (x_sent x).
Definition set_direction (d : Z) (x : extractor) : extractor :=
  Extractor (x_current_minute x) d (x_num_of_ticket_features x) (x_groups x) (x_sent x).
Definition set_num (n : Z) (x : extractor) : extractor :=
  Extractor (x_current_minute x) (x_direction x) n (x_groups x) (x_sent x).
Definition set_groups (gs : list group) (x : extractor) : extractor :=
  Extractor (x_current_minute x) (x_direction x) (x_num_of_ticket_features x) gs (x_sent x).
Definition x_send (t : ticket) (x : extractor) : extractor :=
  Extractor (x_current_minute x) (x_direction x) (x_num_of_ticket_features x) (x_groups x) (x_sent x ++ [t]).

Definition extractor_new : extractor := Extractor 0 0 0 (replicate N_MAX_FEATURES_GROUPS (Group 0 0 0 0)) [].

(** ** Configuration *)

Section configuration.
Context {N : Type} `{XmlNode N}.

(** A parser returns whether it succeeded, and what it wrote through its reference. *)
Definition parse_feature_flags (feature_node : N) (flags_byte : Z) : bool * Z :=
  match child feature_node "flags" with
  | None => (false, flags_byte)
  | Some flags_node =>
      match attribute flags_node "name" with
      | None => (false, 0)
      | Some name =>
          (true,
           if bool_decide (name = "_") then 0
           else if bool_decide (name = "FIN") then FIN
           else if bool_decide (name = "SYN") then SYN
           else if bool_decide (name = "RST") then RST
           else if bool_decide (name = "PSH") then PSH
           else if bool_decide (name = "ACK") then ACK
           else if bool_decide (name = "FINACK") then Z.lor FIN ACK
           else if bool_decide (name = "SYNACK") then Z.lor SYN ACK
           else if bool_decide (name = "RSTACK") then Z.lor RST ACK
           else if bool_decide (name = "PSHACK") then Z.lor PSH ACK
           else if bool_decide (name = "PSHFINACK") then Z.lor (Z.lor PSH FIN) ACK
           else 0)
      end
  end.

Definition parse_feature_port (feature_node : N) (port_number : Z) : bool * Z :=
  match child feature_node "port" with
  | None => (false, port_number)
  | Some port_node =>
      match attribute port_node "num" with
      | Some num => (true, u16 (as_uint num))
      | None => (false, 65535)
      end
  end.

Definition parse_feature_layer4_prot (feature_node : N) (layer4_prot : Z) : bool * Z :=
  match child feature_node "layer4" with
  | None => (false, layer4_prot)
  | Some node =>
      match attribute node "prot" with
      | None => (false, layer4_prot)
      | Some prot =>
          (true, if bool_decide (prot = "TCP") then TCP else if bool_decide (prot = "UDP") then UDP else layer4_prot)
      end
  end.

Definition is_on (a : option string) : bool := bool_decide (a = Some "on").

Definition parse_feature_mode (feature_node : N) (mode_byte direction : Z) : bool * Z :=
  match child feature_node "mode" with
  | None => (false, mode_byte)
  | Some node =>
      let m := PACKETS_ACTIVE in
      let m := if is_on (attribute node "packets") then Z.lor m PACKETS_ACTIVE else m in
      let m := if is_on (attribute node "bytes") then Z.lor m BYTES_ACTIVE else m in
      if direction =? UPLINK then
        let m := if is_on (attribute node "ServPorts") then Z.lor m NUMPORTS_ACTIVE else m in
        let m := if is_on (attribute node "ServIPs") then Z.lor m NUMIPS_ACTIVE else m in
        (true, m)
      else (true, m)
  end.

Definition signal_error {A} (fieldname : string) : M extractor A :=
  throw (runtime_error ("FeauresExtractor:: malformed xml node for the field " +:+ fieldname)).

(** A parser on the entry [i] of an array, and the error it leads to. *)
Definition parse_into (i : nat) (parse : group → bool * group) (fieldname : string) : M extractor unit :=
  x ← gets id;
  match x_groups x !! i with
  | None => throw (undefined_behaviour "more groups than the arrays have entries")
  | Some g =>
      let '(ok, g) := parse g in
      modify (set_groups (<[i := g]> (x_groups x)));;
      if ok : bool then mret tt else signal_error fieldname
  end.

Definition parse_group (i : nat) (feat : N) : M extractor unit :=
  parse_into i (λ g, let '(ok, v) := parse_feature_port feat (g_port g) in (ok, Group (g_L4_prot g) (g_flags g) v (g_mode g)))
    "feature_port";;
  d ← gets x_direction;
  parse_into i (λ g, let '(ok, v) := parse_feature_mode feat (g_mode g) d in (ok, Group (g_L4_prot g) (g_flags g) (g_port g) v))
    "feature_mode";;
  parse_into i (λ g, let '(ok, v) := parse_feature_layer4_prot feat (g_L4_prot g) in (ok, Group v (g_flags g) (g_port g) (g_mode g)))
    "feature_L4prot";;
  x ← gets id;
  match x_groups x !! i with
  | Some g =>
      if negb (Z.land (g_L4_prot g) TCP =? 0) then
        parse_into i (λ g, let '(ok, v) := parse_feature_flags feat (g_flags g) in (ok, Group (g_L4_prot g) v (g_port g) (g_mode g)))
          "feature_flags"
      else mret tt
  | None => throw (undefined_behaviour "more groups than the arrays have entries")
  end.

(** Every node is looked up again by its name. *)
Fixpoint parse_groups (features : N) (i : nat) (its : list N) : M extractor unit :=
  match its with
  | [] => modify (set_num (u8 (Z.of_nat i)))
  | it :: its =>
      match child features (node_name it) with
      | Some feat => parse_group i feat
      | None => signal_error "features_name"
      end;;
      parse_groups features (S i) its
  end.

Definition extractor_configure (n : N) : M extractor unit :=
  match child n "direction" with
  | None => signal_error "direction"
  | Some direction =>
      let dir := default "" (attribute direction "type") in
      if bool_decide (dir = "uplink") then modify (set_direction UPLINK)
      else if bool_decide (dir = "downlink") then modify (set_direction DOWNLINK)
      else signal_error "direction_value"
  end;;
  match child n "features" with
  | None => signal_error "features"
  | Some features => parse_groups features 0 (all_children features)
  end.
End configuration.

(** ** A packet *)

Inductive stat_message (P : Type) := SPacket (p : P) | STicket (t : ticket) | SHisto (h : histo) | SOther.
Arguments SPacket {P} _.
Arguments STicket {P} _.
Arguments SHisto {P} _.
Arguments SOther {P}.

Definition featID_to_string (directionStr flagsStr modeStr : string) (port : Z) : string :=
  directionStr +:+ "_" +:+ flagsStr +:+ "_" +:+ modeStr +:+ "_p_" +:+ pretty port.

Definition has (mask bits : Z) : bool := negb (Z.land mask bits =? 0).

Section packets.
Context {P : Type} `{PacketHeaderI P} `{TicketPacket P}.
Implicit Types p : P.

Definition generate_feature_ID p (dirStr : string) (L4_prot flagsByte : Z) (modeStr : string) (port : Z) : option string :=
  let id flagsStr := Some (featID_to_string dirStr flagsStr modeStr port) in
  if has L4_prot UDP then id "UDP"
  else if has L4_prot TCP && (flagsByte =? 0) then id "TCP"
  else if has flagsByte PSH then
    if has flagsByte ACK then
      if has flagsByte FIN then
        if tp_has_fin p && tp_has_psh p && tp_ack p then id "PSHFINACK" else None
      else if tp_ack p && tp_has_psh p then id "PSHACK" else None
    else if tp_has_psh p then id "PSH" else None
  else if has flagsByte RST then
    if has flagsByte ACK then
      if tp_ack p && tp_has_rst p then id "RSTACK" else None
    else if tp_has_rst p then id "RST" else None
  else if has flagsByte SYN then
    if has flagsByte ACK then
      if tp_ack p && tp_has_syn p then id "SYNACK" else None
    else if tp_has_syn p then id "SYN" else None
  else if has flagsByte FIN then
    if has flagsByte ACK then
      if tp_ack p && tp_has_fin p then id "FINACK" else None
    else if tp_has_fin p then id "FIN" else None
  else if has flagsByte ACK then
    if tp_ack p then id "ACK" else None
  else None.

(** What a packet is to the user's side. *)
Definition client_IP (direction : Z) p : Z :=
  if direction =? UPLINK then Filters.ip_src p else if direction =? DOWNLINK then Filters.ip_dst p else 0.
Definition server_IP (direction : Z) p : Z :=
  if direction =? UPLINK then Filters.ip_dst p else if direction =? DOWNLINK then Filters.ip_src p else 0.
Definition server_port (direction : Z) p : Z :=
  if direction =? UPLINK then p_dst_port p else if direction =? DOWNLINK then p_src_port p else 0.
Definition directionStr (direction : Z) : string :=
  if direction =? UPLINK then "UL" else if direction =? DOWNLINK then "DL" else "".

(** One of the four blocks on the modes of a group. *)
Definition extract_one p (direction : Z) (g : group) (active : bool) (modeStr : string) (v : Z) (t : ticket) : ticket :=
  if active then
    match generate_feature_ID p (directionStr direction) (g_L4_prot g) (g_flags g) modeStr (g_port g) with
    | Some featIDStr => add_feature featIDStr v t
    | None => t
    end
  else t.

Definition extract_modes p (direction : Z) (g : group) (t : ticket) : ticket :=
  let t := extract_one p direction g (has (g_mode g) PACKETS_ACTIVE) "packets" 1 t in
  let t := extract_one p direction g (has (g_mode g) BYTES_ACTIVE) "bytes" (u64 (p_length p)) t in
  let t := extract_one p direction g ((direction =? UPLINK) && has (g_mode g) NUMPORTS_ACTIVE) "srvPorts" (server_port direction p) t in
  extract_one p direction g ((direction =? UPLINK) && has (g_mode g) NUMIPS_ACTIVE) "srvIPs" (server_IP direction p) t.

Definition extract_group p (direction : Z) (t : ticket) (g : group) : ticket :=
  if negb (g_L4_prot g =? Filters.l4_protocol p) then t
  else if negb (g_port g =? 65535) && (g_port g =? server_port direction p) then extract_modes p direction g t
  else if (g_port g =? 65535) && negb (server_port direction p =? 80) then extract_modes p direction g t
  else t.

Definition extract p (x : extractor) : ticket :=
  foldl (extract_group p (x_direction x)) (ticket_new (tp_timestamp_s p) (client_IP (x_direction x) p))
    (take (Z.to_nat (x_num_of_ticket_features x)) (x_groups x)).

Definition extractor_receive (m : stat_message P) : M extractor unit :=
  match m with
  | SPacket p =>
      let minute_now := tp_timestamp_s p / 60 in
      x ← gets id;
      (if x_current_minute x <? minute_now then
        modify (set_current_minute minute_now);;
        modify (x_send (ticket_new (u64 (minute_now * 60)) 0))
      else mret tt);;
      x ← gets id;
      let t := extract p x in
      if 0 <? get_extracted_features t then modify (x_send t) else mret tt
  | _ => throw (runtime_error "FeaturesExtractor: wrong message type")
  end.

Fixpoint extractor_run (ps : list P) : M extractor unit :=
  match ps with
  | [] => mret tt
  | p :: ps => extractor_receive (SPacket p);; extractor_run ps
  end.
End packets.

(** ** Which features a packet has *)

(** The names a configuration can give, and the flags they stand for. *)
Definition flag_names : list (string * Z) :=
  [("_", 0); ("FIN", FIN); ("SYN", SYN); ("RST", RST); ("PSH", PSH); ("ACK", ACK); ("FINACK", 17); ("SYNACK", 18);
   ("RSTACK", 20); ("PSHACK", 24); ("PSHFINACK", 25)].

Definition flags_text (name : string) : string := if bool_decide (name = "_") then "TCP" else name.

(** A group as the configuration makes it; no protocol when its name is unknown. *)
Definition group_ok (g : group) : Prop :=
  (g_L4_prot g = UDP ∨ g_L4_prot g = TCP ∨ (g_L4_prot g = 0 ∧ g_flags g = 0)) ∧ ∃ name, (name, g_flags g) ∈ flag_names.

Section selection.
Context {P : Type} {HP : PacketHeaderI P} {HT : TicketPacket P}.
Implicit Types (p : P) (g : group) (t : ticket).

Definition packet_flags p : Z :=
  (if tp_has_fin p then 1 else 0) + (if tp_has_syn p then 2 else 0) + (if tp_has_rst p then 4 else 0) +
  (if tp_has_psh p then 8 else 0) + (if tp_ack p then 16 else 0).

(** The cascade tests whether the flags of the group are among the packet's. *)
Lemma generate_feature_ID_flags p dir name f mode port :
  (name, f) ∈ flag_names →
  generate_feature_ID p dir TCP f mode port =
    if Z.land f (packet_flags p) =? f then Some (featID_to_string dir (flags_text name) mode port) else None.
Proof.
  intros Hf. unfold generate_feature_ID, packet_flags.
  destruct (tp_has_fin p), (tp_has_syn p), (tp_has_rst p), (tp_has_psh p), (tp_ack p);
    (repeat (apply elem_of_cons in Hf as [[= -> ->]|Hf]; [reflexivity|]); by apply not_elem_of_nil in Hf).
Qed.

Lemma generate_feature_ID_udp p dir f mode port :
  generate_feature_ID p dir UDP f mode port = Some (featID_to_string dir "UDP" mode port).
Proof. done. Qed.


(** The name of the group's protocol and flags. *)
Definition group_name g : string :=
  if g_L4_prot g =? UDP then "UDP"
  else flags_text (default "" (fst <$> List.find (λ e, e.2 =? g_flags g) flag_names)).

(** Protocol, port (65535: any but 80) and flags of the group are the packet's. *)
Definition group_matches p (direction : Z) g : bool :=
  (g_L4_prot g =? Filters.l4_protocol p) && negb (g_L4_prot g =? 0) &&
  (if g_port g =? 65535 then negb (server_port direction p =? 80) else g_port g =? server_port direction p) &&
  ((g_L4_prot g =? UDP) || (Z.land (g_flags g) (packet_flags p) =? g_flags g)).

(** The active features of a group and their values for a packet. *)
Definition group_values p (direction : Z) g : list (string * Z) :=
  let entry (active : bool) modeStr v :=
    if active then [(featID_to_string (directionStr direction) (group_name g) modeStr (g_port g), v)] else [] in
  entry (has (g_mode g) PACKETS_ACTIVE) "packets" 1 ++
  entry (has (g_mode g) BYTES_ACTIVE) "bytes" (u64 (p_length p)) ++
  entry ((direction =? UPLINK) && has (g_mode g) NUMPORTS_ACTIVE) "srvPorts" (server_port direction p) ++
  entry ((direction =? UPLINK) && has (g_mode g) NUMIPS_ACTIVE) "srvIPs" (server_IP direction p).

Definition packet_values p (direction : Z) (gs : list group) : list (string * Z) :=
  gs ≫= λ g, if group_matches p direction g then group_values p direction g else [].

Definition add_all (l : list (string * Z)) t : ticket :=
  Ticket (t_timestamp t) (t_userID t) (foldl (λ m e, map_add e.1 e.2 m) (t_featurePairs t) l).

Lemma add_all_app l1 l2 t : add_all (l1 ++ l2) t = add_all l2 (add_all l1 t).
Proof. unfold add_all. cbn. by rewrite foldl_app. Qed.

Lemma generate_group p direction g mode :
  group_ok g → g_L4_prot g = Filters.l4_protocol p →
  generate_feature_ID p (directionStr direction) (g_L4_prot g) (g_flags g) mode (g_port g) =
    if negb (g_L4_prot g =? 0) && ((g_L4_prot g =? UDP) || (Z.land (g_flags g) (packet_flags p) =? g_flags g))
    then Some (featID_to_string (directionStr direction) (group_name g) mode (g_port g)) else None.
Proof.
  intros [[E|[E|[E Ef]]] [name Hn]] _; unfold group_name; rewrite E; [apply generate_feature_ID_udp| |by rewrite Ef].
  rewrite (generate_feature_ID_flags _ _ _ _ _ _ Hn). change (TCP =? UDP) with false. cbn [orb].
  destruct (_ =? _); [|done]. do 2 f_equal.
  generalize dependent (g_flags g). intros f Hn.
  repeat (apply elem_of_cons in Hn as [[= -> ->]|Hn]; [reflexivity|]). by apply not_elem_of_nil in Hn.
Qed.

Lemma extract_group_values p direction g t :
  group_ok g →
  extract_group p direction t g = add_all (if group_matches p direction g then group_values p direction g else []) t.
Proof.
  intros Hg. unfold extract_group, group_matches.
  destruct (Z.eqb_spec (g_L4_prot g) (Filters.l4_protocol p)) as [E|E]; cbn [negb andb]; [|by destruct t].
  assert (∀ b : bool, (if b then extract_modes p direction g t else t) =
    add_all (if negb (g_L4_prot g =? 0) && b && ((g_L4_prot g =? UDP) || (Z.land (g_flags g) (packet_flags p) =? g_flags g))
             then group_values p direction g else []) t) as Hb.
  { intros [|]; [rewrite andb_true_r|rewrite andb_false_r; by destruct t]. unfold extract_modes, extract_one.
    rewrite !(generate_group _ _ _ _ Hg E). unfold group_values. destruct t.
    by destruct (negb _ && _), (has _ _), (has _ _), (direction =? UPLINK), (has _ _), (has _ _). }
  rewrite <- Hb. destruct (Z.eqb_spec (g_port g) 65535) as [E'|E']; cbn [negb andb]; [|done].
  by destruct (server_port direction p =? 80).
Qed.

Lemma extract_values p x :
  Forall group_ok (take (Z.to_nat (x_num_of_ticket_features x)) (x_groups x)) →
  extract p x = add_all (packet_values p (x_direction x) (take (Z.to_nat (x_num_of_ticket_features x)) (x_groups x)))
    (ticket_new (tp_timestamp_s p) (client_IP (x_direction x) p)).
Proof.
  unfold extract. generalize (ticket_new (tp_timestamp_s p) (client_IP (x_direction x) p)).
  intros t Hgs. revert t. induction Hgs as [|g gs Hg _ IH]; intros t; cbn [foldl].
  - by destruct t.
  - rewrite extract_group_values, IH by done. unfold packet_values. cbn [mbind list_bind]. by rewrite add_all_app.
Qed.
End selection.

(** ** The block *)

Section block.
Context {P : Type} {HP : PacketHeaderI P} {HT : TicketPacket P}.
Implicit Types (p : P) (x : extractor) (t : ticket).

Definition active_groups x : list group := take (Z.to_nat (x_num_of_ticket_features x)) (x_groups x).

Definition extractor_ok x : Prop := Forall group_ok (x_groups x) ∧ length (x_groups x) = N_MAX_FEATURES_GROUPS.

Lemma active_groups_ok x : extractor_ok x → Forall group_ok (active_groups x) ∧ (length (active_groups x) ≤ 20)%nat.
Proof.
  intros [Hg Hl]. unfold active_groups. split; [by apply Forall_take|].
  rewrite length_take, Hl. unfold N_MAX_FEATURES_GROUPS. lia.
Qed.

Lemma length_group_values p d g : (length (group_values p d g) ≤ 4)%nat.
Proof.
  unfold group_values. rewrite !length_app.
  destruct (has _ _), (has _ _), (_ && _), (_ && _); cbn [length]; lia.
Qed.

Lemma length_packet_values p d gs : (length (packet_values p d gs) ≤ 4 * length gs)%nat.
Proof.
  unfold packet_values. induction gs as [|g gs IH]; cbn [mbind list_bind length]; [lia|]. rewrite length_app.
  pose proof (length_group_values p d g). destruct (group_matches p d g); cbn [length]; lia.
Qed.

Lemma length_add_all (l : list (string * Z)) (m : std_map Z) : (length (foldl (λ m e, map_add e.1 e.2 m) m l) ≤ length m + length l)%nat.
Proof.
  revert m. induction l as [|[k v] l IH]; intros m; cbn [foldl length]; [lia|].
  specialize (IH (map_add k v m)). pose proof (length_map_add k v m) as Hl. cbn [fst snd] in *.
  change (@List.length (string * Z)) with (@length (string * Z)) in *. lia.
Qed.

Lemma NoDup_add_all (l : list (string * Z)) (m : std_map Z) : NoDup m.*1 → NoDup (foldl (λ m e, map_add e.1 e.2 m) m l).*1.
Proof. revert m. induction l as [|[k v] l IH]; intros m Hm; [done|]. by apply IH, map_add_NoDup. Qed.

(** The ticket of a packet. *)
Definition packet_ticket_of p x : ticket := extract p x.

Lemma extract_features p x :
  extractor_ok x →
  t_timestamp (extract p x) = tp_timestamp_s p ∧ t_userID (extract p x) = client_IP (x_direction x) p ∧
  NoDup (t_featurePairs (extract p x)).*1 ∧ (length (t_featurePairs (extract p x)) ≤ 80)%nat ∧
  ∀ k, map_find k (t_featurePairs (extract p x)) = map_find k (packet_values p (x_direction x) (active_groups x)).
Proof.
  intros Hx. destruct (active_groups_ok x Hx) as [Hg Hl].
  rewrite (extract_values p x Hg). split; [done|]. split; [done|]. cbn [t_featurePairs add_all ticket_new].
  split; [by apply NoDup_add_all, NoDup_nil_2|]. split; [|intros k; by rewrite map_find_adds].
  pose proof (length_add_all (packet_values p (x_direction x) (active_groups x)) []) as Ha. cbn [length] in Ha.
  pose proof (length_packet_values p (x_direction x) (active_groups x)).
  fold (active_groups x). lia.
Qed.

Lemma extracted_positive p x :
  extractor_ok x →
  (0 <? get_extracted_features (extract p x)) = negb (bool_decide (packet_values p (x_direction x) (active_groups x) = [])).
Proof.
  intros Hx. destruct (extract_features p x Hx) as (_ & _ & _ & Hl & Hf). unfold get_extracted_features.
  rewrite u32_small by lia. destruct (t_featurePairs (extract p x)) as [|[k v] m] eqn:E.
  - destruct (packet_values _ _ _) as [|[k v] l]; [done|]. specialize (Hf k). cbn [map_find] in Hf.
    by rewrite decide_True in Hf.
  - rewrite bool_decide_eq_false_2; [apply Z.ltb_lt; cbn [length]; lia|]. intros E2. specialize (Hf k). rewrite E2 in Hf. cbn [map_find] in Hf.
    by rewrite decide_True in Hf.
Qed.

Definition signal_ticket (minute : Z) : ticket := ticket_new (u64 (minute * 60)) 0.

(** One packet: the tickets it leads to. *)
Definition packet_tickets p x : list ticket :=
  (if x_current_minute x <? tp_timestamp_s p / 60 then [signal_ticket (tp_timestamp_s p / 60)] else []) ++
  (if bool_decide (packet_values p (x_direction x) (active_groups x) = []) then [] else [extract p x]).

Definition after_packet p x : extractor :=
  Extractor (Z.max (x_current_minute x) (tp_timestamp_s p / 60)) (x_direction x) (x_num_of_ticket_features x) (x_groups x)
    (x_sent x ++ packet_tickets p x).

Lemma extractor_receive_packet p x :
  extractor_ok x → extractor_receive (SPacket p) x = (Ret tt, after_packet p x).
Proof.
  intros Hx. unfold after_packet, packet_tickets.
  unfold extractor_receive. run_m.
  assert (∀ y, x_direction y = x_direction x → x_num_of_ticket_features y = x_num_of_ticket_features x →
    x_groups y = x_groups x → extract p y = extract p x) as He by (intros y E1 E2 E3; unfold extract; by rewrite E1, E2, E3).
  destruct (Z.ltb_spec (x_current_minute x) (tp_timestamp_s p / 60)) as [Hm|Hm].
  - rewrite He by done. rewrite extracted_positive by done. rewrite Z.max_r by lia.
    case_bool_decide; cbn [negb]; unfold set_current_minute, x_send, signal_ticket; cbn; [done|by rewrite <- app_assoc].
  - rewrite extracted_positive by done. rewrite Z.max_l by lia. destruct x.
    case_bool_decide; cbn [negb]; unfold x_send; cbn; [by rewrite app_nil_r|done].
Qed.

(** What the block does with a packet.  When the packet begins a new minute
    one empty ticket announces it, ahead of the packet's own.  The packet's ticket
    has its time and the address on the user's side, no feature twice, and exactly
    the values of the active features of those configured groups whose protocol,
    server port (65535 for any but 80) and TCP flags it has, the first group
    winning where two have the same name; the test of the flags in the code is a
    cascade over their combinations.  A packet without features has no ticket. *)
Theorem feature_extraction_selects p x :
  extractor_ok x →
  ∃ signals own, extractor_receive (SPacket p) x = (Ret tt,
      Extractor (Z.max (x_current_minute x) (tp_timestamp_s p / 60)) (x_direction x) (x_num_of_ticket_features x) (x_groups x)
        (x_sent x ++ signals ++ own)) ∧
    signals = (if x_current_minute x <? tp_timestamp_s p / 60 then [ticket_new (u64 (tp_timestamp_s p / 60 * 60)) 0] else []) ∧
    (own = [] ↔ packet_values p (x_direction x) (active_groups x) = []) ∧
    ∀ t, t ∈ own → own = [t] ∧ t_timestamp t = tp_timestamp_s p ∧ t_userID t = client_IP (x_direction x) p ∧
      NoDup (t_featurePairs t).*1 ∧
      ∀ k, map_find k (t_featurePairs t) = map_find k (packet_values p (x_direction x) (active_groups x)).
Proof.
  intros Hx. do 2 eexists. split; [rewrite extractor_receive_packet by done; reflexivity|]. split; [done|].
  destruct (extract_features p x Hx) as (Ht & Hu & Hnd & _ & Hf). split.
  - case_bool_decide; [done|]. split; [done|]. intros ?; done.
  - intros t Ht0. case_bool_decide; [by apply not_elem_of_nil in Ht0|].
    apply list_elem_of_singleton in Ht0 as ->. done.
Qed.
End block.
Arguments extractor_ok : simpl never.

(** ** Configuration *)

Section configured.
Context {N : Type} {HX : XmlNode N}.
Implicit Types (n : N) (x : extractor).

Definition keeps_ok {A} (m : M extractor A) : Prop := ∀ x, extractor_ok x → extractor_ok (m x).2.

Lemma keeps_ok_bind {A B} (m : M extractor A) (f : A → M extractor B) :
  keeps_ok m → (∀ a, keeps_ok (f a)) → keeps_ok (m ≫= f).
Proof.
  intros Hm Hf x Hx. specialize (Hm x Hx). unfold mbind, M_bind. destruct (m x) as [[a|e] s]; [|done]. by apply Hf.
Qed.

Lemma keeps_ok_id {A} (m : M extractor A) : (∀ x, (m x).2 = x) → keeps_ok m.
Proof. intros E x Hx. by rewrite E. Qed.

Lemma keeps_ok_modify f :
  (∀ x, x_groups (f x) = x_groups x) → keeps_ok (modify f).
Proof. intros E x [Hg Hl]. cbn. by split; rewrite E. Qed.

Lemma parse_into_ok i (parse : group → bool * group) s x :
  extractor_ok x → (∀ g, x_groups x !! i = Some g → group_ok g → group_ok (parse g).2) → extractor_ok (parse_into i parse s x).2.
Proof.
  intros [Hg Hl] Hp. unfold parse_into, signal_error. run_m.
  destruct (x_groups x !! i) as [g|] eqn:E; [|done]. destruct (parse g) as [ok g'] eqn:Eg.
  assert (extractor_ok (set_groups (<[i := g']> (x_groups x)) x)) as Hx.
  { split; cbn [x_groups set_groups]; [|by rewrite length_insert]. apply Forall_insert; [done|].
    specialize (Hp g eq_refl (Forall_lookup_1 _ _ _ _ Hg E)). by rewrite Eg in Hp. }
  by destruct ok.
Qed.

Lemma parse_flags_ok feat f : (∃ name, (name, f) ∈ flag_names) → ∃ name, (name, (parse_feature_flags feat f).2) ∈ flag_names.
Proof.
  intros Hf. unfold parse_feature_flags. destruct (child feat "flags") as [n|]; [|done].
  destruct (attribute n "name") as [s|]; cbn [snd]; [|exists "_"; by left].
  repeat (case_bool_decide; [subst; eexists; by repeat (left || right)|]). exists "_". by left.
Qed.

Lemma parse_group_ok i feat : keeps_ok (parse_group i feat).
Proof.
  unfold parse_group. apply keeps_ok_bind; [|intros _; apply keeps_ok_bind; [by apply keeps_ok_id|intros d; apply keeps_ok_bind; [|intros _; apply keeps_ok_bind]]].
  - intros x Hx. apply parse_into_ok; [done|]. intros g _ [H1 H2]. by destruct (parse_feature_port feat (g_port g)).
  - intros x Hx. apply parse_into_ok; [done|]. intros g _ [H1 H2]. by destruct (parse_feature_mode feat (g_mode g) d).
  - intros x Hx. apply parse_into_ok; [done|]. intros g _ [H1 H2]. unfold parse_feature_layer4_prot.
    destruct (child feat "layer4") as [node|]; [|done]. destruct (attribute node "prot"); [|done].
    case_bool_decide; [split; [by right; left|done]|]. case_bool_decide; [split; [by left|done]|]. done.
  - intros _ x Hx. unfold gets, mbind, M_bind, id. destruct (x_groups x !! i) as [g|] eqn:E; [|done].
    destruct (Z.eqb_spec (Z.land (g_L4_prot g) TCP) 0) as [E0|E0]; [done|]. cbn [negb].
    apply parse_into_ok; [done|]. intros g' Eg' [H1 H2]. rewrite E in Eg'. injection Eg' as <-.
    pose proof (parse_flags_ok feat (g_flags g) H2) as Hf. destruct (parse_feature_flags feat (g_flags g)) as [ok v].
    split; [|done]. cbn [g_L4_prot snd]. destruct H1 as [H1|[H1|[H1 _]]]; [by left|by right; left|]. by rewrite H1 in E0.
Qed.

Lemma parse_group_in_range i feat x x' : extractor_ok x → parse_group i feat x = (Ret tt, x') → (i < 20)%nat.
Proof.
  intros [_ Hl] E. unfold parse_group in E. apply bind_inv_Ret in E as (u & x1 & E & _). unfold parse_into in E. revert E. run_m.
  destruct (x_groups x !! i) as [g|] eqn:Eg; [|done]. intros _. apply lookup_lt_Some in Eg. by rewrite Hl in Eg.
Qed.

Lemma parse_groups_ok features i its : keeps_ok (parse_groups features i its).
Proof.
  revert i. induction its as [|it its IH]; intros i; cbn [parse_groups]; [by apply keeps_ok_modify|].
  apply keeps_ok_bind; [|intros _; apply IH]. destruct (child features (node_name it)); [apply parse_group_ok|by apply keeps_ok_id].
Qed.

Lemma parse_groups_num features i its x x' :
  (i ≤ 20)%nat → extractor_ok x → parse_groups features i its x = (Ret tt, x') →
  (i + length its ≤ 20)%nat ∧ x_num_of_ticket_features x' = Z.of_nat (i + length its).
Proof.
  revert i x. induction its as [|it its IH]; intros i x Hi Hx E; cbn [parse_groups] in E.
  - injection E as <-. cbn [length x_num_of_ticket_features set_num]. rewrite Nat.add_0_r, u8_small by lia. done.
  - apply bind_inv_Ret in E as ([] & x1 & E1 & E2).
    destruct (child features (node_name it)) as [feat|]; [|done].
    pose proof (parse_group_in_range _ _ _ _ Hx E1) as Hlt. pose proof (parse_group_ok i feat x Hx) as Hx1.
    rewrite E1 in Hx1. destruct (IH (S i) x1 Hlt Hx1 E2) as [H1 H2]. cbn [length].
    rewrite <- Nat.add_succ_comm. done.
Qed.

Lemma child_in_children n s f : child n s = Some f → f ∈ all_children n.
Proof.
  rewrite child_head, children_named. intros E. destruct (List.filter _ _) as [|y l] eqn:El; [done|].
  cbn in E. injection E as ->. assert (In f (List.filter (λ k, bool_decide (node_name k = s)) (all_children n))) as Hf by (rewrite El; by left).
  apply List.filter_In in Hf as [Hf _]. by apply list_elem_of_In.
Qed.

(** Whatever the configuration says, every group the block holds afterwards
    is well-formed: its protocol is TCP, UDP or none, its flags are one of the
    combinations the cascade knows, and flags without a protocol do not occur.
    Only configurations with at most twenty groups are accepted, and the number
    of groups in use is the number of nodes. *)
Theorem extractor_configure_ok n x :
  extractor_ok x →
  extractor_ok (extractor_configure n x).2 ∧
  ∀ x', extractor_configure n x = (Ret tt, x') →
    ∃ features, child n "features" = Some features ∧ (length (all_children features) ≤ 20)%nat ∧
      x_num_of_ticket_features x' = Z.of_nat (length (all_children features)) ∧ Forall group_ok (active_groups x').
Proof.
  intros Hx. assert (keeps_ok (extractor_configure n)) as Hk.
  { unfold extractor_configure. apply keeps_ok_bind.
    - destruct (child n "direction"); [|by apply keeps_ok_id].
      repeat case_bool_decide; first [by apply keeps_ok_modify|by apply keeps_ok_id].
    - intros _. destruct (child n "features"); [apply parse_groups_ok|by apply keeps_ok_id]. }
  split; [by apply Hk|]. intros x' E. pose proof (Hk x Hx) as Hx'. rewrite E in Hx'.
  unfold extractor_configure in E. apply bind_inv_Ret in E as ([] & x1 & E1 & E2).
  assert (extractor_ok x1) as Hx1.
  { revert E1. destruct (child n "direction"); [|done].
    repeat case_bool_decide; try done; intros [= <-]; destruct Hx as [??]; by split. }
  destruct (child n "features") as [features|]; [|done]. exists features. split; [done|].
  destruct (parse_groups_num features 0 _ x1 x' (Nat.le_0_l _) Hx1 E2) as [H1 H2]. split; [done|]. split; [done|].
  by apply active_groups_ok.
Qed.

(** The feature "packets" is active in every group, whatever its attribute says. *)
Lemma packets_always_active feat m d m' : parse_feature_mode feat m d = (true, m') → Z.testbit m' 0 = true.
Proof.
  unfold parse_feature_mode. destruct (child feat "mode") as [node|]; [|done].
  destruct (d =? UPLINK), (is_on _), (is_on _); try destruct (is_on _); try destruct (is_on _); by intros [= <-].
Qed.

(** Two nodes of the same name: both groups are made from the first. *)
Lemma second_node_ignored features i it1 it2 its :
  node_name it1 = node_name it2 →
  parse_groups features i (it1 :: it2 :: its) = parse_groups features i (it1 :: it1 :: its).
Proof. intros E. cbn [parse_groups]. by rewrite E. Qed.
End configured.

(** ** Examples *)

Definition example_group (name : string) : xml :=
  Elem "Feat_1" [] [Elem "layer4" [("prot", "TCP")] []; Elem "flags" [("name", name)] []; Elem "port" [("num", "65535")] [];
    Elem "mode" [("packets", "off"); ("bytes", "on")] []].

Definition example_configuration (name : string) : xml :=
  Elem "params" [] [Elem "direction" [("type", "uplink")] []; Elem "features" [] [example_group name]].

Lemma extractor_new_ok : extractor_ok extractor_new.
Proof.
  split; [|apply length_replicate]. apply Forall_replicate. split; [by right; right|]. exists "_". by left.
Qed.

Definition configured_extractor (name : string) : extractor :=
  (extractor_configure (example_configuration name) extractor_new).2.

Lemma extractor_configure_ok_witness :
  extractor_ok extractor_new ∧ Forall group_ok (active_groups (configured_extractor "SYN")) ∧
  active_groups (configured_extractor "SYN") = [Group 6 2 65535 3].
Proof.
  split; [apply extractor_new_ok|].
  assert (extractor_configure (example_configuration "SYN") extractor_new = (Ret tt, configured_extractor "SYN")) as E
    by reflexivity.
  destruct (proj2 (extractor_configure_ok (example_configuration "SYN") extractor_new extractor_new_ok) _ E)
    as (f & _ & _ & _ & Hg). split; [exact Hg|reflexivity].
Defined.

(** A TCP packet in the first minute of the epoch's second hour, as the interface shows it. *)
Definition syn_packet : packet := tcp_window_packet.

Lemma feature_extraction_selects_witness :
  ∃ own, extractor_receive (SPacket syn_packet) (configured_extractor "ACK") =
      (Ret tt, Extractor 0 UPLINK 1 (x_groups (configured_extractor "ACK")) own) ∧
    own ≠ [] ∧ ∀ t, t ∈ own → map_find "UL_ACK_packets_p_65535" (t_featurePairs t) = Some 1.
Proof.
  destruct (feature_extraction_selects syn_packet (configured_extractor "ACK")) as (signals & own & E & Es & Hown & Ht).
  - apply (proj1 (extractor_configure_ok (example_configuration "ACK") extractor_new extractor_new_ok)).
  - exists own. rewrite Es in E. split; [exact E|]. split.
    + intros Hn. apply Hown in Hn. vm_compute in Hn. done.
    + intros t Hin. destruct (Ht t Hin) as (_ & _ & _ & _ & Hf). rewrite Hf. vm_compute. reflexivity.
Defined.
