(* ===== verification/PerUser.v ===== *)
(** * Per-user counting

    Models [usr/app_Stat_AD/blocks/PerUserCounter.cpp]: a block that adds up the
    tickets of each user over the intervals of an output timescale, and its
    composition with the feature extraction in front of it.

    The order in which a pass visits the [unordered_map] of users is an argument,
    some permutation of its entries; [u_sent] lists the tickets that left through
    the output gate. *)

From S2P Require Export Features.

Record user_counter := UserCounter {
  u_current_agg_time : Z; u_in_timescale : Z; u_out_timescale : Z; u_tickets_ht : gmap Z (std_map Z); u_sent : list ticket
}.

Definition set_agg_time (t : Z) (u : user_counter) : user_counter :=
  UserCounter t (u_in_timescale u) (u_out_timescale u) (u_tickets_ht u) (u_sent u).
Definition set_timescales (i o : Z) (u : user_counter) : user_counter :=
  UserCounter (u_current_agg_time u) i o (u_tickets_ht u) (u_sent u).
Definition set_tickets (ht : gmap Z (std_map Z)) (u : user_counter) : user_counter :=
  UserCounter (u_current_agg_time u) (u_in_timescale u) (u_out_timescale u) ht (u_sent u).
Definition u_send (ts : list ticket) (u : user_counter) : user_counter :=
  UserCounter (u_current_agg_time u) (u_in_timescale u) (u_out_timescale u) (u_tickets_ht u) (u_sent u ++ ts).

Definition user_counter_new : user_counter := UserCounter 0 0 1 ∅ [].

Definition signal_error {A} (fieldname : string) : M user_counter A :=
  throw (runtime_error ("PerUserCounter:: malformed xml node for the field " +:+ fieldname)).

Definition user_counter_configure {N} `{XmlNode N} (n : N) : M user_counter unit :=
  match child n "timescales" with
  | None => signal_error "timescales"
  | Some timescales =>
      match attribute timescales "in_ts" with
      | Some in_ts => modify (λ u, set_timescales (as_uint in_ts) (u_out_timescale u) u)
      | None => signal_error "input timescale"
      end;;
      match attribute timescales "out_ts" with
      | Some out_ts => modify (λ u, set_timescales (u_in_timescale u) (as_uint out_ts) u)
      | None => signal_error "output timescale"
      end
  end.

(** The ticket is an announcement. *)
Definition is_dummy (t : ticket) : bool := (t_userID t =? 0) && (get_extracted_features t =? 0).

(** One feature of a ticket into the entry of its user. *)
Definition add_value (entry : std_map Z) (e : string * Z) : std_map Z :=
  match map_find e.1 entry with
  | None => map_add e.1 e.2 entry
  | Some v => map_assign e.1 (u64 (v + e.2)) entry
  end.

Definition insert_element (t : ticket) : M user_counter unit :=
  u ← gets id;
  match u_tickets_ht u !! t_userID t with
  | None => modify (set_tickets (<[t_userID t := t_featurePairs t]> (u_tickets_ht u)))
  | Some entry => modify (set_tickets (<[t_userID t := foldl add_value entry (t_featurePairs t)]> (u_tickets_ht u)))
  end.

(** [(time_now / (60 * out) + 1) * (60 * out)] in the widths of its operands. *)
Definition next_agg_time (time_now out : Z) : outcome Z :=
  let d := u32 (60 * out) in
  if d =? 0 then Throw (undefined_behaviour "division by zero")
  else Ret (u64 (u64 (time_now / d + 1) * d)).

Section counter.
Context {P : Type} (visit : gmap Z (std_map Z) → list (Z * std_map Z)).

Definition empty_hash_table (curr_agg_time : Z) : M user_counter unit :=
  u ← gets id;
  modify (u_send ((λ e, set_features e.2 (ticket_new curr_agg_time (u32 e.1))) <$> visit (u_tickets_ht u)));;
  modify (set_tickets ∅).

Definition new_interval (time_now : Z) : M user_counter unit :=
  u ← gets id;
  empty_hash_table (u_current_agg_time u);;
  match next_agg_time time_now (u_out_timescale u) with
  | Throw e => throw e
  | Ret agg =>
      modify (set_agg_time agg);;
      modify (u_send [ticket_new agg 0])
  end.

Definition user_counter_receive (m : stat_message P) : M user_counter unit :=
  match m with
  | STicket t =>
      let time_now := t_timestamp t in
      u ← gets id;
      if (time_now <? u_current_agg_time u) && is_dummy t then mret tt
      else if u_in_timescale u =? 0 then
        if (u_current_agg_time u <=? time_now) && is_dummy t then new_interval time_now
        else insert_element t
      else
        if (u_current_agg_time u <? time_now) && is_dummy t then new_interval time_now
        else insert_element t
  | _ => throw (runtime_error "PerUserCounter: wrong message type")
  end.

Fixpoint user_counter_run (ts : list ticket) : M user_counter unit :=
  match ts with
  | [] => mret tt
  | t :: ts => user_counter_receive (STicket t);; user_counter_run ts
  end.

(** ** Accounting *)

Definition value (f : string) (m : std_map Z) : Z := default 0 (map_find f m).

(** What has left for a user's feature, and what is kept for later. *)
Definition gone (usr : Z) (f : string) (l : list ticket) : Z :=
  sumZ (λ t, if t_userID t =? usr then value f (t_featurePairs t) else 0) l.
Definition kept (usr : Z) (f : string) (ht : gmap Z (std_map Z)) : Z := value f (default [] (ht !! usr)).
End counter.

Definition ticket_ok (t : ticket) : Prop := NoDup (t_featurePairs t).*1 ∧ 0 ≤ t_userID t < 2 ^ 32 ∧ Z.of_nat (length (t_featurePairs t)) < 2 ^ 32.

Lemma u64_sum a a' b b' : u64 a = u64 a' → u64 b = u64 b' → u64 (a + b) = u64 (a' + b').
Proof. unfold u64. intros Ha Hb. rewrite Zplus_mod, Ha, Hb, <- Zplus_mod. done. Qed.

Lemma u64_u64 a : u64 (u64 a) = u64 a.
Proof. unfold u64. apply Zmod_mod. Qed.

Lemma value_cons f k v (m : std_map Z) : value f ((k, v) :: m) = if decide (f = k) then v else value f m.
Proof. unfold value. cbn [map_find]. by destruct (decide (f = k)). Qed.

Lemma value_add_value f entry k v :
  u64 (value f (add_value entry (k, v))) = u64 (value f entry + if decide (f = k) then v else 0).
Proof.
  unfold add_value, value. cbn [fst snd]. destruct (map_find k entry) as [w|] eqn:E.
  - rewrite map_find_assign. destruct (decide (f = k)) as [->|]; [rewrite E; apply u64_u64|by rewrite Z.add_0_r].
  - rewrite map_find_add. destruct (decide (f = k)) as [->|]; [by rewrite E|].
    rewrite Z.add_0_r. by destruct (map_find f entry).
Qed.

Lemma value_add_values f (l : std_map Z) entry :
  NoDup l.*1 → u64 (value f (foldl add_value entry l)) = u64 (value f entry + value f l).
Proof.
  revert entry. induction l as [|[k v] l IH]; intros entry Hnd; cbn [foldl].
  - unfold value at 3. cbn. by rewrite Z.add_0_r.
  - apply NoDup_cons in Hnd as [Hk Hnd]. rewrite IH by done. rewrite value_cons.
    rewrite (u64_sum _ _ _ _ (value_add_value f entry k v) eq_refl), <- Z.add_assoc. f_equal. f_equal.
    destruct (decide (f = k)) as [->|]; [|lia]. apply map_find_not_key in Hk. cbn [fst] in Hk. unfold value. change (map_find k l) with (map_find (V:=Z) k l). rewrite Hk. cbn. lia.
Qed.

Section accounting.
Context {P : Type} (visit : gmap Z (std_map Z) → list (Z * std_map Z)).
Context (visit_perm : ∀ ht, visit ht ≡ₚ map_to_list ht).
Implicit Types (u : user_counter) (t : ticket) (usr : Z) (f : string).

Definition keys_ok u : Prop := ∀ i m, u_tickets_ht u !! i = Some m → 0 ≤ i < 2 ^ 32.

Lemma gone_app usr f l1 l2 : gone usr f (l1 ++ l2) = gone usr f l1 + gone usr f l2.
Proof. apply sumZ_app. Qed.

Lemma insert_element_spec t u :
  ticket_ok t → keys_ok u →
  ∃ ht, insert_element t u = (Ret tt, set_tickets ht u) ∧ (∀ i m, ht !! i = Some m → 0 ≤ i < 2 ^ 32) ∧
    ∀ usr f, u64 (kept usr f ht) =
      u64 (kept usr f (u_tickets_ht u) + if t_userID t =? usr then value f (t_featurePairs t) else 0).
Proof.
  intros (Hnd & Hu & _) Hk. unfold insert_element. run_m.
  assert (∀ e i m, <[t_userID t:=e]> (u_tickets_ht u) !! i = Some m → 0 ≤ i < 2 ^ 32) as Hk'.
  { intros e i m. destruct (decide (t_userID t = i)) as [<-|Hne]; [done|]. rewrite lookup_insert_ne by done. apply Hk. }
  destruct (u_tickets_ht u !! t_userID t) as [entry|] eqn:E.
  all: eexists; split; [reflexivity|]; split; [apply Hk'|]; intros usr f; unfold kept;
    destruct (Z.eqb_spec (t_userID t) usr) as [<-|Hne];
    [rewrite lookup_insert_eq; cbn [default]; rewrite E|rewrite lookup_insert_ne by done; by rewrite Z.add_0_r].
  - cbn [default from_option]; unfold id; by rewrite value_add_values.
  - done.
Qed.

Lemma sum_map_to_list usr f (ht : gmap Z (std_map Z)) :
  sumZ (λ e : Z * std_map Z, if e.1 =? usr then value f e.2 else 0) (map_to_list ht) = kept usr f ht.
Proof.
  unfold kept. induction ht as [|i m ht Hi IH] using map_ind; [done|].
  rewrite (sumZ_permutation _ _ _ (map_to_list_insert ht i m Hi)), sumZ_cons, IH. cbn [fst snd].
  destruct (Z.eqb_spec i usr) as [->|Hne].
  - rewrite lookup_insert_eq, Hi. cbn [default from_option]. unfold id. change (value f []) with 0. lia.
  - by rewrite lookup_insert_ne.
Qed.

Lemma flushed_sum usr f agg u :
  keys_ok u →
  gone usr f ((λ e, set_features e.2 (ticket_new agg (u32 e.1))) <$> visit (u_tickets_ht u)) = kept usr f (u_tickets_ht u).
Proof.
  intros Hk. rewrite <- sum_map_to_list. unfold gone.
  rewrite <- (sumZ_permutation _ _ _ (visit_perm (u_tickets_ht u))).
  assert (Forall (λ e : Z * std_map Z, 0 ≤ e.1 < 2 ^ 32) (visit (u_tickets_ht u))) as Hall.
  { rewrite visit_perm. apply Forall_forall. intros [i m] Hi%elem_of_map_to_list. by apply (Hk i m). }
  induction Hall as [|[i m] l Hi _ IH]; [done|]. rewrite fmap_cons, !sumZ_cons, IH.
  cbn [t_userID t_featurePairs set_features ticket_new fst snd]. cbn [fst] in Hi. by rewrite u32_small.
Qed.

(** What a pass over the table and the announcement send. *)
Definition flush agg agg' u : list ticket :=
  ((λ e, set_features e.2 (ticket_new agg (u32 e.1))) <$> visit (u_tickets_ht u)) ++ [ticket_new agg' 0].

Lemma new_interval_spec now agg u :
  next_agg_time now (u_out_timescale u) = Ret agg →
  new_interval visit now u = (Ret tt, UserCounter agg (u_in_timescale u) (u_out_timescale u) ∅
    (u_sent u ++ flush (u_current_agg_time u) agg u)).
Proof. intros E. unfold new_interval, empty_hash_table. run_m. cbn. rewrite E. unfold set_agg_time, u_send, flush. cbn. by rewrite <- app_assoc. Qed.

Lemma gone_flush usr f agg agg' u : keys_ok u → gone usr f (flush agg agg' u) = kept usr f (u_tickets_ht u).
Proof.
  intros Hk. unfold flush. rewrite gone_app, flushed_sum by done. unfold gone. cbn [sumZ foldr t_userID t_featurePairs ticket_new].
  change (value f []) with 0. destruct (0 =? usr); lia.
Qed.

(** Which branch a ticket takes. *)
Definition starts_interval t u : bool :=
  is_dummy t && (if u_in_timescale u =? 0 then u_current_agg_time u <=? t_timestamp t else u_current_agg_time u <? t_timestamp t).
Definition ignored t u : bool := is_dummy t && (t_timestamp t <? u_current_agg_time u).

Lemma receive_cases t u :
  user_counter_receive (P:=P) visit (STicket t) u =
    if ignored t u then (Ret tt, u) else if starts_interval t u then new_interval visit (t_timestamp t) u
    else insert_element t u.
Proof.
  unfold user_counter_receive, ignored, starts_interval. unfold gets, mbind at 1, M_bind at 1, id.
  destruct (is_dummy t); rewrite ?andb_true_r, ?andb_false_r; cbn [andb].
  - destruct (t_timestamp t <? u_current_agg_time u); [done|].
    destruct (u_in_timescale u =? 0); [by destruct (_ <=? _)|by destruct (_ <? _)].
  - by destruct (u_in_timescale u =? 0).
Qed.

Lemma dummy_value t f : ticket_ok t → is_dummy t = true → value f (t_featurePairs t) = 0.
Proof.
  intros (_ & _ & Hl) [_ H]%andb_true_iff. apply Z.eqb_eq in H. unfold get_extracted_features in H. rewrite u32_small in H by lia.
  by destruct (t_featurePairs t).
Qed.

Lemma receive_accounts t u :
  ticket_ok t → keys_ok u → u32 (60 * u_out_timescale u) ≠ 0 →
  ∃ u', user_counter_receive (P:=P) visit (STicket t) u = (Ret tt, u') ∧ keys_ok u' ∧
    u_out_timescale u' = u_out_timescale u ∧
    ∀ usr f, u64 (gone usr f (u_sent u') + kept usr f (u_tickets_ht u')) =
      u64 (gone usr f (u_sent u) + kept usr f (u_tickets_ht u) + gone usr f [t]).
Proof.
  intros Ht Hk Hd. rewrite receive_cases.
  assert (∀ usr f, is_dummy t = true → gone usr f [t] = 0) as H0.
  { intros usr f Hdum. unfold gone. cbn [sumZ foldr].
    destruct (t_userID t =? usr); [rewrite dummy_value by done|]; lia. }
  destruct (ignored t u) eqn:Ei; [|destruct (starts_interval t u) eqn:Es].
  - apply andb_true_iff in Ei as [Hdum _]. exists u. split; [done|]. split; [done|]. split; [done|]. intros usr f.
    by rewrite H0, Z.add_0_r.
  - apply andb_true_iff in Es as [Hdum _].
    destruct (next_agg_time (t_timestamp t) (u_out_timescale u)) as [agg|e] eqn:E.
    2:{ unfold next_agg_time in E. rewrite (proj2 (Z.eqb_neq _ _) Hd) in E. done. }
    rewrite (new_interval_spec _ _ _ E). eexists. split; [reflexivity|]. split; [by intros i m; cbn; rewrite lookup_empty|].
    split; [done|]. intros usr f. cbn [u_sent u_tickets_ht]. rewrite gone_app, gone_flush, H0 by done.
    reflexivity.
  - destruct (insert_element_spec t u Ht Hk) as (ht & E & Hk' & Hv). rewrite E. eexists. split; [reflexivity|].
    split; [exact Hk'|]. split; [done|]. intros usr f. cbn [u_sent u_tickets_ht set_tickets].
    rewrite <- Z.add_assoc. apply u64_sum; [done|]. rewrite Hv. unfold gone. cbn [sumZ foldr]. f_equal. lia.
Qed.

(** The block neither loses nor invents counts.  Whatever tickets arrive, in
    whatever order and with whatever times, what has left for a user and a feature
    and what is still in the table add up to what has arrived, modulo the width of
    the counters; each handler returns, unless the output timescale makes a
    divisor of zero. *)
Theorem user_counter_accounts (ts : list ticket) u :
  Forall ticket_ok ts → keys_ok u → u32 (60 * u_out_timescale u) ≠ 0 →
  ∃ u', user_counter_run (P:=P) visit ts u = (Ret tt, u') ∧
    ∀ usr f, u64 (gone usr f (u_sent u') + kept usr f (u_tickets_ht u')) =
      u64 (gone usr f (u_sent u) + kept usr f (u_tickets_ht u) + gone usr f ts).
Proof.
  intros Hts. revert u. induction Hts as [|t ts Ht _ IH]; intros u Hk Hd; cbn [user_counter_run].
  - exists u. split; [done|]. intros usr f. unfold gone at 3. cbn. by rewrite Z.add_0_r.
  - destruct (receive_accounts t u Ht Hk Hd) as (u1 & E1 & Hk1 & Eo & H1). rewrite (bind_Ret _ _ _ _ _ E1).
    destruct (IH u1 Hk1) as (u2 & E2 & H2); [by rewrite Eo|]. exists u2. split; [done|]. intros usr f.
    rewrite H2. change (t :: ts) with ([t] ++ ts). rewrite gone_app, Z.add_assoc. by apply u64_sum.
Qed.
End accounting.

(** ** Behind the feature extraction *)

(** Not a feature of ports or addresses, by its identifier. *)
Definition adds_up (f : string) : bool :=
  match String.index 0 "_srvPorts_" f, String.index 0 "_srvIPs_" f with None, None => true | _, _ => false end.

Section intervals.
Context {P : Type} {HP : PacketHeaderI P} {HT : TicketPacket P}.
Context (visit : gmap Z (std_map Z) → list (Z * std_map Z)).
Context (visit_perm : ∀ ht, visit ht ≡ₚ map_to_list ht).
Context (x0 : extractor) (out : Z).
Implicit Types (p : P) (ps : list P) (x : extractor) (u : user_counter) (usr T : Z) (f : string).

(** The length of an interval, in seconds. *)
Notation d := (60 * out).
Notation time := tp_timestamp_s.
Notation client := (client_IP (x_direction x0)).

(** What a packet adds to a feature of its user. *)
Definition packet_value f p : Z := value f (packet_values p (x_direction x0) (active_groups x0)).

(** What the packets of a user from time [a] to before time [b] add up to. *)
Definition counted (a b usr : Z) f ps : Z :=
  sumZ (λ p, if (a <=? time p) && (time p <? b) && (client p =? usr) then packet_value f p else 0) ps.

(** What was sent for a user and a feature with timestamp [T]. *)
Definition gone_at T usr f (l : list ticket) : Z :=
  sumZ (λ t, if (t_timestamp t =? T) && (t_userID t =? usr) then value f (t_featurePairs t) else 0) l.

Lemma gone_at_app T usr f l1 l2 : gone_at T usr f (l1 ++ l2) = gone_at T usr f l1 + gone_at T usr f l2.
Proof. apply sumZ_app. Qed.

Lemma gone_at_zero T usr f l :
  Forall (λ t, t_featurePairs t ≠ [] → t_timestamp t ≠ T) l → gone_at T usr f l = 0.
Proof.
  induction 1 as [|t l Ht _ IH]; [done|]. unfold gone_at in *. rewrite sumZ_cons, IH.
  destruct (t_featurePairs t) eqn:E; [by destruct (_ && _)|].
  by rewrite (proj2 (Z.eqb_neq _ _)) by by apply Ht.
Qed.

Lemma gone_at_all T usr f l : Forall (λ t, t_timestamp t = T) l → gone_at T usr f l = gone usr f l.
Proof.
  induction 1 as [|t l Ht _ IH]; [done|]. unfold gone_at, gone in *. by rewrite !sumZ_cons, IH, Ht, Z.eqb_refl.
Qed.

Lemma counted_app a b usr f ps p :
  counted a b usr f (ps ++ [p]) =
    counted a b usr f ps + if (a <=? time p) && (time p <? b) && (client p =? usr) then packet_value f p else 0.
Proof. unfold counted. rewrite sumZ_app. cbn [sumZ foldr]. lia. Qed.

Lemma counted_zero a b usr f ps : Forall (λ p, time p < a) ps → counted a b usr f ps = 0.
Proof.
  induction 1 as [|p ps Hp _ IH]; [done|]. unfold counted in *. rewrite sumZ_cons, IH.
  by rewrite (proj2 (Z.leb_gt _ _)) by done.
Qed.

Definition same_configuration x : Prop :=
  x_direction x = x_direction x0 ∧ x_num_of_ticket_features x = x_num_of_ticket_features x0 ∧ x_groups x = x_groups x0.

Lemma same_extract p x : same_configuration x → extract p x = extract p x0.
Proof. intros (E1 & E2 & E3). unfold extract. by rewrite E1, E2, E3. Qed.

(** The counter after the packets [ps], in minute [c]. *)
Record in_step ps (c : Z) u : Prop := InStep {
  is_scale : u_in_timescale u = 0 ∧ u_out_timescale u = out;
  is_keys : keys_ok u;
  is_multiple : (d | u_current_agg_time u);
  is_minute : (u_current_agg_time u = 0 ∧ c = 0) ∨ 60 * c < u_current_agg_time u;
  is_low : u_current_agg_time u - d ≤ 60 * c;
  is_times : Forall (λ p, time p < u_current_agg_time u) ps;
  is_kept usr f : u64 (kept usr f (u_tickets_ht u)) =
    u64 (counted (u_current_agg_time u - d) (u_current_agg_time u) usr f ps);
  is_gone T usr f : (d | T) → T ≤ u_current_agg_time u - d →
    u64 (gone_at T usr f (u_sent u)) = u64 (counted (T - d) T usr f ps);
  is_dates : Forall (λ t, (d | t_timestamp t) ∧ (t_featurePairs t ≠ [] → t_timestamp t ≤ u_current_agg_time u - d)) (u_sent u)
}.

Context (out_pos : 0 < out) (out_small : d < 2 ^ 32).

Lemma next_agg_time_spec s : 0 ≤ s < 2 ^ 62 → next_agg_time s out = Ret ((s / d + 1) * d).
Proof.
  intros Hs. unfold next_agg_time. rewrite (u32_small d) by lia. rewrite (proj2 (Z.eqb_neq _ _)) by lia.
  pose proof (Z.mul_div_le s d ltac:(lia)). pose proof (Z.div_pos s d ltac:(lia) ltac:(lia)).
  rewrite (u64_small (s / d + 1)) by nia. by rewrite u64_small by nia.
Qed.

Lemma multiple_above a b : (d | a) → (60 | b) → b < a → b + 60 ≤ a.
Proof. intros [k ->] [j ->] H. nia. Qed.

Lemma signal_dummy m : is_dummy (signal_ticket m) = true.
Proof. done. Qed.

Lemma flush_dates agg agg' u : Forall (λ t, t_featurePairs t ≠ [] → t_timestamp t = agg) (flush visit agg agg' u).
Proof.
  unfold flush. apply Forall_app. split; [|by constructor]. apply Forall_fmap, Forall_true. done.
Qed.

(** The announcement of minute [m]. *)
Lemma signal_step ps c m u :
  in_step ps c u → c < m → 60 * m < 2 ^ 62 → 0 ≤ c →
  ∃ u', user_counter_receive (P:=P) visit (STicket (signal_ticket m)) u = (Ret tt, u') ∧ in_step ps m u'.
Proof.
  intros [[Hi Ho] Hk Hd Hm Hl Ht Hkept Hgone Hdates] Hc Hm2 Hc0. rewrite receive_cases.
  unfold ignored, starts_interval. rewrite signal_dummy, Hi. cbn [andb].
  assert (t_timestamp (signal_ticket m) = 60 * m) as Es by (cbn; rewrite u64_small; lia). rewrite Es.
  set (A := u_current_agg_time u) in *. change (0 =? 0) with true. cbn iota.
  destruct (Z.ltb_spec (60 * m) A) as [Hlt|Hge].
  - exists u. split; [done|]. split; fold A; try done; [by right|lia].
  - rewrite (proj2 (Z.leb_le _ _) Hge).
    assert (next_agg_time (60 * m) (u_out_timescale u) = Ret ((60 * m / d + 1) * d)) as En
      by (rewrite Ho; apply next_agg_time_spec; lia).
    rewrite (new_interval_spec visit _ _ _ En). eexists. split; [reflexivity|].
    set (A' := (60 * m / d + 1) * d) in *.
    pose proof (Z.div_mod (60 * m) d ltac:(lia)) as Hdm. pose proof (Z.mod_pos_bound (60 * m) d ltac:(lia)).
    assert (A' - d ≤ 60 * m < A') as HA' by (unfold A'; lia).
    assert (A ≤ A' - d) as HAA.
    { destruct Hd as [k Hk2]. unfold A'. rewrite Hk2 in Hge |- *. assert (k ≤ 60 * m / d); [|nia].
      apply Z.div_le_lower_bound; lia. }
    assert (Forall (λ t, (d | t_timestamp t) ∧ (t_featurePairs t ≠ [] → t_timestamp t ≤ A' - d)) (flush visit A A' u)) as Hfl.
    { unfold flush. apply Forall_app. split.
      - apply Forall_fmap, Forall_true. intros e. cbn. by split; [|intros _].
      - constructor; [|constructor]. split; [by exists (60 * m / d + 1)|done]. }
    split; cbn [u_current_agg_time u_in_timescale u_out_timescale u_tickets_ht u_sent].
    + by rewrite Hi, Ho.
    + intros i e. cbn. by rewrite lookup_empty.
    + by exists (60 * m / d + 1).
    + right; lia.
    + lia.
    + eapply Forall_impl; [exact Ht|]. cbn. lia.
    + intros usr f. rewrite counted_zero; [unfold kept; by rewrite lookup_empty|]. eapply Forall_impl; [exact Ht|]. cbn. lia.
    + intros T usr f HdT HTle. rewrite gone_at_app.
      assert (T ≤ A - d ∨ T = A ∨ A + d ≤ T) as [Hcase|[->|Hcase]].
      { destruct HdT as [j ->], Hd as [k Hk2]. rewrite Hk2. assert (j ≤ k - 1 ∨ j = k ∨ k + 1 ≤ j) as [?|[->|?]] by lia; nia. }
      * rewrite (gone_at_zero T usr f (flush _ _ _ _)), Z.add_0_r; [by apply Hgone|].
        eapply Forall_impl; [apply flush_dates|]. cbn. intros t Hte Hne. rewrite (Hte Hne). lia.
      * rewrite (gone_at_zero A usr f (u_sent u)).
        2:{ eapply Forall_impl; [exact Hdates|]. cbn. intros t [_ Hte] Hne. specialize (Hte Hne). lia. }
        unfold flush. rewrite gone_at_app, (gone_at_all A), (flushed_sum visit visit_perm) by (done || by apply Forall_fmap, Forall_true).
        rewrite (gone_at_zero A usr f [_]), Z.add_0_r by (constructor; [done|constructor]). apply Hkept.
      * rewrite !gone_at_zero, counted_zero; [done| | |].
        -- eapply Forall_impl; [exact Ht|]. cbn. lia.
        -- eapply Forall_impl; [apply flush_dates|]. cbn. intros t Hte Hne. rewrite (Hte Hne). lia.
        -- eapply Forall_impl; [exact Hdates|]. cbn. intros t [_ Hte] Hne. specialize (Hte Hne). lia.
    + apply Forall_app. split; [|exact Hfl]. eapply Forall_impl; [exact Hdates|]. cbn.
      intros t [H1 H2]. split; [done|]. intros Hne. specialize (H2 Hne). lia.
Qed.

(** The packet itself, in the minute announced last. *)
Lemma ticket_step ps c p u :
  in_step ps c u → c = time p / 60 → 60 ≤ time p < 2 ^ 62 → 0 ≤ client p < 2 ^ 32 → extractor_ok x0 →
  ∃ u', user_counter_run (P:=P) visit
      (if bool_decide (packet_values p (x_direction x0) (active_groups x0) = []) then [] else [extract p x0]) u = (Ret tt, u') ∧
    in_step (ps ++ [p]) c u'.
Proof.
  intros [[Hi Ho] Hk Hd Hm Hl Htimes Hkept Hgone Hdates] Hc Ht Hcl Hx0.
  destruct (extract_features p x0 Hx0) as (Et & Eu & Hnd & Hlen & Hf).
  pose proof (Z.div_mod (time p) 60 ltac:(lia)). pose proof (Z.mod_pos_bound (time p) 60 ltac:(lia)).
  assert (1 ≤ c) by (rewrite Hc; apply Z.div_le_lower_bound; lia).
  assert (60 * c + 60 ≤ u_current_agg_time u).
  { destruct Hm as [[_ Hm]|Hm]; [lia|]. apply multiple_above; [done|by exists c; lia|done]. }
  assert (Forall (λ q, time q < u_current_agg_time u) (ps ++ [p])) as Htimes'.
  { apply Forall_app. split; [done|]. constructor; [lia|constructor]. }
  assert (packet_values p (x_direction x0) (active_groups x0) = [] → ∀ f, packet_value f p = 0) as Hv0.
  { intros E f. unfold packet_value. by rewrite E. }
  assert (∀ f, value f (t_featurePairs (extract p x0)) = packet_value f p) as Hv.
  { intros f. unfold value, packet_value. by rewrite Hf. }
  assert (∀ T usr f, (d | T) → T ≤ u_current_agg_time u - d →
    counted (T - d) T usr f (ps ++ [p]) = counted (T - d) T usr f ps) as Hsame.
  { intros T usr f _ HTle. rewrite counted_app, (proj2 (Z.ltb_ge (time p) T)) by lia. rewrite andb_false_r. cbn [andb]. lia. }
  assert (∀ usr f, counted (u_current_agg_time u - d) (u_current_agg_time u) usr f (ps ++ [p]) =
    counted (u_current_agg_time u - d) (u_current_agg_time u) usr f ps + if client p =? usr then packet_value f p else 0) as Hnow.
  { intros usr f. rewrite counted_app, (proj2 (Z.leb_le _ _)), (proj2 (Z.ltb_lt _ _)) by lia. done. }
  case_bool_decide as E.
  - exists u. split; [done|]. split; try done.
    + intros usr f. rewrite Hnow, (Hv0 E). destruct (_ =? usr); rewrite Z.add_0_r; apply Hkept.
    + intros T usr f HdT HTle. rewrite Hsame by done. by apply Hgone.
  - assert (is_dummy (extract p x0) = false) as Edum.
    { unfold is_dummy. pose proof (extracted_positive p x0 Hx0) as Ep. rewrite bool_decide_eq_false_2 in Ep by done.
      apply Z.ltb_lt in Ep. rewrite (proj2 (Z.eqb_neq (get_extracted_features (extract p x0)) 0)) by lia. apply andb_false_r. }
    assert (user_counter_receive (P:=P) visit (STicket (extract p x0)) u = insert_element (extract p x0) u) as Er.
    { rewrite receive_cases. unfold ignored, starts_interval. by rewrite Edum. }
    destruct (insert_element_spec (extract p x0) u) as (ht & Ei & Hk' & Hv').
    { split; [done|]. rewrite Eu. split; [done|]. lia. }
    { done. }
    exists (set_tickets ht u). cbn [user_counter_run]. rewrite Ei in Er.
    split; [by rewrite (bind_Ret _ _ _ _ _ Er)|].
    split; cbn [set_tickets u_current_agg_time u_in_timescale u_out_timescale u_tickets_ht u_sent]; try done.
    + intros usr f. rewrite Hv', Hnow, Eu, Hv. by apply u64_sum.
    + intros T usr f HdT HTle. rewrite Hsame by done. by apply Hgone.
Qed.

Lemma user_counter_run_app l1 l2 u :
  user_counter_run (P:=P) visit (l1 ++ l2) u = (user_counter_run (P:=P) visit l1;; user_counter_run (P:=P) visit l2) u.
Proof.
  revert u. induction l1 as [|t l1 IH]; intros u; cbn [app user_counter_run]; [done|].
  unfold mbind, M_bind in *. destruct (user_counter_receive visit (STicket t) u) as [[[]|e] u1]; [apply IH|done].
Qed.

Lemma extractor_run_app (l1 l2 : list P) x :
  extractor_run (l1 ++ l2) x = (extractor_run l1;; extractor_run l2) x.
Proof.
  revert x. induction l1 as [|p l1 IH]; intros x; cbn [app extractor_run]; [done|].
  unfold mbind, M_bind in *. destruct (extractor_receive (SPacket p) x) as [[[]|e] x1]; [apply IH|done].
Qed.

(** The two blocks after the packets [ps]. *)
Definition both_in_step ps : Prop :=
  ∃ x u, extractor_run ps x0 = (Ret tt, x) ∧ same_configuration x ∧
    user_counter_run (P:=P) visit (x_sent x) (UserCounter 0 0 out ∅ []) = (Ret tt, u) ∧
    in_step ps (x_current_minute x) u ∧ 0 ≤ x_current_minute x ∧
    (x_current_minute x = 0 ∨ ∃ p, p ∈ ps ∧ x_current_minute x = time p / 60).

Lemma step_both ps p :
  extractor_ok x0 → both_in_step ps → 60 ≤ time p < 2 ^ 62 → 0 ≤ client p < 2 ^ 32 → Forall (λ q, time q ≤ time p) ps →
  both_in_step (ps ++ [p]).
Proof.
  intros Hx0 (x & u & Ex & Hcfg & Eu & Hst & Hc0 & Hc) Ht Hcl Hle.
  pose proof (Z.div_mod (time p) 60 ltac:(lia)). pose proof (Z.mod_pos_bound (time p) 60 ltac:(lia)).
  assert (1 ≤ time p / 60) by (apply Z.div_le_lower_bound; lia).
  assert (x_current_minute x ≤ time p / 60) as Hcm.
  { destruct Hc as [->|(q & Hq & ->)]; [lia|]. apply Z.div_le_mono; [lia|]. rewrite Forall_forall in Hle; by apply Hle. }
  assert (extractor_ok x) as Hx by (destruct Hcfg as (_ & _ & E); unfold extractor_ok; by rewrite E).
  assert (active_groups x = active_groups x0 ∧ x_direction x = x_direction x0) as [Eg Ed].
  { destruct Hcfg as (E1 & E2 & E3). unfold active_groups. by rewrite E1, E2, E3. }
  assert (∃ u1, user_counter_run (P:=P) visit (if x_current_minute x <? time p / 60 then [signal_ticket (time p / 60)] else []) u =
    (Ret tt, u1) ∧ in_step ps (time p / 60) u1) as (u1 & E1 & Hst1).
  { destruct (Z.ltb_spec (x_current_minute x) (time p / 60)) as [Hlt|Hge].
    - destruct (signal_step ps _ (time p / 60) u Hst Hlt ltac:(lia) Hc0) as (u1 & E1 & Hst1). exists u1.
      cbn [user_counter_run]. by rewrite (bind_Ret _ _ _ _ _ E1).
    - exists u. split; [done|]. by replace (time p / 60) with (x_current_minute x) by lia. }
  destruct (ticket_step ps _ p u1 Hst1 eq_refl Ht Hcl Hx0) as (u2 & E2 & Hst2).
  exists (after_packet p x), u2. rewrite extractor_run_app, (bind_Ret _ _ _ _ _ Ex). cbn [extractor_run].
  rewrite (bind_Ret _ _ _ _ _ (extractor_receive_packet p x Hx)). split; [done|]. split; [by destruct Hcfg as (?&?&?)|].
  split.
  { cbn [after_packet x_sent]. unfold packet_tickets. rewrite !user_counter_run_app, (bind_Ret _ _ _ _ _ Eu).
    rewrite user_counter_run_app, (bind_Ret _ _ _ _ _ E1). by rewrite Eg, Ed, (same_extract _ _ Hcfg). }
  cbn [after_packet x_current_minute]. rewrite Z.max_r by done. split; [done|]. split; [lia|].
  right. exists p. split; [|done]. apply elem_of_app. right. by apply list_elem_of_singleton.
Qed.

(** C34: Feature extraction and per-user counting together.  Packets arrive in
    the order of their times, from the second minute of the epoch on.  At the end,
    for every interval of the output timescale that is over, what has been sent
    for a user and a feature that counts packets or bytes, with the interval's end as
    its timestamp, is the sum of the feature's values over exactly the packets of that
    user in the interval, modulo the width of the counters; the table holds the sums of
    the interval that is running; and every timestamp sent is the end of an interval.
    The features of ports and addresses, whose different values were meant to be
    counted, are not in this: they are added up as well ([port_numbers_added]). *)
Theorem per_user_intervals ps :
  extractor_ok x0 → x_current_minute x0 = 0 → x_sent x0 = [] →
  StronglySorted (λ p q, time p ≤ time q) ps → Forall (λ p, 60 ≤ time p < 2 ^ 62 ∧ 0 ≤ client p < 2 ^ 32) ps →
  ∃ x u, extractor_run ps x0 = (Ret tt, x) ∧
    user_counter_run (P:=P) visit (x_sent x) (UserCounter 0 0 out ∅ []) = (Ret tt, u) ∧
    Forall (λ p, time p < u_current_agg_time u) ps ∧ (ps ≠ [] → ∃ p, p ∈ ps ∧ u_current_agg_time u - d ≤ time p) ∧
    Forall (λ t, (d | t_timestamp t)) (u_sent u) ∧
    ∀ usr f, adds_up f = true →
      u64 (kept usr f (u_tickets_ht u)) = u64 (counted (u_current_agg_time u - d) (u_current_agg_time u) usr f ps) ∧
      ∀ T, (d | T) → T ≤ u_current_agg_time u - d →
        u64 (gone_at T usr f (u_sent u)) = u64 (counted (T - d) T usr f ps).
Proof.
  intros Hx0 Hm0 Hs0 Hsort Hps.
  assert (both_in_step ps) as (x & u & Ex & _ & Eu & Hst & _ & Hc).
  { induction ps as [|p ps IH] using rev_ind.
    - exists x0, (UserCounter 0 0 out ∅ []). rewrite Hs0. split; [done|]. split; [done|]. split; [done|]. rewrite Hm0.
      split; [|split; [lia|by left]]. split; cbn [u_current_agg_time u_in_timescale u_out_timescale u_tickets_ht u_sent]; try done.
      + exists 0. lia.
      + by left.
      + lia.
    - apply StronglySorted_app in Hsort as (Hle & Hsort & _). apply Forall_app in Hps as [Hps [[Ht Hcl] _]%Forall_cons].
      apply step_both; try done; [by apply IH|]. apply Forall_forall. intros q Hq. apply Hle; [done|].
      by apply list_elem_of_singleton. }
  destruct Hst as [_ _ _ Hm Hl Htimes Hkept Hgone Hdates].
  exists x, u. split; [done|]. split; [done|]. split; [done|]. split; [|split].
  - intros Hne. destruct Hc as [Hc|(p & Hp & Hc)].
    + destruct ps as [|p ps]; [done|]. exists p. split; [by left|]. apply Forall_cons in Hps as [[Hp _] _]. lia.
    + exists p. split; [done|]. pose proof (Z.mul_div_le (time p) 60 ltac:(lia)). lia.
  - eapply Forall_impl; [exact Hdates|]. by intros t [? _].
  - intros usr f _. split; [apply Hkept|]. intros T HdT HTle. by apply Hgone.
Qed.
End intervals.

(** ** Examples *)

(** An output timescale of zero, which the schema allows: the first announcement
    divides by zero. *)
Lemma zero_timescale_divides {P} visit t u :
  is_dummy t = true → u_current_agg_time u ≤ t_timestamp t → u_in_timescale u = 0 → u_out_timescale u = 0 →
  ∃ u', user_counter_receive (P:=P) visit (STicket t) u = (Throw (undefined_behaviour "division by zero"), u').
Proof.
  intros Hd Ht Hi Ho. rewrite receive_cases. unfold ignored, starts_interval. rewrite Hd, Hi. cbn [andb].
  rewrite (proj2 (Z.ltb_ge _ _)), (proj2 (Z.leb_le _ _)) by done. cbn iota.
  unfold new_interval, empty_hash_table. run_m. rewrite Ho. by eexists.
Qed.

(** Packets of a port 443 connection, by time and client. *)
Record small_packet := SmallPacket { sp_time : Z; sp_client : Z }.

#[export] Instance small_header : PacketHeaderI small_packet := {|
  Filters.l3_protocol _ := kPktTypeIP4; Filters.l4_protocol _ := kTCP; Filters.ip_src := sp_client; Filters.ip_dst _ := 1;
  p_src_port _ := 5000; p_dst_port _ := 443; p_is_tcp _ := true; p_is_udp _ := false; ip_fragoff _ := 0; p_length _ := 40
|}.

#[export] Instance small_ticket_packet : TicketPacket small_packet := {|
  tp_timestamp_s := sp_time; tp_has_fin _ := false; tp_has_syn _ := true; tp_has_rst _ := false; tp_has_psh _ := false;
  tp_ack _ := false
|}.

Notation ticket_seven := (add_feature "a" 5 (ticket_new 70 7)).

Lemma user_counter_accounts_witness :
  ∃ u', user_counter_run (P:=small_packet) map_to_list [ticket_seven; ticket_seven] user_counter_new = (Ret tt, u') ∧
    u64 (gone 7 "a" (u_sent u') + kept 7 "a" (u_tickets_ht u')) = 10.
Proof.
  destruct (user_counter_accounts (P:=small_packet) map_to_list (λ ht, Permutation_refl _) [ticket_seven; ticket_seven] user_counter_new)
    as (u' & E & H).
  - assert (ticket_ok ticket_seven) by (split; [apply NoDup_singleton|done]). by constructor; [|constructor].
  - intros i m. cbn. by rewrite lookup_empty.
  - done.
  - exists u'. split; [exact E|]. rewrite H. reflexivity.
Defined.

Definition small_run : list small_packet := [SmallPacket 65 7; SmallPacket 100 7; SmallPacket 119 9; SmallPacket 130 7].

(** A user who connects three times to port 443: the feature of the server ports, of
    which there is one, has 1329. *)
Definition ports_extractor : extractor := Extractor 0 UPLINK 1 [Group 6 2 65535 NUMPORTS_ACTIVE] [].
Definition three_to_one_port : list small_packet := [SmallPacket 65 7; SmallPacket 70 7; SmallPacket 80 7; SmallPacket 130 7].

Lemma port_numbers_added :
  ∃ x u, extractor_run three_to_one_port ports_extractor = (Ret tt, x) ∧
    user_counter_run (P:=small_packet) map_to_list (x_sent x) user_counter_new = (Ret tt, u) ∧
    gone_at 120 7 "UL_SYN_srvPorts_p_65535" (u_sent u) = 3 * 443.
Proof. do 2 eexists. split; [vm_compute; reflexivity|]. split; vm_compute; reflexivity. Qed.

Lemma per_user_intervals_witness :
  ∃ x u, extractor_run small_run (configured_extractor "SYN") = (Ret tt, x) ∧
    user_counter_run (P:=small_packet) map_to_list (x_sent x) user_counter_new = (Ret tt, u) ∧ u_current_agg_time u = 180 ∧
    u64 (gone_at 120 7 "UL_SYN_packets_p_65535" (u_sent u)) = 2.
Proof.
  destruct (per_user_intervals map_to_list (λ ht, Permutation_refl _) (configured_extractor "SYN") 1 eq_refl eq_refl small_run)
    as (x & u & Ex & Eu & Hlt & (p & Hp & Hlow) & _ & H).
  - apply (proj1 (extractor_configure_ok (example_configuration "SYN") extractor_new extractor_new_ok)).
  - done.
  - done.
  - unfold small_run. repeat apply SSorted_cons; [apply SSorted_nil|..]; repeat (constructor; [cbn; lia|]); constructor.
  - unfold small_run. repeat (constructor; [vm_compute; intuition congruence|]). constructor.
  - done.
  - exists x, u. split; [exact Ex|]. split; [exact Eu|].
    assert (u_current_agg_time u = 180) as EA.
    { assert (extractor_run small_run (configured_extractor "SYN") = (Ret tt, x)) as Ex' by exact Ex.
      vm_compute in Ex'. injection Ex' as <-. vm_compute in Eu. by injection Eu as <-. }
    split; [exact EA|]. destruct (H 7 "UL_SYN_packets_p_65535") as [_ Hg]; [reflexivity|]. rewrite Hg; [reflexivity|by exists 2|rewrite EA; lia].
Defined.
