(* ===== verification/Binning.v ===== *)
(** * Histogram edges

    Models [usr/app_Stat_AD/blocks/binning_function.cpp]: the search for a logarithmic
    binning with a given number of classes.

    [pow] and [log] of the mathematical library are arguments.  Converting a double
    that is out of range to an integer, and sorting a sequence with a NaN, are
    undefined behaviour. *)

From S2P Require Export Double.

(** ** Integers from doubles *)

(** [floor] and [ceil], as integers; nothing for an infinity or NaN. *)
Definition dfloor (x : double) : option Z :=
  match x with
  | S754_zero _ => Some 0
  | S754_finite s m e => Some (Z.shiftl (cond_Zopp s (Zpos m)) e)
  | _ => None
  end.
Definition dceil (x : double) : option Z := Z.opp <$> dfloor (SFopp x).

Definition to_uint64 (z : option Z) : outcome Z :=
  match z with
  | Some z => if (0 <=? z) && (z <? 2 ^ 64) then Ret z else Throw (undefined_behaviour "uint64_t of a double")
  | None => Throw (undefined_behaviour "uint64_t of a double")
  end.
Definition to_int (z : option Z) : outcome Z :=
  match z with
  | Some z => if (-2 ^ 31 <=? z) && (z <? 2 ^ 31) then Ret z else Throw (undefined_behaviour "int of a double")
  | None => Throw (undefined_behaviour "int of a double")
  end.

(** The order [std::sort] uses: [y < x] does not hold. *)
Definition not_above (x y : double) : Prop := dlt y x = false.
#[export] Instance not_above_dec : RelDecision not_above.
Proof. intros x y. unfold not_above. apply _. Defined.

(** [std::unique]: of equal neighbours the first stays. *)
Fixpoint unique (l : list Z) : list Z :=
  match l with
  | x :: (y :: _) as l' => if x =? y then unique l' else x :: unique l'
  | _ => l
  end.

Fixpoint floors (l : list double) : outcome (list Z) :=
  match l with
  | [] => Ret []
  | x :: l =>
      match to_uint64 (dfloor x) with
      | Throw e => Throw e
      | Ret f => match floors l with Throw e => Throw e | Ret fs => Ret (f :: fs) end
      end
  end.

Definition unique_floor (array : list double) : outcome (list Z) :=
  if bool_decide (dnan ∈ array) then Throw (undefined_behaviour "sort with a NaN")
  else match floors (merge_sort not_above array) with
  | Throw e => Throw e
  | Ret fs => Ret (unique fs)
  end.

(** ** The search *)

Section binning.
Context (pow : double → double → double) (log : double → double).

Definition max_iter : Z := 10000.

(** [0; b^0; b^1; ...] with [n] powers. *)
Definition powers (b : double) (n : nat) : list double :=
  dzero :: ((λ i, pow b (double_of_Z (Z.of_nat i))) <$> seq 0 n).

(** The exponent that reaches the data span, and the edges for it. *)
Definition edges_for (max_data : Z) (b : double) : outcome (list Z) :=
  match to_int (dceil (ddiv (log (double_of_Z max_data)) (log b))) with
  | Throw e => Throw e
  | Ret esp => unique_floor (powers b (Z.to_nat (esp + 1)))
  end.

Record search := Search {
  s_b : double; s_best_b : double; s_sup : double; s_inf : double; s_scarto : Z; s_best_scarto : Z; s_cont : Z;
  s_bins : list Z
}.

(** One round of the [while]. *)
Definition search_step (max_data NNC : Z) (s : search) : outcome search :=
  let improved := s_scarto s <? s_best_scarto s in
  let best_scarto := if improved then s_scarto s else s_best_scarto s in
  let best_b := if improved then s_b s else s_best_b s in
  let cont := if improved then 0 else s_cont s + 1 in
  let l := Z.of_nat (length (s_bins s)) in
  let inf := if NNC + 1 <? l then s_b s else s_inf s in
  let sup := if NNC + 1 <? l then s_sup s else s_b s in
  let b := ddiv (dadd inf sup) (double_of_Z 2) in
  match edges_for max_data b with
  | Throw e => Throw e
  | Ret bins => Ret (Search b best_b sup inf (Z.abs (Z.of_nat (length bins) - (NNC + 1))) best_scarto cont bins)
  end.

Definition goes_on (s : search) : bool := negb (s_scarto s =? 0) && (s_cont s <=? max_iter).

(** [fuel] bounds the rounds. *)
Fixpoint search_loop (fuel : nat) (max_data NNC : Z) (s : search) : outcome search :=
  if goes_on s then
    match fuel with
    | O => Throw (undefined_behaviour "does not return")
    | S fuel =>
        match search_step max_data NNC s with
        | Throw e => Throw e
        | Ret s => search_loop fuel max_data NNC s
        end
    end
  else Ret s.

Definition number_of_classes (max_data n_class_max : Z) : Z := u16 (Z.min n_class_max (s64 max_data)).

Definition search_start (max_data NNC : Z) : outcome search :=
  let b := pow (double_of_Z max_data) (ddiv (double_of_Z 1) (double_of_Z (NNC - 1))) in
  match unique_floor (powers b (Z.to_nat NNC)) with
  | Throw e => Throw e
  | Ret bins =>
      let scarto := Z.abs (Z.of_nat (length bins) - (NNC + 1)) in
      Ret (Search b b b (double_of_Z 1) scarto scarto 0 bins)
  end.

(** The edges and the number of classes. *)
Definition binning_function (fuel : nat) (max_data n_class_max : Z) (flag0 : bool) : outcome (list Z * Z) :=
  if max_data =? 0 then Ret (if flag0 then ([], 0) else ([max_data], 1))
  else
    let NNC := number_of_classes max_data n_class_max in
    match search_start max_data NNC with
    | Throw e => Throw e
    | Ret s =>
        match search_loop fuel max_data NNC s with
        | Throw e => Throw e
        | Ret s =>
            match (if max_iter <? s_cont s then edges_for max_data (s_best_b s) else Ret (s_bins s)) with
            | Throw e => Throw e
            | Ret bins =>
                let NC := u16 (Z.of_nat (length bins) - 1) in
                Ret (if flag0 then (tl bins, u16 (NC - 1)) else (bins, NC))
            end
        end
    end.
End binning.

(** ** Floors of sorted doubles *)

Definition valid_double (x : double) : bool := valid_binary 53 1024 x.

Lemma shiftl_scaled z e K : 0 ≤ K → - K ≤ e → Z.shiftl z e = (z * 2 ^ (e + K)) / 2 ^ K.
Proof.
  intros HK He. destruct (Z.leb_spec 0 e) as [H0|H0].
  - rewrite Z.shiftl_mul_pow2, Z.pow_add_r by lia. rewrite Z.mul_assoc, Z.div_mul by lia. done.
  - replace e with (- (- e)) at 1 by lia. rewrite Z.shiftl_opp_r, Z.shiftr_div_pow2 by lia.
    replace (2 ^ K) with (2 ^ (e + K) * 2 ^ (- e)) by (rewrite <- Z.pow_add_r by lia; f_equal; lia).
    rewrite (Z.mul_comm z), Z.div_mul_cancel_l by lia. done.
Qed.

Lemma shiftl_mono m1 e1 m2 e2 K :
  0 ≤ K → - K ≤ e1 → - K ≤ e2 → m1 * 2 ^ (e1 + K) ≤ m2 * 2 ^ (e2 + K) → Z.shiftl m1 e1 ≤ Z.shiftl m2 e2.
Proof. intros HK H1 H2 Hle. rewrite (shiftl_scaled m1 e1 K), (shiftl_scaled m2 e2 K) by done. apply Z.div_le_mono; lia. Qed.

Lemma digits2_pos_bounds m : 2 ^ (Zpos (digits2_pos m) - 1) ≤ Zpos m < 2 ^ Zpos (digits2_pos m).
Proof.
  induction m as [m IH|m IH|]; [| |done]; cbn [digits2_pos]; rewrite Pos2Z.inj_succ;
    replace (2 ^ Z.succ (Z.pos (digits2_pos m))) with (2 * 2 ^ Z.pos (digits2_pos m)) by (rewrite Z.pow_succ_r; lia);
    replace (2 ^ (Z.succ (Z.pos (digits2_pos m)) - 1)) with (2 * 2 ^ (Z.pos (digits2_pos m) - 1))
      by (rewrite <- Z.pow_succ_r by lia; f_equal; lia); lia.
Qed.

Lemma valid_finite s m e :
  valid_double (S754_finite s m e) = true →
  -1074 ≤ e ∧ Zpos m < 2 ^ 53 ∧ (-1074 < e → 2 ^ 52 ≤ Zpos m).
Proof.
  unfold valid_double, valid_binary, bounded, canonical_mantissa, fexp, emin. intros [Hc _]%andb_true_iff.
  apply Z.eqb_eq in Hc. pose proof (digits2_pos_bounds m) as [Hl Hu].
  assert (-1074 ≤ e ∧ Z.pos (digits2_pos m) ≤ 53 ∧ (-1074 < e → Z.pos (digits2_pos m) = 53)) as (He & Hd & Hd') by lia.
  split; [done|]. split.
  - eapply Z.lt_le_trans; [exact Hu|]. apply Z.pow_le_mono_r; lia.
  - intros H. by rewrite (Hd' H) in Hl.
Qed.

Lemma not_above_floor x y a b :
  valid_double x = true → valid_double y = true → not_above x y → dfloor x = Some a → dfloor y = Some b → 0 ≤ a → 0 ≤ b → a ≤ b.
Proof.
  intros Hx Hy Hle Ea Eb Ha Hb.
  destruct x as [sx|sx| |sx mx ex]; try done; destruct y as [sy|sy| |sy my ey]; try done; injection Ea as <-; injection Eb as <-.
  - done.
  - done.
  - destruct sx; [exfalso|done]. cbn [cond_Zopp] in Ha. apply Z.shiftl_nonneg in Ha. lia.
  - destruct sx; [exfalso; cbn [cond_Zopp] in Ha; apply Z.shiftl_nonneg in Ha; lia|].
    destruct sy; [exfalso; cbn [cond_Zopp] in Hb; apply Z.shiftl_nonneg in Hb; lia|].
    cbn [cond_Zopp]. destruct (valid_finite _ _ _ Hx) as (Hex & Hmx & Hmx'), (valid_finite _ _ _ Hy) as (Hey & Hmy & Hmy').
    apply (shiftl_mono _ _ _ _ 1074); [lia..|].
    unfold not_above, dlt, SFltb, SFcompare in Hle.
    destruct (Z.compare_spec ey ex) as [->|Hlt|Hgt].
    + apply Z.mul_le_mono_nonneg_r; [lia|]. destruct (Pcompare my mx Eq) eqn:Em; try done.
      * apply Pos.compare_eq in Em as ->. done.
      * apply Pos.compare_gt_iff in Em. lia.
    + done.
    + specialize (Hmy' ltac:(lia)).
      assert (2 ^ (ey + 1074) = 2 ^ (ey - ex - 1) * 2 * 2 ^ (ex + 1074)) as ->.
      { rewrite <- (Z.pow_1_r 2) at 3. rewrite <- !Z.pow_add_r by lia. f_equal. lia. }
      assert (1 ≤ 2 ^ (ey - ex - 1)) by (apply (Z.pow_le_mono_r 2 0); lia).
      assert (0 < 2 ^ (ex + 1074)) by (apply Z.pow_pos_nonneg; lia). rewrite <- !Z.mul_assoc, (Z.mul_assoc (Z.pos my)), (Z.mul_assoc (Z.pos my * _)).
      apply Z.mul_le_mono_nonneg_r; [lia|]. nia.
Qed.

(** ** The edges *)

Lemma floors_ret l fs : floors l = Ret fs → Forall2 (λ x z, dfloor x = Some z ∧ 0 ≤ z < 2 ^ 64) l fs.
Proof.
  revert fs. induction l as [|x l IH]; intros fs E; cbn [floors] in E; [injection E as <-; constructor|].
  unfold to_uint64 in E. destruct (dfloor x) as [z|] eqn:Ez; [|done].
  destruct ((0 <=? z) && (z <? 2 ^ 64)) eqn:Er; [|done]. apply andb_true_iff in Er as [H1%Z.leb_le H2%Z.ltb_lt].
  destruct (floors l) as [fs'|e]; [|done]. injection E as <-. constructor; [done|]. by apply IH.
Qed.

#[export] Instance not_above_total : Total not_above.
Proof.
  intros x y. unfold not_above, dlt, SFltb. destruct (SFcompare y x) as [[]|] eqn:E1; try (by left).
  right. destruct x as [[]|[]| |[] m1 e1], y as [[]|[]| |[] m2 e2]; try done; cbn in *.
  all: pose proof (Pos.compare_cont_antisym m2 m1 Eq) as Hc; cbn [CompOpp] in Hc.
  all: rewrite (Z.compare_antisym e2 e1); destruct (e2 ?= e1); cbn [CompOpp]; try done; rewrite <- Hc.
  all: by destruct (Pos.compare_cont Eq m2 m1).
Qed.

Lemma sorted_floors l fs :
  Sorted not_above l → Forall (λ x, valid_double x = true) l → floors l = Ret fs → Sorted Z.le fs.
Proof.
  intros Hs Hv E. apply floors_ret in E. revert fs E. induction Hs as [|x l Hs IH Hd]; intros fs E.
  - apply Forall2_nil_inv_l in E as ->. constructor.
  - apply Forall2_cons_inv_l in E as (z & fs' & [Ez Hz] & E & ->). apply Forall_cons in Hv as [Hx Hv].
    constructor; [by apply IH|]. destruct Hd as [|y l Hxy]; [apply Forall2_nil_inv_l in E as ->; constructor|].
    apply Forall2_cons_inv_l in E as (z' & fs'' & [Ez' Hz'] & _ & ->). apply Forall_cons in Hv as [Hy _].
    constructor. apply (not_above_floor x y); try done; lia.
Qed.

Lemma elem_of_unique z l : z ∈ unique l ↔ z ∈ l.
Proof.
  induction l as [|x l IH]; [done|]. destruct l as [|y l]; [done|].
  change (unique (x :: y :: l)) with (if x =? y then unique (y :: l) else x :: unique (y :: l)).
  destruct (Z.eqb_spec x y) as [->|Hne]; [rewrite IH; set_solver|]. by rewrite !(elem_of_cons _ z x), IH.
Qed.

Lemma unique_sorted l : Sorted Z.le l → StronglySorted Z.lt (unique l).
Proof.
  intros Hs%Sorted_StronglySorted; [|apply _]. induction Hs as [|x l Hs IH Hall]; [constructor|].
  destruct l as [|y l]; [by repeat constructor|].
  change (unique (x :: y :: l)) with (if x =? y then unique (y :: l) else x :: unique (y :: l)).
  destruct (Z.eqb_spec x y) as [->|Hne]; [done|]. constructor; [done|].
  apply Forall_forall. intros z Hz. rewrite elem_of_unique in Hz.
  apply Forall_cons in Hall as [Hxy _]. inversion Hs as [|? ? _ Hall]; subst.
  apply elem_of_cons in Hz as [->|Hz]; [lia|]. rewrite Forall_forall in Hall. specialize (Hall z Hz). lia.
Qed.

(** Whatever the doubles, the edges are integers in strictly ascending order. *)
Lemma unique_floor_sorted l fs :
  Forall (λ x, valid_double x = true) l → unique_floor l = Ret fs → StronglySorted Z.lt fs ∧ Forall (λ z, 0 ≤ z < 2 ^ 64) fs.
Proof.
  intros Hv E. unfold unique_floor in E. case_bool_decide; [done|].
  destruct (floors (merge_sort not_above l)) as [gs|e] eqn:Ef; [|done]. injection E as <-.
  assert (Forall (λ x, valid_double x = true) (merge_sort not_above l)) as Hv' by by rewrite merge_sort_Permutation.
  split.
  - apply unique_sorted. exact (sorted_floors _ _ (Sorted_merge_sort not_above l) Hv' Ef).
  - apply Forall_forall. intros z Hz. rewrite elem_of_unique in Hz. apply floors_ret in Ef.
    apply list_elem_of_lookup in Hz as [i Hi]. destruct (Forall2_lookup_r _ _ _ _ _ Ef Hi) as (x & _ & _ & Hr). done.
Qed.

(** ** The search ends, and its result *)

Notation does_not_return := (undefined_behaviour "does not return").

Section results.
Context (pow : double → double → double) (log : double → double).
Implicit Types (s : search) (max_data NNC : Z).

Lemma length_unique l : (length (unique l) ≤ length l)%nat.
Proof.
  induction l as [|x l IH]; [done|]. destruct l as [|y l]; [done|].
  change (unique (x :: y :: l)) with (if x =? y then unique (y :: l) else x :: unique (y :: l)).
  destruct (x =? y); cbn [length] in *; lia.
Qed.

Lemma length_unique_floor l fs : unique_floor l = Ret fs → (length fs ≤ length l)%nat.
Proof.
  unfold unique_floor. case_bool_decide; [done|]. destruct (floors _) as [gs|e] eqn:Ef; [|done]. intros [= <-].
  apply floors_ret in Ef. apply Forall2_length in Ef. rewrite (merge_sort_Permutation not_above l) in Ef.
  pose proof (length_unique gs). lia.
Qed.

Lemma unique_floor_ends l : unique_floor l ≠ Throw does_not_return.
Proof.
  unfold unique_floor. case_bool_decide; [done|].
  assert (floors (merge_sort not_above l) ≠ Throw does_not_return) as Hf.
  { generalize (merge_sort not_above l). intros k. induction k as [|x k IH]; cbn [floors]; [done|]. unfold to_uint64.
    destruct (dfloor x) as [y|]; [|done]. destruct (_ && _); [|done]. destruct (floors k); [done|]. by intros [= ->]. }
  destruct (floors _); [done|]. by intros [= ->].
Qed.

Lemma edges_for_ends max_data b : edges_for pow log max_data b ≠ Throw does_not_return.
Proof.
  unfold edges_for, to_int. destruct (dceil _) as [z|]; [|done]. destruct (_ && _); [|done]. apply unique_floor_ends.
Qed.

Definition measure s : Z := s_best_scarto s * (max_iter + 2) + (max_iter + 1 - s_cont s).
Definition search_ok s : Prop := 0 ≤ s_best_scarto s ∧ 0 ≤ s_scarto s ∧ 0 ≤ s_cont s ≤ max_iter + 1.

Lemma search_step_measure max_data NNC s s' :
  search_ok s → goes_on s = true → search_step pow log max_data NNC s = Ret s' → search_ok s' ∧ measure s' < measure s.
Proof.
  intros (Hb & Hs & Hc) [_ Hgo%Z.leb_le]%andb_true_iff E. unfold search_step in E.
  destruct (edges_for pow log max_data _) as [bins|e]; [|done]. injection E as <-. unfold search_ok, measure.
  cbn [s_best_scarto s_scarto s_cont]. unfold max_iter in *.
  destruct (Z.ltb_spec (s_scarto s) (s_best_scarto s)); split; try split; try split; lia.
Qed.

Lemma search_loop_ends fuel max_data NNC s :
  search_ok s → measure s ≤ Z.of_nat fuel → search_loop pow log fuel max_data NNC s ≠ Throw does_not_return.
Proof.
  revert s. induction fuel as [|fuel IH]; intros s Hs Hm; cbn [search_loop].
  - assert (goes_on s = false) as ->; [|done].
    unfold goes_on. destruct Hs as (Hb & _ & Hc). unfold measure, max_iter in *.
    rewrite (proj2 (Z.leb_gt _ _)) by lia. apply andb_false_r.
  - destruct (goes_on s) eqn:Eg; [|done].
    destruct (search_step pow log max_data NNC s) as [s1|e] eqn:E.
    + destruct (search_step_measure _ _ _ _ Hs Eg E) as [Hs1 Hm1]. apply IH; [done|lia].
    + intros [= ->]. unfold search_step in E.
      destruct (edges_for pow log max_data _) as [bins|e] eqn:Ee; [done|]. injection E as ->. by apply edges_for_ends in Ee.
Qed.

(** The edges at the end are the first ones or those of some base. *)
Lemma search_loop_bins fuel max_data NNC s s' :
  search_loop pow log fuel max_data NNC s = Ret s' → s' = s ∨ ∃ b, edges_for pow log max_data b = Ret (s_bins s').
Proof.
  revert s. induction fuel as [|fuel IH]; intros s; cbn [search_loop]; (destruct (goes_on s); [|intros [= <-]; by left]); [done|].
  destruct (search_step pow log max_data NNC s) as [s1|e] eqn:E; [|done]. intros [->|Hb]%IH; [|by right]. right.
  unfold search_step in E. destruct (edges_for pow log max_data _) as [bins|e] eqn:Ee; [|done]. injection E as <-.
  eexists. exact Ee.
Qed.

Lemma length_powers b n : length (powers pow b n) = S n.
Proof. unfold powers. cbn [length]. by rewrite length_fmap, length_seq. Qed.

(** The search for a binning ends, whatever the mathematical library
    computes: a round either improves the number of classes, or is one of at most
    10001 rounds since the last improvement.  So the number of rounds is below
    10002 times the number of wanted classes plus two. *)
Theorem binning_terminates fuel max_data n_class_max flag0 :
  (u16 (Z.min n_class_max (s64 max_data)) + 2) * 10002 ≤ Z.of_nat fuel →
  binning_function pow log fuel max_data n_class_max flag0 ≠ Throw does_not_return.
Proof.
  intros Hf. unfold binning_function. destruct (max_data =? 0); [by destruct flag0|].
  fold (number_of_classes max_data n_class_max) in Hf. set (NNC := number_of_classes max_data n_class_max) in *.
  assert (0 ≤ NNC) as HN by apply u16_range.
  destruct (search_start pow max_data NNC) as [s|e] eqn:Es.
  2:{ intros [= ->]. unfold search_start in Es. destruct (unique_floor _) as [bins|e] eqn:Eu; [done|]. injection Es as ->.
      by apply unique_floor_ends in Eu. }
  unfold search_start in Es. destruct (unique_floor _) as [bins|e] eqn:Eu; [|done]. injection Es as <-.
  apply length_unique_floor in Eu. rewrite length_powers in Eu.
  match goal with |- context [search_loop _ _ _ _ _ ?s] => set (s0 := s) end.
  pose proof (search_loop_ends fuel max_data NNC s0) as Hn.
  unfold search_ok, measure, s0, max_iter in Hn. cbn [s_best_scarto s_scarto s_cont] in Hn. fold s0 in Hn.
  specialize (Hn ltac:(lia) ltac:(lia)).
  destruct (search_loop pow log fuel max_data NNC s0) as [s|e]; [|by intros [= ->]].
  destruct (max_iter <? s_cont s); [|by destruct flag0].
  destruct (edges_for pow log max_data (s_best_b s)) as [b|e] eqn:Ee; [by destruct flag0|]. intros [= ->].
  by apply edges_for_ends in Ee.
Qed.

Context (pow_valid : ∀ x y, valid_double (pow x y) = true).

Lemma powers_valid b n : Forall (λ x, valid_double x = true) (powers pow b n).
Proof. constructor; [done|]. apply Forall_fmap, Forall_true. intros i. apply pow_valid. Qed.

Definition good_edges (bins : list Z) : Prop :=
  StronglySorted Z.lt bins ∧ Forall (λ z, 0 ≤ z < 2 ^ 64) bins ∧ head bins = Some 0.

Lemma powers_edges b n bins : unique_floor (powers pow b n) = Ret bins → good_edges bins.
Proof.
  intros E. destruct (unique_floor_sorted _ _ (powers_valid b n) E) as [Hs Hr].
  split; [done|]. split; [done|].
  assert (0 ∈ bins) as H0.
  { unfold unique_floor in E. case_bool_decide; [done|]. destruct (floors _) as [gs|e] eqn:Ef; [|done]. injection E as <-.
    rewrite elem_of_unique. apply floors_ret in Ef.
    assert (dzero ∈ merge_sort not_above (powers pow b n)) as Hz by (rewrite merge_sort_Permutation; by left).
    apply list_elem_of_lookup in Hz as [i Hi]. destruct (Forall2_lookup_l _ _ _ _ _ Ef Hi) as (z & Hz & Ez & _).
    injection Ez as <-. by apply list_elem_of_lookup_2 in Hz. }
  destruct bins as [|z bins]; [by apply not_elem_of_nil in H0|]. cbn.
  apply elem_of_cons in H0 as [->|H0]; [done|]. inversion Hs as [|? ? _ Hall]; subst.
  rewrite Forall_forall in Hall. specialize (Hall 0 H0). apply Forall_cons in Hr as [Hr _]. lia.
Qed.

(** The edges of a histogram.  When the search returns, they are integers in
    strictly ascending order, from 0 on, or from the first positive one when the
    class of 0 is left out; and the number of classes is one less than the number
    of edges.  The only exception is a maximum of 0, with one edge and one class,
    or none of either.  This holds for any [pow] whose results are doubles. *)
Lemma binning_facts fuel max_data n_class_max flag0 bins nc :
  binning_function pow log fuel max_data n_class_max flag0 = Ret (bins, nc) →
  StronglySorted Z.lt bins ∧ Forall (λ z, 0 ≤ z < 2 ^ 64 ∨ max_data = z) bins ∧
  if max_data =? 0 then bins = (if flag0 then [] else [0]) ∧ nc = if flag0 then 0 else 1
  else nc = u16 (Z.of_nat (length bins) - 1) ∧ if flag0 then Forall (λ z, 0 < z) bins else head bins = Some 0.
Proof.
  unfold binning_function. destruct (Z.eqb_spec max_data 0) as [->|Hne].
  { destruct flag0; intros [= <- <-].
    - split; [constructor|split; [constructor|done]].
    - split; [by repeat constructor|split; [|done]]. constructor; [by right|constructor]. }
  set (NNC := number_of_classes max_data n_class_max).
  destruct (search_start pow max_data NNC) as [s0|e] eqn:Es; [|done].
  destruct (search_loop pow log fuel max_data NNC s0) as [s|e] eqn:El; [|done].
  destruct (if max_iter <? s_cont s then edges_for pow log max_data (s_best_b s) else Ret (s_bins s)) as [bs|e] eqn:Ebs; [|done].
  assert (∀ b bs', edges_for pow log max_data b = Ret bs' → good_edges bs') as Hedges.
  { intros b bs' E. unfold edges_for in E. destruct (to_int _) as [z|e]; [|done]. by apply powers_edges in E. }
  assert (good_edges bs) as (Hs & Hr & Hh).
  { destruct (max_iter <? s_cont s); [by apply Hedges in Ebs|]. injection Ebs as <-.
    unfold search_start in Es. destruct (unique_floor _) as [bins0|e] eqn:Eu; [|done]. injection Es as <-.
    apply powers_edges in Eu. apply search_loop_bins in El as [->|[b El]]; [exact Eu|by apply Hedges in El]. }
  destruct bs as [|z bs]; [done|]. cbn in Hh. injection Hh as ->.
  intros E. destruct flag0; injection E as <- <-.
  - inversion Hs as [|? ? Hs' Hall]; subst. apply Forall_cons in Hr as [_ Hr]. cbn [tl].
    split; [done|]. split; [eapply Forall_impl; [exact Hr|]; by left|]. split; [|done]. cbn [length].
    rewrite Nat2Z.inj_succ. unfold Z.succ. rewrite Z.add_simpl_r. unfold u16. by rewrite Zminus_mod_idemp_l.
  - split; [done|]. split; [eapply Forall_impl; [exact Hr|]; by left|]. done.
Qed.
End results.

(** ** Examples *)

(** A stand-in for [pow] that makes the edges 0 to 4. *)
Definition linear_pow (x y : double) : double :=
  let z := dadd y (double_of_Z 1) in if valid_double z then z else dzero.

Lemma linear_pow_valid x y : valid_double (linear_pow x y) = true.
Proof. unfold linear_pow. by destruct (valid_double (dadd y (double_of_Z 1))) eqn:E. Qed.

Lemma binning_terminates_witness :
  binning_function linear_pow id (Z.to_nat 60012) 4 80 true ≠ Throw does_not_return.
Proof. apply (binning_terminates linear_pow id (Z.to_nat 60012) 4 80 true). by rewrite Z2Nat.id. Defined.

Lemma binning_facts_example :
  binning_function linear_pow id 0 4 80 true = Ret ([1; 2; 3; 4], 3) ∧ StronglySorted Z.lt [1; 2; 3; 4].
Proof.
  assert (binning_function linear_pow id 0 4 80 true = Ret ([1; 2; 3; 4], 3)) as E by by vm_compute.
  split; [exact E|]. by destruct (binning_facts linear_pow id linear_pow_valid _ _ _ _ _ _ E) as (Hs & _).
Qed.

(** Zero classes wanted and the class of 0 left out: no edges, and a number of
    classes of 65535. *)
Lemma no_classes_wanted : binning_function linear_pow id 0 4 0 true = Ret ([], 65535).
Proof. by vm_compute. Qed.
