(* ===== verification/HistoCalc.v ===== *)
(** * Histograms of features

    Models [usr/app_Stat_AD/blocks/HistoCalc.cpp]: a block that counts, for every
    configured feature and every interval, how many users had a value in each bin.

    The order in which a pass visits the [unordered_map] of histograms is an
    argument, some permutation of its entries; [pow] and [log] of the mathematical
    library too.  [c_sent] lists the histograms that left through the output gate. *)

From S2P Require Export Binning PerUser.

Record feat_info := FeatInfo { fi_max_val : Z; fi_edges : list Z; fi_histo_dim : Z }.
Record histo_entry := HistoEntry { he_users : gset Z; he_histogram : list Z; he_total_val : Z }.

Record histo_calc := HistoCalc {
  c_current_agg_time : Z; c_timescale : Z; c_max_nr_bins : Z; c_flag0 : bool; c_feat_info_map : std_map feat_info;
  c_histo_ht : gmap string histo_entry; c_sent : list histo
}.

Definition c_set_time (t : Z) (c : histo_calc) : histo_calc :=
  HistoCalc t (c_timescale c) (c_max_nr_bins c) (c_flag0 c) (c_feat_info_map c) (c_histo_ht c) (c_sent c).
Definition c_set_params (ts bins : Z) (f0 : bool) (c : histo_calc) : histo_calc :=
  HistoCalc (c_current_agg_time c) ts bins f0 (c_feat_info_map c) (c_histo_ht c) (c_sent c).
Definition c_set_info (m : std_map feat_info) (c : histo_calc) : histo_calc :=
  HistoCalc (c_current_agg_time c) (c_timescale c) (c_max_nr_bins c) (c_flag0 c) m (c_histo_ht c) (c_sent c).
Definition c_set_table (ht : gmap string histo_entry) (c : histo_calc) : histo_calc :=
  HistoCalc (c_current_agg_time c) (c_timescale c) (c_max_nr_bins c) (c_flag0 c) (c_feat_info_map c) ht (c_sent c).
Definition c_send (hs : list histo) (c : histo_calc) : histo_calc :=
  HistoCalc (c_current_agg_time c) (c_timescale c) (c_max_nr_bins c) (c_flag0 c) (c_feat_info_map c) (c_histo_ht c) (c_sent c ++ hs).

Definition histo_calc_new : histo_calc := HistoCalc 0 0 80 true [] ∅ [].

(** ** Configuration *)

Section configuration.
Context {N : Type} `{XmlNode N} (pow : double → double → double) (log : double → double) (fuel : nat).

Definition c_signal_error {A} (fieldname : string) : M histo_calc A :=
  throw (runtime_error ("HistoCalc:: malformed xml node for the field " +:+ fieldname)).

(** [n.child(tag).attribute("val")] *)
Definition val_of (n : N) (tag fieldname : string) : M histo_calc string :=
  match child n tag with
  | None => c_signal_error fieldname
  | Some c => match attribute c "val" with Some a => mret a | None => c_signal_error fieldname end
  end.

Definition configure_feature (feat_m_v : N) : M histo_calc unit :=
  match attribute feat_m_v "max_val" with
  | None => c_signal_error "feature_max_val"
  | Some maxVal =>
      c ← gets id;
      match binning_function pow log fuel (as_uint maxVal) (u16 (c_max_nr_bins c)) (c_flag0 c) with
      | Throw e => throw e
      | Ret (edges, dim) =>
          match attribute feat_m_v "featID" with
          | Some feat_ID =>
              modify (c_set_info (map_add feat_ID (FeatInfo (as_uint maxVal) edges dim) (c_feat_info_map c)))
          | None => c_signal_error "feature_ID"
          end
      end
  end.

Fixpoint configure_features (parent : N) (its : list N) : M histo_calc unit :=
  match its with
  | [] => mret tt
  | it :: its =>
      match child parent (node_name it) with
      | Some feat_m_v => configure_feature feat_m_v
      | None => c_signal_error "feature"
      end;;
      configure_features parent its
  end.

Definition histo_calc_configure (n : N) : M histo_calc unit :=
  ts ← val_of n "timescale" "timescale";
  modify (λ c, c_set_params (as_uint ts) (c_max_nr_bins c) (c_flag0 c) c);;
  bins ← val_of n "max_nr_bins" "max number of bins";
  modify (λ c, c_set_params (c_timescale c) (as_uint bins) (c_flag0 c) c);;
  f0 ← val_of n "flag0" "flag zero";
  modify (λ c, c_set_params (c_timescale c) (c_max_nr_bins c) (bool_decide (f0 = "on")) c);;
  match child n "features_max_values" with
  | None => c_signal_error "features_max_vals"
  | Some parent => configure_features parent (all_children parent)
  end.
End configuration.

(** ** Tickets *)

(** The loop of [get_bin_for_count] from edge [i] on. *)
Fixpoint bin_loop (i : Z) (count : Z) (b_ed : list Z) : option Z :=
  match b_ed with
  | a :: (b :: rest) as l =>
      if (a <=? count) && (count <? b) then Some i
      else if bool_decide (rest = []) && (b <=? count) then Some i
      else bin_loop (i + 1) count l
  | _ => None
  end.

(** Without edges the loop reads past the end of the vector. *)
Definition get_bin_for_count (flag0 : bool) (count : Z) (b_ed : list Z) : outcome Z :=
  let size := Z.of_nat (length b_ed) in
  if flag0 && (count =? 0) then Ret (u32 (20 * size))
  else if bool_decide (b_ed = []) then Throw (undefined_behaviour "get_bin_for_count without edges")
  else match bin_loop 0 count b_ed with Some i => Ret i | None => Ret (u32 (10 * size)) end.

Definition empty_entry (inf : feat_info) : histo_entry :=
  HistoEntry ∅ (replicate (Z.to_nat (fi_histo_dim inf)) 0) 0.

Fixpoint insert_dummies (infos : std_map feat_info) (ht : gmap string histo_entry) : gmap string histo_entry :=
  match infos with
  | [] => ht
  | (k, inf) :: infos =>
      insert_dummies infos (match ht !! k with Some _ => ht | None => <[k := empty_entry inf]> ht end)
  end.

Definition insert_dummy_elements : M histo_calc unit :=
  modify (λ c, c_set_table (insert_dummies (c_feat_info_map c) (c_histo_ht c)) c).

Definition insert_value (usr : Z) (e : string * Z) : M histo_calc unit :=
  c ← gets id;
  match c_histo_ht c !! e.1 with
  | None => mret tt
  | Some h =>
      match map_find e.1 (c_feat_info_map c) with
      | None => throw (undefined_behaviour "a feature without information")
      | Some inf =>
          match get_bin_for_count (c_flag0 c) e.2 (fi_edges inf) with
          | Throw e => throw e
          | Ret idx =>
              if fi_histo_dim inf <? idx then mret tt
              else match he_histogram h !! Z.to_nat idx with
              | None => throw (undefined_behaviour "histogram index")
              | Some n =>
                  modify (c_set_table (<[e.1 := HistoEntry ({[usr]} ∪ he_users h)
                    (<[Z.to_nat idx := u32 (n + 1)]> (he_histogram h)) (u64 (he_total_val h + e.2))]> (c_histo_ht c)))
              end
          end
      end
  end.

Fixpoint insert_values (usr : Z) (es : std_map Z) : M histo_calc unit :=
  match es with
  | [] => mret tt
  | e :: es => insert_value usr e;; insert_values usr es
  end.

Definition insert_elements (t : ticket) : M histo_calc unit := insert_values (t_userID t) (t_featurePairs t).

(** The message for an entry; its members are all set. *)
Definition entry_histo (T : Z) (e : string * histo_entry) : histo :=
  histo_set_total_value (he_total_val e.2) (set_histogram (he_histogram e.2)
    (histo_set_unique_users (Z.of_nat (size (he_users e.2))) (histo_new T e.1 0))).

Section tickets.
Context {P : Type} (visit : gmap string histo_entry → list (string * histo_entry)).

Definition c_empty_hash_table (curr_agg_time : Z) : M histo_calc unit :=
  modify (λ c, c_send (entry_histo curr_agg_time <$> visit (c_histo_ht c)) c);;
  modify (c_set_table ∅).

(** The [while]; [fuel] bounds its rounds. *)
Fixpoint advance (fuel : nat) (time_now : Z) : M histo_calc unit :=
  c ← gets id;
  if c_current_agg_time c <? time_now then
    match fuel with
    | O => throw (undefined_behaviour "does not return")
    | S fuel =>
        c_empty_hash_table (c_current_agg_time c);;
        modify (λ c, c_set_time (u64 (c_current_agg_time c + u32 (c_timescale c * 60))) c);;
        insert_dummy_elements;;
        advance fuel time_now
    end
  else mret tt.

Definition histo_calc_receive (fuel : nat) (m : stat_message P) : M histo_calc unit :=
  match m with
  | STicket t =>
      let time_now := t_timestamp t in
      c ← gets id;
      (if c_current_agg_time c =? 0 then insert_dummy_elements;; modify (c_set_time time_now) else mret tt);;
      advance fuel time_now;;
      if is_dummy t then mret tt else insert_elements t
  | _ => throw (runtime_error "HistoCalc: wrong message type")
  end.

Fixpoint histo_calc_run (fuel : nat) (ts : list ticket) : M histo_calc unit :=
  match ts with
  | [] => mret tt
  | t :: ts => histo_calc_receive fuel (STicket t);; histo_calc_run fuel ts
  end.
End tickets.

(** ** Bins *)

(** The bin of a value: the last edge that is not above it; the last bin is open. *)
Definition bin_index (edges : list Z) (v : Z) : option nat :=
  let n := length (filter (λ e, e ≤ v) edges) in
  if bool_decide (n = 0%nat) || bool_decide (length edges < 2)%nat then None else Some (Nat.min (n - 1) (length edges - 2)).

Lemma bin_loop_none i v l : Forall (λ z, v < z) l → bin_loop i v l = None.
Proof.
  revert i. induction l as [|a l IH]; intros i Hl; [done|]. apply Forall_cons in Hl as [Ha Hl].
  destruct l as [|b rest]; [done|]. pose proof Hl as [Hb _]%Forall_cons.
  change (bin_loop i v (a :: b :: rest)) with (if (a <=? v) && (v <? b) then Some i
    else if bool_decide (rest = []) && (b <=? v) then Some i else bin_loop (i + 1) v (b :: rest)).
  rewrite (proj2 (Z.leb_gt a v)), (proj2 (Z.leb_gt b v)) by done. rewrite andb_false_r. cbn [andb]. by apply IH.
Qed.

Lemma filter_le_none v l : Forall (λ z, v < z) l → filter (λ e, e ≤ v) l = [].
Proof. intros Hl. apply list_filter_none. eapply Forall_impl; [exact Hl|]. cbn. lia. Qed.

Lemma bin_loop_index i v l :
  StronglySorted Z.lt l → bin_loop i v l = (λ j, i + Z.of_nat j) <$> bin_index l v.
Proof.
  revert i. induction l as [|a l IH]; intros i Hs; [done|]. inversion Hs as [|? ? Hs' Hall]; subst.
  destruct (Z.leb_spec a v) as [Hav|Hva].
  2:{ assert (Forall (λ z, v < z) (a :: l)) as Hf.
      { constructor; [done|]. eapply Forall_impl; [exact Hall|]. cbn. lia. }
      rewrite bin_loop_none by done. unfold bin_index. by rewrite filter_le_none. }
  destruct l as [|b rest]; [unfold bin_index; cbn; by rewrite orb_true_r|].
  change (bin_loop i v (a :: b :: rest)) with (if (a <=? v) && (v <? b) then Some i
    else if bool_decide (rest = []) && (b <=? v) then Some i else bin_loop (i + 1) v (b :: rest)).
  rewrite (proj2 (Z.leb_le a v)) by done. cbn [andb]. unfold bin_index.
  rewrite filter_cons_True by done.
  destruct (Z.ltb_spec v b) as [Hvb|Hbv].
  - rewrite (filter_le_none v (b :: rest)).
    + rewrite !bool_decide_eq_false_2 by (cbn [length]; lia). cbn [orb fmap option_fmap option_map length]. f_equal. lia.
    + constructor; [done|]. inversion Hs' as [|? ? _ Hall']; subst. eapply Forall_impl; [exact Hall'|]. cbn. lia.
  - rewrite (proj2 (Z.leb_le b v)) by done. rewrite andb_true_r. rewrite IH by done. unfold bin_index.
    rewrite filter_cons_True by done. cbn [length].
    destruct rest as [|c rest].
    + rewrite bool_decide_eq_true_2 by done. rewrite !(bool_decide_eq_false_2 (_ = _ :> nat)) by lia.
      rewrite bool_decide_eq_false_2 by (cbn [length]; lia). cbn [orb fmap option_fmap option_map length]. f_equal. lia.
    + rewrite (bool_decide_eq_false_2 (_ = [])) by done. rewrite !bool_decide_eq_false_2 by (cbn [length]; lia).
      cbn [orb fmap option_fmap option_map length]. f_equal. lia.
Qed.

Record info_ok (inf : feat_info) : Prop := InfoOk {
  info_edges : fi_edges inf ≠ [];
  info_sorted : StronglySorted Z.lt (fi_edges inf);
  info_dim : Z.of_nat (length (fi_edges inf)) - 1 ≤ fi_histo_dim inf < 10 * Z.of_nat (length (fi_edges inf));
  info_small : Z.of_nat (length (fi_edges inf)) ≤ 2 ^ 17
}.

(** The bin a value counts in, if any. *)
Definition bin_of (flag0 : bool) (inf : feat_info) (v : Z) : option nat :=
  if flag0 && (v =? 0) then None else bin_index (fi_edges inf) v.

Lemma bin_index_range edges v j : bin_index edges v = Some j → Z.of_nat j < Z.of_nat (length edges) - 1.
Proof. unfold bin_index. do 2 case_bool_decide; try done. intros [= <-]. lia. Qed.

Lemma get_bin_spec flag0 inf v :
  info_ok inf →
  ∃ idx, get_bin_for_count flag0 v (fi_edges inf) = Ret idx ∧
    match bin_of flag0 inf v with
    | Some j => idx = Z.of_nat j ∧ idx < fi_histo_dim inf
    | None => fi_histo_dim inf < idx
    end.
Proof.
  intros [Hne Hs Hd Hsm]. unfold get_bin_for_count, bin_of.
  destruct (flag0 && (v =? 0)); [eexists; split; [reflexivity|]; rewrite u32_small by lia; lia|].
  rewrite bool_decide_eq_false_2 by done. rewrite bin_loop_index by done.
  destruct (bin_index (fi_edges inf) v) as [j|] eqn:E; cbn [fmap option_fmap option_map].
  - eexists. split; [reflexivity|]. apply bin_index_range in E. lia.
  - eexists. split; [reflexivity|]. rewrite u32_small by lia. lia.
Qed.

(** ** One value *)

Definition add_count (flag0 : bool) (inf : feat_info) (usr v : Z) (h : histo_entry) : histo_entry :=
  match bin_of flag0 inf v with
  | Some j => HistoEntry ({[usr]} ∪ he_users h) (alter (λ n, u32 (n + 1)) j (he_histogram h)) (u64 (he_total_val h + v))
  | None => h
  end.

Definition sized (inf : feat_info) (h : histo_entry) : Prop := Z.of_nat (length (he_histogram h)) = fi_histo_dim inf.

Lemma add_count_sized flag0 inf usr v h : sized inf h → sized inf (add_count flag0 inf usr v h).
Proof. unfold add_count, sized. destruct (bin_of flag0 inf v); [|done]. cbn [he_histogram]. by rewrite length_alter. Qed.

(** The table has an entry of the right size for every feature, and no other. *)
Definition table_ok (infos : std_map feat_info) (ht : gmap string histo_entry) : Prop :=
  ∀ k, match map_find k infos, ht !! k with
  | Some inf, Some h => info_ok inf ∧ sized inf h
  | None, None => True
  | _, _ => False
  end.

Lemma table_ok_insert infos ht k inf h h' :
  table_ok infos ht → map_find k infos = Some inf → ht !! k = Some h → sized inf h' → table_ok infos (<[k := h']> ht).
Proof.
  intros Hok Hi Hh Hs k'. specialize (Hok k'). destruct (decide (k' = k)) as [->|Hne].
  - rewrite Hi, Hh in Hok. rewrite Hi, lookup_insert_eq. by destruct Hok.
  - by rewrite lookup_insert_ne.
Qed.

Definition with_value (flag0 : bool) (infos : std_map feat_info) (usr : Z) (e : string * Z) (ht : gmap string histo_entry) :
    gmap string histo_entry :=
  match ht !! e.1, map_find e.1 infos with
  | Some h, Some inf => <[e.1 := add_count flag0 inf usr e.2 h]> ht
  | _, _ => ht
  end.

Lemma insert_value_spec usr e c :
  table_ok (c_feat_info_map c) (c_histo_ht c) →
  insert_value usr e c =
    (Ret tt, c_set_table (with_value (c_flag0 c) (c_feat_info_map c) usr e (c_histo_ht c)) c) ∧
  table_ok (c_feat_info_map c) (with_value (c_flag0 c) (c_feat_info_map c) usr e (c_histo_ht c)).
Proof.
  intros Hok. unfold insert_value, with_value. run_m. pose proof (Hok e.1) as He.
  destruct (c_histo_ht c !! e.1) as [h|] eqn:Eh; [|split; [by destruct c|done]].
  destruct (map_find e.1 (c_feat_info_map c)) as [inf|] eqn:Ei; [|done]. destruct He as [Hinf Hsz].
  assert (table_ok (c_feat_info_map c) (<[e.1 := add_count (c_flag0 c) inf usr e.2 h]> (c_histo_ht c))) as Hok'
    by (eapply table_ok_insert; eauto using add_count_sized).
  split; [|done]. destruct (get_bin_spec (c_flag0 c) inf e.2 Hinf) as (idx & -> & Hidx). unfold add_count.
  destruct (bin_of (c_flag0 c) inf e.2) as [j|].
  - destruct Hidx as [-> Hlt]. rewrite (proj2 (Z.ltb_ge _ _)) by lia. rewrite Nat2Z.id.
    destruct (lookup_lt_is_Some_2 (he_histogram h) j) as [n Hn]; [unfold sized in Hsz; lia|]. rewrite Hn.
    do 2 f_equal. f_equal. f_equal. symmetry. apply list_eq. intros i. destruct (decide (i = j)) as [->|Hne].
    + rewrite list_lookup_alter_eq, Hn, list_lookup_insert_eq; [done|]. by apply lookup_lt_Some in Hn.
    + by rewrite list_lookup_alter_ne, list_lookup_insert_ne.
  - rewrite (proj2 (Z.ltb_lt _ _)) by done. destruct c. unfold c_set_table. cbn in *. do 2 f_equal.
    symmetry. by apply insert_id.
Qed.

Lemma with_value_other flag0 infos usr e ht k : k ≠ e.1 → with_value flag0 infos usr e ht !! k = ht !! k.
Proof.
  intros Hne. unfold with_value. destruct (ht !! e.1); [|done]. destruct (map_find e.1 infos); [|done].
  by rewrite lookup_insert_ne.
Qed.

(** ** One ticket *)

Definition add_ticket (flag0 : bool) (inf : feat_info) (k : string) (h : histo_entry) (t : ticket) : histo_entry :=
  match map_find k (t_featurePairs t) with
  | Some v => add_count flag0 inf (t_userID t) v h
  | None => h
  end.

Lemma insert_values_spec usr es c :
  NoDup es.*1 → table_ok (c_feat_info_map c) (c_histo_ht c) →
  ∃ ht, insert_values usr es c = (Ret tt, c_set_table ht c) ∧ table_ok (c_feat_info_map c) ht ∧
    ∀ k, ht !! k = match map_find k (c_feat_info_map c) with
      | Some inf => (λ h, match map_find k es with Some v => add_count (c_flag0 c) inf usr v h | None => h end) <$> c_histo_ht c !! k
      | None => None
      end.
Proof.
  revert c. induction es as [|[k1 v1] es IH]; intros c Hnd Hok; cbn [insert_values].
  - exists (c_histo_ht c). split; [by destruct c|]. split; [done|]. intros k. specialize (Hok k). cbn [map_find].
    destruct (map_find k (c_feat_info_map c)); destruct (c_histo_ht c !! k); done.
  - apply NoDup_cons in Hnd as [Hk1 Hnd]. destruct (insert_value_spec usr (k1, v1) c Hok) as [E Hok1].
    rewrite (bind_Ret _ _ _ _ _ E).
    destruct (IH (c_set_table (with_value (c_flag0 c) (c_feat_info_map c) usr (k1, v1) (c_histo_ht c)) c) Hnd Hok1)
      as (ht & E' & Hok' & Hht). exists ht. split; [by rewrite E'|]. split; [done|]. intros k. rewrite Hht.
    cbn [c_set_table c_feat_info_map c_flag0 c_histo_ht map_find].
    destruct (map_find k (c_feat_info_map c)) as [inf|] eqn:Ei; [|done].
    destruct (decide (k = k1)) as [->|Hne]; [|by rewrite with_value_other].
    apply map_find_not_key in Hk1. cbn [fst] in Hk1. rewrite Hk1. unfold with_value. cbn [fst snd]. rewrite Ei.
    destruct (c_histo_ht c !! k1) as [h|] eqn:Eh; [by rewrite lookup_insert_eq|]. specialize (Hok k1). rewrite Ei, Eh in Hok. done.
Qed.

(** ** What a histogram should be *)

Definition entry_of (flag0 : bool) (inf : feat_info) (k : string) (ts : list ticket) : histo_entry :=
  foldl (add_ticket flag0 inf k) (empty_entry inf) ts.

(** The bin in which a ticket counts for a feature. *)
Definition ticket_bin (flag0 : bool) (inf : feat_info) (k : string) (t : ticket) : option nat :=
  map_find k (t_featurePairs t) ≫= bin_of flag0 inf.

(** Per bin the number of tickets, the number of different users with a ticket
    that counts, the sum of their values. *)
Definition reference_histo (flag0 : bool) (inf : feat_info) (T : Z) (k : string) (ts : list ticket) : histo :=
  let counted := filter (λ t, is_Some (ticket_bin flag0 inf k t)) ts in
  Histo T k (Z.of_nat (size (list_to_set (C:=gset Z) (t_userID <$> counted))))
    ((λ j, u32 (Z.of_nat (length (filter (λ t, ticket_bin flag0 inf k t = Some j) ts)))) <$> seq 0 (Z.to_nat (fi_histo_dim inf)))
    (u64 (sumZ (λ t, value k (t_featurePairs t)) counted)).

Lemma entry_of_snoc flag0 inf k ts t : entry_of flag0 inf k (ts ++ [t]) = add_ticket flag0 inf k (entry_of flag0 inf k ts) t.
Proof. unfold entry_of. by rewrite foldl_app. Qed.

Lemma add_ticket_cases flag0 inf k h t :
  add_ticket flag0 inf k h t =
    match ticket_bin flag0 inf k t with
    | Some j => HistoEntry ({[t_userID t]} ∪ he_users h) (alter (λ n, u32 (n + 1)) j (he_histogram h))
        (u64 (he_total_val h + value k (t_featurePairs t)))
    | None => h
    end.
Proof.
  unfold add_ticket, ticket_bin, add_count, value. destruct (map_find k (t_featurePairs t)) as [v|]; cbn [mbind option_bind default from_option]; [|done].
  by destruct (bin_of flag0 inf v).
Qed.

Lemma entry_of_reference flag0 inf T k ts :
  entry_histo T (k, entry_of flag0 inf k ts) = reference_histo flag0 inf T k ts ∧
  he_users (entry_of flag0 inf k ts) = list_to_set (t_userID <$> filter (λ t, is_Some (ticket_bin flag0 inf k t)) ts).
Proof.
  induction ts as [|t ts [IH IHu]] using rev_ind.
  - split; [|done]. unfold entry_histo, reference_histo, entry_of, empty_entry. cbn. f_equal.
    rewrite <- (length_seq (Z.to_nat (fi_histo_dim inf)) 0) at 1. rewrite <- const_fmap with (f := λ _, 0); [|done].
    reflexivity.
  - rewrite entry_of_snoc, add_ticket_cases. unfold reference_histo in *. rewrite filter_app.
    unfold entry_histo in *. cbn in IH. injection IH as IH1 IH2 IH3.
    destruct (ticket_bin flag0 inf k t) as [j|] eqn:Ej.
    + rewrite filter_cons_True by by rewrite Ej. rewrite filter_nil. cbn [he_users he_histogram he_total_val].
      assert ({[t_userID t]} ∪ he_users (entry_of flag0 inf k ts) =
        list_to_set (C:=gset Z) (t_userID <$> filter (λ t, is_Some (ticket_bin flag0 inf k t)) ts ++ [t])) as Eu.
      { rewrite fmap_app, list_to_set_app_L, IHu. cbn. set_solver. }
      split; [|exact Eu]. cbn [fst snd he_users he_histogram he_total_val]. rewrite Eu.
      unfold histo_set_total_value, set_histogram, histo_set_unique_users, histo_new.
      cbn [h_timestamp h_featureID h_nr_unique_users h_histogram h_total_value]. f_equal.
      * rewrite IH2. apply list_eq. intros i. destruct (decide (i = j)) as [->|Hne].
        -- rewrite list_lookup_alter_eq, !list_lookup_fmap. destruct (seq 0 _ !! j) as [j'|] eqn:Es; [|done].
           apply lookup_seq in Es as [-> Hj]. cbn. f_equal. rewrite filter_app, filter_cons_True, filter_nil by done.
           rewrite length_app. cbn [length]. unfold u32. rewrite Nat2Z.inj_add. by rewrite Zplus_mod_idemp_l.
        -- rewrite list_lookup_alter_ne, !list_lookup_fmap by done. destruct (seq 0 _ !! i) as [i'|] eqn:Es; [|done].
           apply lookup_seq in Es as [-> Hj]. cbn. do 2 f_equal.
           rewrite filter_app, filter_cons_False, filter_nil, app_nil_r; [done|]. rewrite Ej. intros [= ->]. by apply Hne.
      * rewrite IH3, sumZ_app. cbn [sumZ foldr]. rewrite Z.add_0_r. unfold u64. by rewrite Zplus_mod_idemp_l.
    + rewrite filter_cons_False, filter_nil, app_nil_r by (rewrite Ej; by intros []).
      split; [|done].
      unfold histo_set_total_value, set_histogram, histo_set_unique_users, histo_new.
      cbn [fst snd h_timestamp h_featureID h_nr_unique_users h_histogram h_total_value].
      rewrite IH1, IH2, IH3. f_equal. apply list_fmap_ext. intros i j' _. do 2 f_equal.
      rewrite filter_app, filter_cons_False, filter_nil, app_nil_r; [done|]. by rewrite Ej.
Qed.

(** ** Intervals *)

Section intervals.
Context {P : Type} (visit : gmap string histo_entry → list (string * histo_entry)).
Context (visit_perm : ∀ ht, visit ht ≡ₚ map_to_list ht).
Context (infos : std_map feat_info) (infos_ok : ∀ k inf, map_find k infos = Some inf → info_ok inf).
Context (flag0 : bool) (scale d T0 : Z) (d_eq : u32 (scale * 60) = d) (d_pos : 0 < d).
Implicit Types (c : histo_calc) (t : ticket) (ts : list ticket) (k : string) (T : Z).

Definition during (T : Z) ts : list ticket := filter (λ t, T - d < t_timestamp t ∧ t_timestamp t ≤ T) ts.

(** The messages of an interval for a feature: one if it is configured. *)
Definition expected T k ts : list histo :=
  match map_find k infos with Some inf => [reference_histo flag0 inf T k (during T ts)] | None => [] end.

Definition sent_at T k (l : list histo) : list histo := filter (λ h, h_timestamp h = T ∧ h_featureID h = k) l.

(** After the tickets [ts], the first of which had time [T0]. *)
Record calc_inv ts c : Prop := CalcInv {
  ci_config : c_feat_info_map c = infos ∧ c_flag0 c = flag0 ∧ c_timescale c = scale;
  ci_grid : ∃ j, 0 ≤ j ∧ c_current_agg_time c = T0 + j * d;
  ci_upper : Forall (λ t, t_timestamp t ≤ c_current_agg_time c) ts;
  ci_table k : c_histo_ht c !! k =
    (λ inf, entry_of flag0 inf k (during (c_current_agg_time c) ts)) <$> map_find k infos;
  ci_sent T k : (d | T - T0) → T0 ≤ T < c_current_agg_time c → sent_at T k (c_sent c) = expected T k ts;
  ci_dates : Forall (λ h, (d | h_timestamp h - T0) ∧ T0 ≤ h_timestamp h < c_current_agg_time c) (c_sent c)
}.

Lemma insert_dummies_spec m ht k :
  insert_dummies m ht !! k = match ht !! k with Some h => Some h | None => empty_entry <$> map_find k m end.
Proof.
  revert ht. induction m as [|[k1 inf] m IH]; intros ht; cbn [insert_dummies map_find]; [by destruct (ht !! k)|].
  rewrite IH. destruct (ht !! k1) as [h1|] eqn:E1.
  - destruct (ht !! k) eqn:E; [done|]. by rewrite decide_False by congruence.
  - destruct (decide (k = k1)) as [->|Hne]; [by rewrite lookup_insert_eq, E1|by rewrite lookup_insert_ne].
Qed.

Lemma entry_of_sized inf k ts : 0 ≤ fi_histo_dim inf → sized inf (entry_of flag0 inf k ts).
Proof.
  intros Hd. induction ts as [|t ts IH] using rev_ind.
  - unfold sized, entry_of, empty_entry. cbn. rewrite length_replicate. lia.
  - rewrite entry_of_snoc. unfold add_ticket. destruct (map_find k (t_featurePairs t)); [by apply add_count_sized|done].
Qed.

Lemma calc_table_ok ts c : calc_inv ts c → table_ok infos (c_histo_ht c).
Proof.
  intros [_ _ _ Ht _ _] k. rewrite Ht. destruct (map_find k infos) as [inf|] eqn:E; [|done]. cbn.
  split; [by apply (infos_ok k)|]. apply entry_of_sized. destruct (infos_ok k inf E) as [He _ Hd _].
  destruct (fi_edges inf); [done|]. cbn [length] in Hd. lia.
Qed.

Lemma sent_at_app T k l1 l2 : sent_at T k (l1 ++ l2) = sent_at T k l1 ++ sent_at T k l2.
Proof. apply filter_app. Qed.

Lemma sent_at_none T k l : Forall (λ h, h_timestamp h ≠ T) l → sent_at T k l = [].
Proof. intros Hl. apply list_filter_none. eapply Forall_impl; [exact Hl|]. cbn. tauto. Qed.

(** A pass over the table sends one message per entry. *)
Lemma flushed_at T k (ht : gmap string histo_entry) :
  sent_at T k (entry_histo T <$> visit ht) = match ht !! k with Some h => [entry_histo T (k, h)] | None => [] end.
Proof.
  assert (entry_histo T <$> visit ht ≡ₚ entry_histo T <$> map_to_list ht) as Hp by by rewrite visit_perm.
  assert (sent_at T k (entry_histo T <$> map_to_list ht) ≡ₚ match ht !! k with Some h => [entry_histo T (k, h)] | None => [] end) as Hm.
  { clear Hp. unfold sent_at. induction ht as [|i h ht Hi IH] using map_ind; [done|].
    rewrite map_to_list_insert by done. rewrite fmap_cons. destruct (decide (i = k)) as [->|Hne].
    - rewrite filter_cons_True by done. rewrite IH, Hi, lookup_insert_eq. done.
    - rewrite filter_cons_False by (cbn; intros [_ ?]; done). by rewrite IH, lookup_insert_ne. }
  assert (sent_at T k (entry_histo T <$> visit ht) ≡ₚ match ht !! k with Some h => [entry_histo T (k, h)] | None => [] end) as Hv.
  { rewrite <- Hm. unfold sent_at. by rewrite Hp. }
  destruct (ht !! k); [by apply Permutation_singleton_r in Hv|by apply Permutation_nil_r in Hv].
Qed.

Lemma during_none T ts : Forall (λ t, t_timestamp t ≤ T - d) ts → during T ts = [].
Proof. intros Hts. apply list_filter_none. eapply Forall_impl; [exact Hts|]. cbn. lia. Qed.

(** One round of the [while]. *)
Definition next_interval c : histo_calc :=
  HistoCalc (c_current_agg_time c + d) (c_timescale c) (c_max_nr_bins c) (c_flag0 c) (c_feat_info_map c)
    (insert_dummies (c_feat_info_map c) ∅) (c_sent c ++ (entry_histo (c_current_agg_time c) <$> visit (c_histo_ht c))).

Lemma next_interval_inv ts c : calc_inv ts c → calc_inv ts (next_interval c).
Proof.
  intros [[E1 [E2 E3]] (j & Hj & Eagg) Hup Htab Hsent Hdates].
  split; cbn [next_interval c_feat_info_map c_flag0 c_timescale c_current_agg_time c_histo_ht c_sent].
  - done.
  - exists (j + 1). lia.
  - eapply Forall_impl; [exact Hup|]. cbn. lia.
  - intros k. rewrite insert_dummies_spec, lookup_empty, E1. rewrite during_none; [done|].
    eapply Forall_impl; [exact Hup|]. cbn. lia.
  - intros T k HdT HT. rewrite sent_at_app. destruct (decide (T = c_current_agg_time c)) as [->|Hne].
    + rewrite sent_at_none, flushed_at, Htab.
      * unfold expected. destruct (map_find k infos) as [inf|]; [|done]. cbn. by rewrite (proj1 (entry_of_reference _ _ _ _ _)).
      * eapply Forall_impl; [exact Hdates|]. cbn. lia.
    + assert (T < c_current_agg_time c) as HTlt.
      { destruct HdT as [i Hi]. assert (i < j + 1) by nia. assert (i ≠ j) by (intros ->; lia). nia. }
      rewrite Hsent by (done || lia). rewrite sent_at_none, app_nil_r; [done|].
      apply Forall_fmap, Forall_true. cbn. congruence.
  - apply Forall_app. split.
    + eapply Forall_impl; [exact Hdates|]. cbn. intros h [H1 H2]. split; [done|lia].
    + apply Forall_fmap, Forall_true. intros e. cbn. split; [exists j; lia|nia].
Qed.

Context (T0_pos : 0 < T0) (d_small : d < 2 ^ 32).

Lemma grid_positive ts c : calc_inv ts c → 0 < c_current_agg_time c.
Proof. intros [_ (j & Hj & ->) _ _ _ _]. nia. Qed.

Lemma next_interval_time ts c :
  calc_inv ts c → c_current_agg_time c < 2 ^ 62 →
  u64 (c_current_agg_time c + u32 (c_timescale c * 60)) = c_current_agg_time c + d.
Proof.
  intros Hc Hlt. pose proof (grid_positive _ _ Hc). destruct (ci_config _ _ Hc) as (_ & _ & ->).
  rewrite d_eq. apply u64_small. lia.
Qed.

Lemma advance_spec fuel now ts c :
  calc_inv ts c → now ≤ c_current_agg_time c + Z.of_nat fuel * d → now < 2 ^ 62 →
  ∃ c', advance visit fuel now c = (Ret tt, c') ∧ calc_inv ts c' ∧ now ≤ c_current_agg_time c' ∧
    (c' = c ∨ c_current_agg_time c' - d < now).
Proof.
  revert c. induction fuel as [|fuel IH]; intros c Hc Hnow Hn; cbn [advance].
  all: rewrite (bind_Ret (gets id) _ c c c eq_refl).
  - rewrite (proj2 (Z.ltb_ge _ _)) by lia. exists c. split; [done|]. split; [done|]. split; [lia|by left].
  - destruct (Z.ltb_spec (c_current_agg_time c) now) as [Hlt|Hge].
    2:{ exists c. split; [done|]. split; [done|]. split; [lia|by left]. }
    destruct (IH (next_interval c) (next_interval_inv ts c Hc)) as (c' & E & Hc' & Hle & Hor);
      [cbn [next_interval c_current_agg_time]; lia|done|].
    exists c'. split; [|split; [done|split; [done|right]]].
    + pose proof (next_interval_time ts c Hc ltac:(lia)) as Eu.
      unfold c_empty_hash_table, insert_dummy_elements. run_m. unfold c_send, c_set_table, c_set_time.
      cbn [c_current_agg_time c_timescale c_max_nr_bins c_flag0 c_feat_info_map c_histo_ht c_sent]. rewrite Eu. exact E.
    + destruct Hor as [->|Hlow]; [cbn [next_interval c_current_agg_time]; lia|done].
Qed.

Lemma during_snoc T ts t :
  during T (ts ++ [t]) = during T ts ++ if decide (T - d < t_timestamp t ∧ t_timestamp t ≤ T) then [t] else [].
Proof.
  unfold during. by rewrite filter_app.
Qed.

Lemma reference_ext T k inf ts t :
  map_find k (t_featurePairs t) = None → entry_of flag0 inf k (ts ++ [t]) = entry_of flag0 inf k ts.
Proof. intros E. rewrite entry_of_snoc. unfold add_ticket. by rewrite E. Qed.

(** A ticket of the interval that is running. *)
Lemma ticket_inv ts t c :
  calc_inv ts c → ticket_ok t → t_timestamp t ≤ c_current_agg_time c → c_current_agg_time c - d < t_timestamp t →
  ∃ c', (if is_dummy t then mret tt else insert_elements t) c = (Ret tt, c') ∧ calc_inv (ts ++ [t]) c' ∧
    c_current_agg_time c' = c_current_agg_time c.
Proof.
  intros Hc Ht Hle Hlow. pose proof Hc as [[E1 [E2 E3]] (j & Hj & Eagg) Hup Htab Hsent Hdates].
  assert (∀ T, T < c_current_agg_time c → (d | T - T0) → during T (ts ++ [t]) = during T ts) as Hsame.
  { intros T HT [i Hi]. rewrite during_snoc, decide_False, app_nil_r; [done|].
    assert (i < j) by nia. assert (T ≤ c_current_agg_time c - d) by nia. lia. }
  assert (∀ ht, (∀ k, ht !! k = (λ inf, entry_of flag0 inf k (during (c_current_agg_time c) (ts ++ [t]))) <$> map_find k infos) →
    calc_inv (ts ++ [t]) (c_set_table ht c)) as Hinv.
  { intros ht Hht. split; cbn [c_set_table c_feat_info_map c_flag0 c_timescale c_current_agg_time c_histo_ht c_sent]; try done.
    - by exists j.
    - apply Forall_app. split; [done|]. by constructor; [|constructor].
    - intros T k HdT HT. rewrite (Hsent T k HdT HT). unfold expected. by rewrite Hsame by (done || lia). }
  assert (during (c_current_agg_time c) (ts ++ [t]) = during (c_current_agg_time c) ts ++ [t]) as Enow
    by by rewrite during_snoc, decide_True.
  destruct (is_dummy t) eqn:Edum.
  - exists (c_set_table (c_histo_ht c) c). split; [by destruct c|]. split; [|done]. apply Hinv. intros k.
    rewrite Htab, Enow. destruct (map_find k infos) as [inf|]; [|done]. cbn. f_equal. symmetry. apply (reference_ext 0).
    pose proof (dummy_value t k Ht Edum) as _. apply andb_true_iff in Edum as [_ Edum]. destruct Ht as (_ & _ & Hlen).
    apply Z.eqb_eq in Edum. unfold get_extracted_features in Edum. rewrite u32_small in Edum by lia.
    by destruct (t_featurePairs t).
  - unfold insert_elements. destruct (insert_values_spec (t_userID t) (t_featurePairs t) c) as (ht & E & _ & Hht).
    + apply Ht.
    + rewrite E1. by apply (calc_table_ok ts).
    + exists (c_set_table ht c). split; [done|]. split; [|done]. apply Hinv. intros k.
      rewrite Hht, E1, E2, Htab, Enow. destruct (map_find k infos) as [inf|]; [|done]. cbn. by rewrite entry_of_snoc.
Qed.

Lemma receive_inv fuel ts t c :
  calc_inv ts c → ticket_ok t → c_current_agg_time c - d < t_timestamp t < 2 ^ 62 →
  t_timestamp t ≤ c_current_agg_time c + Z.of_nat fuel * d →
  ∃ c', histo_calc_receive (P:=P) visit fuel (STicket t) c = (Ret tt, c') ∧ calc_inv (ts ++ [t]) c' ∧
    c_current_agg_time c ≤ c_current_agg_time c' ∧ c_current_agg_time c' - d < t_timestamp t.
Proof.
  intros Hc Ht [Hlow Hmax] Hf. unfold histo_calc_receive. rewrite (bind_Ret (gets id) _ c c c eq_refl).
  pose proof (grid_positive _ _ Hc). rewrite (proj2 (Z.eqb_neq _ _)) by lia. rewrite (bind_Ret (mret tt) _ c tt c eq_refl).
  destruct (advance_spec fuel (t_timestamp t) ts c Hc Hf Hmax) as (c1 & E1 & Hc1 & Hle1 & Hor).
  rewrite (bind_Ret _ _ _ _ _ E1).
  assert (c_current_agg_time c1 - d < t_timestamp t) as Hlow1 by (destruct Hor as [->|?]; lia).
  destruct (ticket_inv ts t c1 Hc1 Ht Hle1 Hlow1) as (c2 & E2 & Hc2 & Ea). exists c2. split; [done|]. split; [done|].
  rewrite Ea. split; [|done]. destruct Hor as [->|Hor]; [lia|].
  destruct (Z.leb_spec (t_timestamp t) (c_current_agg_time c)) as [Hcase|Hcase]; [|lia].
  destruct fuel; cbn [advance] in E1; rewrite (bind_Ret (gets id) _ c c c eq_refl), (proj2 (Z.ltb_ge _ _)) in E1 by lia;
    injection E1 as <-; lia.
Qed.

Lemma first_inv fuel t c :
  c_feat_info_map c = infos → c_flag0 c = flag0 → c_timescale c = scale → c_current_agg_time c = 0 → c_histo_ht c = ∅ →
  c_sent c = [] → ticket_ok t → t_timestamp t = T0 → T0 < 2 ^ 62 →
  ∃ c', histo_calc_receive (P:=P) visit fuel (STicket t) c = (Ret tt, c') ∧ calc_inv [t] c' ∧ c_current_agg_time c' = T0.
Proof.
  intros E1 E2 E3 E4 E5 E6 Ht ET Hmax. unfold histo_calc_receive. rewrite (bind_Ret (gets id) _ c c c eq_refl), E4.
  change (0 =? 0) with true. cbn iota. unfold insert_dummy_elements. rewrite ET.
  set (c1 := c_set_time T0 (c_set_table (insert_dummies (c_feat_info_map c) (c_histo_ht c)) c)).
  assert ((modify (λ c, c_set_table (insert_dummies (c_feat_info_map c) (c_histo_ht c)) c);; modify (c_set_time T0)) c
    = (Ret tt, c1)) as Einit by reflexivity.
  rewrite (bind_Ret _ _ _ _ _ Einit).
  assert (calc_inv [] c1) as Hc1.
  { split; unfold c1; cbn [c_set_time c_set_table c_feat_info_map c_flag0 c_timescale c_current_agg_time c_histo_ht c_sent].
    - done.
    - exists 0. lia.
    - constructor.
    - intros k. rewrite insert_dummies_spec, E5, lookup_empty, E1. done.
    - intros T k _ HT. lia.
    - rewrite E6. constructor. }
  destruct (advance_spec fuel T0 [] c1 Hc1) as (c2 & Ea & Hc2 & Hle & Hor); [cbn; lia|done|].
  assert (c_current_agg_time c2 = T0) as Eagg.
  { destruct Hc2 as [_ (j & Hj & Ej) _ _ _ _]. destruct Hor as [->|Hor]; [done|].
    assert (j = 0) as -> by nia. lia. }
  rewrite (bind_Ret _ _ _ _ _ Ea).
  destruct (ticket_inv [] t c2 Hc2 Ht) as (c3 & Et & Hc3 & Ea3); [rewrite ET; lia|rewrite ET, Eagg; lia|].
  exists c3. split; [done|]. split; [done|]. by rewrite Ea3.
Qed.

Lemma histo_calc_run_app fuel l1 l2 c :
  histo_calc_run (P:=P) visit fuel (l1 ++ l2) c = (histo_calc_run (P:=P) visit fuel l1;; histo_calc_run (P:=P) visit fuel l2) c.
Proof.
  revert c. induction l1 as [|t l1 IH]; intros c; cbn [app histo_calc_run]; [done|].
  unfold mbind, M_bind in *. destruct (histo_calc_receive visit fuel (STicket t) c) as [[[]|e] c1]; [apply IH|done].
Qed.

(** C33: Histograms without holes.  Tickets arrive in the order of their times,
    the first at [T0].  For every interval ending at [T0], [T0 + d], ... that is
    over, and every configured feature, exactly one histogram is sent, whether or
    not there was a ticket: its bins hold the numbers of tickets of the interval
    whose value falls between the bin's edges (the last bin being open), with the
    number of different users and the sum of the values that count.  Nothing else
    is sent, no access is out of range, and the loop over the intervals ends. *)
Theorem histograms_complete fuel t ts c0 :
  c_feat_info_map c0 = infos → c_flag0 c0 = flag0 → c_timescale c0 = scale → c_current_agg_time c0 = 0 → c_histo_ht c0 = ∅ →
  c_sent c0 = [] → t_timestamp t = T0 →
  Forall (λ t, ticket_ok t ∧ t_timestamp t < 2 ^ 62 ∧ t_timestamp t ≤ T0 + Z.of_nat fuel * d) (t :: ts) →
  StronglySorted (λ t1 t2, t_timestamp t1 ≤ t_timestamp t2) (t :: ts) →
  ∃ c, histo_calc_run (P:=P) visit fuel (t :: ts) c0 = (Ret tt, c) ∧
    Forall (λ t, t_timestamp t ≤ c_current_agg_time c) (t :: ts) ∧
    (∃ t', t' ∈ t :: ts ∧ c_current_agg_time c - d < t_timestamp t') ∧
    (∀ T k, (d | T - T0) → T0 ≤ T < c_current_agg_time c →
      filter (λ h, h_timestamp h = T ∧ h_featureID h = k) (c_sent c) =
        match map_find k infos with
        | Some inf => [reference_histo flag0 inf T k (filter (λ t, T - d < t_timestamp t ∧ t_timestamp t ≤ T) (t :: ts))]
        | None => []
        end) ∧
    Forall (λ h, (d | h_timestamp h - T0) ∧ T0 ≤ h_timestamp h < c_current_agg_time c) (c_sent c).
Proof.
  intros E1 E2 E3 E4 E5 E6 ET Hts Hsort.
  assert (∃ c, histo_calc_run (P:=P) visit fuel (t :: ts) c0 = (Ret tt, c) ∧ calc_inv (t :: ts) c ∧ T0 ≤ c_current_agg_time c ∧
    ∃ t', t' ∈ t :: ts ∧ c_current_agg_time c - d < t_timestamp t') as (c & E & Hc & _ & Hlow).
  { induction ts as [|t2 ts IH] using rev_ind.
    - apply Forall_cons in Hts as [(Ht & Hm & _) _]. rewrite ET in Hm.
      destruct (first_inv fuel t c0 E1 E2 E3 E4 E5 E6 Ht ET Hm) as (c & E & Hc & Ea). exists c. cbn [histo_calc_run].
      rewrite (bind_Ret _ _ _ _ _ E). split; [done|]. split; [done|]. split; [lia|]. exists t. split; [by left|lia].
    - change (t :: ts ++ [t2]) with ((t :: ts) ++ [t2]) in *. apply StronglySorted_app in Hsort as (Hle & Hsort & _).
      apply Forall_app in Hts as [Hts [(Ht2 & Hm2 & Hf2) _]%Forall_cons].
      destruct (IH Hts Hsort) as (c & E & Hc & HT & (t' & Ht' & Hlow)).
      assert (t_timestamp t' ≤ t_timestamp t2) as Hlast by (apply Hle; [done|by apply list_elem_of_singleton]).
      destruct (receive_inv fuel (t :: ts) t2 c Hc Ht2) as (c' & E' & Hc' & Ha & Hlow'); [lia|lia|].
      exists c'. rewrite histo_calc_run_app, (bind_Ret _ _ _ _ _ E). cbn [histo_calc_run]. rewrite (bind_Ret _ _ _ _ _ E').
      split; [done|]. split; [done|]. split; [lia|]. exists t2. split; [|done]. apply elem_of_app. right. by apply list_elem_of_singleton. }
  exists c. split; [done|]. destruct Hc as [_ _ Hup _ Hsent Hdates]. split; [done|]. split; [done|]. split; [|done].
  intros T k HdT HT. apply (Hsent T k HdT HT).
Qed.
End intervals.

(** ** The configured features *)

Section configured.
Context {N : Type} `{XmlNode N} (pow : double → double → double) (log : double → double) (fuel : nat).
Context (pow_valid : ∀ x y, valid_double (pow x y) = true).

(** Features that came out of the configuration: those without edges are the
    exception discussed at [feature_without_edges]. *)
Definition infos_fit (c : histo_calc) : Prop :=
  NoDup (c_feat_info_map c).*1 ∧
  ∀ k inf, map_find k (c_feat_info_map c) = Some inf →
    fi_edges inf ≠ [] → Z.of_nat (length (fi_edges inf)) ≤ 2 ^ 16 → info_ok inf.

Lemma binned_info_ok m n f0 edges dim :
  binning_function pow log fuel m n f0 = Ret (edges, dim) →
  edges ≠ [] → Z.of_nat (length edges) ≤ 2 ^ 16 → info_ok (FeatInfo m edges dim).
Proof.
  intros E Hne Hlen. destruct (binning_facts pow log pow_valid fuel m n f0 edges dim E) as (Hs & _ & Hcase).
  assert (0 < Z.of_nat (length edges)) by (destruct edges; [done|cbn [length]; lia]).
  split; cbn [fi_edges fi_histo_dim]; try done; [|lia].
  destruct (m =? 0); destruct Hcase as [-> Hcase].
  - destruct f0; [done|]. subst dim. cbn [length]. lia.
  - unfold u16. rewrite Z.mod_small by lia. lia.
Qed.

(** What the binning makes of a feature, by its maximal value and the flag for zeroes. *)
Record binned (flag0 : bool) (inf : feat_info) : Prop := Binned {
  binned_sorted : StronglySorted Z.lt (fi_edges inf);
  binned_zero : fi_max_val inf = 0 →
    fi_edges inf = (if flag0 then [] else [0]) ∧ fi_histo_dim inf = if flag0 then 0 else 1;
  binned_dim : fi_max_val inf ≠ 0 → fi_histo_dim inf = u16 (Z.of_nat (length (fi_edges inf)) - 1);
  binned_first : fi_max_val inf ≠ 0 → if flag0 then Forall (λ z, 0 < z) (fi_edges inf) else head (fi_edges inf) = Some 0
}.

Lemma binning_binned m n f0 edges dim :
  binning_function pow log fuel m n f0 = Ret (edges, dim) → binned f0 (FeatInfo m edges dim).
Proof.
  intros E. destruct (binning_facts pow log pow_valid fuel m n f0 edges dim E) as (Hs & _ & Hcase).
  split; cbn [fi_edges fi_histo_dim fi_max_val]; [done|intros ->|intros Hm..]; [done|rewrite (proj2 (Z.eqb_neq _ _) Hm) in Hcase; apply Hcase..].
Qed.

Definition infos_binned (c : histo_calc) : Prop :=
  ∀ k inf, map_find k (c_feat_info_map c) = Some inf → binned (c_flag0 c) inf.

Lemma configure_feature_binned n c : infos_binned c → infos_binned (configure_feature pow log fuel n c).2.
Proof.
  intros Hc. unfold configure_feature, c_signal_error. destruct (attribute n "max_val") as [mv|]; [|done]. run_m.
  destruct (binning_function pow log fuel _ _ _) as [[edges dim]|e] eqn:E; [|done].
  destruct (attribute n "featID") as [k|]; [|done]. cbn [snd]. unfold infos_binned, c_set_info. cbn [c_feat_info_map c_flag0].
  intros k' inf. rewrite map_find_add.
  destruct (map_find k' (c_feat_info_map c)) as [x|] eqn:E1; [intros [= <-]; by apply (Hc k')|].
  destruct (decide (k' = k)); [|done]. intros [= <-]. by eapply binning_binned.
Qed.

Lemma configure_features_binned parent its c : infos_binned c → infos_binned (configure_features pow log fuel parent its c).2.
Proof.
  revert c. induction its as [|it its IH]; intros c Hc; cbn [configure_features]; [done|].
  unfold mbind, M_bind. destruct (child parent (node_name it)) as [x|]; [|done].
  pose proof (configure_feature_binned x c Hc) as Hc'. destruct (configure_feature pow log fuel x c) as [[[]|e] c']; [by apply IH|done].
Qed.

Lemma val_of_keeps n tag name c : (val_of (N:=N) n tag name c).2 = c.
Proof. unfold val_of, c_signal_error. destruct (child n tag) as [x|]; [|done]. by destruct (attribute x "val"). Qed.

Lemma configure_feature_fit n c : infos_fit c → infos_fit (configure_feature pow log fuel n c).2.
Proof.
  intros [Hnd Hfit]. unfold configure_feature, c_signal_error. destruct (attribute n "max_val") as [mv|]; [|by split]. run_m.
  destruct (binning_function pow log fuel _ _ _) as [[edges dim]|e] eqn:E; [|by split].
  destruct (attribute n "featID") as [k|]; [|by split]. cbn [snd]. unfold infos_fit, c_set_info. cbn [c_feat_info_map].
  split; [by apply map_add_NoDup|]. intros k' inf. rewrite map_find_add.
  repeat case_match; try (by apply Hfit). all: intros [= <-]; eauto using binned_info_ok.
Qed.

Lemma configure_features_fit parent its c : infos_fit c → infos_fit (configure_features pow log fuel parent its c).2.
Proof.
  revert c. induction its as [|it its IH]; intros c Hc; cbn [configure_features]; [done|].
  unfold mbind, M_bind. destruct (child parent (node_name it)) as [x|]; [|done].
  pose proof (configure_feature_fit x c Hc) as Hc'. destruct (configure_feature pow log fuel x c) as [[[]|e] c']; [by apply IH|done].
Qed.

(** A property of the table and the flag that an empty table has, and that [configure_features]
    keeps, is one of every configured block. *)
Lemma configured_property (Q : histo_calc → Prop) n c :
  c_feat_info_map c = [] → (∀ c', c_feat_info_map c' = [] → Q c') →
  (∀ parent its c', Q c' → Q (configure_features pow log fuel parent its c').2) → Q (histo_calc_configure pow log fuel n c).2.
Proof.
  intros Hc H0 Hstep. unfold histo_calc_configure.
  pose proof (val_of_keeps n "timescale" "timescale" c) as E1. unfold mbind at 1, M_bind at 1.
  destruct (val_of n "timescale" "timescale" c) as [[ts|e] c1]; cbn in E1; subst c1; [|by apply H0].
  rewrite (bind_Ret (modify _) _ c tt _ eq_refl).
  set (c1 := c_set_params _ _ _ c). pose proof (val_of_keeps n "max_nr_bins" "max number of bins" c1) as E2.
  unfold mbind at 1, M_bind at 1.
  destruct (val_of n "max_nr_bins" "max number of bins" c1) as [[bins|e] c2]; cbn in E2; subst c2; [|by apply H0].
  rewrite (bind_Ret (modify _) _ c1 tt _ eq_refl).
  set (c2 := c_set_params _ _ _ c1). pose proof (val_of_keeps n "flag0" "flag zero" c2) as E3.
  unfold mbind at 1, M_bind at 1.
  destruct (val_of n "flag0" "flag zero" c2) as [[f0|e] c3]; cbn in E3; subst c3; [|by apply H0].
  rewrite (bind_Ret (modify _) _ c2 tt _ eq_refl).
  destruct (child n "features_max_values"); [by apply Hstep, H0|by apply H0].
Qed.

End configured.

(** ** What goes wrong *)

Section wrong.
Context {P : Type} (visit : gmap string histo_entry → list (string * histo_entry)).

(** With a time scale of 0 minutes (or of any multiple of 2^30) the loop over the
    intervals never ends. *)
Lemma no_timescale_hangs fuel now c :
  u32 (c_timescale c * 60) = 0 → 0 ≤ c_current_agg_time c < now → now < 2 ^ 64 →
  (advance visit fuel now c).1 = Throw (undefined_behaviour "does not return").
Proof.
  intros Hscale Hlt Hmax. revert c Hscale Hlt. induction fuel as [|fuel IH]; intros c Hscale Hlt; cbn [advance].
  - run_m. by rewrite (proj2 (Z.ltb_lt _ _)) by lia.
  - rewrite (bind_Ret (gets id) _ c c c eq_refl), (proj2 (Z.ltb_lt _ _)) by lia.
    unfold c_empty_hash_table, insert_dummy_elements. run_m. unfold c_send, c_set_table, c_set_time.
    cbn [c_current_agg_time c_timescale c_max_nr_bins c_flag0 c_feat_info_map c_histo_ht c_sent].
    apply IH; cbn [c_timescale c_current_agg_time]; [done|]. rewrite Hscale, Z.add_0_r, u64_small by lia. lia.
Qed.
End wrong.

(** A feature with a maximal value of 0, when zeroes are left out: no edges, no
    bins, and any ticket with the feature is an access out of range. *)
Lemma feature_without_edges pow log fuel n usr v :
  0 ≤ v →
  binning_function pow log fuel 0 n true = Ret ([], 0) ∧
  let c := HistoCalc 0 5 80 true [("a", FeatInfo 0 [] 0)] {["a" := empty_entry (FeatInfo 0 [] 0)]} [] in
  ∃ what, (insert_value usr ("a", v) c).1 = Throw (undefined_behaviour what).
Proof.
  intros Hv. split; [done|]. unfold insert_value. run_m. cbn [fst snd c_histo_ht c_feat_info_map c_flag0 fi_edges map_find].
  rewrite lookup_singleton_eq. rewrite decide_True by done. cbn [fi_edges].
  unfold get_bin_for_count. cbn [andb]. destruct (v =? 0); cbn [length].
  - by exists "histogram index".
  - by exists "get_bin_for_count without edges".
Qed.

(** ** Examples *)

Definition example_calc : histo_calc :=
  c_set_params 1 80 true (c_set_info [("a", FeatInfo 4 [1; 2; 3; 4] 3); ("b", FeatInfo 4 [1; 2; 3; 4] 3)] histo_calc_new).

Lemma example_info_ok : info_ok (FeatInfo 4 [1; 2; 3; 4] 3).
Proof. split; cbn [fi_edges fi_histo_dim length]; [done| |lia|lia]. repeat constructor; lia. Qed.

Notation value_two t usr := (add_feature "a" 2 (ticket_new t usr)) (only parsing).

Definition example_tickets : list ticket := [value_two 60 7; value_two 61 7; value_two 62 8; ticket_new 300 0].

Lemma histograms_complete_witness :
  ∃ c, histo_calc_run (P:=unit) map_to_list 10 example_tickets example_calc = (Ret tt, c) ∧
    filter (λ h, h_timestamp h = 120 ∧ h_featureID h = "a") (c_sent c) = [Histo 120 "a" 2 [0; 2; 0] 4] ∧
    filter (λ h, h_timestamp h = 180 ∧ h_featureID h = "b") (c_sent c) = [Histo 180 "b" 0 [0; 0; 0] 0].
Proof.
  destruct (histograms_complete (P:=unit) map_to_list (λ ht, Permutation_refl _) (c_feat_info_map example_calc)) with
    (flag0 := true) (scale := 1) (d := 60) (T0 := 60) (fuel := 10%nat) (t := value_two 60 7)
    (ts := tail example_tickets) (c0 := example_calc) as (c & E & Hup & (t' & Ht' & Hlow) & Hsent & _); try done.
  - intros k inf. cbn [example_calc c_set_params c_set_info c_feat_info_map map_find].
    do 2 (destruct (decide _); [intros [= <-]; apply example_info_ok|]). done.
  - assert (∀ t, NoDup (t_featurePairs t).*1 → 0 ≤ t_userID t < 2 ^ 32 → Z.of_nat (length (t_featurePairs t)) < 2 ^ 32 → ticket_ok t)
      as Hok by by split.
    unfold example_tickets. cbn [tail].
    repeat (constructor; [split; [apply Hok; [cbn; try apply NoDup_nil_2; try apply NoDup_singleton|cbn; lia|cbn; lia]|cbn; lia]|]).
    constructor.
  - unfold example_tickets. cbn [tail]. repeat apply SSorted_cons; [apply SSorted_nil|..];
      repeat (constructor; [cbn; lia|]); constructor.
  - exists c. split; [exact E|].
    assert (300 ≤ c_current_agg_time c) as Hc.
    { rewrite Forall_forall in Hup. apply (Hup (ticket_new 300 0)). unfold example_tickets. cbn [tail]. set_solver. }
    split; rewrite Hsent; [reflexivity|by exists 1|lia|reflexivity|by exists 2|lia].
Defined.

Definition example_maxima : xml :=
  Elem "params" [] [Elem "timescale" [("val", "5")] []; Elem "max_nr_bins" [("val", "80")] []; Elem "flag0" [("val", "on")] [];
    Elem "features_max_values" [] [Elem "feat_1" [("max_val", "0"); ("featID", "a")] []; Elem "feat_2" [("featID", "b")] []]].

