(* ===== verification/Divergence.v ===== *)
(** * Divergences, means and percentiles

    Models the utility functions of [usr/app_Stat_AD/blocks/ADTest.cpp]: the
    symmetric divergence of two distributions, the mean of a vector and of a
    matrix, the position of the greatest element of a matrix, and the percentile
    by linear interpolation.

    [log2] of the mathematical library is an argument.  Reading past the end of a
    [vector], and sorting a sequence with a NaN, are undefined behaviour.  Indices
    ([uint] in the source) are [nat]; the vectors have at most 50 elements, or
    1225 where there is one per pair. *)

From S2P Require Export Binning.

(** ** Vectors and matrices *)

#[export] Instance outcome_ret : MRet outcome := λ A, Ret.
#[export] Instance outcome_bind : MBind outcome := λ A B f o,
  match o with Ret a => f a | Throw e => Throw e end.

Definition past_end : exn := undefined_behaviour "vector index out of range".

Definition vget {A} (v : list A) (i : nat) : outcome A :=
  match v !! i with Some a => Ret a | None => Throw past_end end.

Notation matrix := (list (list double)).

Definition mget (m : matrix) (i j : nat) : outcome double := r ← vget m i; vget r j.

Definition mset (m : matrix) (i j : nat) (x : double) : outcome matrix :=
  r ← vget m i; _ ← vget r j; Ret (<[i := <[j := x]> r]> m).

(** Rows are visited in order, and the elements of a row. *)
Definition build (n m : nat) (f : nat → nat → outcome double) : outcome matrix :=
  mapM (λ i, mapM (f i) (seq 0 m)) (seq 0 n).

Definition size_of {A} (v : list A) : double := double_of_Z (Z.of_nat (length v)).

(** ** Divergence *)

Section divergence.
Context (log2 : double → double).

Fixpoint KuLe_from (D_pq : double) (p q : list double) : outcome double :=
  match p, q with
  | [], _ => Ret D_pq
  | x :: p, y :: q => KuLe_from (dadd D_pq (dmul x (log2 (ddiv x y)))) p q
  | _ :: _, [] => Throw past_end
  end.

Definition KuLe_Divergence (p q : list double) : outcome double := KuLe_from dzero p q.

Definition Entropy (histo : list double) : double :=
  SFopp (foldl (λ Hp x, dadd Hp (dmul x (log2 x))) dzero histo).

Definition L_Divergence (p q : list double) : outcome double :=
  D_pq ← KuLe_Divergence p q;
  D_qp ← KuLe_Divergence q p;
  Ret (ddiv (dadd (ddiv D_pq (Entropy p)) (ddiv D_qp (Entropy q))) (double_of_Z 2)).
End divergence.

(** ** Utilities *)

Definition find_in_uint_vector (array : list nat) (target : nat) : nat := length (filter (λ x, x = target) array).

Definition sum (l : list double) : double := foldl dadd dzero l.

Definition vector_mean (vec : list double) : double := ddiv (sum vec) (size_of vec).

Definition double_matrix_mean (mat : matrix) : outcome double :=
  r0 ← vget mat 0;
  let n_col := length r0 in
  rows ← mapM (λ r, mapM (vget r) (seq 0 n_col)) mat;
  Ret (ddiv (sum (concat rows)) (double_of_Z (u32 (Z.of_nat (length mat * n_col))))).

Definition max_start : double := double_of_Z (-99999999).

(** The loops of [double_matrix_max]; the position is whatever it was before
    until something is above the maximum. *)
Fixpoint max_loop (m : matrix) (cells : list (nat * nat)) (max : double) (pos : option (nat * nat)) :
    outcome (double * option (nat * nat)) :=
  match cells with
  | [] => Ret (max, pos)
  | (i, j) :: cells =>
      x ← mget m i j;
      if dlt max x then max_loop m cells x (Some (i, j)) else max_loop m cells max pos
  end.

Definition cells (n : nat) : list (nat * nat) := i ← seq 0 n; (λ j, (i, j)) <$> seq 0 n.

Definition double_matrix_max (m : matrix) (pos : option (nat * nat)) : outcome (option (nat * nat)) :=
  r ← max_loop m (cells (length m)) max_start pos; Ret r.2.

(** ** Percentiles *)

Definition half : double := double_of_dyadic 1 (-1).

(** [p_vector]: the rank of each of [n] values, in percent. *)
Definition rank (n : nat) (i : nat) : double :=
  dmul (ddiv (double_of_Z 100) (double_of_Z (Z.of_nat n))) (dsub (double_of_Z (Z.of_nat (i + 1))) half).
Definition ranks (n : nat) : list double := rank n <$> seq 0 n.

(** The last index whose rank is at most [p]. *)
Definition nearest (p : double) (p_vector : list double) : nat :=
  foldl (λ k ix, if dle ix.2 p then ix.1 else k) 0%nat (imap pair p_vector).

Definition percentile_of_array (v_vector : list double) (p : Z) : outcome double :=
  if bool_decide (dnan ∈ v_vector) then Throw (undefined_behaviour "sort with a NaN")
  else
    let v_vector := merge_sort not_above v_vector in
    let N := length v_vector in
    let p_vector := ranks N in
    let p := double_of_Z p in
    first ← vget p_vector 0;
    if dlt p first then vget v_vector 0
    else
      last ← vget p_vector (N - 1);
      if dlt last p then vget v_vector (N - 1)
      else
        let k := nearest p p_vector in
        let n := ddiv (double_of_Z (Z.of_nat N)) (double_of_Z 100) in
        vk ← vget v_vector k;
        pk ← vget p_vector k;
        next ← vget v_vector (k + 1);
        Ret (dadd vk (dmul (dmul n (dsub p pk)) (dsub next vk))).

(** ** Vectors and matrices that are complete *)

Definition tabulate (n m : nat) (g : nat → nat → double) : matrix := (λ i, g i <$> seq 0 m) <$> seq 0 n.

Lemma mapM_Ret {A B} (f : A → outcome B) (g : A → B) l :
  (∀ x, x ∈ l → f x = Ret (g x)) → mapM f l = Ret (g <$> l).
Proof.
  intros Hf. induction l as [|x l IH]; [done|]. cbn [mapM]. rewrite (Hf x) by by left. cbn [mbind outcome_bind].
  rewrite IH; [done|]. intros y Hy. apply Hf. by right.
Qed.

Lemma vget_Ret {A} (v : list A) i a : v !! i = Some a → vget v i = Ret a.
Proof. unfold vget. by intros ->. Qed.

Lemma mapM_vget {A} (v : list A) (d : A) l :
  Forall (λ i, i < length v)%nat l → mapM (vget v) l = Ret ((λ i, default d (v !! i)) <$> l).
Proof.
  intros Hl. apply mapM_Ret. intros i Hi. rewrite Forall_forall in Hl. destruct (lookup_lt_is_Some_2 v i (Hl i Hi)) as [a Ea].
  unfold vget. by rewrite Ea.
Qed.

Lemma mapM_vget_Forall2 {A} (v : list A) l :
  Forall (λ i, i < length v)%nat l → ∃ r, mapM (vget v) l = Ret r ∧ Forall2 (λ i a, v !! i = Some a) l r.
Proof.
  intros Hl. induction Hl as [|i l Hi Hl (r & E & IH)]; [by exists []|].
  destruct (lookup_lt_is_Some_2 v i Hi) as [a Ea]. exists (a :: r). cbn [mapM]. rewrite (vget_Ret _ _ _ Ea), E.
  split; [done|]. by constructor.
Qed.

Lemma build_tabulate n m f g :
  (∀ i j, (i < n)%nat → (j < m)%nat → f i j = Ret (g i j)) → build n m f = Ret (tabulate n m g).
Proof.
  intros Hf. unfold build, tabulate. apply mapM_Ret. intros i Hi%elem_of_seq. apply mapM_Ret. intros j Hj%elem_of_seq.
  apply Hf; lia.
Qed.

Lemma tabulate_row n m g i : (i < n)%nat → tabulate n m g !! i = Some (g i <$> seq 0 m).
Proof. intros Hi. unfold tabulate. by rewrite list_lookup_fmap, lookup_seq_lt. Qed.

Lemma length_tabulate n m g : length (tabulate n m g) = n.
Proof. unfold tabulate. by rewrite length_fmap, length_seq. Qed.

Lemma mget_tabulate n m g i j : (i < n)%nat → (j < m)%nat → mget (tabulate n m g) i j = Ret (g i j).
Proof.
  intros Hi Hj. unfold mget. rewrite (vget_Ret _ _ _ (tabulate_row n m g i Hi)). cbn [mbind outcome_bind].
  apply vget_Ret. by rewrite list_lookup_fmap, lookup_seq_lt.
Qed.

Definition fn_set (g : nat → nat → double) (i j : nat) (x : double) (a b : nat) : double :=
  if decide (a = i ∧ b = j) then x else g a b.

Lemma insert_fmap_seq {A} (f : nat → A) m j x :
  (j < m)%nat → <[j := x]> (f <$> seq 0 m) = (λ b, if decide (b = j) then x else f b) <$> seq 0 m.
Proof.
  intros Hj. apply list_eq. intros b. rewrite list_lookup_fmap. destruct (decide (b = j)) as [->|Hne].
  - rewrite list_lookup_insert_eq by by rewrite length_fmap, length_seq. rewrite lookup_seq_lt by done. cbn.
    by rewrite decide_True.
  - rewrite list_lookup_insert_ne, list_lookup_fmap by done. destruct (seq 0 m !! b) as [b'|] eqn:E; [|done].
    apply lookup_seq in E as [-> _]. cbn. by rewrite decide_False.
Qed.

Lemma mset_tabulate n m g i j x :
  (i < n)%nat → (j < m)%nat → mset (tabulate n m g) i j x = Ret (tabulate n m (fn_set g i j x)).
Proof.
  intros Hi Hj. unfold mset. rewrite (vget_Ret _ _ _ (tabulate_row n m g i Hi)). cbn [mbind outcome_bind].
  rewrite (vget_Ret _ _ (g i j)) by by rewrite list_lookup_fmap, lookup_seq_lt. cbn [mbind outcome_bind]. f_equal.
  unfold tabulate. rewrite insert_fmap_seq by done. apply list_fmap_ext. intros k i' [-> Hk]%lookup_seq.
  rewrite insert_fmap_seq by done. cbn. unfold fn_set. destruct (decide (k = i)) as [->|Hne].
  - apply list_fmap_ext. intros l j' _. cbn. repeat case_decide; try done; naive_solver.
  - apply list_fmap_ext. intros l j' _. cbn. rewrite decide_False by naive_solver. done.
Qed.

(** ** Divergences of distributions of one size *)

Section divergences.
Context (log2 : double → double).

Definition kule (p q : list double) : double :=
  foldl (λ D xy, dadd D (dmul xy.1 (log2 (ddiv xy.1 xy.2)))) dzero (zip p q).
Definition ldiv (p q : list double) : double :=
  ddiv (dadd (ddiv (kule p q) (Entropy log2 p)) (ddiv (kule q p) (Entropy log2 q))) (double_of_Z 2).

Lemma KuLe_spec p q :
  KuLe_Divergence log2 p q = if (length p <=? length q)%nat then Ret (kule p q) else Throw past_end.
Proof.
  unfold KuLe_Divergence, kule. generalize dzero as D. revert q. induction p as [|x p IH]; intros [|y q] D; cbn [KuLe_from]; done.
Qed.

(** Distributions of different sizes are read past the end, whichever is longer. *)
Lemma L_Divergence_spec p q :
  L_Divergence log2 p q = if (length p =? length q)%nat then Ret (ldiv p q) else Throw past_end.
Proof.
  unfold L_Divergence. rewrite !KuLe_spec.
  destruct (Nat.eqb_spec (length p) (length q)) as [E|Hne].
  - rewrite !(proj2 (Nat.leb_le _ _)) by lia. done.
  - destruct (Nat.leb_spec (length p) (length q)) as [Hle|Hgt]; [|done]. cbn [mbind outcome_bind].
    by rewrite (proj2 (Nat.leb_gt _ _)) by lia.
Qed.
End divergences.

Lemma double_matrix_mean_Ret n m g : (0 < n)%nat → ∃ x, double_matrix_mean (tabulate n m g) = Ret x.
Proof.
  intros Hn. unfold double_matrix_mean. rewrite (vget_Ret _ _ _ (tabulate_row n m g 0 Hn)). cbn [mbind outcome_bind].
  rewrite length_fmap, length_seq.
  rewrite (mapM_Ret _ (λ r, (λ i, default dzero (r !! i)) <$> seq 0 m)); [eexists; reflexivity|].
  intros r Hr. unfold tabulate in Hr. apply list_elem_of_fmap in Hr as (i & -> & _). apply mapM_vget.
  apply Forall_forall. intros j Hj%elem_of_seq. rewrite length_fmap, length_seq. lia.
Qed.

Lemma elem_of_cells n i j : (i, j) ∈ cells n ↔ (i < n)%nat ∧ (j < n)%nat.
Proof.
  unfold cells. rewrite list_elem_of_bind. setoid_rewrite list_elem_of_fmap. setoid_rewrite elem_of_seq.
  split; [intros (? & (? & [= <- <-] & ?) & ?); lia|]. intros [Hi Hj]. exists i. split; [exists j; split; [done|lia]|lia].
Qed.

(** ** The greatest element *)

Notation positive x := (dlt dzero x = true).

Lemma dlt_positive m x : positive m → dlt m x = true → positive x.
Proof.
  unfold dlt, SFltb, SFcompare. destruct m as [[]|[]| |[] ? ?], x as [[]|[]| |[] ? ?]; done.
Qed.

Lemma not_below_positive m x : m ≠ dnan → positive x → dlt m x = false → positive m.
Proof.
  unfold dlt, SFltb, SFcompare. destruct m as [[]|[]| |[] ? ?], x as [[]|[]| |[] ? ?]; done.
Qed.

Lemma dlt_not_nan m x : dlt m x = true → x ≠ dnan.
Proof. unfold dlt, SFltb, SFcompare. destruct m as [[]|[]| |[] ? ?]; destruct x; done. Qed.

Lemma max_loop_spec n g cs max pos :
  Forall (λ c, c.1 < n ∧ c.2 < n)%nat cs → max ≠ dnan →
  ∃ max' pos', max_loop (tabulate n n g) cs max pos = Ret (max', pos') ∧
    (positive max ∨ Exists (λ c, positive (g c.1 c.2)) cs → positive max') ∧
    (max' = max ∧ pos' = pos ∨ ∃ c, c ∈ cs ∧ pos' = Some c ∧ max' = g c.1 c.2).
Proof.
  intros Hcs. revert max pos. induction Hcs as [|[i j] cs [Hi Hj] Hcs IH]; intros max pos Hnan; cbn [max_loop].
  { exists max, pos. split; [done|]. split; [|by left]. intros [?|He]; [done|]. by apply Exists_nil in He. }
  cbn [fst snd] in Hi, Hj. rewrite mget_tabulate by done. cbn [mbind outcome_bind].
  destruct (dlt max (g i j)) eqn:E.
  - destruct (IH (g i j) (Some (i, j)) (dlt_not_nan _ _ E)) as (max' & pos' & -> & Hp & Hc). exists max', pos'.
    split; [done|]. split.
    + intros [Hm|He]; apply Hp; [left; by eapply dlt_positive|]. apply Exists_cons in He as [He|He]; [by left|by right].
    + right. destruct Hc as [[-> ->]|(c & Hc & Ec)]; [by exists (i, j); split; [left|]|]. exists c. split; [by right|done].
  - destruct (IH max pos Hnan) as (max' & pos' & -> & Hp & Hc). exists max', pos'. split; [done|]. split.
    + intros [Hm|He]; apply Hp; [by left|]. apply Exists_cons in He as [He|He]; [left|by right].
      by eapply not_below_positive.
    + destruct Hc as [Hc|(c & Hc & Ec)]; [by left|right]. exists c. split; [by right|done].
Qed.

(** As long as something is positive, so is what is found. *)
Lemma double_matrix_max_positive n g pos a b :
  (a < n)%nat → (b < n)%nat → positive (g a b) →
  ∃ i j, double_matrix_max (tabulate n n g) pos = Ret (Some (i, j)) ∧ (i < n)%nat ∧ (j < n)%nat ∧ positive (g i j).
Proof.
  intros Ha Hb Hab. unfold double_matrix_max. rewrite length_tabulate.
  destruct (max_loop_spec n g (cells n) max_start pos) as (max' & pos' & -> & Hp & Hc).
  - apply Forall_forall. intros [i j] Hij%elem_of_cells. done.
  - done.
  - assert (positive max') as Hpos.
    { apply Hp. right. apply Exists_exists. exists (a, b). split; [by apply elem_of_cells|done]. }
    destruct Hc as [[-> _]|([i j] & Hij%elem_of_cells & -> & ->)]; [done|]. exists i, j. by destruct Hij.
Qed.

(** ** Percentiles that stay in range *)

Lemma nearest_range p v :
  v ≠ [] → nearest p v = 0%nat ∨ ∃ x, v !! nearest p v = Some x ∧ dle x p = true.
Proof.
  intros Hne. unfold nearest. assert (∀ l k, (∀ i x, (i, x) ∈ l → v !! i = Some x) →
    (k = 0%nat ∨ ∃ x, v !! k = Some x ∧ dle x p = true) →
    let r := foldl (λ k ix, if dle ix.2 p then ix.1 else k) k l in r = 0%nat ∨ ∃ x, v !! r = Some x ∧ dle x p = true) as Hgen.
  { induction l as [|[i x] l IH]; intros k Hl Hk; cbn [foldl]; [done|]. apply IH.
    - intros j y Hj. apply Hl. by right.
    - cbn [fst snd]. destruct (dle x p) eqn:E; [|done]. right. exists x. split; [apply Hl; by left|done]. }
  apply Hgen; [|by left]. intros i x Hix. apply list_elem_of_lookup in Hix as [k Hk].
  rewrite list_lookup_imap in Hk. destruct (v !! k) as [y|] eqn:E; [|done]. cbn in Hk. by injection Hk as <- <-.
Qed.

Definition pairs_of (n : nat) : nat := n * (n - 1) / 2.

(** The rank of the last of [N] values differs from [p] percent. *)
Definition clear_of (N : nat) (p : Z) : bool :=
  negb (dle (rank N (N - 1)) (double_of_Z p)) || dlt (rank N (N - 1)) (double_of_Z p).

Lemma pairs_clear n : (3 ≤ n ≤ 50)%nat → clear_of (pairs_of n) 1 = true ∧ clear_of (pairs_of n) 99 = true ∧ (3 ≤ pairs_of n)%nat.
Proof.
  intros Hn. assert (forallb (λ n, clear_of (pairs_of n) 1 && clear_of (pairs_of n) 99 && (3 <=? pairs_of n)%nat) (seq 3 48) = true)
    as Hall by (lazy; reflexivity).
  rewrite forallb_forall in Hall. specialize (Hall n). rewrite !andb_true_iff, Nat.leb_le in Hall.
  apply and_assoc, Hall, in_seq. lia.
Qed.

Lemma percentile_in_range v p :
  dnan ∉ v → (2 ≤ length v)%nat → clear_of (length v) p = true → ∃ x, percentile_of_array v p = Ret x.
Proof.
  intros Hnan Hlen Hclear. unfold percentile_of_array. rewrite bool_decide_eq_false_2 by done.
  set (w := merge_sort not_above v). assert (length w = length v) as Ew by (unfold w; by rewrite merge_sort_Permutation).
  rewrite Ew. set (N := length v) in *.
  assert (∀ k, (k < N)%nat → ∃ x, vget w k = Ret x) as Hw.
  { intros k Hk. destruct (lookup_lt_is_Some_2 w k) as [x Ex]; [lia|]. exists x. by apply vget_Ret. }
  assert (∀ k, (k < N)%nat → ranks N !! k = Some (rank N k)) as Hr.
  { intros k Hk. unfold ranks. by rewrite list_lookup_fmap, lookup_seq_lt. }
  rewrite (vget_Ret (ranks N) 0 _ (Hr 0%nat ltac:(lia))). cbn [mbind outcome_bind].
  destruct (dlt _ _); [apply Hw; lia|]. rewrite (vget_Ret (ranks N) (N - 1) _ (Hr (N - 1)%nat ltac:(lia))). cbn [mbind outcome_bind].
  destruct (dlt (rank N (N - 1)) (double_of_Z p)) eqn:Elast; [apply Hw; lia|].
  assert (nearest (double_of_Z p) (ranks N) + 1 < N)%nat as Hk.
  { destruct (nearest_range (double_of_Z p) (ranks N)) as [->|(x & Hx & Hle)]; [|lia|].
    - intros En. apply (f_equal length) in En. unfold ranks in En. rewrite length_fmap, length_seq in En. cbn in En. lia.
    - pose proof (lookup_lt_Some _ _ _ Hx) as Hlt. unfold ranks in Hlt. rewrite length_fmap, length_seq in Hlt.
      fold (ranks N) in Hlt. destruct (decide (nearest (double_of_Z p) (ranks N) = N - 1)%nat) as [E|]; [|lia].
      rewrite E, Hr in Hx by lia. injection Hx as <-. unfold clear_of in Hclear. by rewrite Hle, Elast in Hclear. }
  destruct (Hw (nearest (double_of_Z p) (ranks N))) as (vk & ->); [lia|]. cbn [mbind outcome_bind].
  rewrite (vget_Ret _ _ _ (Hr (nearest (double_of_Z p) (ranks N)) ltac:(lia))). cbn [mbind outcome_bind].
  destruct (Hw (nearest (double_of_Z p) (ranks N) + 1)%nat Hk) as (next & ->). cbn [mbind outcome_bind]. by eexists.
Qed.

(** With 50 values the 99th percentile is the rank of the last one, and the
    interpolation reads the value after it. *)
Lemma percentile_past_end :
  percentile_of_array (replicate 50 (double_of_Z 1)) 99 = Throw past_end.
Proof. lazy. reflexivity. Qed.

(** ** The order of doubles *)

(** Doubles that are not NaN compare like these triples, lexicographically. *)
Definition dkey (x : double) : Z * Z * Z :=
  match x with
  | S754_infinity true => (-2, 0, 0)
  | S754_finite true m e => (-1, - e, Zneg m)
  | S754_zero _ => (0, 0, 0)
  | S754_finite false m e => (1, e, Zpos m)
  | S754_infinity false => (2, 0, 0)
  | S754_nan => (3, 0, 0)
  end.

Definition key_lt (a b : Z * Z * Z) : Prop :=
  a.1.1 < b.1.1 ∨ a.1.1 = b.1.1 ∧ (a.1.2 < b.1.2 ∨ a.1.2 = b.1.2 ∧ a.2 < b.2).

Lemma dlt_key x y : x ≠ dnan → y ≠ dnan → dlt x y = true ↔ key_lt (dkey x) (dkey y).
Proof.
  intros Hx Hy. unfold dlt, SFltb, SFcompare, key_lt.
  destruct x as [sx|[]| |[] mx ex], y as [sy|[]| |[] my ey]; try done; cbn [dkey fst snd]; try (split; [done|lia]); try (split; [lia|done]).
  - destruct (Z.compare_spec ex ey); [subst|split; [done|lia]|split; [lia|done]].
    change (Pcompare mx my Eq) with (mx ?= my)%positive. destruct (Pos.compare_spec mx my); cbn [CompOpp]; split; try done; lia.
  - destruct (Z.compare_spec ex ey); [subst|split; [lia|done]|split; [done|lia]].
    change (Pcompare mx my Eq) with (mx ?= my)%positive. destruct (Pos.compare_spec mx my); split; try done; lia.
Qed.

(** [std::sort] with [<]: nothing is less than what comes before it. *)
Definition key_le (x y : double) : Prop := ¬ key_lt (dkey y) (dkey x).
#[export] Instance key_le_dec : RelDecision key_le.
Proof. intros x y. unfold key_le, key_lt. apply _. Defined.
#[export] Instance key_le_trans : Transitive key_le.
Proof. intros x y z. unfold key_le, key_lt. lia. Qed.
#[export] Instance key_le_total : Total key_le.
Proof. intros x y. unfold key_le, key_lt. lia. Qed.

Lemma key_le_not_below x y : x ≠ dnan → y ≠ dnan → key_le x y → dlt y x = false.
Proof. intros Hx Hy Hle. destruct (dlt y x) eqn:E; [|done]. by apply dlt_key in E. Qed.
