(* ===== verification/Pruning.v ===== *)
(** * The reference set

    Models [RSIA_stepIII] and [ENKL_test] of [usr/app_Stat_AD/blocks/ADTest.cpp]:
    the division of the reference set into two groups that are far from each
    other, the choice of the one to keep, and the comparison of the current
    distribution with it.

    The vectors the source fills in through pointers are results here; the branch
    vectors, which live across the rounds of the loop, are part of its state. *)

From S2P Require Export StatMsg Divergence.

Section pruning.
Context (log2 : double → double).

(** ** Dividing the reference set *)

Record pruning := Pruning {
  p_A : list nat; p_B : list nat; p_A_branch1 : list nat; p_A_branch2 : list nat; p_B_branch1 : list nat;
  p_B_branch2 : list nat; p_D_reg : matrix; p_index : option (nat * nat)
}.

Definition p_set_D (D : matrix) (index : option (nat * nat)) (s : pruning) : pruning :=
  Pruning (p_A s) (p_B s) (p_A_branch1 s) (p_A_branch2 s) (p_B_branch1 s) (p_B_branch2 s) D index.
Definition push_A (x : nat) (s : pruning) : pruning :=
  Pruning (p_A s ++ [x]) (p_B s) (p_A_branch1 s) (p_A_branch2 s) (p_B_branch1 s) (p_B_branch2 s) (p_D_reg s) (p_index s).
Definition push_B (x : nat) (s : pruning) : pruning :=
  Pruning (p_A s) (p_B s ++ [x]) (p_A_branch1 s) (p_A_branch2 s) (p_B_branch1 s) (p_B_branch2 s) (p_D_reg s) (p_index s).

(** The loops that assign or append element by element: what [dst] had beyond the
    length of [src] stays. *)
Definition copy_into (src dst : list nat) : list nat := src ++ drop (length src) dst.

(** [simm_D] at the rows of one branch and the columns of the other. *)
Definition sub_matrix (simm_D : matrix) (rows cols : list nat) : outcome matrix :=
  mapM (λ i, mapM (mget simm_D i) cols) rows.

(** Neither index has a group: both ways round are tried. *)
Definition branch (simm_D : matrix) (i j : nat) (s : pruning) : outcome pruning :=
  let A_branch1 := copy_into (p_A s) (p_A_branch1 s) ++ [i] in
  let A_branch2 := copy_into (p_A s) (p_A_branch2 s) ++ [j] in
  let B_branch1 := copy_into (p_B s) (p_B_branch1 s) ++ [j] in
  let B_branch2 := copy_into (p_B s) (p_B_branch2 s) ++ [i] in
  simm_D_branch1 ← sub_matrix simm_D A_branch1 B_branch1;
  simm_D_branch2 ← sub_matrix simm_D A_branch2 B_branch2;
  cost_branch1 ← double_matrix_mean simm_D_branch1;
  cost_branch2 ← double_matrix_mean simm_D_branch2;
  let '(A, B) := if dlt cost_branch2 cost_branch1
    then (copy_into A_branch1 (p_A s), copy_into B_branch1 (p_B s))
    else (copy_into A_branch2 (p_A s), copy_into B_branch2 (p_B s)) in
  Ret (Pruning A B A_branch1 A_branch2 B_branch1 B_branch2 (p_D_reg s) (p_index s)).

Notation found v x := (0 <? find_in_uint_vector v x)%nat.

(** One round of the [while]. *)
Definition prune_step (simm_D : matrix) (s : pruning) : outcome pruning :=
  pos ← double_matrix_max (p_D_reg s) (p_index s);
  match pos with
  | None => Throw (undefined_behaviour "indices that were never set")
  | Some (i, j) =>
      D ← mset (p_D_reg s) i j dzero;
      let s := p_set_D D (Some (i, j)) s in
      if found (p_A s) i then
        Ret (if negb (found (p_B s) j) && negb (found (p_A s) j) then push_B j s else s)
      else if found (p_A s) j then
        Ret (if negb (found (p_B s) i) && negb (found (p_A s) i) then push_B i s else s)
      else if found (p_B s) i then
        Ret (if negb (found (p_A s) j) && negb (found (p_B s) j) then push_A j s else s)
      else if found (p_B s) j then
        Ret (if negb (found (p_A s) i) && negb (found (p_B s) i) then push_A i s else s)
      else branch simm_D i j s
  end.

Fixpoint prune_loop (fuel : nat) (N : nat) (simm_D : matrix) (s : pruning) : outcome pruning :=
  if (length (p_A s) + length (p_B s) <? N)%nat then
    match fuel with
    | O => Throw (undefined_behaviour "does not return")
    | S fuel => s ← prune_step simm_D s; prune_loop fuel N simm_D s
    end
  else Ret s.

(** The divergences above the diagonal, and both sides of it. *)
Definition upper_matrix (pdfs : list (list double)) : outcome matrix :=
  build (length pdfs) (length pdfs) (λ i j,
    if (i <? j)%nat then p ← vget pdfs i; q ← vget pdfs j; L_Divergence log2 p q else Ret dzero).

Definition symmetric (N : nat) (D : matrix) : outcome matrix :=
  build N N (λ i j, if (i <? j)%nat then mget D i j else if (j <? i)%nat then mget D j i else Ret dzero).

Definition abs (x : double) : double := SFabs x.

Definition gap_limit : double := ddiv (double_of_Z 1) (double_of_Z 10).

(** The cardinality gap decides whether the greater group alone is kept. *)
Definition keep_of (N : nat) (A B : list nat) : list nat :=
  let a := size_of A in
  let b := size_of B in
  if dlt gap_limit (abs (ddiv (dsub a b) (dadd a b))) then
    if (length A <? length B)%nat then merge_sort le B else merge_sort le A
  else seq 0 N.

Definition prune_start (D : matrix) : pruning := Pruning [] [] [] [] [] [] D None.

(** The final reference set, [keep_index], [closest_dist] and [dist_vec]. *)
Definition RSIA_stepIII (fuel : nat) (curr_PDF : list double) (RefSetII : list window_element) :
    outcome (list window_element * list nat * matrix * list double) :=
  let N := length RefSetII in
  closest_dist ← upper_matrix (w_PDF <$> RefSetII);
  dist_vec ← mapM (λ w, L_Divergence log2 (w_PDF w) curr_PDF) RefSetII;
  simm_D ← symmetric N closest_dist;
  s ← prune_loop fuel N simm_D (prune_start closest_dist);
  let keep_index := keep_of N (p_A s) (p_B s) in
  RefSet_final ← mapM (vget RefSetII) keep_index;
  Ret (RefSet_final, keep_index, closest_dist, dist_vec).
End pruning.

(** ** The test *)

Record verdict := Verdict { v_l_base : double; v_u_base : double; v_mean_base : double; v_current : double }.

(** The elements above the diagonal, row by row. *)
Definition above_diagonal (m : matrix) : list double := concat (imap (λ i r, drop (S i) r) m).

Definition alpha : Z := 99.

Definition ENKL_test (RefSetIII_size : nat) (closest_distance : matrix) (dist_vec : list double) (keep_index : list nat) :
    outcome verdict :=
  closest_dist ← build RefSetIII_size RefSetIII_size (λ i j,
    if (j <? i + 1)%nat then Ret dzero
    else indexI ← vget keep_index i; indexJ ← vget keep_index j; mget closest_distance indexI indexJ);
  let closest_dist_vec := above_diagonal closest_dist in
  l ← percentile_of_array closest_dist_vec (100 - alpha);
  u ← percentile_of_array closest_dist_vec alpha;
  appo ← mapM (vget dist_vec) keep_index;
  Ret (Verdict l u (vector_mean closest_dist_vec) (vector_mean appo)).

(** The current distribution is not anomalous. *)
Definition passes (v : verdict) : bool := dlt (v_current v) (v_u_base v).

(** ** The loop ends *)

Section groups.
Context (N : nat) (simm : nat → nat → double) (g0 : nat → nat → double).
Context (upper : ∀ i j, dlt dzero (g0 i j) = true → i ≠ j).
Implicit Types (s : pruning) (g : nat → nat → double).

Notation positive x := (dlt dzero x = true).
Notation groups s := (p_A s ++ p_B s).

(** Between the rounds: what has been crossed out in [D_reg] has both its indices
    in a group; the branch vectors are not longer than the groups. *)
Record groups_ok g s : Prop := GroupsOk {
  go_matrix : p_D_reg s = tabulate N N g;
  go_crossed i j : (i < N)%nat → (j < N)%nat → g i j = g0 i j ∨ g i j = dzero ∧ i ∈ groups s ∧ j ∈ groups s;
  go_nodup : NoDup (groups s);
  go_range : Forall (λ i, i < N)%nat (groups s);
  go_branches : (length (p_A_branch1 s) ≤ length (p_A s) ∧ length (p_A_branch2 s) ≤ length (p_A s) ∧
    length (p_B_branch1 s) ≤ length (p_B s) ∧ length (p_B_branch2 s) ≤ length (p_B s))%nat
}.

Lemma found_spec v x : (0 <? find_in_uint_vector v x)%nat = bool_decide (x ∈ v).
Proof.
  unfold find_in_uint_vector. induction v as [|y v IH]; [done|]. destruct (decide (y = x)) as [->|Hne].
  - rewrite filter_cons_True by done. rewrite bool_decide_eq_true_2 by by left. done.
  - rewrite filter_cons_False, IH by done. apply bool_decide_ext. rewrite elem_of_cons.
    split; [by right|]. by intros [->|?].
Qed.

Lemma copy_into_shorter src dst : (length dst ≤ length src)%nat → copy_into src dst = src.
Proof. intros Hle. unfold copy_into. by rewrite drop_ge, app_nil_r. Qed.

Lemma sub_matrix_Ret rows cols :
  Forall (λ i, i < N)%nat rows → Forall (λ i, i < N)%nat cols → rows ≠ [] →
  ∃ m c, sub_matrix (tabulate N N simm) rows cols = Ret m ∧ double_matrix_mean m = Ret c.
Proof.
  intros Hr Hc Hne. rewrite Forall_forall in Hr. rewrite Forall_forall in Hc.
  assert (sub_matrix (tabulate N N simm) rows cols = Ret ((λ i, simm i <$> cols) <$> rows)) as E.
  { apply mapM_Ret. intros i Hi. apply mapM_Ret. intros j Hj. apply mget_tabulate; auto. }
  exists ((λ i, simm i <$> cols) <$> rows). unfold double_matrix_mean. rewrite E.
  destruct rows as [|r rows]; [done|]. rewrite (vget_Ret _ 0 (simm r <$> cols)) by done. cbn [mbind outcome_bind].
  rewrite (mapM_Ret _ (λ row, (λ i, default dzero (row !! i)) <$> seq 0 (length (simm r <$> cols)))); [by eexists|].
  intros row (i & -> & _)%list_elem_of_fmap. apply mapM_vget. apply Forall_forall. intros j Hj%elem_of_seq.
  rewrite !length_fmap in *. lia.
Qed.

(** What a round adds to the groups. *)
Lemma push_ok g s i j x A B A1 A2 B1 B2 :
  groups_ok g s → (i < N)%nat → (j < N)%nat → (x < N)%nat → x ∉ groups s →
  (A = p_A s ++ [x] ∧ B = p_B s ∨ A = p_A s ∧ B = p_B s ++ [x]) →
  (∀ y, y = i ∨ y = j → y ∈ groups s ∨ y = x) →
  (length A1 ≤ length A ∧ length A2 ≤ length A ∧ length B1 ≤ length B ∧ length B2 ≤ length B)%nat →
  groups_ok (fn_set g i j dzero) (Pruning A B A1 A2 B1 B2 (tabulate N N (fn_set g i j dzero)) (Some (i, j))).
Proof.
  intros [EM Hcr Hnd Hr Hb] Hi Hj Hx Hnew HAB Hij Hlen.
  assert (A ++ B ≡ₚ groups s ++ [x]) as Hp.
  { destruct HAB as [[-> ->]|[-> ->]]; [|by rewrite app_assoc]. rewrite <- !app_assoc. by rewrite (Permutation_app_comm [x]). }
  assert (∀ y, y ∈ A ++ B ↔ y ∈ groups s ∨ y = x) as Hel by (intros y; by rewrite Hp, elem_of_app, list_elem_of_singleton).
  split; cbn [p_D_reg p_A p_B p_A_branch1 p_A_branch2 p_B_branch1 p_B_branch2]; [done| | | |done].
  - intros a b Ha Hb'. unfold fn_set. case_decide as Eab.
    + destruct Eab as [-> ->]. right. split; [done|]. split; apply Hel; auto.
    + destruct (Hcr a b Ha Hb') as [?|(? & ? & ?)]; [by left|right]. rewrite !Hel. auto.
  - rewrite Hp. apply NoDup_app. split; [done|]. split; [|apply NoDup_singleton].
    intros y Hy ->%list_elem_of_singleton. by apply Hnew.
  - rewrite Hp. apply Forall_app. split; [done|]. by constructor; [|constructor].
Qed.

Lemma push2_ok g s i j A B A1 A2 B1 B2 :
  groups_ok g s → (i < N)%nat → (j < N)%nat → i ≠ j → i ∉ groups s → j ∉ groups s →
  (A = p_A s ++ [i] ∧ B = p_B s ++ [j] ∨ A = p_A s ++ [j] ∧ B = p_B s ++ [i]) →
  (length A1 ≤ length A ∧ length A2 ≤ length A ∧ length B1 ≤ length B ∧ length B2 ≤ length B)%nat →
  groups_ok (fn_set g i j dzero) (Pruning A B A1 A2 B1 B2 (tabulate N N (fn_set g i j dzero)) (Some (i, j))).
Proof.
  intros [EM Hcr Hnd Hr Hb] Hi Hj Hne Hni Hnj HAB Hlen.
  assert (A ++ B ≡ₚ groups s ++ [i; j]) as Hp.
  { destruct HAB as [[-> ->]|[-> ->]]; solve_Permutation. }
  assert (∀ y, y ∈ A ++ B ↔ y ∈ groups s ∨ y = i ∨ y = j) as Hel.
  { intros y. rewrite Hp, elem_of_app, elem_of_cons, list_elem_of_singleton. done. }
  split; cbn [p_D_reg p_A p_B p_A_branch1 p_A_branch2 p_B_branch1 p_B_branch2]; [done| | | |done].
  - intros a b Ha Hb'. unfold fn_set. case_decide as Eab.
    + destruct Eab as [-> ->]. right. split; [done|]. split; apply Hel; auto.
    + destruct (Hcr a b Ha Hb') as [?|(? & ? & ?)]; [by left|right]. rewrite !Hel. auto.
  - rewrite Hp. apply NoDup_app. split; [done|]. split.
    + intros y Hy. rewrite elem_of_cons, list_elem_of_singleton. by intros [->| ->].
    + apply NoDup_cons. split; [by rewrite list_elem_of_singleton|apply NoDup_singleton].
  - rewrite Hp. apply Forall_app. split; [done|]. by repeat constructor.
Qed.

Lemma push_A_ok g s i j x :
  groups_ok g s → (i < N)%nat → (j < N)%nat → (x < N)%nat → x ∉ groups s → (∀ y, y = i ∨ y = j → y ∈ groups s ∨ y = x) →
  groups_ok (fn_set g i j dzero) (push_A x (p_set_D (tabulate N N (fn_set g i j dzero)) (Some (i, j)) s)).
Proof.
  intros Hs Hi Hj Hx Hnew Hij. pose proof (go_branches _ _ Hs). apply (push_ok g s i j x); auto.
  cbn [p_set_D p_A p_B p_A_branch1 p_A_branch2 p_B_branch1 p_B_branch2]. rewrite length_app. lia.
Qed.

Lemma push_B_ok g s i j x :
  groups_ok g s → (i < N)%nat → (j < N)%nat → (x < N)%nat → x ∉ groups s → (∀ y, y = i ∨ y = j → y ∈ groups s ∨ y = x) →
  groups_ok (fn_set g i j dzero) (push_B x (p_set_D (tabulate N N (fn_set g i j dzero)) (Some (i, j)) s)).
Proof.
  intros Hs Hi Hj Hx Hnew Hij. pose proof (go_branches _ _ Hs). apply (push_ok g s i j x); auto.
  cbn [p_set_D p_A p_B p_A_branch1 p_A_branch2 p_B_branch1 p_B_branch2]. rewrite length_app. lia.
Qed.

Lemma keep_ok g s i j :
  groups_ok g s → i ∈ groups s → j ∈ groups s →
  groups_ok (fn_set g i j dzero) (p_set_D (tabulate N N (fn_set g i j dzero)) (Some (i, j)) s).
Proof.
  intros [EM Hcr Hnd Hr Hb] Hi Hj.
  split; cbn [p_set_D p_D_reg p_A p_B p_A_branch1 p_A_branch2 p_B_branch1 p_B_branch2]; [done| |done|done|done].
  intros a b Ha Hb'. unfold fn_set. case_decide as Eab; [|by apply Hcr]. destruct Eab as [-> ->]. by right.
Qed.

Lemma branch_ok g s i j :
  groups_ok g s → (i < N)%nat → (j < N)%nat → i ≠ j → i ∉ groups s → j ∉ groups s →
  ∃ s', branch (tabulate N N simm) i j (p_set_D (tabulate N N (fn_set g i j dzero)) (Some (i, j)) s) = Ret s' ∧
    groups_ok (fn_set g i j dzero) s'.
Proof.
  intros Hs Hi Hj Hne Hni Hnj. pose proof Hs as [_ _ _ Hr (L1 & L2 & L3 & L4)]. apply Forall_app in Hr as [HA HB].
  unfold branch. cbn [p_set_D p_D_reg p_A p_B p_A_branch1 p_A_branch2 p_B_branch1 p_B_branch2 p_index].
  rewrite (copy_into_shorter _ _ L1), (copy_into_shorter _ _ L2), (copy_into_shorter _ _ L3), (copy_into_shorter _ _ L4).
  assert (∀ v x, Forall (λ i, i < N)%nat v → (x < N)%nat → Forall (λ i, i < N)%nat (v ++ [x])) as Hsnoc.
  { intros v x Hv Hx. apply Forall_app. by split; [|repeat constructor]. }
  assert (∀ (v : list nat) x, v ++ [x] ≠ []) as Hsome by (by intros [] ?).
  destruct (sub_matrix_Ret (p_A s ++ [i]) (p_B s ++ [j])) as (m1 & c1 & -> & E1); [auto..|].
  destruct (sub_matrix_Ret (p_A s ++ [j]) (p_B s ++ [i])) as (m2 & c2 & -> & E2); [auto..|].
  cbn [mbind outcome_bind]. rewrite E1. cbn [mbind outcome_bind]. rewrite E2. cbn [mbind outcome_bind].
  destruct (dlt c2 c1); eexists; (split; [reflexivity|]); rewrite !copy_into_shorter by (rewrite length_app; lia);
    apply (push2_ok g s); auto; rewrite !length_app; cbn [length]; lia.
Qed.

Lemma prune_step_ok g s a b :
  groups_ok g s → (a < N)%nat → (b < N)%nat → positive (g a b) →
  ∃ i j s', prune_step (tabulate N N simm) s = Ret s' ∧ (i < N)%nat ∧ (j < N)%nat ∧ positive (g i j) ∧
    groups_ok (fn_set g i j dzero) s'.
Proof.
  intros Hs Ha Hb Hab. pose proof Hs as [EM Hcr _ _ (L1 & L2 & L3 & L4)].
  destruct (double_matrix_max_positive N g (p_index s) a b Ha Hb Hab) as (i & j & E & Hi & Hj & Hij).
  assert (i ≠ j) as Hne.
  { apply upper. destruct (Hcr i j Hi Hj) as [<-|[Ez _]]; [done|]. rewrite Ez in Hij. done. }
  exists i, j. unfold prune_step. rewrite EM, E. cbn [mbind outcome_bind]. rewrite mset_tabulate by done.
  cbn [mbind outcome_bind]. rewrite !found_spec. cbn [p_set_D p_A p_B].
  assert (∀ x, x ∈ groups s ↔ x ∈ p_A s ∨ x ∈ p_B s) as Hg by (intros x; apply elem_of_app).
  repeat (case_bool_decide; cbn [negb andb]).
  all: try (eexists; split; [reflexivity|split; [done|split; [done|split; [done|]]]];
    first [ apply push_A_ok; auto; [rewrite Hg; tauto|intros y [->| ->]; rewrite Hg; tauto]
          | apply push_B_ok; auto; [rewrite Hg; tauto|intros y [->| ->]; rewrite Hg; tauto]
          | apply keep_ok; auto; rewrite Hg; tauto ]).
  destruct (branch_ok g s i j Hs Hi Hj Hne) as (s' & -> & Hs'); [rewrite Hg; tauto..|].
  by exists s'.
Qed.

Definition positives g : nat := length (filter (λ c, positive (g c.1 c.2)) (cells N)).

Lemma filter_length_lt {A} (P Q : A → Prop) `{∀ x, Decision (P x)} `{∀ x, Decision (Q x)} l x :
  (∀ y, P y → Q y) → x ∈ l → Q x → ¬ P x → (length (filter P l) < length (filter Q l))%nat.
Proof.
  intros Himp Hx HQ HP. induction l as [|y l IH]; [by apply not_elem_of_nil in Hx|].
  assert (∀ l', (length (filter P l') ≤ length (filter Q l'))%nat) as Hle.
  { intros l'. induction l' as [|z l' IHl]; [done|]. rewrite !filter_cons. repeat case_decide; cbn [length]; try lia. naive_solver. }
  rewrite !filter_cons. apply elem_of_cons in Hx as [->|Hx].
  - rewrite decide_False, decide_True by done. cbn [length]. specialize (Hle l). lia.
  - specialize (IH Hx). repeat case_decide; cbn [length]; try lia. naive_solver.
Qed.

Lemma crossing_decreases g i j :
  (i < N)%nat → (j < N)%nat → positive (g i j) → (positives (fn_set g i j dzero) < positives g)%nat.
Proof.
  intros Hi Hj Hp. unfold positives. apply (filter_length_lt _ _ _ (i, j)).
  - intros [a b]. cbn. unfold fn_set. by case_decide.
  - by apply elem_of_cells.
  - done.
  - cbn. unfold fn_set. by rewrite decide_True.
Qed.

Context (covered : ∀ x, (x < N)%nat → ∃ y, (y < N)%nat ∧ (positive (g0 x y) ∨ positive (g0 y x))).

Lemma groups_complete g s : groups_ok g s → (N ≤ length (groups s))%nat → groups s ≡ₚ seq 0 N.
Proof.
  intros [_ _ Hnd Hr _] Hlen. apply submseteq_length_Permutation; [|by rewrite length_seq].
  apply NoDup_submseteq; [done|]. intros x Hx. rewrite Forall_forall in Hr. apply elem_of_seq. specialize (Hr x Hx). lia.
Qed.

Lemma unplaced (l : list nat) : (length l < N)%nat → ∃ x, (x < N)%nat ∧ x ∉ l.
Proof.
  intros Hlen. destruct (decide (Forall (λ x, x ∈ l) (seq 0 N))) as [Hall|Hnot].
  - rewrite Forall_forall in Hall. apply (NoDup_submseteq _ _ (NoDup_seq 0 N)), submseteq_length in Hall.
    rewrite length_seq in Hall. lia.
  - apply not_Forall_Exists in Hnot; [|apply _]. apply Exists_exists in Hnot as (x & Hx%elem_of_seq & Hnew). exists x.
    split; [lia|done].
Qed.

Lemma prune_loop_ends fuel g s :
  groups_ok g s → (positives g ≤ fuel)%nat →
  ∃ s', prune_loop fuel N (tabulate N N simm) s = Ret s' ∧ groups s' ≡ₚ seq 0 N.
Proof.
  revert g s. induction fuel as [|fuel IH]; intros g s Hs Hf.
  all: destruct (Nat.ltb_spec (length (p_A s) + length (p_B s)) N) as [Hlt|Hge].
  2,4: exists s; cbn [prune_loop]; rewrite (proj2 (Nat.ltb_ge _ _)) by done; split; [done|];
    apply (groups_complete g); [done|by rewrite length_app].
  all: assert (∃ a b, (a < N)%nat ∧ (b < N)%nat ∧ positive (g a b)) as (a & b & Ha & Hb & Hab).
  1,3: destruct (unplaced (groups s)) as (x & Hx & Hnew); [by rewrite length_app|];
    destruct (covered x Hx) as (y & Hy & Hxy);
    destruct Hs as [_ Hcr _ _ _];
    destruct Hxy as [Hxy|Hxy]; [exists x, y|exists y, x]; (split; [lia|split; [lia|]]);
    [destruct (Hcr x y) as [->|(_ & ? & ?)]|destruct (Hcr y x) as [->|(_ & ? & ?)]]; try lia; done.
  - pose proof (crossing_decreases g a b Ha Hb Hab). lia.
  - cbn [prune_loop]. rewrite (proj2 (Nat.ltb_lt _ _)) by done.
    destruct (prune_step_ok g s a b Hs Ha Hb Hab) as (i & j & s' & -> & Hi & Hj & Hij & Hs'). cbn [mbind outcome_bind].
    apply (IH _ _ Hs'). pose proof (crossing_decreases g i j Hi Hj Hij). lia.
Qed.
End groups.

(** ** The third step *)

Lemma length_cells n : length (cells n) = (n * n)%nat.
Proof.
  unfold cells. assert (∀ l : list nat, length (l ≫= (λ i : nat, (λ j : nat, (i, j)) <$> seq 0 n)) = (length l * n)%nat) as H.
  { induction l as [|x l IH]; [done|]. rewrite bind_cons, length_app, length_fmap, length_seq, IH. cbn [length]. lia. }
  by rewrite H, length_seq.
Qed.

Lemma merge_sort_strict l : NoDup l → StronglySorted lt (merge_sort le l) ∧ merge_sort le l ≡ₚ l.
Proof.
  intros Hnd. pose proof (merge_sort_Permutation le l) as Hp. split; [|done]. rewrite <- Hp in Hnd.
  pose proof (StronglySorted_merge_sort le l) as Hs. clear Hp. induction Hs as [|x l' Hs IH Hx]; [constructor|].
  apply NoDup_cons in Hnd as [Hx' Hnd]. constructor; [by apply IH|]. rewrite Forall_forall in Hx. apply Forall_forall.
  intros y Hy. specialize (Hx y Hy). assert (x ≠ y) by by intros ->. lia.
Qed.

Lemma seq_strict n m : StronglySorted lt (seq n m).
Proof.
  revert n. induction m as [|m IH]; intros n; cbn [seq]; [constructor|]. constructor; [apply IH|].
  apply Forall_forall. intros x Hx%elem_of_seq. lia.
Qed.

(** Either everything is kept, or the group that is not the smaller one. *)
Lemma keep_of_spec N A B :
  A ++ B ≡ₚ seq 0 N →
  StronglySorted lt (keep_of N A B) ∧ ∃ rest, keep_of N A B ++ rest ≡ₚ seq 0 N ∧ (length rest ≤ length (keep_of N A B))%nat.
Proof.
  intros Hp. assert (NoDup (A ++ B)) as Hnd by (rewrite Hp; apply NoDup_seq). apply NoDup_app in Hnd as (HA & _ & HB).
  destruct (merge_sort_strict A HA) as [SA PA]. destruct (merge_sort_strict B HB) as [SB PB].
  unfold keep_of. destruct (dlt _ _); [destruct (Nat.ltb_spec (length A) (length B))|].
  - split; [done|]. exists A. rewrite PB. split; [by rewrite Permutation_app_comm|lia].
  - split; [done|]. exists B. rewrite PA. split; [done|lia].
  - split; [apply seq_strict|]. exists []. split; [by rewrite app_nil_r|cbn [length]; lia].
Qed.

Section third_step.
Context (log2 : double → double) (curr_PDF : list double) (ws : list window_element).
Context (one_size : Forall (λ w, length (w_PDF w) = length curr_PDF) ws).

Definition pdf_at (i : nat) : list double := default [] (w_PDF <$> ws !! i).
Definition between (i j : nat) : double := ldiv log2 (pdf_at i) (pdf_at j).
Definition upper_of (i j : nat) : double := if (i <? j)%nat then between i j else dzero.
Definition both_sides (i j : nat) : double :=
  if (i <? j)%nat then upper_of i j else if (j <? i)%nat then upper_of j i else dzero.

Lemma pdf_at_get i : (i < length ws)%nat → vget (w_PDF <$> ws) i = Ret (pdf_at i) ∧ length (pdf_at i) = length curr_PDF.
Proof.
  intros Hi. unfold pdf_at, vget. rewrite list_lookup_fmap. destruct (lookup_lt_is_Some_2 ws i Hi) as [w Ew]. rewrite Ew.
  split; [done|]. rewrite Forall_lookup in one_size. by apply (one_size i).
Qed.

Lemma upper_matrix_spec : upper_matrix log2 (w_PDF <$> ws) = Ret (tabulate (length ws) (length ws) upper_of).
Proof.
  unfold upper_matrix. rewrite length_fmap. apply build_tabulate. intros i j Hi Hj. unfold upper_of.
  destruct (i <? j)%nat; [|done]. destruct (pdf_at_get i Hi) as [-> Li]. destruct (pdf_at_get j Hj) as [-> Lj].
  cbn [mbind outcome_bind]. rewrite L_Divergence_spec, Li, Lj, Nat.eqb_refl. done.
Qed.

Lemma symmetric_spec :
  symmetric (length ws) (tabulate (length ws) (length ws) upper_of) = Ret (tabulate (length ws) (length ws) both_sides).
Proof.
  apply build_tabulate. intros i j Hi Hj. unfold both_sides.
  destruct (i <? j)%nat; [by apply mget_tabulate|]. destruct (j <? i)%nat; [by apply mget_tabulate|done].
Qed.

Lemma stepIII_start fuel :
  RSIA_stepIII log2 fuel curr_PDF ws =
    s ← prune_loop fuel (length ws) (tabulate (length ws) (length ws) both_sides)
          (prune_start (tabulate (length ws) (length ws) upper_of));
    let keep_index := keep_of (length ws) (p_A s) (p_B s) in
    RefSet_final ← mapM (vget ws) keep_index;
    Ret (RefSet_final, keep_index, tabulate (length ws) (length ws) upper_of, (λ w, ldiv log2 (w_PDF w) curr_PDF) <$> ws).
Proof.
  unfold RSIA_stepIII. rewrite upper_matrix_spec. cbn [mbind outcome_bind].
  rewrite (mapM_Ret _ (λ w, ldiv log2 (w_PDF w) curr_PDF)).
  - cbn [mbind outcome_bind]. by rewrite symmetric_spec.
  - intros w Hw. rewrite Forall_forall in one_size. by rewrite L_Divergence_spec, (one_size w Hw), Nat.eqb_refl.
Qed.

Lemma stepIII_spec fuel :
  (length ws * length ws ≤ fuel)%nat →
  (∀ x, (x < length ws)%nat → ∃ y, (x < y < length ws)%nat ∧ dlt dzero (between x y) = true ∨
    (y < x)%nat ∧ dlt dzero (between y x) = true) →
  ∃ final keep rest,
    RSIA_stepIII log2 fuel curr_PDF ws = Ret (final, keep, tabulate (length ws) (length ws) upper_of,
      (λ w, ldiv log2 (w_PDF w) curr_PDF) <$> ws) ∧
    StronglySorted lt keep ∧ keep ++ rest ≡ₚ seq 0 (length ws) ∧ (length rest ≤ length keep)%nat ∧
    Forall2 (λ i w, ws !! i = Some w) keep final.
Proof.
  intros Hf Hcov. rewrite stepIII_start.
  destruct (prune_loop_ends (length ws) both_sides upper_of) with (fuel := fuel) (g := upper_of)
    (s := prune_start (tabulate (length ws) (length ws) upper_of)) as (s & -> & Hp).
  - intros i j Hij. unfold upper_of in Hij. destruct (Nat.ltb_spec i j); [lia|done].
  - intros x Hx. unfold upper_of. destruct (Hcov x Hx) as (y & [[Hy Hp]|[Hy Hp]]); exists y; (split; [lia|]);
      [left|right]; by rewrite (proj2 (Nat.ltb_lt _ _)) by lia.
  - split; cbn [prune_start p_D_reg p_A p_B p_A_branch1 p_A_branch2 p_B_branch1 p_B_branch2 app length]; try done; [|constructor..].
    intros i j _ _. by left.
  - unfold positives. etrans; [apply length_filter|]. rewrite length_cells. done.
  - cbn [mbind outcome_bind]. destruct (keep_of_spec (length ws) (p_A s) (p_B s) Hp) as (Hs & rest & Hr & Hlen).
    set (keep := keep_of (length ws) (p_A s) (p_B s)) in *.
    assert (Forall (λ i, i < length ws)%nat keep) as Hrange.
    { apply Forall_forall. intros i Hi. assert (i ∈ seq 0 (length ws)) as Hi'%elem_of_seq by (rewrite <- Hr; apply elem_of_app; by left). lia. }
    destruct (mapM_vget_Forall2 ws keep Hrange) as (final & Ef & Hfinal).
    clearbody keep. exists final, keep, rest. rewrite Ef. split; [reflexivity|auto].
Qed.

(** C35: The third step of the choice of a reference set.  When every element has a
    positive divergence to some other, the loop that divides the elements into two
    groups ends, within a round per pair of elements; what is kept, in the order
    of the window, is all of them or the group that is not the smaller one, so at
    least half; and the distances returned are the divergences above the diagonal
    and those to the current distribution. *)
Theorem reference_set_kept fuel :
  (length ws * length ws ≤ fuel)%nat →
  (∀ x, (x < length ws)%nat → ∃ y, (x < y < length ws)%nat ∧ dlt dzero (between x y) = true ∨
    (y < x)%nat ∧ dlt dzero (between y x) = true) →
  ∃ final keep rest,
    RSIA_stepIII log2 fuel curr_PDF ws = Ret (final, keep, tabulate (length ws) (length ws) upper_of,
      (λ w, ldiv log2 (w_PDF w) curr_PDF) <$> ws) ∧
    StronglySorted lt keep ∧ keep ++ rest ≡ₚ seq 0 (length ws) ∧ (length rest ≤ length keep)%nat ∧
    Forall2 (λ i w, ws !! i = Some w) keep final.
Proof. apply stepIII_spec. Qed.
End third_step.

(** ** The distances that are kept *)

(** Of every element to each later one. *)
Fixpoint pair_distances (g : nat → nat → double) (keep : list nat) : list double :=
  match keep with
  | [] => []
  | i :: keep => (g i <$> keep) ++ pair_distances g keep
  end.

Lemma length_pair_distances g keep : length (pair_distances g keep) = pairs_of (length keep).
Proof.
  induction keep as [|i keep IH]; [done|]. cbn [pair_distances length]. rewrite length_app, length_fmap, IH.
  unfold pairs_of. generalize (length keep) as m. intros m.
  replace (S m * (S m - 1))%nat with (m * 2 + m * (m - 1))%nat by nia. by rewrite Nat.div_add_l.
Qed.

Lemma lookups_suffix (pre l : list nat) :
  (λ j, default 0%nat ((pre ++ l) !! j)) <$> seq (length pre) (length l) = l.
Proof.
  revert pre. induction l as [|x l IH]; intros pre; cbn [length seq]; [done|]. rewrite fmap_cons.
  rewrite lookup_app_r, Nat.sub_diag by lia. cbn [lookup list_lookup default from_option]. unfold id. f_equal.
  specialize (IH (pre ++ [x])). rewrite length_app, Nat.add_1_r, <- app_assoc in IH. exact IH.
Qed.

Section kept_distances.
Context (N : nat) (g : nat → nat → double) (keep : list nat).

Definition kept_at (i : nat) : nat := default 0%nat (keep !! i).
Definition kept_distance (i j : nat) : double := if (j <? i + 1)%nat then dzero else g (kept_at i) (kept_at j).

Lemma drop_row i : (i < length keep)%nat →
  drop (S i) (kept_distance i <$> seq 0 (length keep)) = g (kept_at i) <$> drop (S i) keep.
Proof.
  intros Hi. rewrite <- fmap_drop. rewrite drop_seq. cbn [plus].
  rewrite <- (lookups_suffix (take (S i) keep) (drop (S i) keep)), take_drop, length_take, length_drop.
  rewrite Nat.min_l by lia. rewrite <- list_fmap_compose. replace (0 + S i)%nat with (S i) by lia.
  apply list_fmap_ext. intros k j [-> Hk]%lookup_seq. unfold compose, kept_distance.
  by rewrite (proj2 (Nat.ltb_ge _ _)) by lia.
Qed.

Lemma above_diagonal_kept :
  above_diagonal (tabulate (length keep) (length keep) kept_distance) = pair_distances g keep.
Proof.
  unfold above_diagonal. assert (imap (λ i r, drop (S i) r) (tabulate (length keep) (length keep) kept_distance)
    = (λ i, g (kept_at i) <$> drop (S i) keep) <$> seq 0 (length keep)) as ->.
  { apply list_eq. intros i. rewrite list_lookup_imap, !list_lookup_fmap. unfold tabulate. rewrite list_lookup_fmap.
    destruct (seq 0 (length keep) !! i) as [i'|] eqn:E; [|done]. apply lookup_seq in E as [-> Hi]. cbn. f_equal.
    by apply drop_row. }
  unfold kept_at. induction keep as [|x l IH]; [done|]. cbn [length seq pair_distances]. rewrite fmap_cons. cbn [concat].
  f_equal. rewrite <- IH, <- fmap_S_seq, <- list_fmap_compose. done.
Qed.

Lemma enkl_test_spec dist_vec :
  (3 ≤ length keep ≤ 50)%nat → Forall (λ i, i < N)%nat keep → length dist_vec = N → dnan ∉ pair_distances g keep →
  ∃ v, ENKL_test (length keep) (tabulate N N g) dist_vec keep = Ret v ∧
    v_mean_base v = vector_mean (pair_distances g keep) ∧
    percentile_of_array (pair_distances g keep) 1 = Ret (v_l_base v) ∧
    percentile_of_array (pair_distances g keep) 99 = Ret (v_u_base v) ∧
    v_current v = vector_mean ((λ i, default dzero (dist_vec !! i)) <$> keep).
Proof.
  intros Hn Hkeep Hd Hnan. unfold ENKL_test. rewrite (build_tabulate _ _ _ kept_distance).
  2:{ intros i j Hi Hj. unfold kept_distance, kept_at. destruct (j <? i + 1)%nat; [done|]. rewrite Forall_lookup in Hkeep.
      destruct (lookup_lt_is_Some_2 keep i Hi) as [a Ea]. destruct (lookup_lt_is_Some_2 keep j Hj) as [b Eb].
      rewrite Ea, Eb, (vget_Ret _ _ _ Ea). cbn [mbind outcome_bind]. rewrite (vget_Ret _ _ _ Eb). cbn [mbind outcome_bind].
      apply mget_tabulate; [by apply (Hkeep i)|by apply (Hkeep j)]. }
  cbn [mbind outcome_bind]. rewrite above_diagonal_kept. destruct (pairs_clear (length keep) Hn) as (C1 & C99 & Hlen).
  rewrite <- (length_pair_distances g) in C1, C99, Hlen.
  destruct (percentile_in_range _ 1 Hnan) as [l El]; [lia|done|].
  destruct (percentile_in_range _ 99 Hnan) as [u Eu]; [lia|done|].
  change (100 - alpha) with 1. unfold alpha. rewrite El, Eu. cbn [mbind outcome_bind].
  rewrite (mapM_vget dist_vec dzero) by by rewrite Hd. cbn [mbind outcome_bind]. by eexists.
Qed.

(** The test.  With 3 to 50 elements kept, and distances that are numbers, no
    access is out of range - not even in the interpolation of the percentiles -
    and the result is: the mean and the 1st and 99th percentile of the distances
    between the elements kept, and the mean of their distances to the current
    distribution. *)
Theorem enkl_test_judges dist_vec :
  (3 ≤ length keep ≤ 50)%nat → Forall (λ i, i < N)%nat keep → length dist_vec = N → dnan ∉ pair_distances g keep →
  ∃ v, ENKL_test (length keep) (tabulate N N g) dist_vec keep = Ret v ∧
    v_mean_base v = vector_mean (pair_distances g keep) ∧
    percentile_of_array (pair_distances g keep) 1 = Ret (v_l_base v) ∧
    percentile_of_array (pair_distances g keep) 99 = Ret (v_u_base v) ∧
    v_current v = vector_mean ((λ i, default dzero (dist_vec !! i)) <$> keep).
Proof. apply enkl_test_spec. Qed.
End kept_distances.

(** ** Identical distributions *)

Section identical.
Context (log2 : double → double).

Lemma zero_max n pos : (0 < n)%nat → double_matrix_max (tabulate n n (λ _ _, dzero)) pos = Ret (Some (0, 0)%nat).
Proof.
  intros Hn. unfold double_matrix_max. rewrite length_tabulate.
  assert (∀ cs, Forall (λ c, c.1 < n ∧ c.2 < n)%nat cs →
    max_loop (tabulate n n (λ _ _, dzero)) cs dzero (Some (0, 0)%nat) = Ret (dzero, Some (0, 0)%nat)) as Hrest.
  { intros cs Hcs. induction Hcs as [|[i j] cs [Hi Hj] _ IH]; [done|]. cbn [max_loop]. by rewrite mget_tabulate. }
  assert (Forall (λ c, c.1 < n ∧ c.2 < n)%nat (cells n)) as Hc by (apply Forall_forall; intros [i j] Hij%elem_of_cells; done).
  destruct n as [|n]; [lia|]. assert (∃ cs, cells (S n) = (0, 0)%nat :: cs) as [cs Ecs].
  { unfold cells. cbn [seq]. rewrite bind_cons, fmap_cons. by eexists. }
  rewrite Ecs in Hc |- *. apply Forall_cons in Hc as [_ Hc]. cbn [max_loop].
  rewrite mget_tabulate by lia. cbn [mbind outcome_bind]. replace (dlt max_start dzero) with true by done.
  by rewrite Hrest.
Qed.

Lemma zero_crossed n : (0 < n)%nat → mset (tabulate n n (λ _ _, dzero)) 0 0 dzero = Ret (tabulate n n (λ _ _, dzero)).
Proof.
  intros Hn. rewrite mset_tabulate by done. f_equal. unfold tabulate. apply list_fmap_ext. intros i a _.
  apply list_fmap_ext. intros j b _. unfold fn_set. by case_decide.
Qed.

(** Once index 0 has a group and nothing positive is left, nothing changes any
    more, whatever the number of rounds. *)
Lemma stuck fuel n simm s :
  p_D_reg s = tabulate n n (λ _ _, dzero) → 0%nat ∈ p_A s → (length (p_A s) + length (p_B s) < n)%nat →
  prune_loop fuel n simm s = Throw (undefined_behaviour "does not return").
Proof.
  revert s. induction fuel as [|fuel IH]; intros s ED HA Hlt; cbn [prune_loop]; rewrite (proj2 (Nat.ltb_lt _ _)) by done; [done|].
  unfold prune_step. rewrite ED, zero_max by lia. cbn [mbind outcome_bind]. rewrite zero_crossed by lia. cbn [mbind outcome_bind].
  rewrite !found_spec. cbn [p_set_D p_A p_B]. rewrite bool_decide_eq_true_2 by done. cbn [negb]. rewrite andb_false_r. by apply IH.
Qed.

(** Three or more equal distributions: all divergences are 0, and the loop that
    divides them into groups never ends. *)
Lemma identical_never_divided fuel p (ws : list window_element) :
  (3 ≤ length ws)%nat → Forall (λ w, w_PDF w = p) ws → ldiv log2 p p = dzero →
  RSIA_stepIII log2 fuel p ws = Throw (undefined_behaviour "does not return").
Proof.
  intros Hn Hp Hz. set (n := length ws) in *.
  assert (Forall (λ w, length (w_PDF w) = length p) ws) as Hsize by (eapply Forall_impl; [exact Hp|]; by intros w ->).
  rewrite (stepIII_start log2 p ws Hsize). fold n.
  assert (∀ i, (i < n)%nat → pdf_at ws i = p) as Hat.
  { intros i Hi. unfold pdf_at. destruct (lookup_lt_is_Some_2 ws i Hi) as [w Ew]. rewrite Ew. rewrite Forall_lookup in Hp.
    by apply (Hp i). }
  assert (tabulate n n (upper_of log2 ws) = tabulate n n (λ _ _, dzero)) as ->.
  { unfold tabulate. apply list_fmap_ext. intros i a [-> Hi]%lookup_seq. apply list_fmap_ext. intros j b [-> Hj]%lookup_seq.
    unfold upper_of, between. rewrite !Hat by lia. by case_match. }
  destruct fuel as [|fuel]; cbn [prune_loop prune_start p_A p_B length plus]; rewrite (proj2 (Nat.ltb_lt _ _)) by lia; [done|].
  unfold prune_step. cbn [prune_start p_D_reg p_index]. rewrite zero_max by lia. cbn [mbind outcome_bind].
  rewrite zero_crossed by lia. cbn [mbind outcome_bind]. rewrite !found_spec. cbn [p_set_D p_A p_B].
  rewrite !bool_decide_eq_false_2 by apply not_elem_of_nil.
  unfold branch.
  cbn [prune_start p_set_D p_A p_B p_A_branch1 p_A_branch2 p_B_branch1 p_B_branch2 p_D_reg p_index copy_into length drop app].
  destruct (sub_matrix_Ret n (both_sides log2 ws) [0%nat] [0%nat]) as (m & c & -> & Ec);
    [repeat constructor; lia..|done|].
  cbn [mbind outcome_bind]. rewrite Ec. cbn [mbind outcome_bind].
  destruct (dlt c c); cbn [mbind outcome_bind]; rewrite stuck; try done; cbn [p_A p_B length]; try (by left); lia.
Qed.
End identical.

(** ** Examples *)

(** A stand-in for [log2] for which the divergences are those of chi squared. *)
Definition linear_log2 (x : double) : double := dsub x (double_of_Z 1).

Definition window_of (pdf : list double) : window_element := WindowElement 0 100 (Z.of_nat (length pdf)) pdf true.

Definition dyadics (e : Z) (zs : list Z) : list double := (λ z, double_of_dyadic z (- e)) <$> zs.

Definition example_window : list window_element :=
  window_of <$> [dyadics 1 [1; 1]; dyadics 2 [1; 3]; dyadics 3 [1; 7]; dyadics 3 [3; 5]; dyadics 4 [3; 13]].

Lemma reference_set_kept_witness :
  ∃ final keep D dv, RSIA_stepIII linear_log2 25 (dyadics 4 [5; 11]) example_window = Ret (final, keep, D, dv) ∧
    (3 ≤ length keep)%nat ∧ length dv = 5%nat.
Proof.
  assert (∀ x y : nat, (x =? 0)%nat && (y =? 1)%nat || (1 <=? x)%nat && (x <? 5)%nat && (y =? 0)%nat →
    dlt dzero (between linear_log2 example_window (Nat.min x y) (Nat.max x y)) = true) as Hd.
  { intros x y Hxy. do 5 (destruct x as [|x]; [destruct y as [|[|y]]; cbn in Hxy; try done; lazy; reflexivity|]). done. }
  destruct (reference_set_kept linear_log2 (dyadics 4 [5; 11]) example_window) with (fuel := 25%nat)
    as (final & keep & rest & E & _ & Hp & Hlen & _).
  - repeat (constructor; [reflexivity|]). constructor.
  - cbn. lia.
  - intros x Hx. change (length example_window) with 5%nat in *. destruct x as [|x].
    + exists 1%nat. left. split; [lia|]. by apply (Hd 0%nat 1%nat).
    + exists 0%nat. right. split; [lia|]. apply (Hd (S x) 0%nat). rewrite (proj2 (Nat.ltb_lt (S x) 5)) by done. done.
  - eexists final, keep, _, _. split; [exact E|]. split; [|reflexivity].
    apply Permutation_length in Hp. rewrite length_app, length_seq in Hp. change (length example_window) with 5%nat in Hp. lia.
Defined.

Lemma enkl_test_judges_witness :
  ∃ v, ENKL_test 3 (tabulate 4 4 (λ i j, double_of_Z (Z.of_nat (i + j)))) (double_of_Z <$> [1; 2; 30; 30]) [0; 1; 3]%nat = Ret v ∧
    v_u_base v = double_of_Z 4 ∧ passes v = false.
Proof.
  destruct (enkl_test_judges 4 (λ i j, double_of_Z (Z.of_nat (i + j))) [0; 1; 3]%nat (double_of_Z <$> [1; 2; 30; 30]))
    as (v & E & _ & _ & Hu & Hc).
  - cbn. lia.
  - repeat constructor; lia.
  - reflexivity.
  - apply (bool_decide_eq_false_1 _). lazy. reflexivity.
  - exists v. split; [exact E|]. assert (v_u_base v = double_of_Z 4) as Eu.
    { assert (Ret (v_u_base v) = Ret (double_of_Z 4)) as Er by (rewrite <- Hu; lazy; reflexivity). by injection Er. }
    split; [exact Eu|]. unfold passes. rewrite Eu, Hc. lazy. reflexivity.
Defined.

(** Five equal distributions. *)
Lemma identical_example fuel :
  RSIA_stepIII linear_log2 fuel (dyadics 1 [1; 1]) (replicate 5 (window_of (dyadics 1 [1; 1]))) =
    Throw (undefined_behaviour "does not return").
Proof.
  apply identical_never_divided; [cbn; lia|by repeat constructor|lazy; reflexivity].
Qed.
