(* ===== verification/ADTest.v ===== *)
(** * The test for anomalies

    Models [usr/app_Stat_AD/blocks/ADTest.cpp]: a block that learns a window of
    distributions per feature, compares each new histogram with a reference set
    chosen from the window, and reports the result.  The third step of the choice
    and the test itself are in [Pruning], the functions they use in [Divergence].

    [log2] and the text of a double are arguments, and so is the [std::sort] by
    divergence, which may order elements with the same divergence either way.  A
    file that is open holds what has been written; opening it succeeds.  [fuel]
    bounds the loop that divides the reference set.  [t_sent_res] and
    [t_sent_anom] list what left through the two gates. *)

From S2P Require Export PerUser Pruning.

Definition NOT_ANOMALOUS : Z := 0.
Definition ANOMALOUS : Z := 1.
Definition NOT_ENOUGH_EL_IN_REF_SET : Z := 2.
Definition NOT_ENOUGH_ACTIVE_USERS_DET : Z := 3.
Definition NOT_ENOUGH_NOT_NULL_BINS_DET : Z := 4.
Definition NOT_ENOUGH_ACTIVE_USERS_LEARN : Z := 39.
Definition NOT_ENOUGH_NOT_NULL_BINS_LEARN : Z := 49.
Definition LEARNING_OK : Z := 99.

Definition EPSILON : double := ddiv (double_of_Z 1) (double_of_Z 1000000000000).

Notation window_array := (list window_element).

Record test_params := TestParams {
  q_timescale : Z; q_window_size : Z; q_n_histograms_in_window : Z; q_guard_period : Z; q_guard_period_duration : Z;
  q_min_active_users : Z; q_detection_start_timestamp : Z; q_stop_time : Z; q_res_file_name : string;
  q_anom_file_name : string; q_learning_start_time : Z
}.

Record ad_test := ADTest {
  t_params : test_params; t_current_agg_time : Z; t_not_null_bins : Z; t_Learning_phase : bool; t_anomaly_code : Z;
  t_windows_ht : gmap string window_array; t_curr_PDF : list double; t_curr_CCDF : list double;
  t_res_file : option string; t_anom_file : option string; t_sent_res : list ad_result; t_sent_anom : list ad_anomal
}.

Definition ad_test_new : ad_test :=
  ADTest (TestParams 0 0 0 0 0 50 0 99999999999 " " "" 0) 0 0 true 199 ∅ [] [] None None [] [].

Definition t_set_params (q : test_params) (t : ad_test) : ad_test :=
  ADTest q (t_current_agg_time t) (t_not_null_bins t) (t_Learning_phase t) (t_anomaly_code t) (t_windows_ht t)
    (t_curr_PDF t) (t_curr_CCDF t) (t_res_file t) (t_anom_file t) (t_sent_res t) (t_sent_anom t).
Definition t_set_time (x : Z) (t : ad_test) : ad_test :=
  ADTest (t_params t) x (t_not_null_bins t) (t_Learning_phase t) (t_anomaly_code t) (t_windows_ht t)
    (t_curr_PDF t) (t_curr_CCDF t) (t_res_file t) (t_anom_file t) (t_sent_res t) (t_sent_anom t).
Definition t_set_curr (bins : Z) (pdf ccdf : list double) (t : ad_test) : ad_test :=
  ADTest (t_params t) (t_current_agg_time t) bins (t_Learning_phase t) (t_anomaly_code t) (t_windows_ht t)
    pdf ccdf (t_res_file t) (t_anom_file t) (t_sent_res t) (t_sent_anom t).
Definition t_set_phase (x : bool) (t : ad_test) : ad_test :=
  ADTest (t_params t) (t_current_agg_time t) (t_not_null_bins t) x (t_anomaly_code t) (t_windows_ht t)
    (t_curr_PDF t) (t_curr_CCDF t) (t_res_file t) (t_anom_file t) (t_sent_res t) (t_sent_anom t).
Definition t_set_code (x : Z) (t : ad_test) : ad_test :=
  ADTest (t_params t) (t_current_agg_time t) (t_not_null_bins t) (t_Learning_phase t) x (t_windows_ht t)
    (t_curr_PDF t) (t_curr_CCDF t) (t_res_file t) (t_anom_file t) (t_sent_res t) (t_sent_anom t).
Definition t_set_windows (x : gmap string window_array) (t : ad_test) : ad_test :=
  ADTest (t_params t) (t_current_agg_time t) (t_not_null_bins t) (t_Learning_phase t) (t_anomaly_code t) x
    (t_curr_PDF t) (t_curr_CCDF t) (t_res_file t) (t_anom_file t) (t_sent_res t) (t_sent_anom t).
Definition t_set_res (f : option string) (sent : list ad_result) (t : ad_test) : ad_test :=
  ADTest (t_params t) (t_current_agg_time t) (t_not_null_bins t) (t_Learning_phase t) (t_anomaly_code t) (t_windows_ht t)
    (t_curr_PDF t) (t_curr_CCDF t) f (t_anom_file t) sent (t_sent_anom t).
Definition t_set_anom (f : option string) (sent : list ad_anomal) (t : ad_test) : ad_test :=
  ADTest (t_params t) (t_current_agg_time t) (t_not_null_bins t) (t_Learning_phase t) (t_anomaly_code t) (t_windows_ht t)
    (t_curr_PDF t) (t_curr_CCDF t) (t_res_file t) f (t_sent_res t) sent.

(** ** Configuration *)

Section configuration.
Context {N : Type} `{XmlNode N}.

Definition t_signal_error {A} (fieldname : string) : M test_params A :=
  throw (runtime_error ("ADTest:: malformed xml node for the field " +:+ fieldname)).

(** [n.child(tag).attribute(name)], with the names of the two errors. *)
Definition param_of (n : N) (tag name no_attr no_node : string) : M test_params string :=
  match child n tag with
  | None => t_signal_error no_node
  | Some c => match attribute c name with Some a => mret a | None => t_signal_error no_attr end
  end.

Definition q_set_timescale (x : Z) (q : test_params) : test_params :=
  TestParams x (q_window_size q) (q_n_histograms_in_window q) (q_guard_period q) (q_guard_period_duration q)
    (q_min_active_users q) (q_detection_start_timestamp q) (q_stop_time q) (q_res_file_name q) (q_anom_file_name q)
    (q_learning_start_time q).
Definition q_set_window_size (x : Z) (q : test_params) : test_params :=
  TestParams (q_timescale q) x (q_n_histograms_in_window q) (q_guard_period q) (q_guard_period_duration q)
    (q_min_active_users q) (q_detection_start_timestamp q) (q_stop_time q) (q_res_file_name q) (q_anom_file_name q)
    (q_learning_start_time q).
Definition q_set_guard_period (x : Z) (q : test_params) : test_params :=
  TestParams (q_timescale q) (q_window_size q) (q_n_histograms_in_window q) x (q_guard_period_duration q)
    (q_min_active_users q) (q_detection_start_timestamp q) (q_stop_time q) (q_res_file_name q) (q_anom_file_name q)
    (q_learning_start_time q).
Definition q_set_min_users (x : Z) (q : test_params) : test_params :=
  TestParams (q_timescale q) (q_window_size q) (q_n_histograms_in_window q) (q_guard_period q) (q_guard_period_duration q)
    x (q_detection_start_timestamp q) (q_stop_time q) (q_res_file_name q) (q_anom_file_name q) (q_learning_start_time q).
Definition q_set_times (start stop : Z) (q : test_params) : test_params :=
  TestParams (q_timescale q) (q_window_size q) (q_n_histograms_in_window q) (q_guard_period q) (q_guard_period_duration q)
    (q_min_active_users q) start stop (q_res_file_name q) (q_anom_file_name q) (q_learning_start_time q).
Definition q_set_files (res anom : string) (q : test_params) : test_params :=
  TestParams (q_timescale q) (q_window_size q) (q_n_histograms_in_window q) (q_guard_period q) (q_guard_period_duration q)
    (q_min_active_users q) (q_detection_start_timestamp q) (q_stop_time q) res anom (q_learning_start_time q).

(** What is computed from the parameters; [/] is the division of [uint]. *)
Definition q_derive (q : test_params) : test_params :=
  let PDFs_in_guard_period := u32 (q_guard_period q * 60) / q_timescale q in
  TestParams (q_timescale q) (q_window_size q) (u32 (q_window_size q * 1440) / q_timescale q) (q_guard_period q)
    (u32 (PDFs_in_guard_period * q_timescale q * 60)) (q_min_active_users q) (q_detection_start_timestamp q)
    (q_stop_time q) (q_res_file_name q) (q_anom_file_name q)
    (u64 (q_detection_start_timestamp q - u32 (q_window_size q * 24 * 60 * 60))).

Definition configure_params (n : N) : M test_params unit :=
  ts ← param_of n "timescale" "val" "timescale" "timescale";
  modify (q_set_timescale (u16 (as_uint ts)));;
  l_w ← param_of n "learning_window" "duration" "learning window duration" "learning window";
  modify (q_set_window_size (as_uint l_w));;
  g_p ← param_of n "guard_period" "duration" "guard period duration" "guard period";
  modify (q_set_guard_period (as_uint g_p));;
  min_u ← param_of n "min_nr_active_users" "val" "minimum number active users value" "minimum number active users";
  modify (q_set_min_users (as_uint min_u));;
  det ← param_of n "detection_start_time" "val" "detection start time value" "detection start time";
  modify (λ q, q_set_times (as_uint det) (q_stop_time q) q);;
  stop ← param_of n "detection_stop_time" "val" "detection stop time value" "detection stop time";
  modify (λ q, q_set_times (q_detection_start_timestamp q) (as_uint stop) q);;
  res ← param_of n "res_output_file" "name" "Result output file name" "Result output file";
  modify (λ q, q_set_files res (q_anom_file_name q) q);;
  anom ← param_of n "anom_output_file" "name" "Result output file name" "Result output file";
  modify (λ q, q_set_files (q_res_file_name q) anom q);;
  q ← gets id;
  ensure (negb (q_timescale q =? 0)) (undefined_behaviour "division by zero");;
  modify q_derive.

Definition ad_test_configure (n : N) : M ad_test unit :=
  zoom t_params t_set_params (configure_params n);;
  modify (λ t, t_set_anom (Some "") (t_sent_anom t) (t_set_res (Some "") (t_sent_res t) t)).
End configuration.

(** ** The current distribution *)

Definition total_users (histog : list Z) : Z := foldl (λ n x, u16 (n + x)) 0 histog.

(** The first normalisation, a bin of 0 approximated. *)
Definition first_PDF (histog : list Z) : list double :=
  (λ x, let p := ddiv (double_of_Z x) (double_of_Z (total_users histog)) in if SFeqb p dzero then EPSILON else p) <$> histog.

Definition empty_bins (histog : list Z) : nat :=
  length (filter (λ x, SFeqb (ddiv (double_of_Z x) (double_of_Z (total_users histog))) dzero = true) histog).

Definition PDF_of (histog : list Z) : list double :=
  let n_dummy_users := foldl dadd dzero (first_PDF histog) in (λ p, ddiv p n_dummy_users) <$> first_PDF histog.

(** Both vectors are empty when it is called. *)
Definition create_CCDF (histog : list Z) (t : ad_test) : ad_test :=
  t_set_curr (u16 (Z.of_nat (length histog) - u16 (Z.of_nat (empty_bins histog))))
    (PDF_of histog) (PDF_to_CCDF (PDF_of histog)) t.

(** ** Windows *)

Definition window (k : string) (t : ad_test) : window_array := default [] (t_windows_ht t !! k).

Definition window_element_of (h : histo) (pdf : list double) (l_phase : bool) : window_element :=
  WindowElement (h_timestamp h) (u16 (h_nr_unique_users h)) (u16 (Z.of_nat (length pdf))) pdf l_phase.

Definition update_window_entry (k : string) (h : histo) (l_phase : bool) : M ad_test unit :=
  t ← gets id;
  let w_el := window_element_of h (t_curr_PDF t) l_phase in
  if l_phase then modify (t_set_windows (<[k := window k t ++ [w_el]]> (t_windows_ht t)))
  else match window k t with
  | [] => throw (undefined_behaviour "erase on an empty vector")
  | _ :: w => modify (t_set_windows (<[k := w ++ [w_el]]> (t_windows_ht t)))
  end.

(** [find], then [insert_window_entry] if there is none. *)
Definition insert_window_entry (k : string) (t : ad_test) : ad_test :=
  match t_windows_ht t !! k with
  | Some _ => t
  | None => t_set_windows (<[k := []]> (t_windows_ht t)) t
  end.

(** ** The first step: similar numbers of users *)

Definition slack_step : double := ddiv (double_of_Z 2) (double_of_Z 100).

Definition similar (low_bound : Z) (users : Z) (sf : double) (w : window_element) : bool :=
  (w_timestamp w <=? low_bound) &&
  dlt (abs (dsub (double_of_Z users) (double_of_Z (w_nr_unique_users w)))) (dmul sf (double_of_Z users)).

Definition index_list (low_bound users : Z) (sf : double) (w : window_array) : list nat :=
  (filter (λ iw, similar low_bound users sf iw.2 = true) (imap pair w)).*1.

(** The [while] over the slack factor; 30 rounds are more than it takes. *)
Fixpoint slack_loop (fuel : nat) (low_bound users : Z) (w : window_array) (sf : double) (indexList : list nat) :
    outcome (list nat) :=
  if dle sf half && (Z.of_nat (length indexList) <=? 200) then
    match fuel with
    | O => Throw (undefined_behaviour "does not return")
    | S fuel => let sf := dadd sf slack_step in slack_loop fuel low_bound users w sf (index_list low_bound users sf w)
    end
  else Ret indexList.

Definition guard_period_low_bound (t : ad_test) : Z :=
  u64 (t_current_agg_time t - q_guard_period_duration (t_params t)).

Definition RSIA_stepI (w : window_array) (h : histo) (t : ad_test) : outcome window_array :=
  indexList ← slack_loop 30 (guard_period_low_bound t) (h_nr_unique_users h) w dzero [];
  mapM (vget w) indexList.

(** ** The second step: the least divergences *)

Record divergence := Divergence { L_div : double; div_index : nat }.

Definition Index_compare (a b : divergence) : Prop := (div_index a ≤ div_index b)%nat.
#[export] Instance Index_compare_dec : RelDecision Index_compare.
Proof. intros a b. unfold Index_compare. apply _. Defined.

Definition min_allowed_el : nat := 50.

Section detection.
Context (log2 : double → double) (show : double → string) (fuel : nat).
Context (div_sort : list divergence → list divergence).

Definition divergences (curr_PDF : list double) (RefSet_Istep : window_array) : outcome (list divergence) :=
  mapM (λ iw, d ← L_Divergence log2 curr_PDF (w_PDF iw.2); Ret (Divergence d iw.1)) (imap pair RefSet_Istep).

Definition RSIA_stepII (curr_PDF : list double) (RefSet_Istep : window_array) : outcome window_array :=
  L_pq ← divergences curr_PDF RefSet_Istep;
  if bool_decide (dnan ∈ L_div <$> L_pq) then Throw (undefined_behaviour "sort with a NaN")
  else
    let nr_of_elem := Nat.min (length RefSet_Istep) min_allowed_el in
    let L_pq_sorted := merge_sort Index_compare (take nr_of_elem (div_sort L_pq)) in
    mapM (vget RefSet_Istep) (div_index <$> L_pq_sorted).

(** ** Messages *)

Definition write (s : string) (f : option string) : option string := (λ text, text +:+ s) <$> f.

Definition send_result_message (h : histo) (L_phase : bool) (v : verdict) : M ad_test unit :=
  t ← gets id;
  let msg := ad_result_fill (h_nr_unique_users h) (h_total_value h) (Z.of_nat (length (h_histogram h))) (t_curr_CCDF t)
    L_phase (v_l_base v) (v_u_base v) (v_mean_base v) (v_current v) (t_anomaly_code t)
    (ad_result_new (h_timestamp h) (q_timescale (t_params t)) (h_featureID h)) in
  modify (t_set_res (write (ad_result_to_string_file show msg) (t_res_file t)) (t_sent_res t ++ [msg]));;
  if q_stop_time (t_params t) <=? h_timestamp h then
    modify (λ t, t_set_res None (t_sent_res t) t);; throw (exit_program 1)
  else mret tt.

Definition send_anomal_message (h : histo) (ref_set : window_array) : M ad_test unit :=
  t ← gets id;
  let msg := ad_anomal_fill (Z.of_nat (length (h_histogram h))) (t_curr_CCDF t) (Z.of_nat (length ref_set)) ref_set
    (ad_anomal_new (h_timestamp h) (q_timescale (t_params t)) (h_featureID h)) in
  modify (t_set_anom (write (ad_anomal_to_string_file show msg) (t_anom_file t)) (t_sent_anom t ++ [msg]));;
  if q_stop_time (t_params t) <=? h_timestamp h then
    modify (λ t, t_set_anom None (t_sent_anom t) t);; throw (exit_program 1)
  else mret tt.

(** ** A histogram *)

Definition no_verdict : verdict := Verdict dzero dzero dzero dzero.

Definition lift {A} (o : outcome A) : M ad_test A := λ t, (o, t).

Definition enough_users (h : histo) (t : ad_test) : bool := negb (h_nr_unique_users h <=? q_min_active_users (t_params t)).
Definition enough_bins (t : ad_test) : bool := negb (t_not_null_bins t <=? 5).

Definition learn (k : string) (h : histo) : M ad_test unit :=
  t ← gets id;
  (if negb (enough_users h t) then modify (t_set_code NOT_ENOUGH_ACTIVE_USERS_LEARN)
   else if negb (enough_bins t) then modify (t_set_code NOT_ENOUGH_NOT_NULL_BINS_LEARN)
   else modify (t_set_code LEARNING_OK);; update_window_entry k h true);;
  send_result_message h true no_verdict.

(** The preliminary checks, the reference set and the test: the numbers for the
    result, and the final reference set. *)
Definition judge (w : window_array) (h : histo) : M ad_test (verdict * window_array) :=
  t ← gets id;
  if negb (enough_users h t) then modify (t_set_code NOT_ENOUGH_ACTIVE_USERS_DET);; mret (no_verdict, [])
  else if negb (enough_bins t) then modify (t_set_code NOT_ENOUGH_NOT_NULL_BINS_DET);; mret (no_verdict, [])
  else
    RefSetI ← lift (RSIA_stepI w h t);
    if (length RefSetI <? 5)%nat then modify (t_set_code NOT_ENOUGH_EL_IN_REF_SET);; mret (no_verdict, [])
    else
      RefSetII ← lift (RSIA_stepII (t_curr_PDF t) RefSetI);
      r ← lift (RSIA_stepIII log2 fuel (t_curr_PDF t) RefSetII);
      let '(RefSetIII, keep_index, closest_dist, dist_vec) := r in
      v ← lift (ENKL_test (length RefSetIII) closest_dist dist_vec keep_index);
      modify (t_set_code (if passes v then NOT_ANOMALOUS else ANOMALOUS));;
      mret (v, RefSetIII).

Definition detect (k : string) (h : histo) : M ad_test unit :=
  t ← gets id;
  r ← judge (window k t) h;
  t ← gets id;
  (if t_anomaly_code t =? NOT_ANOMALOUS then update_window_entry k h false else mret tt);;
  send_result_message h false r.1;;
  if (t_anomaly_code t =? NOT_ENOUGH_EL_IN_REF_SET) || (t_anomaly_code t =? ANOMALOUS) then send_anomal_message h r.2
  else mret tt.

Definition ad_test_receive {P} (m : stat_message P) : M ad_test unit :=
  match m with
  | SHisto h =>
      let k := h_featureID h in
      modify (t_set_time (h_timestamp h));;
      t ← gets id;
      if h_timestamp h <? q_learning_start_time (t_params t) then mret tt
      else
        modify (create_CCDF (h_histogram h));;
        modify (insert_window_entry k);;
        t ← gets id;
        modify (t_set_phase (Z.of_nat (length (window k t)) <? q_n_histograms_in_window (t_params t)));;
        t ← gets id;
        (if t_Learning_phase t then learn k h else detect k h);;
        modify (λ t, t_set_curr (t_not_null_bins t) [] [] t)
  | _ => throw (runtime_error "ADTest: wrong message type")
  end.
End detection.

(** ** The first step selects *)

Definition slack (n : nat) : double := Nat.iter n (λ sf, dadd sf slack_step) dzero.

Definition slack_last : nat := 25.

(** The elements whose number of users is within a factor of the current one. *)
Definition alike (low_bound users : Z) (n : nat) (w : window_array) : window_array :=
  filter (λ e, similar low_bound users (slack n) e = true) w.

Lemma slack_bounds n : (n ≤ slack_last)%nat → dle (slack n) half = (n <? slack_last)%nat.
Proof.
  intros Hn. assert (forallb (λ n, Bool.eqb (dle (slack n) half) (n <? slack_last)%nat) (seq 0 26) = true) as Hall by (lazy; reflexivity).
  rewrite forallb_forall in Hall. apply Bool.eqb_prop, Hall, in_seq. unfold slack_last in Hn. lia.
Qed.

Lemma selected_elements (f : window_element → bool) (w : window_array) :
  mapM (vget w) (filter (λ iw, f iw.2 = true) (imap pair w)).*1 = Ret (filter (λ e, f e = true) w) ∧
  length (filter (λ iw, f iw.2 = true) (imap pair w)) = length (filter (λ e, f e = true) w).
Proof.
  assert (∀ pre l, mapM (vget (pre ++ l)) (filter (λ iw, f iw.2 = true) (imap (λ i, pair (length pre + i)%nat) l)).*1 =
    Ret (filter (λ e, f e = true) l) ∧
    length (filter (λ iw, f iw.2 = true) (imap (λ i, pair (length pre + i)%nat) l)) = length (filter (λ e, f e = true) l)) as H;
    [|apply (H [] w)].
  intros pre l. revert pre. induction l as [|x l IH]; intros pre; [done|]. specialize (IH (pre ++ [x])).
  rewrite <- app_assoc in IH. cbn [app] in IH. rewrite imap_cons.
  rewrite (imap_ext _ (λ i, pair (length (pre ++ [x]) + i)%nat)) by (intros i y _; cbn; rewrite length_app; cbn [length]; f_equal; lia).
  destruct IH as [E1 E2]. rewrite !filter_cons. cbn [snd].
  case_decide; [|by split]. rewrite fmap_cons. cbn [mapM fst length]. rewrite Nat.add_0_r.
  rewrite (vget_Ret _ _ x) by by rewrite lookup_app_r, Nat.sub_diag by lia. cbn [mbind outcome_bind]. rewrite E1, E2. done.
Qed.

Lemma length_index_list low users n w : length (index_list low users (slack n) w) = length (alike low users n w).
Proof. unfold index_list, alike. rewrite length_fmap. apply selected_elements. Qed.

Lemma slack_loop_spec fuel low users w n :
  (n ≤ slack_last ≤ n + fuel)%nat →
  ∃ m, slack_loop fuel low users w (slack n) (index_list low users (slack n) w) = Ret (index_list low users (slack m) w) ∧
    (n ≤ m ≤ slack_last)%nat ∧ (∀ i, (n ≤ i < m)%nat → Z.of_nat (length (alike low users i w)) ≤ 200) ∧
    (m = slack_last ∨ 200 < Z.of_nat (length (alike low users m w))).
Proof.
  revert n. induction fuel as [|fuel IH]; intros n Hn; cbn [slack_loop]; rewrite slack_bounds, length_index_list by lia.
  - rewrite (proj2 (Nat.ltb_ge _ _)) by lia. cbn [andb]. exists n. split; [done|]. split; [lia|]. split; [lia|]. left. lia.
  - destruct (Nat.ltb_spec n slack_last); cbn [andb].
    + destruct (Z.leb_spec (Z.of_nat (length (alike low users n w))) 200) as [Hle|Hgt].
      * change (dadd (slack n) slack_step) with (slack (S n)). destruct (IH (S n)) as (m & -> & Hm & Hbefore & Hend); [lia|].
        exists m. split; [done|]. split; [lia|]. split; [|done]. intros i Hi. destruct (decide (i = n)) as [->|]; [done|]. apply Hbefore. lia.
      * exists n. split; [done|]. split; [lia|]. split; [lia|by right].
    + exists n. split; [done|]. split; [lia|]. split; [lia|]. left. lia.
Qed.

Lemma stepI_spec w h t :
  ∃ n, RSIA_stepI w h t = Ret (alike (guard_period_low_bound t) (h_nr_unique_users h) n w) ∧ (1 ≤ n ≤ slack_last)%nat ∧
    (∀ i, (1 ≤ i < n)%nat → Z.of_nat (length (alike (guard_period_low_bound t) (h_nr_unique_users h) i w)) ≤ 200) ∧
    (n = slack_last ∨ 200 < Z.of_nat (length (alike (guard_period_low_bound t) (h_nr_unique_users h) n w))).
Proof.
  unfold RSIA_stepI. set (low := guard_period_low_bound t). set (users := h_nr_unique_users h).
  change (slack_loop 30 low users w dzero []) with
    (if dle (slack 0) half && (Z.of_nat (length (@nil nat)) <=? 200)
     then slack_loop 29 low users w (slack 1) (index_list low users (slack 1) w) else Ret []).
  rewrite slack_bounds by (unfold slack_last; lia). cbn [Nat.ltb Nat.leb slack_last andb length].
  destruct (slack_loop_spec 29 low users w 1) as (m & E & Hm & Hbefore & Hend); [unfold slack_last; lia|].
  exists m. change (Z.of_nat 0 <=? 200) with true. cbn iota. rewrite E. cbn [mbind outcome_bind]. split; [|auto].
  apply (selected_elements (similar low users (slack m))).
Qed.

(** ** The second step selects *)

Section second_step.
Context (log2 : double → double) (div_sort : list divergence → list divergence).
Context (div_sort_spec : ∀ l, dnan ∉ L_div <$> l →
  div_sort l ≡ₚ l ∧ StronglySorted (λ a b, dlt (L_div b) (L_div a) = false) (div_sort l)).
Context (curr_PDF : list double) (ws : window_array).
Context (one_size : Forall (λ w, length (w_PDF w) = length curr_PDF) ws).
Context (numbers : Forall (λ w, ldiv log2 curr_PDF (w_PDF w) ≠ dnan) ws).

Notation div_of i w := (Divergence (ldiv log2 curr_PDF (w_PDF w)) i).

Lemma divergences_spec : divergences log2 curr_PDF ws = Ret (imap (λ i w, div_of i w) ws).
Proof.
  unfold divergences. rewrite (mapM_Ret _ (λ iw, div_of iw.1 iw.2)).
  - f_equal. apply list_eq. intros i. rewrite list_lookup_fmap, !list_lookup_imap. by destruct (ws !! i).
  - intros [i w] Hiw. apply list_elem_of_lookup in Hiw as [k Hk]. rewrite list_lookup_imap in Hk.
    destruct (ws !! k) as [w'|] eqn:E; [|done]. injection Hk as <- <-. rewrite Forall_lookup in one_size.
    cbn [fst snd]. rewrite L_Divergence_spec, (one_size k), Nat.eqb_refl by done. done.
Qed.

Lemma imap_indices : div_index <$> imap (λ i w, div_of i w) ws = seq 0 (length ws).
Proof.
  apply list_eq. intros i. rewrite list_lookup_fmap, list_lookup_imap. destruct (ws !! i) as [w|] eqn:E; cbn.
  - symmetry. apply lookup_seq. split; [done|]. by apply lookup_lt_Some in E.
  - symmetry. apply lookup_seq_ge. by apply lookup_ge_None in E.
Qed.

Lemma index_sorted l :
  NoDup (div_index <$> l) → StronglySorted lt (div_index <$> merge_sort Index_compare l) ∧
  div_index <$> merge_sort Index_compare l ≡ₚ div_index <$> l.
Proof.
  intros Hnd. pose proof (merge_sort_Permutation Index_compare l) as Hp. split; [|by rewrite Hp]. rewrite <- Hp in Hnd.
  assert (StronglySorted Index_compare (merge_sort Index_compare l)) as Hs.
  { apply Sorted_StronglySorted; [intros x y z; unfold Index_compare; lia|]. apply Sorted_merge_sort.
    intros x y. unfold Index_compare. lia. }
  clear Hp. induction Hs as [|x l' Hs IH Hx]; cbn; [constructor|]. rewrite fmap_cons in Hnd.
  apply NoDup_cons in Hnd as [Hx' Hnd]. constructor; [by apply IH|]. rewrite Forall_forall in Hx. apply Forall_forall.
  intros i (y & -> & Hy)%list_elem_of_fmap. specialize (Hx y Hy). unfold Index_compare in Hx.
  assert (div_index x ≠ div_index y) by (intros E; apply Hx'; rewrite E; apply list_elem_of_fmap; by exists y). lia.
Qed.

Lemma stepII_spec :
  ∃ idx kept, RSIA_stepII log2 div_sort curr_PDF ws = Ret kept ∧ StronglySorted lt idx ∧
    length idx = Nat.min (length ws) 50 ∧ Forall2 (λ i w, ws !! i = Some w) idx kept ∧
    ∀ i j wi wj, i ∈ idx → j ∉ idx → ws !! i = Some wi → ws !! j = Some wj →
      dlt (ldiv log2 curr_PDF (w_PDF wj)) (ldiv log2 curr_PDF (w_PDF wi)) = false.
Proof.
  unfold RSIA_stepII. rewrite divergences_spec. cbn [mbind outcome_bind]. set (L := imap _ ws).
  assert (dnan ∉ L_div <$> L) as Hnan.
  { intros (d & E & Hd)%list_elem_of_fmap. apply list_elem_of_lookup in Hd as [i Hi]. unfold L in Hi.
    rewrite list_lookup_imap in Hi. destruct (ws !! i) as [w|] eqn:Ew; [|done]. injection Hi as <-.
    rewrite Forall_lookup in numbers. by apply (numbers i w). }
  rewrite bool_decide_eq_false_2 by done. destruct (div_sort_spec L Hnan) as [Hp Hs].
  set (T := take (Nat.min (length ws) min_allowed_el) (div_sort L)).
  assert (div_index <$> L = seq 0 (length ws)) as EL by apply imap_indices.
  assert (length L = length ws) as HL by apply length_imap.
  assert (NoDup (div_index <$> div_sort L)) as Hnd by (rewrite Hp, EL; apply NoDup_seq).
  rewrite <- (take_drop (Nat.min (length ws) min_allowed_el) (div_sort L)) in Hp, Hs, Hnd. fold T in Hp, Hs, Hnd.
  set (R := drop _ (div_sort L)) in *. rewrite fmap_app in Hnd. apply NoDup_app in Hnd as (HndT & _ & _).
  destruct (index_sorted T HndT) as [Hidx Hpi]. set (idx := div_index <$> merge_sort Index_compare T) in *.
  assert (Forall (λ i, i < length ws)%nat idx) as Hrange.
  { apply Forall_forall. intros i Hi. rewrite Hpi in Hi. assert (i ∈ seq 0 (length ws)) as Hi'%elem_of_seq; [|lia].
    rewrite <- EL, <- Hp, fmap_app. apply elem_of_app. by left. }
  destruct (mapM_vget_Forall2 ws idx Hrange) as (kept & E & Hkept). exists idx, kept. split; [done|]. split; [done|].
  split; [|split; [done|]].
  - rewrite Hpi. rewrite length_fmap. unfold T. rewrite length_take.
    assert (length (div_sort L) = length ws) as -> by (rewrite <- HL; by apply Permutation_length, div_sort_spec).
    unfold min_allowed_el. lia.
  - intros i j wi wj Hi Hj Ewi Ewj. apply StronglySorted_app in Hs as (Hs & _ & _).
    assert (∀ k w, ws !! k = Some w → div_of k w ∈ T ++ R) as Hin.
    { intros k w Ew. rewrite Hp. apply list_elem_of_lookup. exists k. unfold L. by rewrite list_lookup_imap, Ew. }
    assert (∀ a k w, a ∈ T ++ R → div_index a = k → ws !! k = Some w → a = div_of k w) as Huniq.
    { intros a k w Ha Ek Ew. rewrite Hp in Ha. apply list_elem_of_lookup in Ha as [k' Hk']. unfold L in Hk'.
      rewrite list_lookup_imap in Hk'. destruct (ws !! k') as [w'|] eqn:Ew'; [|done]. injection Hk' as <-. cbn in Ek. subst k'.
      by rewrite Ew in Ew'; injection Ew' as ->. }
    rewrite Hpi in Hi, Hj. apply list_elem_of_fmap in Hi as (a & Ea & Ha).
    assert (a = div_of i wi) as -> by (apply Huniq; [apply elem_of_app; by left|done|done]).
    pose proof (Hin j wj Ewj) as Hb. apply elem_of_app in Hb as [Hb|Hb].
    + destruct Hj. apply list_elem_of_fmap. by exists (div_of j wj).
    + apply (Hs _ _ Ha Hb).
Qed.
End second_step.

(** ** What an operation can do to the windows *)

(** The parameters stay, and so do the windows of other features; the one of [k]
    gets longer by at most [n]. *)
Record grows (k : string) (n : nat) (t t' : ad_test) : Prop := Grows {
  gr_params : t_params t' = t_params t;
  gr_others k' : k' ≠ k → window k' t' = window k' t;
  gr_longer : (length (window k t) ≤ length (window k t') ≤ length (window k t) + n)%nat
}.

Lemma grows_refl k t : grows k 0 t t.
Proof. split; [done|done|lia]. Qed.

Lemma grows_trans k n m t t' t'' : grows k n t t' → grows k m t' t'' → grows k (n + m) t t''.
Proof.
  intros [P1 O1 L1] [P2 O2 L2]. split; [congruence|intros k' Hk; rewrite O2, O1 by done; done|lia].
Qed.

Lemma grows_same k t t' : t_params t' = t_params t → t_windows_ht t' = t_windows_ht t → grows k 0 t t'.
Proof. intros EP EW. split; [done|intros k' _; unfold window; by rewrite EW|unfold window; rewrite EW; lia]. Qed.

Definition runs_grow {A} (k : string) (n : nat) (m : M ad_test A) : Prop := ∀ t, grows k n t (m t).2.

Lemma runs_grow_bind {A B} k n n' (m : M ad_test A) (f : A → M ad_test B) :
  runs_grow k n m → (∀ a, runs_grow k n' (f a)) → runs_grow k (n + n') (m ≫= f).
Proof.
  intros Hm Hf t. specialize (Hm t). unfold mbind, M_bind. destruct (m t) as [[a|e] t1]; cbn [snd] in *.
  - by eapply grows_trans, Hf.
  - destruct Hm as [P O L]. split; [done|done|lia].
Qed.

Lemma runs_grow_same {A} k (m : M ad_test A) :
  (∀ t, t_params (m t).2 = t_params t ∧ t_windows_ht (m t).2 = t_windows_ht t) → runs_grow k 0 m.
Proof. intros Hm t. by apply grows_same; apply Hm. Qed.

Lemma window_insert k w t k' : window k' (t_set_windows (<[k := w]> (t_windows_ht t)) t) = if decide (k' = k) then w else window k' t.
Proof.
  unfold window, t_set_windows. cbn [t_windows_ht]. case_decide as E; [subst|].
  - by rewrite lookup_insert_eq.
  - by rewrite lookup_insert_ne.
Qed.

Lemma insert_window_entry_keeps k k' t : window k' (insert_window_entry k t) = window k' t.
Proof.
  unfold insert_window_entry. destruct (t_windows_ht t !! k) eqn:E; [done|]. rewrite window_insert. case_decide; [|done].
  subst. unfold window. by rewrite E.
Qed.

Lemma update_grows k h (l_phase : bool) : runs_grow k (if l_phase then 1 else 0) (update_window_entry k h l_phase).
Proof.
  intros t. unfold update_window_entry. run_m. destruct l_phase; [|destruct (window k t) as [|x w] eqn:Ew; [apply grows_refl|]].
  all: cbn [snd]; split; [done|intros k' Hk; rewrite window_insert, decide_False by done; done|].
  all: rewrite window_insert, decide_True by done; rewrite length_app; cbn [length]; rewrite ?Ew; cbn [length]; lia.
Qed.

Section windows.
Context (log2 : double → double) (show : double → string) (fuel : nat) (div_sort : list divergence → list divergence).

Ltac same := apply runs_grow_same; intros ?t; run_m; repeat case_match; done.

Lemma send_result_grows k h p v : runs_grow k 0 (send_result_message show h p v).
Proof. unfold send_result_message. same. Qed.

Lemma send_anomal_grows k h ws : runs_grow k 0 (send_anomal_message show h ws).
Proof. unfold send_anomal_message. same. Qed.

Lemma lift_grows {A} k (o : outcome A) : runs_grow k 0 (lift o).
Proof. by apply runs_grow_same. Qed.

Lemma judge_grows k w h : runs_grow k 0 (judge log2 fuel div_sort w h).
Proof.
  unfold judge. apply (runs_grow_bind k 0 0); [same|]. intros t. repeat case_match; try (same).
  apply (runs_grow_bind k 0 0); [apply lift_grows|]. intros R1. case_match; [same|].
  apply (runs_grow_bind k 0 0); [apply lift_grows|]. intros R2.
  apply (runs_grow_bind k 0 0); [apply lift_grows|]. intros [[[R3 keep] D] dv].
  apply (runs_grow_bind k 0 0); [apply lift_grows|]. intros v. same.
Qed.

Lemma learn_grows k h : runs_grow k 1 (learn show k h).
Proof.
  unfold learn. apply (runs_grow_bind k 0 1); [same|]. intros t.
  apply (runs_grow_bind k 1 0); [|intros _; apply send_result_grows].
  assert (runs_grow k 1 (modify (t_set_code LEARNING_OK);; update_window_entry k h true)) as H.
  { apply (runs_grow_bind k 0 1); [same|]. intros _. apply (update_grows k h true). }
  repeat case_match; try done; intros t'; (eapply (grows_trans k 0 1); [|split; [done|done|lia]]); by apply grows_same.
Qed.

Lemma detect_grows k h : runs_grow k 0 (detect log2 show fuel div_sort k h).
Proof.
  unfold detect. apply (runs_grow_bind k 0 0); [same|]. intros t. apply (runs_grow_bind k 0 0); [apply judge_grows|]. intros r.
  apply (runs_grow_bind k 0 0); [same|]. intros t2. apply (runs_grow_bind k 0 0).
  - case_match; [apply (update_grows k h false)|same].
  - intros _. apply (runs_grow_bind k 0 0); [apply send_result_grows|]. intros _. case_match; [apply send_anomal_grows|same].
Qed.

(** No window is longer than the number of histograms in one. *)
Definition windows_ok (t : ad_test) : Prop :=
  ∀ k, Z.of_nat (length (window k t)) ≤ q_n_histograms_in_window (t_params t).

(** The block when a histogram is about to be learnt or judged. *)
Definition prepared (h : histo) (t : ad_test) : ad_test :=
  let t1 := insert_window_entry (h_featureID h) (create_CCDF (h_histogram h) (t_set_time (h_timestamp h) t)) in
  t_set_phase (Z.of_nat (length (window (h_featureID h) t1)) <? q_n_histograms_in_window (t_params t1)) t1.

Definition finish : M ad_test unit := modify (λ t, t_set_curr (t_not_null_bins t) [] [] t).

Lemma receive_prepared {P} h t :
  ad_test_receive log2 show fuel div_sort (SHisto (P:=P) h) t =
    if h_timestamp h <? q_learning_start_time (t_params t) then (Ret tt, t_set_time (h_timestamp h) t)
    else ((if t_Learning_phase (prepared h t) then learn show (h_featureID h) h
           else detect log2 show fuel div_sort (h_featureID h) h);; finish) (prepared h t).
Proof. cbn [ad_test_receive]. run_m. cbn [t_set_time t_params]. by destruct (h_timestamp h <? _). Qed.

Lemma prepared_params h t : t_params (prepared h t) = t_params t.
Proof. unfold prepared, insert_window_entry. by case_match. Qed.

Lemma prepared_window h t k : window k (prepared h t) = window k t.
Proof. unfold prepared. cbn zeta. change (window k (t_set_phase ?x ?y)) with (window k y). by rewrite insert_window_entry_keeps. Qed.

Lemma prepared_phase h t :
  t_Learning_phase (prepared h t) = (Z.of_nat (length (window (h_featureID h) t)) <? q_n_histograms_in_window (t_params t)).
Proof.
  rewrite <- (prepared_params h t), <- (prepared_window h t). unfold prepared. cbn zeta. reflexivity.
Qed.

Lemma receive_grows {P} h t :
  grows (h_featureID h) (if t_Learning_phase (prepared h t) then 1 else 0) t
    (ad_test_receive log2 show fuel div_sort (SHisto (P:=P) h) t).2.
Proof.
  rewrite receive_prepared. set (k := h_featureID h).
  assert (grows k 0 t (prepared h t)) as Hg.
  { split; [apply prepared_params|intros; apply prepared_window|rewrite prepared_window; lia]. }
  destruct (h_timestamp h <? _).
  { assert (grows k 0 t (t_set_time (h_timestamp h) t)) as [EP EO EL] by by apply grows_same.
    split; [done|done|]. destruct (t_Learning_phase (prepared h t)); cbn [snd]; lia. }
  assert (runs_grow k 0 finish) as Hf by by apply runs_grow_same.
  destruct (t_Learning_phase (prepared h t)).
  - apply (grows_trans k 0 1 _ _ _ Hg). apply (runs_grow_bind k 1 0); [apply learn_grows|done].
  - apply (grows_trans k 0 0 _ _ _ Hg). apply (runs_grow_bind k 0 0); [apply detect_grows|done].
Qed.

(** The windows.  Whatever message arrives and however its processing ends, no
    window gets longer than the configured number of histograms, none gets
    shorter - so a feature that has left the learning phase never goes back to it
    - and only the window of the histogram's own feature can change. *)
Theorem windows_only_fill {P} (m : stat_message P) t :
  windows_ok t →
  let t' := (ad_test_receive log2 show fuel div_sort m t).2 in
  windows_ok t' ∧ t_params t' = t_params t ∧ ∀ k,
    (length (window k t) ≤ length (window k t'))%nat ∧
    (match m with SHisto h => h_featureID h ≠ k | _ => True end → window k t' = window k t).
Proof.
  intros Hok t'. destruct m as [p|x|h|]; subst t'; [by cbn; split|by cbn; split| |by cbn; split].
  pose proof (receive_grows (P:=P) h t) as [EP EO EL]. rewrite prepared_phase in EL.
  set (t' := (ad_test_receive log2 show fuel div_sort (SHisto h) t).2) in *.
  split; [|split; [done|]].
  - intros k. rewrite EP. destruct (decide (k = h_featureID h)) as [->|Hk]; [|by rewrite EO].
    specialize (Hok (h_featureID h)).
    destruct (Z.ltb_spec (Z.of_nat (length (window (h_featureID h) t))) (q_n_histograms_in_window (t_params t))); lia.
  - intros k. destruct (decide (k = h_featureID h)) as [->|Hk]; [split; [lia|done]|]. rewrite EO by done. done.
Qed.

(** ** Learning *)

Definition result_of (h : histo) (L_phase : bool) (v : verdict) (code : Z) (t : ad_test) : ad_result :=
  ad_result_fill (h_nr_unique_users h) (h_total_value h) (Z.of_nat (length (h_histogram h))) (t_curr_CCDF t)
    L_phase (v_l_base v) (v_u_base v) (v_mean_base v) (v_current v) code
    (ad_result_new (h_timestamp h) (q_timescale (t_params t)) (h_featureID h)).

(** At the stop time the program ends with status 1. *)
Definition ending (h : histo) (t : ad_test) : outcome unit :=
  if q_stop_time (t_params t) <=? h_timestamp h then Throw (exit_program 1) else Ret tt.

Lemma send_result_spec h p v t :
  ∃ f, send_result_message show h p v t =
    (ending h t, t_set_res f (t_sent_res t ++ [result_of h p v (t_anomaly_code t) t]) t).
Proof.
  unfold send_result_message, ending, result_of. run_m. destruct (q_stop_time (t_params t) <=? h_timestamp h); by eexists.
Qed.

Lemma send_anomal_spec h ws t :
  ∃ f, send_anomal_message show h ws t =
    (ending h t, t_set_anom f (t_sent_anom t ++ [ad_anomal_fill (Z.of_nat (length (h_histogram h))) (t_curr_CCDF t)
      (Z.of_nat (length ws)) ws (ad_anomal_new (h_timestamp h) (q_timescale (t_params t)) (h_featureID h))]) t).
Proof.
  unfold send_anomal_message, ending. run_m. destruct (q_stop_time (t_params t) <=? h_timestamp h); by eexists.
Qed.

Definition not_null_bins (histog : list Z) : Z := u16 (Z.of_nat (length histog) - u16 (Z.of_nat (empty_bins histog))).

Lemma prepared_current h t :
  t_curr_PDF (prepared h t) = PDF_of (h_histogram h) ∧ t_curr_CCDF (prepared h t) = PDF_to_CCDF (PDF_of (h_histogram h)) ∧
  t_not_null_bins (prepared h t) = not_null_bins (h_histogram h) ∧ t_sent_res (prepared h t) = t_sent_res t ∧
  t_sent_anom (prepared h t) = t_sent_anom t ∧ t_current_agg_time (prepared h t) = h_timestamp h.
Proof. unfold prepared, insert_window_entry. by case_match. Qed.

(** What [_receive_msg] does after the result message does not change it. *)
Lemma finish_ending (o : outcome unit) t t1 (m : M ad_test unit) :
  m t = (o, t1) → ∃ t', (m;; finish) t = (o, t') ∧ t_windows_ht t' = t_windows_ht t1 ∧ t_sent_res t' = t_sent_res t1 ∧
    t_sent_anom t' = t_sent_anom t1.
Proof.
  intros E. unfold mbind, M_bind. rewrite E. destruct o as [[]|e]; eexists; by split.
Qed.

(** The code of a histogram that arrives in the learning phase. *)
Definition learning_code (h : histo) (t : ad_test) : Z :=
  if h_nr_unique_users h <=? q_min_active_users (t_params t) then NOT_ENOUGH_ACTIVE_USERS_LEARN
  else if not_null_bins (h_histogram h) <=? 5 then NOT_ENOUGH_NOT_NULL_BINS_LEARN
  else LEARNING_OK.

(** The learning phase.  As long as the window of its feature is not full, a
    histogram with enough users and enough bins that are not empty is appended to
    it, normalised; one without is not.  Either way one result message goes out,
    with the complementary distribution and the code that says which, and no
    anomaly message; at the stop time the program ends after that. *)
Theorem learning_collects {P} h t :
  q_learning_start_time (t_params t) ≤ h_timestamp h →
  Z.of_nat (length (window (h_featureID h) t)) < q_n_histograms_in_window (t_params t) →
  ∃ t' msg, ad_test_receive log2 show fuel div_sort (SHisto (P:=P) h) t = (ending h t, t') ∧
    t_sent_res t' = t_sent_res t ++ [msg] ∧ t_sent_anom t' = t_sent_anom t ∧
    r_timestamp msg = h_timestamp h ∧ r_featureID msg = h_featureID h ∧ r_phase msg = true ∧
    r_Anomaly_code msg = learning_code h t ∧ r_CCDF msg = PDF_to_CCDF (PDF_of (h_histogram h)) ∧
    window (h_featureID h) t' =
      if learning_code h t =? LEARNING_OK
      then window (h_featureID h) t ++ [window_element_of h (PDF_of (h_histogram h)) true]
      else window (h_featureID h) t.
Proof.
  intros Hstart Hlen. rewrite receive_prepared, (proj2 (Z.ltb_ge _ _)) by done.
  rewrite prepared_phase, (proj2 (Z.ltb_lt _ _)) by done.
  destruct (prepared_current h t) as (EP & EC & EB & ER & EA & _). pose proof (prepared_params h t) as Eq.
  pose proof (prepared_window h t (h_featureID h)) as Ew. set (t1 := prepared h t) in *. set (k := h_featureID h) in *.
  set (code := learning_code h t).
  assert (∃ t2, (if negb (enough_users h t1) then modify (t_set_code NOT_ENOUGH_ACTIVE_USERS_LEARN)
     else if negb (enough_bins t1) then modify (t_set_code NOT_ENOUGH_NOT_NULL_BINS_LEARN)
     else modify (t_set_code LEARNING_OK);; update_window_entry k h true) t1 = (Ret tt, t2) ∧
    t_params t2 = t_params t ∧ t_curr_CCDF t2 = t_curr_CCDF t1 ∧ t_sent_res t2 = t_sent_res t1 ∧ t_sent_anom t2 = t_sent_anom t1 ∧
    t_anomaly_code t2 = code ∧ window k t2 = if code =? LEARNING_OK then window k t ++ [window_element_of h (PDF_of (h_histogram h)) true]
      else window k t) as (t2 & E2 & P2 & C2 & R2 & A2 & K2 & W2).
  { unfold enough_users, enough_bins, code, learning_code. rewrite !negb_involutive, EB, Eq.
    destruct (h_nr_unique_users h <=? _); [eexists; split; [reflexivity|]; by rewrite <- Ew|].
    destruct (not_null_bins _ <=? 5); [eexists; split; [reflexivity|]; by rewrite <- Ew|].
    unfold update_window_entry. run_m. eexists. split; [reflexivity|].
    change (window k (t_set_code LEARNING_OK t1)) with (window k t1). change (t_curr_PDF (t_set_code LEARNING_OK t1)) with (t_curr_PDF t1).
    rewrite window_insert, decide_True, EP, Ew by done. done. }
  destruct (send_result_spec h true no_verdict t2) as (f & E3).
  destruct (finish_ending (ending h t) t1 (t_set_res f (t_sent_res t2 ++ [result_of h true no_verdict (t_anomaly_code t2) t2]) t2)
    (learn show k h)) as (t' & E' & HW & HR & HA).
  { unfold learn. rewrite (bind_Ret (gets id) _ t1 t1 t1 eq_refl), (bind_Ret _ _ _ _ _ E2), E3. unfold ending. by rewrite P2. }
  exists t', (result_of h true no_verdict (t_anomaly_code t2) t2). split; [done|]. rewrite HR, HA.
  cbn [t_set_res t_sent_res t_sent_anom result_of ad_result_fill ad_result_new r_timestamp r_featureID r_phase r_Anomaly_code r_CCDF].
  rewrite R2, A2, ER, EA, K2, C2, EC. repeat (split; [done|]). split; [|split; [done|]].
  - unfold code, learning_code. by repeat case_match.
  - unfold window in *. rewrite HW. cbn [t_set_res t_windows_ht]. exact W2.
Qed.
End windows.

(** ** Judging *)

Fixpoint pairwise {A} (f : A → A → double) (l : list A) : list double :=
  match l with
  | [] => []
  | x :: l => (f x <$> l) ++ pairwise f l
  end.

Section judging.
Context (log2 : double → double) (show : double → string) (fuel : nat) (fuel_enough : (2500 ≤ fuel)%nat).
Context (div_sort : list divergence → list divergence).
Context (div_sort_spec : ∀ l, dnan ∉ L_div <$> l →
  div_sort l ≡ₚ l ∧ StronglySorted (λ a b, dlt (L_div b) (L_div a) = false) (div_sort l)).

Definition w_div (a b : window_element) : double := ldiv log2 (w_PDF a) (w_PDF b).

(** Every element is at a positive divergence from every later one. *)
Notation apart := (StronglySorted (λ a b, dlt dzero (w_div a b) = true)).

(** What a window has to satisfy for its histograms to be compared with [pdf]. *)
Record comparable (pdf : list double) (w : window_array) : Prop := Comparable {
  cp_size : Forall (λ e, length (w_PDF e) = length pdf) w;
  cp_number : Forall (λ e, ldiv log2 pdf (w_PDF e) ≠ dnan) w;
  cp_apart : apart w
}.

Lemma filter_apart P `{∀ x, Decision (P x)} w : apart w → apart (filter P w).
Proof.
  intros Hw. induction Hw as [|x w Hw IH Hx]; [constructor|]. rewrite filter_cons. case_decide; [|done].
  constructor; [done|]. apply Forall_forall. intros y [_ Hy]%list_elem_of_filter. rewrite Forall_forall in Hx. by apply Hx.
Qed.

Lemma picked_apart (ws : window_array) idx kept :
  apart ws → StronglySorted lt idx → Forall2 (λ i w, ws !! i = Some w) idx kept → apart kept.
Proof.
  intros Hws Hidx Hk. induction Hk as [|i w idx kept Ei Hk IH]; [constructor|].
  inversion Hidx as [|? ? Hs Hi]; subst. constructor; [by apply IH|]. apply Forall_lookup. intros n w' Ew'.
  destruct (Forall2_lookup_r _ _ _ _ _ Hk Ew') as (j & Ej & Ewj). rewrite Forall_lookup in Hi. specialize (Hi n j Ej).
  rewrite <- (take_drop_middle ws i w Ei) in Hws. apply StronglySorted_app in Hws as (_ & _ & Hws).
  inversion Hws as [|? ? _ Hrest]; subst. rewrite Forall_lookup in Hrest. apply (Hrest (j - S i)%nat).
  rewrite lookup_drop. by replace (S i + (j - S i))%nat with j by lia.
Qed.

Lemma comparable_picked pdf ws idx kept :
  comparable pdf ws → StronglySorted lt idx → Forall2 (λ i w, ws !! i = Some w) idx kept → comparable pdf kept.
Proof.
  intros [H1 H2 H3] Hidx Hk.
  assert (∀ P, Forall P ws → Forall P kept) as HF.
  { intros P HP. apply Forall_lookup. intros n w Ew. destruct (Forall2_lookup_r _ _ _ _ _ Hk Ew) as (j & _ & Ej).
    rewrite Forall_lookup in HP. by apply (HP j). }
  split; [by apply HF|by apply HF|]. by eapply picked_apart.
Qed.

Lemma pair_distances_picked (ws : window_array) keep final :
  StronglySorted lt keep → Forall2 (λ i w, ws !! i = Some w) keep final →
  pair_distances (upper_of log2 ws) keep = pairwise w_div final.
Proof.
  intros Hs Hk. assert (∀ i w, ws !! i = Some w → pdf_at ws i = w_PDF w) as Hat by (intros i w E; unfold pdf_at; by rewrite E).
  induction Hk as [|i w keep final Ei Hk IH]; [done|]. inversion Hs as [|? ? Hs' Hi]; subst.
  cbn [pair_distances pairwise]. rewrite (IH Hs'). f_equal. clear IH Hs Hs'.
  induction Hk as [|j w' keep final Ej Hk IH]; [done|]. rewrite !fmap_cons. apply Forall_cons in Hi as [Hij Hi].
  rewrite (IH Hi). f_equal. unfold upper_of, between, w_div. rewrite (proj2 (Nat.ltb_lt _ _)) by done.
  by rewrite (Hat i w), (Hat j w').
Qed.

Lemma pairwise_numbers w : apart w → dnan ∉ pairwise w_div w.
Proof.
  intros Hw. induction Hw as [|x w Hw IH Hx]; [apply not_elem_of_nil|]. cbn [pairwise]. intros [Hin|Hin]%elem_of_app; [|done].
  apply list_elem_of_fmap in Hin as (y & E & Hy). rewrite Forall_forall in Hx. specialize (Hx y Hy). by rewrite <- E in Hx.
Qed.

(** The numbers of a test against a reference set. *)
Definition judged (pdf : list double) (RefSet : window_array) (v : verdict) : Prop :=
  percentile_of_array (pairwise w_div RefSet) 1 = Ret (v_l_base v) ∧
  percentile_of_array (pairwise w_div RefSet) 99 = Ret (v_u_base v) ∧
  v_mean_base v = vector_mean (pairwise w_div RefSet) ∧
  v_current v = vector_mean ((λ w, ldiv log2 (w_PDF w) pdf) <$> RefSet).

(** Both remaining steps and the test, on at least five candidates. *)
Lemma reference_set_judged pdf cand :
  comparable pdf cand → (5 ≤ length cand)%nat →
  ∃ RefSetII RefSet keep D dv v, RSIA_stepII log2 div_sort pdf cand = Ret RefSetII ∧
    RSIA_stepIII log2 fuel pdf RefSetII = Ret (RefSet, keep, D, dv) ∧
    ENKL_test (length RefSet) D dv keep = Ret v ∧ judged pdf RefSet v ∧ (3 ≤ length RefSet ≤ 50)%nat ∧
    Forall (λ w, w ∈ cand) RefSet.
Proof.
  intros Hc Hlen. destruct (stepII_spec log2 div_sort div_sort_spec pdf cand (cp_size _ _ Hc) (cp_number _ _ Hc))
    as (idx & R2 & E2 & Hidx & Hn & H2 & _).
  assert (length R2 = length idx) as EL by (symmetry; by eapply Forall2_length).
  pose proof (comparable_picked pdf cand idx R2 Hc Hidx H2) as HR2.
  assert (∀ x y, (x < y < length R2)%nat → dlt dzero (between log2 R2 x y) = true) as Hpos.
  { intros x y Hxy. destruct (lookup_lt_is_Some_2 R2 x) as [wx Ex]; [lia|]. destruct (lookup_lt_is_Some_2 R2 y) as [wy Ey]; [lia|].
    unfold between, pdf_at. rewrite Ex, Ey. cbn. pose proof (cp_apart _ _ HR2) as Hap. 
    rewrite <- (take_drop_middle R2 x wx Ex) in Hap. apply StronglySorted_app in Hap as (_ & _ & Hap).
    inversion Hap as [|? ? _ Hrest]; subst. rewrite Forall_lookup in Hrest. apply (Hrest (y - S x)%nat).
    rewrite lookup_drop. by replace (S x + (y - S x))%nat with y by lia. }
  destruct (stepIII_spec log2 pdf R2 (cp_size _ _ HR2) fuel) as (RS & keep & rest & E3 & Hk & Hp & Hrest & H3).
  - assert (length R2 ≤ 50)%nat by lia. nia.
  - intros x Hx. destruct (decide (S x < length R2)%nat).
    + exists (S x). left. split; [lia|]. apply Hpos. lia.
    + exists (x - 1)%nat. right. split; [lia|]. apply Hpos. lia.
  - assert (length RS = length keep) as ELk by (symmetry; by eapply Forall2_length).
    assert (length keep + length rest = length R2)%nat as Hsum.
    { apply Permutation_length in Hp. by rewrite length_app, length_seq in Hp. }
    assert (Forall (λ i, i < length R2)%nat keep) as Hrange.
    { apply Forall_forall. intros i Hi. assert (i ∈ seq 0 (length R2)) as Hi'%elem_of_seq; [|lia].
      rewrite <- Hp. apply elem_of_app. by left. }
    pose proof (pair_distances_picked R2 keep RS Hk H3) as Epairs.
    destruct (enkl_test_spec (length R2) (upper_of log2 R2) keep ((λ w, ldiv log2 (w_PDF w) pdf) <$> R2))
      as (v & E4 & Vm & Vl & Vu & Vc); [lia|done|by rewrite length_fmap| |].
    + rewrite Epairs. apply pairwise_numbers. by eapply picked_apart; [apply (cp_apart _ _ HR2)|..].
    + exists R2, RS, keep, (tabulate (length R2) (length R2) (upper_of log2 R2)), ((λ w, ldiv log2 (w_PDF w) pdf) <$> R2), v.
      rewrite ELk. split; [done|]. split; [done|]. split; [done|]. rewrite Epairs in Vm, Vl, Vu. split; [|split; [lia|]].
      * split; [done|split; [done|split; [done|]]]. rewrite Vc. f_equal. clear -H3.
        induction H3 as [|i w keep RS Ei _ IH]; [done|]. rewrite !fmap_cons, IH, list_lookup_fmap, Ei. done.
      * apply Forall_lookup. intros n w Ew. destruct (Forall2_lookup_r _ _ _ _ _ H3 Ew) as (j & _ & Ej).
        destruct (Forall2_lookup_r _ _ _ _ _ H2 Ej) as (i & _ & Ei). by apply list_elem_of_lookup_2 in Ei.
Qed.

(** The elements of a window the first step leaves for a histogram. *)
Definition candidates (h : histo) (t : ad_test) (n : nat) : window_array :=
  alike (u64 (h_timestamp h - q_guard_period_duration (t_params t))) (h_nr_unique_users h) n (window (h_featureID h) t).

Definition accepted (h : histo) (t : ad_test) : bool :=
  negb (h_nr_unique_users h <=? q_min_active_users (t_params t)) && negb (not_null_bins (h_histogram h) <=? 5).

(** The code of a histogram that arrives in the detection phase. *)
Definition detection_code (h : histo) (t : ad_test) (cand : window_array) (v : verdict) : Z :=
  if h_nr_unique_users h <=? q_min_active_users (t_params t) then NOT_ENOUGH_ACTIVE_USERS_DET
  else if not_null_bins (h_histogram h) <=? 5 then NOT_ENOUGH_NOT_NULL_BINS_DET
  else if (length cand <? 5)%nat then NOT_ENOUGH_EL_IN_REF_SET
  else if passes v then NOT_ANOMALOUS else ANOMALOUS.

(** A histogram that comes to the comparison can be compared with its candidates, by
    whatever slack they were picked. *)
Definition candidates_comparable (h : histo) (t : ad_test) : Prop :=
  accepted h t = true → ∀ n, (1 ≤ n ≤ slack_last)%nat → (5 ≤ length (candidates h t n))%nat →
  comparable (PDF_of (h_histogram h)) (candidates h t n).

Lemma window_comparable h t :
  comparable (PDF_of (h_histogram h)) (window (h_featureID h) t) → candidates_comparable h t.
Proof.
  intros [H1 H2 H3] _ n _ _. unfold candidates, alike.
  assert (∀ P, Forall P (window (h_featureID h) t) → Forall P (filter (λ e, similar (u64 (h_timestamp h - q_guard_period_duration (t_params t)))
    (h_nr_unique_users h) (slack n) e = true) (window (h_featureID h) t))) as HF.
  { intros P HP. apply Forall_forall. intros y [_ Hy]%list_elem_of_filter. rewrite Forall_forall in HP. by apply HP. }
  split; [by apply HF|by apply HF|by apply filter_apart].
Qed.

Lemma judge_spec h t :
  candidates_comparable h t →
  ∃ n v RefSet, (1 ≤ n ≤ slack_last)%nat ∧
    judge log2 fuel div_sort (window (h_featureID h) t) h (prepared h t) =
      (Ret (v, RefSet), t_set_code (detection_code h t (candidates h t n) v) (prepared h t)) ∧
    (accepted h t = true → (5 ≤ length (candidates h t n))%nat →
      judged (PDF_of (h_histogram h)) RefSet v ∧ (3 ≤ length RefSet ≤ 50)%nat ∧ Forall (λ w, w ∈ candidates h t n) RefSet).
Proof.
  intros Hc. destruct (prepared_current h t) as (EP & _ & EB & _ & _ & ET). pose proof (prepared_params h t) as Eq.
  destruct (stepI_spec (window (h_featureID h) t) h (prepared h t)) as (n & E1 & Hn & _).
  unfold guard_period_low_bound in E1. rewrite Eq, ET in E1. fold (candidates h t n) in E1.
  unfold candidates_comparable, accepted in Hc. unfold judge, detection_code, accepted. rewrite (bind_Ret (gets id) _ (prepared h t) (prepared h t) (prepared h t) eq_refl).
  cbv beta. unfold enough_users, enough_bins. rewrite !negb_involutive, EB, Eq.
  destruct (h_nr_unique_users h <=? _) eqn:Eu; [exists n, no_verdict, []; split; [done|]; split; [reflexivity|discriminate]|].
  destruct (not_null_bins _ <=? 5) eqn:Eb; [exists n, no_verdict, []; split; [done|]; split; [reflexivity|discriminate]|].
  unfold lift. rewrite E1, (bind_Ret _ _ (prepared h t) (candidates h t n) (prepared h t) eq_refl).
  destruct (length (candidates h t n) <? 5)%nat eqn:E5.
  { exists n, no_verdict, []. rewrite E5. split; [done|]. split; [done|]. apply Nat.ltb_lt in E5. lia. }
  apply Nat.ltb_ge in E5. destruct (reference_set_judged _ _ (Hc eq_refl n Hn E5) E5) as (R2 & RS & keep & D & dv & v & E2 & E3 & E4 & Hj & Hl & Hin).
  exists n, v, RS. rewrite (proj2 (Nat.ltb_ge _ _) E5). split; [done|]. split; [|auto]. rewrite EP, E2.
  rewrite (bind_Ret _ _ (prepared h t) R2 (prepared h t) eq_refl), E3.
  rewrite (bind_Ret _ _ (prepared h t) (RS, keep, D, dv) (prepared h t) eq_refl), E4.
  rewrite (bind_Ret _ _ (prepared h t) v (prepared h t) eq_refl). reflexivity.
Qed.

(** C32: The detection phase, for a feature whose window is full.  A histogram is
    judged without an access out of range or a hang, if it has too few users, too few
    bins that are not empty or fewer than five candidates, or else can be compared with
    the candidates: their distributions have as many bins, their divergence from it is a
    number, and any two of them are at a positive divergence (with equal ones the code
    hangs: finding [identical_never_divided]).  Exactly one result message goes out,
    with the code: too few users, too few bins that are not empty, fewer than five
    candidates, or the outcome of the test, which compares the mean divergence of the
    current distribution from a reference set of 3 to 50 candidates with the 99th
    percentile of the divergences within that set.  Only a histogram that passes enters
    the window, the oldest element leaving.  For an anomaly, or too few candidates, an
    anomaly message with the reference set follows, unless this was the stop time: then
    the program ends before. *)
Theorem detection_decides {P} h t :
  q_learning_start_time (t_params t) ≤ h_timestamp h →
  q_n_histograms_in_window (t_params t) ≤ Z.of_nat (length (window (h_featureID h) t)) →
  candidates_comparable h t →
  ∃ t' msg n v RefSet, (1 ≤ n ≤ slack_last)%nat ∧
    let code := detection_code h t (candidates h t n) v in
    ad_test_receive log2 show fuel div_sort (SHisto (P:=P) h) t = (ending h t, t') ∧
    (accepted h t = true → (5 ≤ length (candidates h t n))%nat →
      judged (PDF_of (h_histogram h)) RefSet v ∧ (3 ≤ length RefSet ≤ 50)%nat ∧ Forall (λ w, w ∈ candidates h t n) RefSet) ∧
    t_sent_res t' = t_sent_res t ++ [msg] ∧ r_phase msg = false ∧ r_Anomaly_code msg = code ∧
    r_timestamp msg = h_timestamp h ∧ r_featureID msg = h_featureID h ∧
    window (h_featureID h) t' =
      (if code =? NOT_ANOMALOUS
       then tail (window (h_featureID h) t) ++ [window_element_of h (PDF_of (h_histogram h)) false]
       else window (h_featureID h) t) ∧
    a_RefSet <$> t_sent_anom t' =
      (a_RefSet <$> t_sent_anom t) ++
      if ((code =? NOT_ENOUGH_EL_IN_REF_SET) || (code =? ANOMALOUS)) && (h_timestamp h <? q_stop_time (t_params t))
      then [RefSet] else [].
Proof.
  intros Hstart Hlen Hc. rewrite receive_prepared, (proj2 (Z.ltb_ge _ _)) by done.
  rewrite prepared_phase, (proj2 (Z.ltb_ge _ _)) by done.
  destruct (prepared_current h t) as (EP & EC & EB & ER & EA & _). pose proof (prepared_params h t) as Eq.
  pose proof (prepared_window h t (h_featureID h)) as Ew.
  destruct (judge_spec h t Hc) as (n & v & RS & Hn & E1 & Hj). set (code := detection_code h t (candidates h t n) v) in *.
  set (t1 := prepared h t) in *. set (k := h_featureID h) in *. cbn zeta.
  assert (∃ t3, (if code =? NOT_ANOMALOUS then update_window_entry k h false else mret tt) (t_set_code code t1) = (Ret tt, t3) ∧
    t_params t3 = t_params t ∧ t_sent_res t3 = t_sent_res t ∧ t_sent_anom t3 = t_sent_anom t ∧ t_anomaly_code t3 = code ∧
    window k t3 = if code =? NOT_ANOMALOUS then tail (window k t) ++ [window_element_of h (PDF_of (h_histogram h)) false]
      else window k t) as (t3 & E3 & P3 & R3 & A3 & K3 & W3).
  { destruct (Z.eqb_spec code NOT_ANOMALOUS) as [E0|Hne]; [|eexists; split; [reflexivity|by rewrite <- Ew]].
    assert (window k t ≠ []) as Hsome.
    { intros Hnil. unfold code, detection_code, candidates, alike in E0. fold k in E0. rewrite Hnil in E0.
      repeat case_match; try done. }
    unfold update_window_entry. set (t2 := t_set_code code t1). rewrite (bind_Ret (gets id) _ t2 t2 t2 eq_refl). cbv beta.
    unfold t2. change (window k (t_set_code code t1)) with (window k t1). rewrite Ew.
    change (t_curr_PDF (t_set_code code t1)) with (t_curr_PDF t1). rewrite EP.
    destruct (window k t) as [|e w] eqn:Ewin; [done|]. eexists. split; [reflexivity|]. rewrite window_insert, decide_True by done. done. }
  destruct (send_result_spec show h false v t3) as (f & E4).
  set (t4 := t_set_res f (t_sent_res t3 ++ [result_of h false v (t_anomaly_code t3) t3]) t3) in *.
  set (again := (code =? NOT_ENOUGH_EL_IN_REF_SET) || (code =? ANOMALOUS)).
  assert (ending h t3 = ending h t) as Eend by (unfold ending; by rewrite P3).
  assert (∃ t5, detect log2 show fuel div_sort k h t1 = (ending h t, t5) ∧ t_windows_ht t5 = t_windows_ht t4 ∧
    t_sent_res t5 = t_sent_res t4 ∧ a_RefSet <$> t_sent_anom t5 = (a_RefSet <$> t_sent_anom t4) ++
      if again && (h_timestamp h <? q_stop_time (t_params t)) then [RS] else []) as (t5 & E5 & W5 & R5 & A5).
  { unfold detect. rewrite (bind_Ret (gets id) _ t1 t1 t1 eq_refl). cbv beta. rewrite Ew, (bind_Ret _ _ _ _ _ E1).
    set (t2 := t_set_code code t1) in *. rewrite (bind_Ret (gets id) _ t2 t2 t2 eq_refl). cbv beta.
    change (t_anomaly_code t2) with code.
    rewrite (bind_Ret _ _ _ _ _ E3). cbn [fst snd]. unfold mbind at 1, M_bind at 1. rewrite E4, Eend. unfold ending.
    rewrite Z.ltb_antisym. destruct (q_stop_time (t_params t) <=? h_timestamp h) eqn:Estop.
    - exists t4. cbn [negb]. rewrite andb_false_r, app_nil_r. done.
    - cbn [negb]. rewrite andb_true_r. fold again. destruct again; [|exists t4; by rewrite app_nil_r].
      destruct (send_anomal_spec show h RS t4) as (f' & E'). rewrite E'. unfold ending.
      change (t_params t4) with (t_params t3). rewrite P3, Estop. eexists. split; [reflexivity|].
      cbn [t_set_anom t_windows_ht t_sent_res t_sent_anom]. rewrite fmap_app. done. }
  destruct (finish_ending _ _ _ _ E5) as (t' & E' & HW & HR & HA).
  exists t', (result_of h false v (t_anomaly_code t3) t3), n, v, RS. split; [done|]. split; [done|]. split; [done|].
  rewrite HR, R5, HA, A5. cbn [t4 t_set_res t_sent_res t_sent_anom]. rewrite R3, A3, K3.
  cbn [result_of ad_result_fill ad_result_new r_timestamp r_featureID r_phase r_Anomaly_code].
  split; [done|]. split; [done|]. split; [|split; [done|split; [done|split; [|done]]]].
  - unfold code, detection_code. by repeat case_match.
  - unfold window in W3 |- *. by rewrite HW, W5.
Qed.
End judging.

(** ** What goes wrong *)

(** The sum of the bins is kept in 16 bits: with 65536 users in all, each bin is
    divided by 0, and nothing of the distribution is a number. *)
Lemma users_wrap : PDF_of [32768; 32768] = [dnan; dnan].
Proof. by vm_compute. Qed.

(** The histogram of an interval without users: not a number either, and none of
    its bins counts as empty. *)
Lemma no_users_not_a_number : PDF_of (replicate 6 0) = replicate 6 dnan ∧ not_null_bins (replicate 6 0) = 6.
Proof. by vm_compute. Qed.

(** The number of users of a window element is kept in 16 bits too: with 65600
    users, a distribution is not alike one with the same number. *)
Lemma users_truncated ts pdf n :
  (n ≤ slack_last)%nat →
  similar ts 65600 (slack n) (window_element_of (Histo ts "a" 65600 [] 0) pdf true) = false.
Proof.
  intros Hn. unfold similar. apply andb_false_iff. right. cbn [window_element_of h_nr_unique_users w_nr_unique_users].
  assert (forallb (λ n, negb (dlt (abs (dsub (double_of_Z 65600) (double_of_Z (u16 65600)))) (dmul (slack n) (double_of_Z 65600))))
    (seq 0 26) = true) as Hall by (lazy; reflexivity).
  rewrite forallb_forall in Hall. specialize (Hall n). apply negb_true_iff, Hall, in_seq. unfold slack_last in Hn. lia.
Qed.

(** ** Examples *)

Definition example_test (timescale : string) : xml :=
  Elem "params" [] [Elem "timescale" [("val", timescale)] []; Elem "learning_window" [("duration", "1")] [];
    Elem "guard_period" [("duration", "22")] []; Elem "min_nr_active_users" [("val", "50")] [];
    Elem "detection_start_time" [("val", "100000")] []; Elem "detection_stop_time" [("val", "900000")] [];
    Elem "res_output_file" [("name", "res")] []; Elem "anom_output_file" [("name", "anom")] []].

(** A time scale of 0, or of 65536, divides by zero. *)
Lemma no_timescale_divides :
  (ad_test_configure (example_test "65536") ad_test_new).1 = Throw (undefined_behaviour "division by zero").
Proof. by vm_compute. Qed.

(** Without the stop time, which the documentation of the parameters leaves out,
    the configuration is refused. *)
Lemma stop_time_required :
  (ad_test_configure (Elem "params" [] (filter (λ e, node_name e ≠ "detection_stop_time") (match example_test "5" with Elem _ _ kids => kids end)))
    ad_test_new).1 = Throw (runtime_error "ADTest:: malformed xml node for the field detection stop time").
Proof. by vm_compute. Qed.

(** Windows of five histograms, the guard period an hour, the stop time 900000. *)
Definition small_test : ad_test :=
  t_set_params (TestParams 5 1 5 1 3600 50 100000 900000 "res" "anom" 13600) ad_test_new.

Definition busy_histogram (ts : Z) : histo := Histo ts "a" 100 [10; 20; 30; 20; 10; 10] 300.

Lemma learning_collects_witness :
  ∃ t' msg, ad_test_receive linear_log2 (λ _, "") 2500 id (SHisto (P:=unit) (busy_histogram 20000)) small_test = (Ret tt, t') ∧
    t_sent_res t' = [msg] ∧ r_Anomaly_code msg = LEARNING_OK ∧ length (window "a" t') = 1%nat.
Proof.
  destruct (learning_collects (P:=unit) linear_log2 (λ _, "") 2500 id (busy_histogram 20000) small_test)
    as (t' & msg & E & HR & _ & _ & _ & _ & HK & _ & HW).
  - done.
  - done.
  - exists t', msg. assert (learning_code (busy_histogram 20000) small_test = LEARNING_OK) as EL by (lazy; reflexivity).
    split; [exact E|]. split; [exact HR|]. rewrite HK, EL. split; [reflexivity|].
    change (h_featureID (busy_histogram 20000)) with "a" in HW. rewrite HW, EL. reflexivity.
Defined.

Lemma windows_only_fill_witness :
  windows_ok small_test ∧
  windows_ok (ad_test_receive linear_log2 (λ _, "") 2500 id (SHisto (P:=unit) (busy_histogram 20000)) small_test).2.
Proof.
  assert (windows_ok small_test) as H by (intros k; done).
  split; [exact H|]. apply (windows_only_fill linear_log2 (λ _, "") 2500 id (SHisto (P:=unit) (busy_histogram 20000)) small_test H).
Defined.

Definition div_le (a b : divergence) : Prop := key_le (L_div a) (L_div b).
#[export] Instance div_le_dec : RelDecision div_le.
Proof. intros a b. unfold div_le. apply _. Defined.

Lemma div_le_sorts l :
  dnan ∉ L_div <$> l →
  merge_sort div_le l ≡ₚ l ∧ StronglySorted (λ a b, dlt (L_div b) (L_div a) = false) (merge_sort div_le l).
Proof.
  intros Hnan. pose proof (merge_sort_Permutation div_le l) as Hp. split; [done|].
  assert (∀ a, a ∈ merge_sort div_le l → L_div a ≠ dnan) as Hn.
  { intros a Ha E. apply Hnan. apply list_elem_of_fmap. exists a. by rewrite <- Hp. }
  assert (StronglySorted div_le (merge_sort div_le l)) as Hs.
  { apply Sorted_StronglySorted; [intros x y z; apply key_le_trans|]. apply Sorted_merge_sort. intros x y. apply key_le_total. }
  clear Hp. induction Hs as [|a l' Hs IH Ha]; [constructor|]. constructor; [apply IH; intros b Hb; apply Hn; by right|].
  rewrite Forall_forall in Ha. apply Forall_forall. intros b Hb. apply key_le_not_below; [apply Hn; by left|apply Hn; by right|].
  by apply Ha.
Qed.

Definition full_window : window_array :=
  (λ ns, WindowElement 20000 100 6 (dyadics 5 ns) true) <$>
    [[1; 1; 1; 1; 1; 27]; [2; 1; 1; 1; 1; 26]; [1; 2; 1; 1; 1; 26]; [1; 1; 2; 1; 1; 26]; [1; 1; 1; 2; 1; 26]].

Definition full_test : ad_test := t_set_windows {["a" := full_window]} small_test.

Lemma full_window_comparable : comparable linear_log2 (PDF_of [10; 20; 30; 20; 10; 10]) full_window.
Proof.
  split.
  - repeat (constructor; [reflexivity|]). constructor.
  - unfold full_window. repeat (constructor; [lazy; discriminate|]). constructor.
  - unfold full_window. repeat (constructor; [|repeat (constructor; [lazy; reflexivity|]); constructor]). constructor.
Qed.

Lemma detection_decides_witness :
  ∃ t' msg, ad_test_receive linear_log2 (λ _, "") 2500 (merge_sort div_le) (SHisto (P:=unit) (busy_histogram 200000)) full_test
      = (Ret tt, t') ∧ t_sent_res t' = [msg] ∧ r_phase msg = false ∧ length (window "a" t') = 5%nat.
Proof.
  destruct (detection_decides linear_log2 (λ _, "") 2500) with (P := unit) (div_sort := merge_sort div_le)
    (h := busy_histogram 200000) (t := full_test) as (t' & msg & n & v & RS & _ & E & _ & HR & HP & _ & _ & _ & HW & _).
  - apply Nat.le_refl.
  - apply div_le_sorts.
  - done.
  - done.
  - apply window_comparable, full_window_comparable.
  - exists t', msg. split; [exact E|]. split; [exact HR|]. split; [exact HP|].
    change (h_featureID (busy_histogram 200000)) with "a" in HW. rewrite HW. by case_match.
Defined.
