(* ===== verification/Dissect.v ===== *)
(** * Dissectors and the sliced packet

    Models [core/dissectors] and the class [NewPacket] of [messages/NewPacket.hpp],
    the packet that is built with [USE_SIMPLE_PACKET] or [USE_SLICED_PACKET]: a
    slice of pointers, one per protocol header, that are found on demand from the
    header below.

    The memory is a list of regions of bytes: the one buffer of a simple packet,
    or one region per header of a sliced packet.  A slot of the slice allocator
    holds whatever the packet before it left there, an argument here.  Reading or
    writing past a region is undefined behaviour: for the buffer it is what lies
    past the slot.  The allocator is in [Alloc]; tag buffer and flow key of the
    builds with [USE_PACKET_TAG] and [USE_PACKET_FLOW] are left out. *)

From S2P Require Export Packet.

(** ** Memory *)

Record ptr := Ptr { p_region : nat; p_off : Z }.

#[export] Instance ptr_eq_dec : EqDecision ptr.
Proof. solve_decision. Defined.

Notation memory := (list (list Z)).

Definition past_region : exn := undefined_behaviour "access outside a packet's memory".

(** [n] bytes at [o] from the pointer, as a number of the host. *)
Definition read (mem : memory) (q : ptr) (o : Z) (n : nat) : outcome Z :=
  match mem !! p_region q with
  | Some buf => if readable buf (p_off q + o) (Z.of_nat n) then Ret (load buf (p_off q + o) n) else Throw past_region
  | None => Throw past_region
  end.

#[local] Instance outcome_ret : MRet outcome := λ A, Ret.
#[local] Instance outcome_bind : MBind outcome := λ A B f o,
  match o with Ret a => f a | Throw e => Throw e end.

Definition read8 (mem : memory) (q : ptr) (o : Z) : outcome Z := read mem q o 1.
Definition read16 (mem : memory) (q : ptr) (o : Z) : outcome Z := v ← read mem q o 2; Ret (ntohs v).
Definition read32 (mem : memory) (q : ptr) (o : Z) : outcome Z := v ← read mem q o 4; Ret (ntohl v).

(** ** Headers *)

Inductive header := Ethernet | Ipv4 | Tcp | Udp | Icmp | Payload.

#[export] Instance header_eq_dec : EqDecision header.
Proof. solve_decision. Defined.

Definition ETHERTYPE_IP : Z := 0x0800.
Definition ETHERTYPE_VLAN : Z := 0x8100.
Definition IPPROTO_ICMP : Z := 1.
Definition IPPROTO_TCP : Z := 6.
Definition IPPROTO_UDP : Z := 17.

Definition ether_type_ (mem : memory) (q : ptr) : outcome Z := read16 mem q 12.
Definition ihl_ (mem : memory) (q : ptr) : outcome Z := b ← read8 mem q 0; Ret (Z.land b 0x0f).
Definition tos_ (mem : memory) (q : ptr) : outcome Z := read8 mem q 1.
Definition tot_len_ (mem : memory) (q : ptr) : outcome Z := read16 mem q 2.
Definition ttl_ (mem : memory) (q : ptr) : outcome Z := read8 mem q 8.
Definition protocol_ (mem : memory) (q : ptr) : outcome Z := read8 mem q 9.
(** The members [saddr] and [daddr], not converted. *)
Definition saddr (mem : memory) (q : ptr) : outcome Z := read mem q 12 4.
Definition daddr (mem : memory) (q : ptr) : outcome Z := read mem q 16 4.
Definition source_ (mem : memory) (q : ptr) : outcome Z := read16 mem q 0.
Definition dest_ (mem : memory) (q : ptr) : outcome Z := read16 mem q 2.
Definition seq_ (mem : memory) (q : ptr) : outcome Z := read32 mem q 4.
Definition ack_seq_ (mem : memory) (q : ptr) : outcome Z := read32 mem q 8.
Definition doff_ (mem : memory) (q : ptr) : outcome Z := b ← read8 mem q 12; Ret (Z.shiftr b 4).
Definition tcp_bit (bit : Z) (mem : memory) (q : ptr) : outcome Z := b ← read8 mem q 13; Ret (Z.land b bit).
Definition window_ (mem : memory) (q : ptr) : outcome Z := read16 mem q 14.
Definition urg_ptr_ (mem : memory) (q : ptr) : outcome Z := read16 mem q 18.
Definition udp_len_ (mem : memory) (q : ptr) : outcome Z := read16 mem q 4.

(** The [size_of] and [proto] members. *)
Definition size_of (mem : memory) (h : header) (q : ptr) : outcome Z :=
  match h with
  | Ethernet => t ← ether_type_ mem q; Ret (if t =? ETHERTYPE_VLAN then 18 else 14)
  | Ipv4 => i ← ihl_ mem q; Ret (Z.shiftl i 2)
  | Tcp => d ← doff_ mem q; Ret (Z.shiftl d 2)
  | Udp | Icmp => Ret 8
  | Payload => Ret 0
  end.

Definition proto (mem : memory) (h : header) (q : ptr) : outcome Z :=
  match h with
  | Ethernet => ether_type_ mem q
  | Ipv4 => protocol_ mem q
  | _ => Ret 0
  end.

(** [header_traits]: the protocols a header can follow, and its number there. *)
Definition parents (h : header) : list header :=
  match h with
  | Ethernet => []
  | Ipv4 => [Ethernet]
  | Tcp | Udp | Icmp => [Ipv4]
  | Payload => [Udp; Tcp; Icmp; Ipv4; Ethernet]
  end.

Definition trait_proto (h : header) : Z :=
  match h with
  | Ethernet | Payload => 0
  | Ipv4 => ETHERTYPE_IP
  | Tcp => IPPROTO_TCP
  | Udp => IPPROTO_UDP
  | Icmp => IPPROTO_ICMP
  end.

(** ** Slices *)

Inductive hptr := Undefined | Null | At (q : ptr).

Record slice := Slice { s_ethernet : hptr; s_ipv4 : hptr; s_tcp : hptr; s_udp : hptr; s_icmp : hptr; s_payload : hptr }.

Definition sget (h : header) (s : slice) : hptr :=
  match h with
  | Ethernet => s_ethernet s | Ipv4 => s_ipv4 s | Tcp => s_tcp s | Udp => s_udp s | Icmp => s_icmp s | Payload => s_payload s
  end.

Definition sset (h : header) (x : hptr) (s : slice) : slice :=
  match h with
  | Ethernet => Slice x (s_ipv4 s) (s_tcp s) (s_udp s) (s_icmp s) (s_payload s)
  | Ipv4 => Slice (s_ethernet s) x (s_tcp s) (s_udp s) (s_icmp s) (s_payload s)
  | Tcp => Slice (s_ethernet s) (s_ipv4 s) x (s_udp s) (s_icmp s) (s_payload s)
  | Udp => Slice (s_ethernet s) (s_ipv4 s) (s_tcp s) x (s_icmp s) (s_payload s)
  | Icmp => Slice (s_ethernet s) (s_ipv4 s) (s_tcp s) (s_udp s) x (s_payload s)
  | Payload => Slice (s_ethernet s) (s_ipv4 s) (s_tcp s) (s_udp s) (s_icmp s) x
  end.

Definition as_hptr (p : option ptr) : hptr := match p with Some q => At q | None => Null end.

Section get_header.
Context (mem : memory).

Definition lift {A} (o : outcome A) : M slice A := λ s, (o, s).

(** Does a header follow this parent? *)
Definition follows (h this_parent : header) (q : ptr) : outcome bool :=
  if trait_proto h =? 0 then Ret true else p ← proto mem this_parent q; Ret (p =? trait_proto h).

(** [get_parent]: the end of the first parent that is there and fits, by an
    operation that finds headers. *)
Fixpoint get_parent (find : header → M slice (option ptr)) (h : header) (ps : list header) : M slice (option ptr) :=
  match ps with
  | [] => mret None
  | this_parent :: ps =>
      p ← find this_parent;
      match p with
      | Some q =>
          b ← lift (follows h this_parent q);
          if b : bool then
            size ← lift (size_of mem this_parent q);
            mret (Some (Ptr (p_region q) (p_off q + size)))
          else get_parent find h ps
      | None => get_parent find h ps
      end
  end.

(** The recursion is over protocol layers, four of them. *)
Fixpoint get_header (layers : nat) (h : header) : M slice (option ptr) :=
  s ← gets id;
  match sget h s with
  | At q => mret (Some q)
  | Null => mret None
  | Undefined =>
      match layers with
      | O => throw (undefined_behaviour "more than four layers")
      | S layers =>
          par ← get_parent (get_header layers) h (parents h);
          modify (sset h (as_hptr par));;
          mret par
      end
  end.

Definition header_of (h : header) : M slice (option ptr) := get_header 3 h.
End get_header.

(** ** The packet *)

Module NewPacket.

Record new_packet := MkNewPacket {
  mem_ : memory; slice_ : slice; len_ : Z; caplen_ : Z; sec_ : Z; nsec_ : Z; flow_key_ : FlowKey
}.

Definition with_slice (s : slice) (p : new_packet) : new_packet :=
  MkNewPacket (mem_ p) s (len_ p) (caplen_ p) (sec_ p) (nsec_ p) (flow_key_ p).
Definition with_key (k : FlowKey) (p : new_packet) : new_packet :=
  MkNewPacket (mem_ p) (slice_ p) (len_ p) (caplen_ p) (sec_ p) (nsec_ p) k.

Definition kPktTypeIP6 : Z := 0x86FF.

(** A slice of the allocator, the object of class [NewPacket] in it constructed. *)
Definition no_key : FlowKey := MkFlowKey 0 0 0 0 0.

(** [std::min(net::payload::size_of(), raw_packet.len())] bytes are copied to the
    front of the buffer; [stale] is what the slot holds. *)
Definition SimplePacket (raw stale : list Z) (len caplen sec nsec : Z) : outcome new_packet :=
  if bool_decide (stale = []) then Throw (runtime_error "dynamic_buffer::size_of not set")
  else
    let n := Nat.min (length stale) (length raw) in
    Ret (MkNewPacket [take n raw ++ drop n stale]
      (Slice (At (Ptr 0 0)) Undefined Undefined Undefined Undefined Undefined) len caplen sec nsec no_key).

Definition get_header (h : header) : M new_packet (option ptr) := λ p,
  let '(r, s) := header_of (mem_ p) h (slice_ p) in (r, with_slice s p).

Definition null_pointer : exn := undefined_behaviour "null pointer".

Definition answer {A} (o : outcome A) : M new_packet A := λ p, (o, p).

(** [get_header<h>(slice_)->f()] *)
Definition field (h : header) (f : memory → ptr → outcome Z) : M new_packet Z :=
  q ← get_header h;
  p ← gets id;
  match q with
  | Some q => answer (f (mem_ p) q)
  | None => throw null_pointer
  end.

Definition iphdr : M new_packet (option ptr) := get_header Ipv4.
Definition payload : M new_packet (option ptr) := get_header Payload.

Definition l4hdr : M new_packet (option ptr) :=
  udp ← get_header Udp;
  match udp with Some q => mret (Some q) | None => get_header Tcp end.

Definition l3_protocol : M new_packet Z := field Ethernet ether_type_.
Definition l4_protocol : M new_packet Z := field Ipv4 protocol_.
Definition ip_tos : M new_packet Z := field Ipv4 tos_.
Definition ip_ttl : M new_packet Z := field Ipv4 ttl_.
Definition ip_src : M new_packet Z := field Ipv4 saddr.
Definition ip_dst : M new_packet Z := field Ipv4 daddr.
Definition ip_length : M new_packet Z := field Ipv4 tot_len_.
Definition ip_header_length : M new_packet Z := i ← field Ipv4 ihl_; mret (u8 (Z.shiftl i 2)).
Definition tcp_header_length : M new_packet Z := d ← field Tcp doff_; mret (u8 (Z.shiftl d 2)).
Definition tcp_seq : M new_packet Z := field Tcp seq_.
Definition tcp_win : M new_packet Z := field Tcp window_.
Definition udp_length : M new_packet Z := l ← field Udp udp_len_; mret (u16 l).

Definition is_ip_protocol (PROTO : Z) : M new_packet bool := p ← field Ipv4 protocol_; mret (p =? PROTO).

Definition is_tcp : M new_packet bool :=
  l3 ← l3_protocol;
  if negb (l3 =? kPktTypeIP4) then mret false else is_ip_protocol IPPROTO_TCP.
Definition is_udp : M new_packet bool :=
  l3 ← l3_protocol;
  if negb (l3 =? kPktTypeIP4) then mret false else is_ip_protocol IPPROTO_UDP.
Definition is_icmp : M new_packet bool := is_ip_protocol IPPROTO_ICMP.

(** [tcp_has_syn], [.._ack], [.._fin], [.._rst], [.._psh], [.._urg] by the bit. *)
Definition tcp_has (bit : Z) : M new_packet bool :=
  t ← is_tcp;
  if t : bool then b ← field Tcp (tcp_bit bit); mret (negb (b =? 0)) else mret false.

Definition tcp_ack : M new_packet (option Z) :=
  b ← field Tcp (tcp_bit kACK);
  if b =? 0 then mret None else v ← field Tcp ack_seq_; mret (Some v).

(** The result goes to a [uint8_t]. *)
Definition tcp_urg : M new_packet (option Z) :=
  b ← field Tcp (tcp_bit kURG);
  if b =? 0 then mret None else v ← field Tcp urg_ptr_; mret (Some (u8 v)).

Definition src_port : M new_packet Z :=
  u ← is_udp;
  if u : bool then field Udp source_
  else
    t ← is_tcp;
    if t : bool then field Tcp source_ else throw (runtime_error "NewPacket::src_port").

Definition dst_port : M new_packet Z :=
  u ← is_udp;
  if u : bool then field Udp dest_
  else
    t ← is_tcp;
    if t : bool then field Tcp dest_ else throw (runtime_error "NewPacket::dst_port").

(** All pointers are found first; [eth] is dereferenced in any case. *)
Definition payload_len : M new_packet Z :=
  eth ← get_header Ethernet;
  ip ← get_header Ipv4;
  udp ← get_header Udp;
  tcp ← get_header Tcp;
  icmp ← get_header Icmp;
  type ← field Ethernet ether_type_;
  if type =? kPktTypeIP4 then
    let rest (h : header) : M new_packet Z :=
      total ← field Ipv4 tot_len_;
      ipl ← field Ipv4 (λ m q, size_of m Ipv4 q);
      l4l ← field h (λ m q, size_of m h q);
      mret (u16 (total - ipl - l4l)) in
    t ← is_tcp;
    if t : bool then rest Tcp
    else
      u ← is_udp;
      if u : bool then rest Udp
      else
        i ← is_icmp;
        if i : bool then rest Icmp else mret 0
  else mret 0.

(** The members are assigned one by one: a throw leaves the earlier ones. *)
Definition assign (m : M new_packet Z) (f : Z → FlowKey → FlowKey) : M new_packet unit :=
  x ← m; modify (λ p : new_packet, with_key (f x (flow_key_ p)) p).

Definition key : M new_packet FlowKey :=
  p ← gets id;
  (if key_bool (flow_key_ p) then mret tt
   else
     assign ip_src (λ x k, MkFlowKey x (dst_ip4 k) (Flow.src_port k) (Flow.dst_port k) (Flow.proto k));;
     assign ip_dst (λ x k, MkFlowKey (src_ip4 k) x (Flow.src_port k) (Flow.dst_port k) (Flow.proto k));;
     assign src_port (λ x k, MkFlowKey (src_ip4 k) (dst_ip4 k) x (Flow.dst_port k) (Flow.proto k));;
     assign dst_port (λ x k, MkFlowKey (src_ip4 k) (dst_ip4 k) (Flow.src_port k) x (Flow.proto k));;
     assign l4_protocol (λ x k, MkFlowKey (src_ip4 k) (dst_ip4 k) (Flow.src_port k) (Flow.dst_port k) x));;
  gets flow_key_.

Definition length (p : new_packet) : Z := len_ p.
Definition caplen (p : new_packet) : Z := caplen_ p.
Definition timestamp_s (p : new_packet) : Z := sec_ p.
Definition timestamp_ms (p : new_packet) : Z := u64 (sec_ p * 1000 + nsec_ p / 1000000).
Definition timestamp_us (p : new_packet) : Z := u64 (sec_ p * 1000000 + nsec_ p / 1000).

(** ** Slicing

    Each header found in the raw packet is copied to a region of its own, of the
    size of its type without options. *)

Definition region_of (h : header) : nat :=
  match h with Ethernet => 0 | Ipv4 => 1 | Tcp => 2 | Udp => 3 | Icmp => 4 | Payload => 5 end%nat.

Definition sizes : list nat := [14; 20; 20; 8; 8]%nat.

Record build := Build { b_mem : memory; b_slice : slice; b_parser : slice; b_left : Z }.

(** [memcpy] of [n] bytes to the front of region [r]. *)
Definition copy_to (mem : memory) (r : nat) (raw : list Z) (q : ptr) (n : Z) : outcome memory :=
  match mem !! r with
  | Some buf =>
      if readable raw (p_off q) n && (n <=? Z.of_nat (List.length buf)) then
        Ret (<[r := take (Z.to_nat n) (drop (Z.to_nat (p_off q)) raw) ++ drop (Z.to_nat n) buf]> mem)
      else Throw past_region
  | None => Throw past_region
  end.

Definition set_null (h : header) (b : build) : build := Build (b_mem b) (sset h Null (b_slice b)) (b_parser b) (b_left b).

(** [len && get_header<h>(parser)] *)
Definition found (raw : list Z) (h : header) (b : build) : outcome (option ptr) * build :=
  if b_left b =? 0 then (Ret None, b)
  else let '(r, parser) := header_of [raw] h (b_parser b) in (r, Build (b_mem b) (b_slice b) parser (b_left b)).

(** One of the blocks [if (len && ..) { .. } else { get<h>(slice) = NULL; .. }]:
    whether the header was there, and the state. *)
Definition copy_header (raw : list Z) (h : header) (b : build) : outcome (bool * build) :=
  match found raw h b with
  | (Throw e, _) => Throw e
  | (Ret None, b) => Ret (false, set_null h b)
  | (Ret (Some q), b) =>
      this_len ← size_of [raw] h q;
      if this_len <=? b_left b then
        mem ← copy_to (b_mem b) (region_of h) raw q this_len;
        Ret (true, Build mem (b_slice b) (b_parser b) (b_left b - this_len))
      else Ret (true, Build (b_mem b) (b_slice b) (b_parser b) 0)
  end.

Definition copy_payload (raw : list Z) (b : build) : outcome build :=
  match found raw Payload b with
  | (Throw e, _) => Throw e
  | (Ret None, b) => Ret (set_null Payload b)
  | (Ret (Some q), b) =>
      mem ← copy_to (b_mem b) (region_of Payload) raw q (b_left b);
      Ret (Build mem (b_slice b) (b_parser b) (b_left b))
  end.

Definition all_regions : slice :=
  Slice (At (Ptr 0 0)) (At (Ptr 1 0)) (At (Ptr 2 0)) (At (Ptr 3 0)) (At (Ptr 4 0)) (At (Ptr 5 0)).

(** The headers of the transport layer. *)
Definition copy_l4 (raw : list Z) (b : build) : outcome build :=
  '(is_tcp, b) ← copy_header raw Tcp b;
  if is_tcp : bool then Ret b
  else
    '(is_udp, b) ← copy_header raw Udp b;
    if is_udp : bool then Ret b else '(_, b) ← copy_header raw Icmp b; Ret b.

(** [stale] are the regions of the slot, the last one of [net::payload::size_of()] bytes. *)
Definition SlicedPacket (raw : list Z) (stale : memory) (len caplen sec nsec : Z) : outcome new_packet :=
  let size := Z.of_nat (List.length (default [] (stale !! 5%nat))) in
  if size =? 0 then Throw (runtime_error "dynamic_buffer::size_of not set")
  else
    let b := Build stale all_regions (Slice (At (Ptr 0 0)) Undefined Undefined Undefined Undefined Undefined)
      (Z.min size (Z.of_nat (List.length raw))) in
    '(_, b) ← copy_header raw Ethernet b;
    '(_, b) ← copy_header raw Ipv4 b;
    b ← copy_l4 raw b;
    b ← copy_payload raw b;
    Ret (MkNewPacket (b_mem b) (b_slice b) len caplen sec nsec no_key).
End NewPacket.

(** ** Headers are found once *)

Section finding.
Context (mem : memory) (e : ptr).

(** Where a header is, by looking for it each time. *)
Fixpoint find_parent (find : header → outcome (option ptr)) (h : header) (ps : list header) : outcome (option ptr) :=
  match ps with
  | [] => Ret None
  | this_parent :: ps =>
      p ← find this_parent;
      match p with
      | Some q =>
          b ← follows mem h this_parent q;
          if b : bool then
            size ← size_of mem this_parent q;
            Ret (Some (Ptr (p_region q) (p_off q + size)))
          else find_parent find h ps
      | None => find_parent find h ps
      end
  end.

Fixpoint locate_in (layers : nat) (h : header) : outcome (option ptr) :=
  match h, layers with
  | Ethernet, _ => Ret (Some e)
  | _, O => Ret None
  | _, S layers => find_parent (locate_in layers) h (parents h)
  end.

Definition locate (h : header) : outcome (option ptr) := locate_in 3 h.

Definition layer (h : header) : nat := match h with Ethernet => 0 | Ipv4 => 1 | Payload => 3 | _ => 2 end.

Definition as_option (x : hptr) : option ptr := match x with At q => Some q | _ => None end.

(** What has been found is what would be found. *)
Definition slice_ok (s : slice) : Prop :=
  sget Ethernet s = At e ∧ ∀ h, sget h s = Undefined ∨ locate h = Ret (as_option (sget h s)).

Lemma find_parent_ext f g h ps : (∀ p, p ∈ ps → f p = g p) → find_parent f h ps = find_parent g h ps.
Proof.
  intros E. induction ps as [|p ps IH]; [done|]. cbn [find_parent]. rewrite (E p) by by left.
  destruct (g p) as [[q|]|]; cbn [mbind outcome_bind]; [|apply IH; intros; apply E; by right|done].
  destruct (follows mem h p q) as [[]|]; cbn [mbind outcome_bind]; [done|apply IH; intros; apply E; by right|done].
Qed.

Lemma parents_below h p : p ∈ parents h → (layer p < layer h)%nat.
Proof. destruct h; cbn; set_unfold; intros Hp; repeat destruct Hp as [Hp|Hp]; subst; cbn; (lia || done). Qed.

Lemma locate_layers n m h : (layer h ≤ n)%nat → (layer h ≤ m)%nat → locate_in n h = locate_in m h.
Proof.
  revert m h. induction n as [|n IH]; intros m h Hn Hm.
  - destruct h; cbn in Hn; try lia. by destruct m.
  - destruct h; [by destruct m| | | | |]; (destruct m as [|m]; [cbn in Hm; lia|]); cbn [locate_in];
      apply find_parent_ext; intros p Hp%parents_below; cbn in Hn, Hm, Hp; apply IH; lia.
Qed.

Lemma locate_step n h : h ≠ Ethernet → (layer h ≤ S n)%nat → locate h = find_parent (locate_in n) h (parents h).
Proof. intros Hh Hn. unfold locate. rewrite (locate_layers 3 (S n)); [by destruct h|by destruct h; cbn; lia|done]. Qed.

Lemma sget_sset h k x s : sget k (sset h x s) = if decide (k = h) then x else sget k s.
Proof. by destruct h, k. Qed.

Lemma as_option_hptr p : as_option (as_hptr p) = p.
Proof. by destruct p. Qed.

Lemma get_parent_spec (find : header → M slice (option ptr)) (f : header → outcome (option ptr)) h ps s :
  slice_ok s → (∀ p t, p ∈ ps → slice_ok t → ∃ t', find p t = (f p, t') ∧ slice_ok t') →
  ∃ s', get_parent mem find h ps s = (find_parent f h ps, s') ∧ slice_ok s'.
Proof.
  revert s. induction ps as [|p ps IH]; intros s Hs Hfind; cbn [get_parent find_parent]; [by exists s|].
  destruct (Hfind p s) as (t & E & Ht); [by left|done|].
  assert (∃ s', get_parent mem find h ps t = (find_parent f h ps, s') ∧ slice_ok s') as (s' & E' & Hs').
  { apply IH; [done|]. intros; apply Hfind; [by right|done]. }
  unfold mbind at 1, M_bind at 1. rewrite E. destruct (f p) as [[q|]|]; cbn [mbind outcome_bind]; [|by exists s'|by exists t].
  unfold lift. unfold mbind at 1, M_bind at 1. destruct (follows mem h p q) as [[]|]; [|by exists s'|by exists t].
  unfold mbind, M_bind. cbn [outcome_bind]. destruct (size_of mem p q); by exists t.
Qed.

Lemma get_header_spec n h s :
  slice_ok s → (layer h ≤ n)%nat → ∃ s', get_header mem n h s = (locate h, s') ∧ slice_ok s'.
Proof.
  revert h s. induction n as [|n IH]; intros h s Hs Hn; cbn [get_header]; rewrite (bind_Ret (gets id) _ s s s eq_refl);
    destruct Hs as [He Hall]; pose proof (Hall h) as Hh; destruct (sget h s) as [| |q] eqn:E.
  all: try (destruct Hh as [Hh|Hh]; [done|]; rewrite Hh; by exists s).
  - destruct h; cbn in Hn; try lia. by rewrite He in E.
  - destruct (get_parent_spec (get_header mem n) (locate_in n) h (parents h) s) as (t & Et & Ht); [done| |].
    { intros p t Hp%parents_below Ht. destruct (IH p t Ht) as (t' & Et & Ht'); [lia|]. exists t'. split; [|done]. rewrite Et.
      unfold locate. f_equal. apply locate_layers; destruct p; cbn in *; lia. }
    assert (h ≠ Ethernet) as Hne by (intros ->; by rewrite He in E).
    unfold mbind, M_bind. rewrite Et, <- (locate_step n h Hne Hn). destruct (locate h) as [par|] eqn:El; [|by exists t].
    unfold modify. eexists. split; [reflexivity|]. destruct Ht as [He' Hall']. split.
    + rewrite sget_sset. by rewrite decide_False by by intros <-.
    + intros k. rewrite sget_sset. case_decide as Ek; [subst k; right; by rewrite as_option_hptr|apply Hall'].
Qed.

Lemma header_of_spec h s : slice_ok s → ∃ s', header_of mem h s = (locate h, s') ∧ slice_ok s'.
Proof. intros Hs. apply get_header_spec; [done|by destruct h; cbn; lia]. Qed.
End finding.

Fixpoint request_all (mem : memory) (hs : list header) (s : slice) : list (outcome (option ptr)) * slice :=
  match hs with
  | [] => ([], s)
  | h :: hs => let '(r, s) := header_of mem h s in let '(rs, s) := request_all mem hs s in (r :: rs, s)
  end.

Definition fresh_slice (e : ptr) : slice := Slice (At e) Undefined Undefined Undefined Undefined Undefined.

Lemma fresh_slice_ok mem e : slice_ok mem e (fresh_slice e).
Proof. split; [done|]. intros h. destruct h; [right|left..]; done. Qed.

Lemma request_all_spec mem e hs s :
  slice_ok mem e s → ∃ s', request_all mem hs s = (locate mem e <$> hs, s') ∧ slice_ok mem e s'.
Proof.
  revert s. induction hs as [|h hs IH]; intros s Hs; cbn [request_all fmap list_fmap]; [by exists s|].
  destruct (header_of_spec mem e h s Hs) as (s1 & -> & Hs1). destruct (IH s1 Hs1) as (s2 & E & Hs2). cbn in E |- *.
  rewrite E. by exists s2.
Qed.

(** C13: the pointers of a packet are found on demand and kept; whatever headers
    were asked for before and in whatever order, each request answers what a search
    from the Ethernet header upwards would find: where the header is, that there is
    none, or that the search reads outside the packet. *)
Theorem headers_found_once mem e hs1 hs2 h :
  let '(rs, s) := request_all mem (hs1 ++ h :: hs2) (fresh_slice e) in
  rs = locate mem e <$> hs1 ++ h :: hs2 ∧ rs !! length hs1 = Some (header_of mem h s).1.
Proof.
  destruct (request_all_spec mem e (hs1 ++ h :: hs2) _ (fresh_slice_ok mem e)) as (s & -> & Hs). split; [done|].
  destruct (header_of_spec mem e h s Hs) as (s' & -> & _). cbn [fst].
  by rewrite list_lookup_fmap, list_lookup_middle.
Qed.

(** ** Accessors

    What an accessor answers in any state of a packet with this memory. *)

(** A way to find the headers of a packet that keeps an invariant of its slice. *)
Record finder (mem : memory) := Finder {
  inv : slice → Prop;
  find : header → outcome (option ptr);
  find_ok h s : inv s → ∃ s', header_of mem h s = (find h, s') ∧ inv s'
}.
Arguments Finder {mem} _ _ _.
Arguments inv {mem} _ _.
Arguments find {mem} _ _.
Arguments find_ok {mem} _ _ _ _.

Definition searching (mem : memory) (e : ptr) : finder mem := Finder (slice_ok mem e) (locate mem e) (header_of_spec mem e).

(** A slice with all its headers known. *)
Definition known (s : slice) : Prop := ∀ h, sget h s ≠ Undefined.

Lemma known_spec mem s h t : known s ∧ t = s → ∃ s', header_of mem h t = (Ret (as_option (sget h s)), s') ∧ known s ∧ s' = s.
Proof.
  intros [Hs ->]. exists s. split; [|done]. unfold header_of. cbn [get_header]. rewrite (bind_Ret (gets id) _ s s s eq_refl).
  cbv beta. pose proof (Hs h). by destruct (sget h s).
Qed.

Definition sliced (mem : memory) (s : slice) : finder mem :=
  Finder (λ t, known s ∧ t = s) (λ h, Ret (as_option (sget h s))) (known_spec mem s).

Section answers.
Import NewPacket.
Context {mem : memory} (F : finder mem).

Definition packet_ok (p : new_packet) : Prop := mem_ p = mem ∧ inv F (slice_ p).

Definition answers {A} (m : M new_packet A) (r : outcome A) : Prop :=
  ∀ p, packet_ok p → ∃ s, m p = (r, with_slice s p) ∧ inv F s.

Lemma with_slice_ok s p : packet_ok p → inv F s → packet_ok (with_slice s p).
Proof. intros [] ?. done. Qed.

Lemma answers_here {A} (m : M new_packet A) r : (∀ p, m p = (r, p)) → answers m r.
Proof. intros E p Hp. exists (slice_ p). split; [rewrite E; by destruct p|apply Hp]. Qed.

Lemma answers_ret {A} (x : A) : answers (mret x) (Ret x).
Proof. by apply answers_here. Qed.

Lemma answers_throw {A} x : answers (@throw _ A x) (Throw x).
Proof. by apply answers_here. Qed.

Lemma answers_bind {A B} (m : M new_packet A) (x : A) (f : A → M new_packet B) r :
  answers m (Ret x) → answers (f x) r → answers (m ≫= f) r.
Proof.
  intros Hm Hf p Hp. destruct (Hm p Hp) as (s & E & Hs). rewrite (bind_Ret m f _ x _ E).
  destruct (Hf (with_slice s p)) as (t & E' & Ht); [by apply with_slice_ok|]. exists t. by rewrite E'.
Qed.

Lemma answers_bind_throw {A B} (m : M new_packet A) x (f : A → M new_packet B) :
  answers m (Throw x) → answers (m ≫= f) (Throw x).
Proof. intros Hm p Hp. destruct (Hm p Hp) as (s & E & Hs). exists s. split; [|done]. unfold mbind, M_bind. by rewrite E. Qed.

Lemma answers_header h : answers (get_header h) (find F h).
Proof.
  intros p [Em Hs]. unfold get_header. rewrite Em. destruct (find_ok F h _ Hs) as (s & -> & Hs'). by exists s.
Qed.

Lemma answers_find h r : find F h = r → answers (get_header h) r.
Proof. intros <-. apply answers_header. Qed.

Lemma answers_field h f q v : find F h = Ret (Some q) → f mem q = v → answers (field h f) v.
Proof.
  intros E <-. unfold field. eapply answers_bind; [rewrite <- E; apply answers_header|]. intros p Hp.
  rewrite (bind_Ret (gets id) _ p p p eq_refl). exists (slice_ p). destruct Hp as [Em Hs]. split; [|done]. cbv beta.
  unfold answer. rewrite Em. by destruct p.
Qed.

Lemma answers_no_field h f : find F h = Ret None → answers (field h f) (Throw null_pointer).
Proof.
  intros E. unfold field. eapply answers_bind; [rewrite <- E; apply answers_header|]. by apply answers_here.
Qed.

Lemma answers_run {A} (m : M new_packet A) r p : answers m r → packet_ok p → (m p).1 = r.
Proof. intros Hm Hp. by destruct (Hm p Hp) as (s & -> & _). Qed.

(** *** An IPv4 packet with ports *)

Definition l4_header (w : ip_view) : header := if w_proto w =? IPPROTO_UDP then Udp else Tcp.

(** The three headers are at these places and have these fields. *)
Record shows (w : ip_view) (sp dp : Z) (e i l : ptr) : Prop := Shows {
  shows_type : ether_type_ mem e = Ret kPktTypeIP4;
  shows_ihl : ihl_ mem i = Ret (5 + Z.of_nat (List.length (w_options w)) / 4);
  shows_tos : tos_ mem i = Ret (w_tos w);
  shows_len : tot_len_ mem i = Ret (w_len w);
  shows_ttl : ttl_ mem i = Ret (w_ttl w);
  shows_proto : protocol_ mem i = Ret (w_proto w);
  shows_src : saddr mem i = Ret (htonl (w_src w));
  shows_dst : daddr mem i = Ret (htonl (w_dst w));
  shows_sport : source_ mem l = Ret sp;
  shows_dport : dest_ mem l = Ret dp
}.

Context (w : ip_view) (sp dp : Z) (e i l : ptr).
Context (Hshows : shows w sp dp e i l) (Hw : ip_view_ok w) (Hproto : w_proto w = IPPROTO_TCP ∨ w_proto w = IPPROTO_UDP).
Context (He : find F Ethernet = Ret (Some e)) (Hi : find F Ipv4 = Ret (Some i)) (Hl : find F (l4_header w) = Ret (Some l)).

Lemma answers_l3 : answers l3_protocol (Ret kPktTypeIP4).
Proof. apply (answers_field _ _ e); [done|apply Hshows]. Qed.

Lemma answers_ip {f : memory → ptr → outcome Z} {v} : f mem i = Ret v → answers (field Ipv4 f) (Ret v).
Proof. by apply answers_field. Qed.

Lemma answers_is PROTO : answers (is_ip_protocol PROTO) (Ret (w_proto w =? PROTO)).
Proof. eapply answers_bind; [apply answers_ip, Hshows|apply answers_ret]. Qed.

Lemma answers_is_udp : answers is_udp (Ret (w_proto w =? IPPROTO_UDP)).
Proof. eapply answers_bind; [apply answers_l3|]. cbn [negb]. rewrite Z.eqb_refl. apply answers_is. Qed.

Lemma answers_is_tcp : answers is_tcp (Ret (w_proto w =? IPPROTO_TCP)).
Proof. eapply answers_bind; [apply answers_l3|]. cbn [negb]. rewrite Z.eqb_refl. apply answers_is. Qed.

Lemma answers_ports f v x : f mem l = Ret v →
  answers (u ← is_udp; if u : bool then field Udp f else t ← is_tcp; if t : bool then field Tcp f else throw x) (Ret v).
Proof.
  intros Ef. eapply answers_bind; [apply answers_is_udp|]. cbv beta. pose proof Hl as Hl'. unfold l4_header in Hl'.
  destruct (w_proto w =? IPPROTO_UDP) eqn:Eu; [by apply (answers_field _ _ l)|].
  eapply answers_bind; [apply answers_is_tcp|]. cbv beta.
  replace (w_proto w =? IPPROTO_TCP) with true; [by apply (answers_field _ _ l)|].
  by destruct Hproto as [E|E]; rewrite E in Eu |- *.
Qed.

Lemma answers_header_length : answers ip_header_length (Ret (20 + Z.of_nat (List.length (w_options w)))).
Proof.
  eapply answers_bind; [apply answers_ip, Hshows|]. destruct Hw as (_ & _ & _ & n & Hn & ->).
  replace (u8 _) with (20 + Z.of_nat (4 * n)); [apply answers_ret|].
  replace (Z.of_nat (4 * n)) with (Z.of_nat n * 4) by lia. rewrite Z.div_mul by lia.
  do 11 (destruct n as [|n]; [reflexivity|]). lia.
Qed.

Lemma with_key_ok k p : packet_ok p → packet_ok (with_key k p).
Proof. by intros []. Qed.

Lemma assign_spec m f v p : answers m (Ret v) → packet_ok p →
  ∃ q, assign m f p = (Ret tt, q) ∧ packet_ok q ∧ flow_key_ q = f v (flow_key_ p).
Proof.
  intros Hm Hp. destruct (Hm p Hp) as (s & E & Hs). eexists. unfold assign. rewrite (bind_Ret m _ _ v _ E).
  split; [reflexivity|]. split; [|done]. by apply with_key_ok, with_slice_ok.
Qed.

Lemma answers_key p : packet_ok p → key_bool (flow_key_ p) = false →
  (key p).1 = Ret (MkFlowKey (htonl (w_src w)) (htonl (w_dst w)) sp dp (w_proto w)).
Proof.
  intros Hp Hkey. unfold key. rewrite (bind_Ret (gets id) _ p p p eq_refl). cbv beta. rewrite Hkey.
  destruct (assign_spec ip_src (λ x k, MkFlowKey x (dst_ip4 k) (Flow.src_port k) (Flow.dst_port k) (Flow.proto k))
    _ p (answers_ip (shows_src _ _ _ _ _ _ Hshows)) Hp) as (q & E & Hq & K).
  destruct (assign_spec ip_dst (λ x k, MkFlowKey (src_ip4 k) x (Flow.src_port k) (Flow.dst_port k) (Flow.proto k))
    _ q (answers_ip (shows_dst _ _ _ _ _ _ Hshows)) Hq) as (q1 & E1 & Hq1 & K1).
  destruct (assign_spec src_port (λ x k, MkFlowKey (src_ip4 k) (dst_ip4 k) x (Flow.dst_port k) (Flow.proto k))
    _ q1 (answers_ports _ _ _ (shows_sport _ _ _ _ _ _ Hshows)) Hq1) as (q2 & E2 & Hq2 & K2).
  destruct (assign_spec dst_port (λ x k, MkFlowKey (src_ip4 k) (dst_ip4 k) (Flow.src_port k) x (Flow.proto k))
    _ q2 (answers_ports _ _ _ (shows_dport _ _ _ _ _ _ Hshows)) Hq2) as (q3 & E3 & Hq3 & K3).
  destruct (assign_spec l4_protocol (λ x k, MkFlowKey (src_ip4 k) (dst_ip4 k) (Flow.src_port k) (Flow.dst_port k) x)
    _ q3 (answers_ip (shows_proto _ _ _ _ _ _ Hshows)) Hq3) as (q4 & E4 & Hq4 & K4).
  erewrite bind_Ret; [|erewrite (bind_Ret _ _ _ _ _ E), (bind_Ret _ _ _ _ _ E1), (bind_Ret _ _ _ _ _ E2), (bind_Ret _ _ _ _ _ E3);
    exact E4].
  cbn. by rewrite K4, K3, K2, K1, K.
Qed.

(** What the accessors answer about such a packet. *)
Definition decoded : list (M new_packet Z * Z) :=
  [(l3_protocol, kPktTypeIP4); (l4_protocol, w_proto w); (ip_tos, w_tos w); (ip_ttl, w_ttl w); (ip_length, w_len w);
   (ip_header_length, 20 + Z.of_nat (List.length (w_options w))); (ip_src, htonl (w_src w)); (ip_dst, htonl (w_dst w));
   (src_port, sp); (dst_port, dp)].

Lemma answers_decoded : Forall (λ '(m, v), answers m (Ret v)) decoded.
Proof.
  repeat constructor.
  all: first [apply answers_l3|apply answers_header_length|by apply answers_ports, Hshows|apply answers_ip, Hshows].
Qed.
End answers.

Arguments shows : clear implicits.
Arguments shows_type {mem w sp dp e i l} _.
Arguments shows_ihl {mem w sp dp e i l} _.
Arguments shows_proto {mem w sp dp e i l} _.

(** *** Reading the bytes of a frame *)

(** A field at [d] bytes from a pointer to byte [o] of region [r]. *)
Lemma read_at mem r o d n buf pre bs post :
  mem !! r = Some buf → buf = pre ++ bs ++ post → o + d = Z.of_nat (List.length pre) → List.length bs = n →
  read mem (Ptr r o) d n = Ret (le_value bs).
Proof.
  intros Er E Eo En. unfold read. cbn [p_region p_off]. rewrite Er, (load_at buf _ n pre bs post E Eo En).
  unfold readable. rewrite E, !length_app, En. do 2 rewrite (proj2 (Z.leb_le _ _)) by lia. done.
Qed.

Lemma read8_at mem r o d buf pre v post :
  mem !! r = Some buf → buf = pre ++ [v] ++ post → o + d = Z.of_nat (List.length pre) → read8 mem (Ptr r o) d = Ret v.
Proof. intros Er E Eo. unfold read8. rewrite (read_at _ _ _ _ 1 _ _ _ _ Er E Eo eq_refl). cbn. f_equal. lia. Qed.

Lemma read16_at mem r o d buf pre v post :
  mem !! r = Some buf → buf = pre ++ be 2 v ++ post → o + d = Z.of_nat (List.length pre) → 0 ≤ v < 2 ^ 16 →
  read16 mem (Ptr r o) d = Ret v.
Proof.
  intros Er E Eo Hv. unfold read16. rewrite (read_at _ _ _ _ 2 _ _ _ _ Er E Eo (length_be _ _)). cbn [mbind outcome_bind].
  unfold ntohs. rewrite bswap_be. f_equal. by apply Z.mod_small.
Qed.
(** The fields of an IPv4 header. *)
Lemma ip_at mem r o buf pre w tail :
  mem !! r = Some buf → buf = pre ++ ip_header_bytes w ++ tail → o = Z.of_nat (length pre) → ip_view_ok w →
  let i := Ptr r o in
  ihl_ mem i = Ret (5 + Z.of_nat (length (w_options w)) / 4) ∧ tos_ mem i = Ret (w_tos w) ∧ tot_len_ mem i = Ret (w_len w) ∧
  ttl_ mem i = Ret (w_ttl w) ∧ protocol_ mem i = Ret (w_proto w) ∧ saddr mem i = Ret (htonl (w_src w)) ∧
  daddr mem i = Ret (htonl (w_dst w)).
Proof.
  intros Er E -> (Hlen & _ & _ & n & Hn & Hopt). cbv zeta. unfold ip_header_bytes in E. repeat split.
  - unfold ihl_. erewrite (read8_at _ _ _ 0 _ pre); [|done|by rewrite E, <- !app_assoc|lia]. cbn [mbind outcome_bind].
    rewrite Hopt. replace (Z.of_nat (4 * n)) with (Z.of_nat n * 4) by lia. rewrite Z.div_mul by lia.
    do 11 (destruct n as [|n]; [reflexivity|]). lia.
  - eapply (read8_at _ _ _ 1 _ (pre ++ [_])); [done|by rewrite E, <- !app_assoc|rewrite length_app; cbn; lia].
  - eapply (read16_at _ _ _ 2 _ (pre ++ [_] ++ [_])); [done|by rewrite E, <- !app_assoc|rewrite !length_app; cbn; lia|done].
  - eapply (read8_at _ _ _ 8 _ (pre ++ [_] ++ [_] ++ be 2 _ ++ be 2 _ ++ be 2 _));
      [done|by rewrite E, <- !app_assoc|rewrite !length_app, !length_be; cbn; lia].
  - eapply (read8_at _ _ _ 9 _ (pre ++ [_] ++ [_] ++ be 2 _ ++ be 2 _ ++ be 2 _ ++ [_]));
      [done|by rewrite E, <- !app_assoc|rewrite !length_app, !length_be; cbn; lia].
  - eapply (read_at _ _ _ 12 4 _ (pre ++ [_] ++ [_] ++ be 2 _ ++ be 2 _ ++ be 2 _ ++ [_] ++ [_] ++ be 2 _) (be 4 _));
      [done|by rewrite E, <- !app_assoc|rewrite !length_app, !length_be; cbn; lia|done].
  - eapply (read_at _ _ _ 16 4 _ (pre ++ [_] ++ [_] ++ be 2 _ ++ be 2 _ ++ be 2 _ ++ [_] ++ [_] ++ be 2 _ ++ be 4 _) (be 4 _));
      [done|by rewrite E, <- !app_assoc|rewrite !length_app, !length_be; cbn; lia|done].
Qed.

(** The ports at the front of a TCP or UDP header. *)
Lemma ports_at mem r o buf pre sp dp tail :
  mem !! r = Some buf → buf = pre ++ be 2 sp ++ be 2 dp ++ tail → o = Z.of_nat (length pre) →
  0 ≤ sp < 2 ^ 16 → 0 ≤ dp < 2 ^ 16 → source_ mem (Ptr r o) = Ret sp ∧ dest_ mem (Ptr r o) = Ret dp.
Proof.
  intros Er E -> Hsp Hdp. split.
  - eapply (read16_at _ _ _ 0 _ pre); [done|done|lia|done].
  - eapply (read16_at _ _ _ 2 _ (pre ++ be 2 _)); [done|by rewrite E, <- !app_assoc|rewrite length_app, length_be; lia|done].
Qed.

(** The type of an Ethernet header. *)
Lemma type_at mem r buf macs t tail :
  mem !! r = Some buf → buf = macs ++ be 2 t ++ tail → length macs = 12%nat → 0 ≤ t < 2 ^ 16 →
  ether_type_ mem (Ptr r 0) = Ret t.
Proof. intros Er E Hm Ht. eapply (read16_at _ _ _ 12 _ macs); [done|done|lia|done]. Qed.

(** *** A packet in one buffer *)

Section simple.
Context (macs : list Z) (w : ip_view) (sp dp : Z) (rest : list Z).
Context (Hmacs : length macs = 12%nat) (Hw : ip_view_ok w) (Hsp : 0 ≤ sp < 2 ^ 16) (Hdp : 0 ≤ dp < 2 ^ 16).
Context (Hproto : w_proto w = IPPROTO_TCP ∨ w_proto w = IPPROTO_UDP).

Let buf := frame macs [] w sp dp rest.
Let hl := 20 + Z.of_nat (length (w_options w)).
Let e := Ptr 0 0.
Let i := Ptr 0 14.
Let l := Ptr 0 (14 + hl).

Lemma frame_shows : shows [buf] w sp dp e i l.
Proof.
  pose proof (length_ip_header w) as Eih.
  pose proof (ip_at [buf] 0 14 buf (macs ++ be 2 kPktTypeIP4) w (be 2 sp ++ be 2 dp ++ rest) eq_refl
    ltac:(unfold buf, frame; by rewrite <- !app_assoc) ltac:(rewrite length_app, length_be; lia) Hw) as Hip.
  pose proof (ports_at [buf] 0 (14 + hl) buf (macs ++ be 2 kPktTypeIP4 ++ ip_header_bytes w) sp dp rest eq_refl
    ltac:(unfold buf, frame; by rewrite <- !app_assoc) ltac:(rewrite !length_app, length_be; lia) Hsp Hdp) as Hports.
  split; [|apply Hip..|apply Hports|apply Hports].
  eapply (type_at [buf] 0 buf macs); [done|done|done|done].
Qed.

Lemma locate_ipv4 : locate [buf] e Ipv4 = Ret (Some i).
Proof.
  unfold locate. cbn [locate_in find_parent parents mbind outcome_bind]. unfold follows. cbn [trait_proto Z.eqb ETHERTYPE_IP proto size_of].
  by rewrite (shows_type frame_shows).
Qed.

Lemma locate_over_ipv4 h : parents h = [Ipv4] →
  locate [buf] e h = Ret (if w_proto w =? trait_proto h then Some l else None).
Proof.
  intros Ep. rewrite (locate_step [buf] e 1 h) by (destruct h; cbn in Ep |- *; congruence || lia). rewrite Ep. cbn [find_parent].
  rewrite (locate_layers [buf] e 1 3) by (cbn; lia). change (locate_in [buf] e 3 Ipv4) with (locate [buf] e Ipv4). rewrite locate_ipv4.
  cbn [mbind outcome_bind]. unfold follows. replace (trait_proto h =? 0) with false by (by destruct h). cbn [proto size_of].
  rewrite (shows_proto frame_shows). cbn [mbind outcome_bind]. destruct (w_proto w =? trait_proto h); [|done].
  rewrite (shows_ihl frame_shows). cbn [mbind outcome_bind p_region p_off i].
  do 3 f_equal. unfold l. f_equal. destruct Hw as (_ & _ & _ & n & Hn & E). rewrite Z.shiftl_mul_pow2 by lia. unfold hl. rewrite E.
  replace (Z.of_nat (4 * n)) with (Z.of_nat n * 4) by lia. rewrite Z.div_mul by lia. lia.
Qed.

Lemma locate_l4 : locate [buf] e (l4_header w) = Ret (Some l).
Proof.
  unfold l4_header. destruct (w_proto w =? IPPROTO_UDP) eqn:E; rewrite locate_over_ipv4 by done; cbn [trait_proto].
  - by rewrite E.
  - by destruct Hproto as [-> |E']; [|rewrite E' in E].
Qed.
End simple.

Lemma frame_app macs tags w sp dp rest more : frame macs tags w sp dp rest ++ more = frame macs tags w sp dp (rest ++ more).
Proof. unfold frame. by rewrite <- !app_assoc. Qed.

Lemma buffer_of {A} (raw stale : list A) : (length raw ≤ length stale)%nat →
  let n := Nat.min (length stale) (length raw) in take n raw ++ drop n stale = raw ++ drop (length raw) stale.
Proof. intros H n. replace n with (length raw) by lia. by rewrite take_ge. Qed.

(** The packet after some headers were asked for. *)
Definition after_requests (hs : list header) (p : NewPacket.new_packet) : NewPacket.new_packet :=
  NewPacket.with_slice (request_all (NewPacket.mem_ p) hs (NewPacket.slice_ p)).2 p.

Lemma after_no_requests p : after_requests [] p = p.
Proof. by destruct p. Qed.

(** A packet copied to one buffer that is large enough, an Ethernet frame
    without 802.1q tag that holds TCP or UDP over IPv4 with any options, is decoded
    by [NewPacket] to the fields it was built from, whatever the slot held before and
    whatever headers were asked for before; but the addresses, in the flow key too,
    are in network order, which a [Packet] converts. *)
Theorem simple_packet_decodes macs w sp dp rest stale len caplen sec nsec :
  let raw := frame macs [] w sp dp rest in
  let hl := 20 + Z.of_nat (length (w_options w)) in
  length macs = 12%nat → ip_view_ok w → w_proto w = IPPROTO_TCP ∨ w_proto w = IPPROTO_UDP →
  0 ≤ sp < 2 ^ 16 → 0 ≤ dp < 2 ^ 16 → (length raw ≤ length stale)%nat →
  ∃ p, NewPacket.SimplePacket raw stale len caplen sec nsec = Ret p ∧ ∀ hs,
    let q := after_requests hs p in
    Forall (λ '(m, v), (m q).1 = Ret v) (decoded w sp dp) ∧
    (NewPacket.iphdr q).1 = Ret (Some (Ptr 0 14)) ∧
    (NewPacket.get_header (l4_header w) q).1 = Ret (Some (Ptr 0 (14 + hl))) ∧
    (NewPacket.key q).1 = Ret (MkFlowKey (htonl (w_src w)) (htonl (w_dst w)) sp dp (w_proto w)).
Proof.
  intros raw hl Hmacs Hw Hproto Hsp Hdp Hlen. unfold NewPacket.SimplePacket.
  rewrite bool_decide_eq_false_2. 2:{ intros ->. unfold raw, frame in Hlen. rewrite !length_app in Hlen. cbn in Hlen. lia. }
  rewrite buffer_of by done. unfold raw at 1. rewrite frame_app. set (rest' := rest ++ _).
  eexists. split; [reflexivity|].
  intros hs. match goal with |- Forall (λ _, _) _ ∧ (NewPacket.iphdr ?x).1 = _ ∧ _ => set (q := x) end.
  set (buf := frame macs [] w sp dp rest') in *. set (F := searching [buf] (Ptr 0 0)).
  pose proof (frame_shows macs w sp dp rest' Hmacs Hw Hsp Hdp) as Hshows.
  pose proof (locate_ipv4 macs w sp dp rest' Hmacs Hw Hsp Hdp) as Hi.
  pose proof (locate_l4 macs w sp dp rest' Hmacs Hw Hsp Hdp Hproto) as Hl.
  assert (packet_ok F q) as Hq.
  { split; [done|]. destruct (request_all_spec [buf] (Ptr 0 0) hs _ (fresh_slice_ok _ _)) as (s & E & Hs).
    unfold q, after_requests. cbn [NewPacket.mem_ NewPacket.slice_ NewPacket.with_slice]. change (Slice _ _ _ _ _ _) with (fresh_slice (Ptr 0 0)).
    by rewrite E. }
  repeat split.
  - eapply Forall_impl; [by apply (answers_decoded F w sp dp (Ptr 0 0) (Ptr 0 14) _ Hshows)|].
    intros [m v] Hm. by apply (answers_run F).
  - apply (answers_run F); [|done]. by apply answers_find.
  - apply (answers_run F); [|done]. by apply answers_find.
  - by apply (answers_key F w sp dp (Ptr 0 0) (Ptr 0 14) _ Hshows).
Qed.

(** *** 802.1q tags *)

Section tagged.
Context (macs : list Z) (tag : Z) (tags : list Z) (w : ip_view) (sp dp : Z) (rest : list Z) (Hmacs : length macs = 12%nat).

Let buf := frame macs (tag :: tags) w sp dp rest.
Let F := searching [buf] (Ptr 0 0).

Lemma tagged_type : ether_type_ [buf] (Ptr 0 0) = Ret ETHERTYPE_VLAN.
Proof. eapply (type_at _ _ buf macs); [done| |done|done]. unfold buf, frame. cbn [vlan_bytes fmap list_fmap concat]. by rewrite <- !app_assoc. Qed.

Lemma tagged_no_ipv4 : find F Ipv4 = Ret None.
Proof.
  cbn [find F searching]. unfold locate. cbn [locate_in find_parent parents mbind outcome_bind]. unfold follows.
  cbn [trait_proto Z.eqb ETHERTYPE_IP proto]. by rewrite tagged_type.
Qed.

(** The size of a tagged header counts the tag, but what follows is only looked
    for behind the type of the tag: no frame with a tag has an IP header. *)
Lemma tagged_not_dissected :
  answers F NewPacket.l3_protocol (Ret ETHERTYPE_VLAN) ∧ answers F NewPacket.iphdr (Ret None) ∧
  answers F NewPacket.ip_src (Throw NewPacket.null_pointer) ∧ answers F NewPacket.is_tcp (Ret false) ∧
  answers F NewPacket.is_udp (Ret false) ∧ answers F NewPacket.src_port (Throw (runtime_error "NewPacket::src_port")).
Proof.
  assert (answers F NewPacket.l3_protocol (Ret ETHERTYPE_VLAN)) as Ht
    by (apply (answers_field _ _ _ (Ptr 0 0)); [done|apply tagged_type]).
  assert (answers F NewPacket.is_tcp (Ret false)) as Htcp by (eapply answers_bind; [exact Ht|apply answers_ret]).
  assert (answers F NewPacket.is_udp (Ret false)) as Hudp by (eapply answers_bind; [exact Ht|apply answers_ret]).
  repeat split; [done|apply answers_find, tagged_no_ipv4|apply answers_no_field, tagged_no_ipv4|done..|].
  eapply answers_bind; [exact Hudp|]. eapply answers_bind; [exact Htcp|]. apply answers_throw.
Qed.
End tagged.

(** ** Slicing a packet *)

Section slicing.
Context (raw : list Z).

(** What is copied and to where: [bs] follows [pre] in the packet. *)
Lemma copy_to_spec mem r q pre bs post buf :
  raw = pre ++ bs ++ post → p_off q = Z.of_nat (length pre) → mem !! r = Some buf → (length bs ≤ length buf)%nat →
  NewPacket.copy_to mem r raw q (Z.of_nat (length bs)) = Ret (<[r := bs ++ drop (length bs) buf]> mem).
Proof.
  intros E Eo Er Hle. unfold NewPacket.copy_to. rewrite Er, Eo. unfold readable. rewrite E, !length_app.
  do 3 rewrite (proj2 (Z.leb_le _ _)) by lia. cbn [andb]. by rewrite !Nat2Z.id, drop_app_length, take_app_length.
Qed.

Lemma copy_to_past mem r q n buf : mem !! r = Some buf → Z.of_nat (length buf) < n → NewPacket.copy_to mem r raw q n = Throw past_region.
Proof. intros Er Hn. unfold NewPacket.copy_to. rewrite Er, (proj2 (Z.leb_gt _ _)) by lia. by rewrite andb_false_r. Qed.

Lemma header_found_spec h b e :
  NewPacket.b_left b ≠ 0 → slice_ok [raw] e (NewPacket.b_parser b) →
  ∃ parser, NewPacket.found raw h b = (locate [raw] e h, NewPacket.Build (NewPacket.b_mem b) (NewPacket.b_slice b) parser (NewPacket.b_left b)) ∧ slice_ok [raw] e parser.
Proof.
  intros Hleft Hs. unfold NewPacket.found. rewrite (proj2 (Z.eqb_neq _ _)) by done.
  destruct (header_of_spec [raw] e h _ Hs) as (s & -> & Hs'). by exists s.
Qed.

Lemma copy_header_none h b e :
  NewPacket.b_left b ≠ 0 → slice_ok [raw] e (NewPacket.b_parser b) → locate [raw] e h = Ret None →
  ∃ parser, NewPacket.copy_header raw h b = Ret (false, NewPacket.Build (NewPacket.b_mem b) (sset h Null (NewPacket.b_slice b)) parser (NewPacket.b_left b)) ∧
    slice_ok [raw] e parser.
Proof.
  intros Hleft Hs E. destruct (header_found_spec h b e Hleft Hs) as (s & Ef & Hs'). exists s. split; [|done].
  unfold NewPacket.copy_header. by rewrite Ef, E.
Qed.

Lemma copy_header_some h b e q pre bs post buf :
  slice_ok [raw] e (NewPacket.b_parser b) → locate [raw] e h = Ret (Some q) → size_of [raw] h q = Ret (Z.of_nat (length bs)) →
  raw = pre ++ bs ++ post → p_off q = Z.of_nat (length pre) → NewPacket.b_left b = Z.of_nat (length bs + length post) → NewPacket.b_left b ≠ 0 →
  NewPacket.b_mem b !! NewPacket.region_of h = Some buf → length buf = length bs →
  ∃ parser, NewPacket.copy_header raw h b =
    Ret (true, NewPacket.Build (<[NewPacket.region_of h := bs]> (NewPacket.b_mem b)) (NewPacket.b_slice b) parser (Z.of_nat (length post))) ∧
    slice_ok [raw] e parser.
Proof.
  intros Hs E Esz Er Eo Eleft Hleft Em Hlen. destruct (header_found_spec h b e Hleft Hs) as (s & Ef & Hs'). exists s. split; [|done].
  unfold NewPacket.copy_header. rewrite Ef, E, Esz. cbn [mbind outcome_bind NewPacket.b_mem NewPacket.b_slice NewPacket.b_parser NewPacket.b_left].
  rewrite (proj2 (Z.leb_le _ _)) by lia. rewrite (copy_to_spec _ _ _ pre bs post buf) by (done || lia). cbn [mbind outcome_bind].
  rewrite drop_ge, app_nil_r by lia. do 3 f_equal. lia.
Qed.

Lemma copy_payload_some b e q pre bs buf :
  slice_ok [raw] e (NewPacket.b_parser b) → locate [raw] e Payload = Ret (Some q) → raw = pre ++ bs →
  p_off q = Z.of_nat (length pre) → NewPacket.b_left b = Z.of_nat (length bs) → NewPacket.b_left b ≠ 0 → NewPacket.b_mem b !! 5%nat = Some buf →
  (length bs ≤ length buf)%nat →
  ∃ parser, NewPacket.copy_payload raw b =
    Ret (NewPacket.Build (<[5%nat := bs ++ drop (length bs) buf]> (NewPacket.b_mem b)) (NewPacket.b_slice b) parser (NewPacket.b_left b)) ∧ slice_ok [raw] e parser.
Proof.
  intros Hs E Er Eo Eleft Hleft Em Hlen. destruct (header_found_spec Payload b e Hleft Hs) as (s & Ef & Hs'). exists s. split; [|done].
  unfold NewPacket.copy_payload. rewrite Ef, E. cbn [NewPacket.b_mem NewPacket.b_slice NewPacket.b_parser NewPacket.b_left]. rewrite Eleft.
  change (NewPacket.region_of Payload) with 5%nat.
  by rewrite (copy_to_spec _ _ _ pre bs [] buf) by (rewrite ?app_nil_r; done).
Qed.
End slicing.

Section sliced_packet.
Context (macs : list Z) (w : ip_view) (sp dp : Z) (l4rest data : list Z).
Context (Hmacs : length macs = 12%nat) (Hw : ip_view_ok w) (Hopt : w_options w = []).
Context (Hproto : w_proto w = IPPROTO_TCP ∨ w_proto w = IPPROTO_UDP).
Context (Hsp : 0 ≤ sp < 2 ^ 16) (Hdp : 0 ≤ dp < 2 ^ 16).

(** The rest of a header without options: 8 bytes of UDP, 20 of TCP. *)
Definition no_l4_options (w : ip_view) (l4rest : list Z) : Prop :=
  if w_proto w =? IPPROTO_UDP then length l4rest = 4%nat
  else length l4rest = 16%nat ∧ ∃ payoff, l4rest !! 8%nat = Some payoff ∧ Z.shiftr payoff 4 = 5.

Context (Hl4 : no_l4_options w l4rest).

Let eth := macs ++ be 2 kPktTypeIP4.
Let l4 := be 2 sp ++ be 2 dp ++ l4rest.
Let raw := frame macs [] w sp dp (l4rest ++ data).
Let e := Ptr 0 0.

Lemma raw_split : raw = eth ++ ip_header_bytes w ++ l4 ++ data.
Proof. unfold raw, frame, eth, l4. by rewrite <- !app_assoc. Qed.

Lemma length_l4 : length l4 = if w_proto w =? IPPROTO_UDP then 8%nat else 20%nat.
Proof.
  unfold l4. rewrite !length_app, !length_be. unfold no_l4_options in Hl4.
  destruct (_ =? _); [by rewrite Hl4|by rewrite (proj1 Hl4)].
Qed.

Lemma raw_shows : shows [raw] w sp dp e (Ptr 0 14) (Ptr 0 34).
Proof.
  pose proof (frame_shows macs w sp dp (l4rest ++ data) Hmacs Hw Hsp Hdp) as H. by rewrite Hopt in H.
Qed.

Lemma raw_l4_located : locate [raw] e (l4_header w) = Ret (Some (Ptr 0 34)).
Proof.
  pose proof (locate_l4 macs w sp dp (l4rest ++ data) Hmacs Hw Hsp Hdp Hproto) as H. by rewrite Hopt in H.
Qed.

Lemma raw_ip_located : locate [raw] e Ipv4 = Ret (Some (Ptr 0 14)).
Proof. by apply locate_ipv4. Qed.

Lemma raw_l4_size : size_of [raw] (l4_header w) (Ptr 0 34) = Ret (Z.of_nat (length l4)).
Proof.
  rewrite length_l4. unfold l4_header. unfold no_l4_options in Hl4. destruct (w_proto w =? IPPROTO_UDP); [done|].
  destruct Hl4 as (H16 & payoff & Hb & Hoff). cbn [size_of]. unfold doff_.
  erewrite (read8_at _ 0 34 12 raw (eth ++ ip_header_bytes w ++ be 2 sp ++ be 2 dp ++ take 8 l4rest) payoff (drop 9 l4rest ++ data)).
  - cbn [mbind outcome_bind]. by rewrite Hoff.
  - done.
  - rewrite raw_split. unfold l4. rewrite <- !app_assoc. do 4 f_equal. rewrite app_assoc, app_assoc. f_equal.
    rewrite <- app_assoc. symmetry. by apply take_drop_middle.
  - unfold eth. rewrite !length_app, !length_be, length_ip_header, length_take, Hopt, H16, Hmacs. done.
Qed.

Lemma raw_icmp_or_other h : h = Tcp ∨ h = Icmp → w_proto w = IPPROTO_UDP → locate [raw] e h = Ret None.
Proof.
  intros Hh E. unfold raw, e. rewrite (locate_over_ipv4 macs w sp dp (l4rest ++ data) Hmacs Hw Hsp Hdp) by (by destruct Hh as [-> | ->]).
  rewrite E. by destruct Hh as [-> | ->].
Qed.

Lemma raw_payload_located : locate [raw] e Payload = Ret (Some (Ptr 0 (34 + Z.of_nat (length l4)))).
Proof.
  rewrite (locate_step [raw] e 2 Payload) by (cbn; lia || done). cbn [parents find_parent].
  rewrite !(locate_layers [raw] e 2 3) by (cbn; lia).
  change (locate_in [raw] e 3) with (locate [raw] e).
  pose proof raw_l4_located as Hloc. pose proof raw_l4_size as Hsz. unfold l4_header in *.
  destruct (w_proto w =? IPPROTO_UDP) eqn:E.
  - rewrite Hloc. cbn [mbind outcome_bind]. unfold follows. cbn [trait_proto Z.eqb]. by rewrite Hsz.
  - assert (locate [raw] e Udp = Ret None) as ->.
    { unfold raw, e. rewrite (locate_over_ipv4 macs w sp dp (l4rest ++ data) Hmacs Hw Hsp Hdp) by done. cbn [trait_proto]. by rewrite E. }
    cbn [mbind outcome_bind]. rewrite Hloc. cbn [mbind outcome_bind]. unfold follows. cbn [trait_proto Z.eqb]. by rewrite Hsz.
Qed.

Lemma sliced_front stale s0 s1 s2 s3 s4 s5 : stale = [s0; s1; s2; s3; s4; s5] →
  length s0 = 14%nat → length s1 = 20%nat →
  ∃ pa pb, NewPacket.copy_header raw Ethernet (NewPacket.Build stale NewPacket.all_regions (fresh_slice e) (Z.of_nat (length raw))) =
      Ret (true, NewPacket.Build [eth; s1; s2; s3; s4; s5] NewPacket.all_regions pa (20 + Z.of_nat (length (l4 ++ data)))) ∧
    NewPacket.copy_header raw Ipv4 (NewPacket.Build [eth; s1; s2; s3; s4; s5] NewPacket.all_regions pa
      (20 + Z.of_nat (length (l4 ++ data)))) =
      Ret (true, NewPacket.Build [eth; ip_header_bytes w; s2; s3; s4; s5] NewPacket.all_regions pb
        (Z.of_nat (length (l4 ++ data)))) ∧ slice_ok [raw] e pb.
Proof.
  intros -> H0 H1.
  assert (length eth = 14%nat) as Heth by (unfold eth; by rewrite length_app, Hmacs, length_be).
  assert (length (ip_header_bytes w) = 20%nat) as Hip by (by rewrite length_ip_header, Hopt).
  destruct (copy_header_some raw Ethernet (NewPacket.Build [s0; s1; s2; s3; s4; s5] NewPacket.all_regions (fresh_slice e)
    (Z.of_nat (length raw))) e (Ptr 0 0) [] eth (ip_header_bytes w ++ l4 ++ data) s0) as (pa & Ea & Hpa);
    [apply fresh_slice_ok|done| |apply raw_split|done| | |done|lia|].
  { cbn [size_of]. rewrite (shows_type raw_shows : ether_type_ [raw] (Ptr 0 0) = _). cbn [mbind outcome_bind]. by rewrite Heth. }
  { cbn [NewPacket.b_left]. by rewrite raw_split, !length_app. }
  { cbn [NewPacket.b_left]. rewrite raw_split, length_app. lia. }
  rewrite (length_app (ip_header_bytes w)), Hip, Nat2Z.inj_add in Ea.
  destruct (copy_header_some raw Ipv4 (NewPacket.Build [eth; s1; s2; s3; s4; s5] NewPacket.all_regions pa
    (20 + Z.of_nat (length (l4 ++ data)))) e (Ptr 0 14) eth (ip_header_bytes w) (l4 ++ data) s1) as (pb & Eb & Hpb);
    [done|apply raw_ip_located| |apply raw_split|by rewrite Heth| | |done|lia|].
  { cbn [size_of]. rewrite (shows_ihl raw_shows : ihl_ [raw] (Ptr 0 14) = _). cbn [mbind outcome_bind]. by rewrite Hip, Hopt. }
  { cbn [NewPacket.b_left]. rewrite Hip. lia. }
  { cbn [NewPacket.b_left]. lia. }
  by exists pa, pb.
Qed.

Lemma sliced_l4 s2 s3 s4 s5 pb : length s2 = 20%nat → length s3 = 8%nat → slice_ok [raw] e pb →
  let udp := w_proto w =? IPPROTO_UDP in
  ∃ pc, NewPacket.copy_l4 raw (NewPacket.Build [eth; ip_header_bytes w; s2; s3; s4; s5] NewPacket.all_regions pb
      (Z.of_nat (length (l4 ++ data)))) =
    Ret (NewPacket.Build [eth; ip_header_bytes w; if udp then s2 else l4; if udp then l4 else s3; s4; s5]
      (sset Tcp (if udp then Null else At (Ptr 2 0)) NewPacket.all_regions) pc (Z.of_nat (length data))) ∧ slice_ok [raw] e pc.
Proof.
  intros H2 H3 Hpb udp. pose proof length_l4 as Hlen. pose proof raw_l4_located as Hloc. pose proof raw_l4_size as Hsz.
  assert (Z.of_nat (length (l4 ++ data)) ≠ 0) as Hne by (rewrite length_app, Hlen; destruct (_ =? _); lia).
  assert (raw = (eth ++ ip_header_bytes w) ++ l4 ++ data) as Hsplit by (rewrite raw_split; by rewrite <- !app_assoc).
  assert (34 = Z.of_nat (length (eth ++ ip_header_bytes w))) as H34.
  { unfold eth. by rewrite !length_app, Hmacs, length_be, length_ip_header, Hopt. }
  unfold NewPacket.copy_l4, udp, l4_header in *. destruct (w_proto w =? IPPROTO_UDP) eqn:E.
  - destruct (copy_header_none raw Tcp (NewPacket.Build [eth; ip_header_bytes w; s2; s3; s4; s5] NewPacket.all_regions pb
      (Z.of_nat (length (l4 ++ data)))) e) as (p1 & -> & Hp1);
      [done|done|apply raw_icmp_or_other; [by left|by apply Z.eqb_eq]|].
    cbn [mbind outcome_bind NewPacket.b_mem NewPacket.b_slice NewPacket.b_left].
    destruct (copy_header_some raw Udp (NewPacket.Build [eth; ip_header_bytes w; s2; s3; s4; s5] (sset Tcp Null NewPacket.all_regions) p1
      (Z.of_nat (length (l4 ++ data)))) e (Ptr 0 34) (eth ++ ip_header_bytes w) l4 data s3) as (pc & -> & Hpc);
      [done|done|done|done|done|by rewrite length_app|done|done|by rewrite Hlen|]. by exists pc.
  - destruct (copy_header_some raw Tcp (NewPacket.Build [eth; ip_header_bytes w; s2; s3; s4; s5] NewPacket.all_regions pb
      (Z.of_nat (length (l4 ++ data)))) e (Ptr 0 34) (eth ++ ip_header_bytes w) l4 data s2) as (pc & -> & Hpc);
      [done|done|done|done|done|by rewrite length_app|done|done|by rewrite Hlen|]. by exists pc.
Qed.

Lemma sliced_payload mem sl s5 pc : mem !! 5%nat = Some s5 → (length data ≤ length s5)%nat → slice_ok [raw] e pc →
  ∃ pd, NewPacket.copy_payload raw (NewPacket.Build mem sl pc (Z.of_nat (length data))) =
    Ret (NewPacket.Build (<[5%nat := data ++ drop (length data) s5]> mem)
      (if bool_decide (data = []) then sset Payload Null sl else sl) pd (Z.of_nat (length data))).
Proof.
  intros H5 Hle Hpc. destruct (decide (data = [])) as [->|Hne].
  - exists pc. rewrite bool_decide_eq_true_2 by done. cbn [length Z.of_nat drop app]. by rewrite list_insert_id.
  - rewrite bool_decide_eq_false_2 by done.
    destruct (copy_payload_some raw (NewPacket.Build mem sl pc (Z.of_nat (length data))) e (Ptr 0 (34 + Z.of_nat (length l4)))
      (eth ++ ip_header_bytes w ++ l4) data s5) as (pd & -> & _); try done; [apply raw_payload_located| | | |by exists pd].
    + rewrite raw_split. by rewrite <- !app_assoc.
    + unfold eth. cbn [p_off]. rewrite !length_app, Hmacs, length_be, length_ip_header, Hopt. cbn [length]. lia.
    + cbn [NewPacket.b_left]. destruct data; [done|cbn; lia].
Qed.

(** What [SlicedPacket] makes of it. *)
Lemma sliced_run s0 s1 s2 s3 s4 s5 len caplen sec nsec :
  length s0 = 14%nat → length s1 = 20%nat → length s2 = 20%nat → length s3 = 8%nat → (length raw ≤ length s5)%nat →
  let udp := w_proto w =? IPPROTO_UDP in
  NewPacket.SlicedPacket raw [s0; s1; s2; s3; s4; s5] len caplen sec nsec =
  Ret (NewPacket.MkNewPacket
    [eth; ip_header_bytes w; if udp then s2 else l4; if udp then l4 else s3; s4; data ++ drop (length data) s5]
    (Slice (At (Ptr 0 0)) (At (Ptr 1 0)) (if udp then Null else At (Ptr 2 0)) (At (Ptr 3 0)) (At (Ptr 4 0))
      (if bool_decide (data = []) then Null else At (Ptr 5 0)))
    len caplen sec nsec NewPacket.no_key).
Proof.
  intros H0 H1 H2 H3 H5 udp.
  assert (length raw = length eth + (length (ip_header_bytes w) + (length l4 + length data)))%nat as Hraw
    by (by rewrite raw_split, !length_app).
  rewrite length_ip_header in Hraw.
  destruct (sliced_front [s0; s1; s2; s3; s4; s5] s0 s1 s2 s3 s4 s5 eq_refl H0 H1) as (pa & pb & Ea & Eb & Hpb).
  destruct (sliced_l4 s2 s3 s4 s5 pb H2 H3 Hpb) as (pc & Ec & Hpc).
  destruct (sliced_payload [eth; ip_header_bytes w; if udp then s2 else l4; if udp then l4 else s3; s4; s5]
    (sset Tcp (if udp then Null else At (Ptr 2 0)) NewPacket.all_regions) s5 pc eq_refl ltac:(lia) Hpc) as (pd & Ed).
  unfold NewPacket.SlicedPacket. cbn [lookup list_lookup default from_option id].
  rewrite (proj2 (Z.eqb_neq _ _)) by lia. rewrite Z.min_r by lia.
  change (Slice (At (Ptr 0 0)) Undefined Undefined Undefined Undefined Undefined) with (fresh_slice e).
  rewrite Ea. cbn [mbind outcome_bind]. rewrite Eb. cbn [mbind outcome_bind]. rewrite Ec. cbn [mbind outcome_bind].
  fold udp. rewrite Ed. cbn [mbind outcome_bind NewPacket.b_mem NewPacket.b_slice]. by destruct (bool_decide (data = [])).
Qed.
End sliced_packet.

(** C14: a TCP or UDP packet over IPv4, neither header with options and no 802.1q
    tag, is taken apart by [SlicedPacket] without an access outside the packet or
    the slot; and the protocols, TOS, TTL, length and header length of IP, the addresses,
    the ports and the flow key are answered as by the [SimplePacket] that holds the same
    bytes in one buffer, which are the fields the frame was built from.  The payload is
    what follows the headers, at the front of a region of its own, and none if nothing
    follows.  Not so [l4hdr] of a TCP packet ([sliced_l4hdr_of_tcp]). *)
Theorem sliced_packet_decodes macs w sp dp l4rest data stale stale1 size len caplen sec nsec :
  let raw := frame macs [] w sp dp (l4rest ++ data) in
  length macs = 12%nat → ip_view_ok w → w_options w = [] → w_proto w = IPPROTO_TCP ∨ w_proto w = IPPROTO_UDP →
  0 ≤ sp < 2 ^ 16 → 0 ≤ dp < 2 ^ 16 → no_l4_options w l4rest →
  length <$> stale = NewPacket.sizes ++ [size] → (length raw ≤ size)%nat → (length raw ≤ length stale1)%nat →
  ∃ p one, NewPacket.SlicedPacket raw stale len caplen sec nsec = Ret p ∧
    NewPacket.SimplePacket raw stale1 len caplen sec nsec = Ret one ∧
    Forall (λ '(m, v), (m p).1 = (m one).1 ∧ (m p).1 = Ret v) (decoded w sp dp) ∧
    (NewPacket.key p).1 = (NewPacket.key one).1 ∧
    (NewPacket.key p).1 = Ret (MkFlowKey (htonl (w_src w)) (htonl (w_dst w)) sp dp (w_proto w)) ∧
    (NewPacket.payload p).1 = Ret (if bool_decide (data = []) then None else Some (Ptr 5 0)) ∧
    ∃ old, NewPacket.mem_ p !! 5%nat = Some (data ++ old).
Proof.
  intros raw Hmacs Hw Hopt Hproto Hsp Hdp Hl4 Hsizes Hlen Hlen1.
  destruct (simple_packet_decodes macs w sp dp (l4rest ++ data) stale1 len caplen sec nsec Hmacs Hw Hproto Hsp Hdp Hlen1)
    as (one & Eone & Hone).
  destruct (Hone []) as (Hfields & _ & _ & Hkey). rewrite after_no_requests in Hfields, Hkey.
  destruct stale as [|s0 [|s1 [|s2 [|s3 [|s4 [|s5 [|]]]]]]]; try discriminate.
  cbn in Hsizes. injection Hsizes as H0 H1 H2 H3 H4 H5.
  eexists _, one. split; [apply sliced_run; try done; by rewrite H5|]. split; [exact Eone|].
  match goal with |- Forall (λ _, _) _ ∧ (NewPacket.key ?x).1 = _ ∧ _ => set (p := x) end.
  set (F := sliced (NewPacket.mem_ p) (NewPacket.slice_ p)).
  assert (packet_ok F p) as Hp by (split; [done|]; split; [intros []; cbn; by repeat case_match|done]).
  assert (shows (NewPacket.mem_ p) w sp dp (Ptr 0 0) (Ptr 1 0) (Ptr (NewPacket.region_of (l4_header w)) 0)) as Hshows.
  { pose proof (ip_at (NewPacket.mem_ p) 1 0 _ [] w [] eq_refl ltac:(by rewrite app_nil_r) eq_refl Hw) as Hip.
    pose proof (ports_at (NewPacket.mem_ p) (NewPacket.region_of (l4_header w)) 0 _ [] sp dp l4rest
      ltac:(unfold p, l4_header; by destruct (_ =? _)) eq_refl eq_refl Hsp Hdp) as Hports.
    split; [|apply Hip..|apply Hports|apply Hports]. by eapply (type_at _ 0 _ macs _ []). }
  assert (find F (l4_header w) = Ret (Some (Ptr (NewPacket.region_of (l4_header w)) 0))) as Hl
    by (unfold F, p, l4_header; cbn; by destruct (w_proto w =? IPPROTO_UDP)).
  assert ((NewPacket.key p).1 = Ret (MkFlowKey (htonl (w_src w)) (htonl (w_dst w)) sp dp (w_proto w))) as Hkeyp
    by (by apply (answers_key F w sp dp (Ptr 0 0) (Ptr 1 0) _ Hshows)).
  split; [|split; [|split; [|split]]].
  - assert (Forall (λ '(m, v), answers F m (Ret v)) (decoded w sp dp)) as Hall
      by (by apply (answers_decoded F w sp dp (Ptr 0 0) (Ptr 1 0) _ Hshows)).
    rewrite Forall_forall in Hfields, Hall |- *. intros [m v] Hm.
    pose proof (answers_run F _ _ _ (Hall (m, v) Hm) Hp) as E. by rewrite E, (Hfields (m, v) Hm).
  - by rewrite Hkeyp, Hkey.
  - exact Hkeyp.
  - apply (answers_run F); [|done]. apply answers_find. cbn. by destruct (bool_decide _).
  - by eexists.
Qed.

(** ** Findings *)

Definition slot : memory := (λ n, replicate n 0xEE) <$> NewPacket.sizes ++ [128%nat].

Definition ip_of (proto : Z) (options : list Z) : ip_view := IpView 0 60 0 0 64 proto 0 0x0A000001 0x0A000002 options.

(** The 16 bytes of a TCP header behind the ports, [words] its length in words. *)
Definition tcp_rest (words : Z) : list Z := replicate 8 1 ++ [Z.shiftl words 4; 0x22; 0; 0; 0; 0; 0x12; 0x34].

Definition tcp_frame (tags options : list Z) (tcp_options : list Z) : list Z :=
  frame (replicate 12 0) tags (ip_of IPPROTO_TCP options) 80 1024
    (tcp_rest (5 + Z.of_nat (length tcp_options) / 4) ++ tcp_options ++ [7; 7; 7]).

(** The regions are for headers without options: the SYN of a usual connection,
    an IP header with options and a tagged frame are written past them. *)
Lemma options_overflow :
  NewPacket.SlicedPacket (tcp_frame [] [] [2; 4; 5; 180]) slot 0 0 0 0 = Throw past_region ∧
  NewPacket.SlicedPacket (tcp_frame [] [1; 1; 1; 1] []) slot 0 0 0 0 = Throw past_region ∧
  NewPacket.SlicedPacket (tcp_frame [5] [] []) slot 0 0 0 0 = Throw past_region.
Proof. by vm_compute. Qed.

(** [l4hdr] asks for the UDP header first, which the slice of a TCP packet has as
    well: it is the region that was not written. *)
Lemma sliced_l4hdr_of_tcp :
  ∃ p, NewPacket.SlicedPacket (tcp_frame [] [] []) slot 0 0 0 0 = Ret p ∧
    (NewPacket.get_header Tcp p).1 = Ret (Some (Ptr 2 0)) ∧ (NewPacket.l4hdr p).1 = Ret (Some (Ptr 3 0)) ∧
    NewPacket.mem_ p !! 3%nat = Some (replicate 8 0xEE).
Proof. eexists. split; [vm_compute; reflexivity|]. by vm_compute. Qed.

(** A packet of an Ethernet header alone, in the slot of a TCP packet before it:
    it has that packet's addresses and ports. *)
Lemma runt_reads_previous_packet :
  ∃ p, NewPacket.SimplePacket (take 14 (tcp_frame [] [] [])) (tcp_frame [] [] []) 14 14 0 0 = Ret p ∧
    (NewPacket.key p).1 = Ret (MkFlowKey (htonl 0x0A000001) (htonl 0x0A000002) 80 1024 IPPROTO_TCP).
Proof. eexists. split; [vm_compute; reflexivity|]. by vm_compute. Qed.

(** The flow key of an ICMP packet: the ports throw, and the next call returns
    what was assigned before. *)
Lemma icmp_key_half_assigned :
  ∃ p q, NewPacket.SimplePacket (frame (replicate 12 0) [] (ip_of IPPROTO_ICMP []) 8 0 []) (replicate 128 0) 0 0 0 0 = Ret p ∧
    NewPacket.key p = (Throw (runtime_error "NewPacket::src_port"), q) ∧
    (NewPacket.key q).1 = Ret (MkFlowKey (htonl 0x0A000001) (htonl 0x0A000002) 0 0 0).
Proof. do 2 eexists. split; [vm_compute; reflexivity|]. split; vm_compute; reflexivity. Qed.

(** An IP length that is zero or too small wraps, and the urgent pointer loses its
    upper byte. *)
Lemma payload_length_wraps :
  ∃ p, NewPacket.SimplePacket
      (frame (replicate 12 0) [] (IpView 0 0 0 0 64 IPPROTO_TCP 0 1 2 []) 80 1024 (tcp_rest 5)) (replicate 128 0) 0 0 0 0 = Ret p ∧
    (NewPacket.payload_len p).1 = Ret (2 ^ 16 - 40) ∧ (NewPacket.tcp_urg p).1 = Ret (Some 0x34).
Proof. eexists. split; [vm_compute; reflexivity|]. by vm_compute. Qed.

(** ** Witnesses *)

Lemma simple_packet_decodes_witness :
  ∃ p, NewPacket.SimplePacket (frame (replicate 12 0) [] (ip_of IPPROTO_UDP [1; 1; 1; 1]) 53 5353 [0; 8; 0; 0])
      (replicate 64 0xEE) 46 46 0 0 = Ret p ∧
    (NewPacket.src_port (after_requests [Payload; Tcp] p)).1 = Ret 53.
Proof.
  destruct (simple_packet_decodes (replicate 12 0) (ip_of IPPROTO_UDP [1; 1; 1; 1]) 53 5353 [0; 8; 0; 0] (replicate 64 0xEE)
    46 46 0 0 eq_refl ltac:(unfold ip_view_ok; cbn; repeat split; [lia..|by exists 1%nat; split; [lia|]]) (or_intror eq_refl)
    ltac:(lia) ltac:(lia) ltac:(vm_compute; lia)) as (p & E & H).
  exists p. split; [exact E|]. destruct (H [Payload; Tcp]) as (Hall & _). rewrite Forall_forall in Hall.
  apply (Hall (NewPacket.src_port, 53)). rewrite list_elem_of_In. cbn. tauto.
Defined.

Lemma sliced_packet_decodes_witness :
  ∃ p, NewPacket.SlicedPacket (frame (replicate 12 0) [] (ip_of IPPROTO_TCP []) 80 1024 (tcp_rest 5 ++ [7; 7; 7])) slot 0 0 0 0 = Ret p ∧
    (NewPacket.dst_port p).1 = Ret 1024 ∧ (NewPacket.payload p).1 = Ret (Some (Ptr 5 0)).
Proof.
  destruct (sliced_packet_decodes (replicate 12 0) (ip_of IPPROTO_TCP []) 80 1024 (tcp_rest 5) [7; 7; 7] slot (replicate 64 0xEE) 128 0 0 0 0
    eq_refl ltac:(unfold ip_view_ok; cbn; repeat split; [lia..|by exists 0%nat; split; [lia|]]) eq_refl (or_introl eq_refl)
    ltac:(lia) ltac:(lia) ltac:(split; [done|by exists 0x50]) eq_refl ltac:(vm_compute; lia) ltac:(vm_compute; lia))
    as (p & one & E & _ & Hall & _ & _ & Hpay & _).
  exists p. split; [exact E|]. split; [|exact Hpay]. rewrite Forall_forall in Hall.
  eapply proj2, (Hall (NewPacket.dst_port, 1024)). rewrite list_elem_of_In. cbn. tauto.
Defined.
