(* ===== verification/Jsmn.v ===== *)
(** * The JSON tokeniser

    Models [lib/jsmn/jsmn.cpp], which [TweetFinder] calls, as it is built: without
    [JSMN_STRICT].

    The text is a C string: its bytes, none of them zero, and the zero behind them.
    The array of tokens is the one of the caller; reading or writing outside it, or
    behind the string's zero, is undefined behaviour.  The loops have fuel; one more
    than the length of the text is enough for each. *)

From S2P Require Export MachineInt.

Inductive jsmntype_t := JSMN_PRIMITIVE | JSMN_OBJECT | JSMN_ARRAY | JSMN_STRING.
Inductive jsmnerr_t := JSMN_ERROR_NOMEM | JSMN_ERROR_INVAL | JSMN_ERROR_PART | JSMN_SUCCESS.

#[export] Instance jsmntype_eq_dec : EqDecision jsmntype_t.
Proof. solve_decision. Defined.
#[export] Instance jsmnerr_eq_dec : EqDecision jsmnerr_t.
Proof. solve_decision. Defined.

Record jsmntok_t := Tok { type : jsmntype_t; start : Z; end_ : Z; size : Z }.

#[export] Instance jsmntok_eq_dec : EqDecision jsmntok_t.
Proof. solve_decision. Defined.

(** [jsmn_parser] and the array that goes with it. *)
Record jsmn_parser := Parser { pos : Z; toknext : Z; toksuper : Z; tokens : list jsmntok_t }.

Definition set_pos (p : Z) (s : jsmn_parser) : jsmn_parser := Parser p (toknext s) (toksuper s) (tokens s).
Definition set_toknext (n : Z) (s : jsmn_parser) : jsmn_parser := Parser (pos s) n (toksuper s) (tokens s).
Definition set_toksuper (i : Z) (s : jsmn_parser) : jsmn_parser := Parser (pos s) (toknext s) i (tokens s).
Definition set_tokens (ts : list jsmntok_t) (s : jsmn_parser) : jsmn_parser := Parser (pos s) (toknext s) (toksuper s) ts.

Definition fresh_token : jsmntok_t := Tok JSMN_PRIMITIVE (-1) (-1) 0.

(** [token->start != -1 && token->end == -1] *)
Definition is_open (t : jsmntok_t) : bool := negb (start t =? -1) && (end_ t =? -1).

Section parser.
Context (js : list Z).

Definition past_text : exn := undefined_behaviour "read behind the text".
Definition past_tokens : exn := undefined_behaviour "access outside the tokens".

(** [js[parser->pos]] *)
Definition here : M jsmn_parser Z :=
  s ← gets id;
  match (js ++ [0]) !! Z.to_nat (pos s) with
  | Some c => mret c
  | None => throw past_text
  end.

(** [tokens[i]], read and changed. *)
Definition token_at (i : Z) : M jsmn_parser jsmntok_t :=
  s ← gets id;
  match tokens s !! Z.to_nat i with
  | Some t => if 0 <=? i then mret t else throw past_tokens
  | None => throw past_tokens
  end.

Definition change_token (i : Z) (f : jsmntok_t → jsmntok_t) : M jsmn_parser unit :=
  t ← token_at i; modify (λ s, set_tokens (<[Z.to_nat i := f t]> (tokens s)) s).

Definition next_char : M jsmn_parser unit := modify (λ s, set_pos (u32 (pos s + 1)) s).

(** The loop of [jsmn_alloc_token] over the [n] tokens from [i] on. *)
Fixpoint alloc_loop (n : nat) (i : Z) : M jsmn_parser (option Z) :=
  match n with
  | O => mret None
  | S n =>
      t ← token_at i;
      if (start t =? -1) && (end_ t =? -1) then modify (set_toknext (i + 1));; mret (Some i)
      else alloc_loop n (i + 1)
  end.

Definition jsmn_alloc_token : M jsmn_parser (option Z) :=
  s ← gets id; alloc_loop (length (tokens s) - Z.to_nat (toknext s)) (toknext s).

Definition jsmn_fill_token (i : Z) (ty : jsmntype_t) (st en : Z) : M jsmn_parser unit := change_token i (λ _, Tok ty st en 0).

Definition is_blank (c : Z) : bool := (c =? 9) || (c =? 13) || (c =? 10) || (c =? 32).

Definition ends_primitive (c : Z) : bool := is_blank c || (c =? 58) || (c =? 44) || (c =? 93) || (c =? 125).

(** The loop of [jsmn_parse_primitive]: is the end found, or a character that
    cannot be there?  [char] is signed: the bytes from 128 on are below 32. *)
Fixpoint scan_primitive (fuel : nat) : M jsmn_parser bool :=
  c ← here;
  if (c =? 0) || ends_primitive c then mret true
  else if (to_signed 8 c <? 32) || (127 <=? to_signed 8 c) then mret false
  else match fuel with
       | O => throw (undefined_behaviour "does not return")
       | S fuel => next_char;; scan_primitive fuel
       end.

Definition jsmn_parse_primitive : M jsmn_parser jsmnerr_t :=
  st ← gets (λ s, s32 (pos s));
  found ← scan_primitive (length js);
  if negb found : bool then modify (set_pos (u32 st));; mret JSMN_ERROR_INVAL
  else
    token ← jsmn_alloc_token;
    match token with
    | None => modify (set_pos (u32 st));; mret JSMN_ERROR_NOMEM
    | Some i =>
        en ← gets (λ s, s32 (pos s));
        jsmn_fill_token i JSMN_PRIMITIVE st en;;
        modify (λ s, set_pos (u32 (pos s - 1)) s);;
        mret JSMN_SUCCESS
    end.

(** What may follow a backslash: quote, slash, backslash, b, f, r, n, t, u. *)
Definition is_escape (c : Z) : bool := bool_decide (c ∈ [34; 47; 92; 98; 102; 114; 110; 116; 117]).

Inductive string_end := AtQuote | BadEscape | NoQuote.

Fixpoint scan_string (fuel : nat) : M jsmn_parser string_end :=
  c ← here;
  if c =? 0 then mret NoQuote
  else if c =? 34 then mret AtQuote
  else
    match fuel with
    | O => throw (undefined_behaviour "does not return")
    | S fuel =>
        if c =? 92 then
          next_char;;
          c ← here;
          if is_escape c then next_char;; scan_string fuel else mret BadEscape
        else next_char;; scan_string fuel
    end.

Definition jsmn_parse_string : M jsmn_parser jsmnerr_t :=
  st ← gets (λ s, s32 (pos s));
  next_char;;
  r ← scan_string (length js);
  match r with
  | AtQuote =>
      token ← jsmn_alloc_token;
      match token with
      | None => modify (set_pos (u32 st));; mret JSMN_ERROR_NOMEM
      | Some i => en ← gets (λ s, s32 (pos s)); jsmn_fill_token i JSMN_STRING (st + 1) en;; mret JSMN_SUCCESS
      end
  | BadEscape => modify (set_pos (u32 st));; mret JSMN_ERROR_INVAL
  | NoQuote => modify (set_pos (u32 st));; mret JSMN_ERROR_PART
  end.

(** The last open token before [n]. *)
Fixpoint find_open (n : nat) : M jsmn_parser (option Z) :=
  match n with
  | O => mret None
  | S i => t ← token_at (Z.of_nat i); if is_open t then mret (Some (Z.of_nat i)) else find_open i
  end.

Definition count_child : M jsmn_parser unit :=
  s ← gets id;
  if toksuper s =? -1 then mret tt
  else change_token (toksuper s) (λ t, Tok (type t) (start t) (end_ t) (size t + 1)).

(** The cases of the [switch]. *)
Definition open_container (ty : jsmntype_t) : M jsmn_parser jsmnerr_t :=
  token ← jsmn_alloc_token;
  match token with
  | None => mret JSMN_ERROR_NOMEM
  | Some i =>
      count_child;;
      p ← gets (λ s, s32 (pos s));
      change_token i (λ t, Tok ty p (end_ t) (size t));;
      modify (λ s, set_toksuper (toknext s - 1) s);;
      mret JSMN_SUCCESS
  end.

Definition close_container (ty : jsmntype_t) : M jsmn_parser jsmnerr_t :=
  n ← gets toknext;
  i ← find_open (Z.to_nat n);
  match i with
  | None => mret JSMN_ERROR_INVAL
  | Some i =>
      t ← token_at i;
      if bool_decide (type t = ty) then
        modify (set_toksuper (-1));;
        p ← gets pos;
        change_token i (λ t, Tok (type t) (start t) (s32 (u32 (p + 1))) (size t));;
        j ← find_open (Z.to_nat (i + 1));
        match j with Some j => modify (set_toksuper j) | None => mret tt end;;
        mret JSMN_SUCCESS
      else mret JSMN_ERROR_INVAL
  end.

Definition then_count (m : M jsmn_parser jsmnerr_t) : M jsmn_parser jsmnerr_t :=
  r ← m; if bool_decide (r = JSMN_SUCCESS) then count_child;; mret r else mret r.

Definition step (c : Z) : M jsmn_parser jsmnerr_t :=
  if c =? 123 then open_container JSMN_OBJECT
  else if c =? 91 then open_container JSMN_ARRAY
  else if c =? 125 then close_container JSMN_OBJECT
  else if c =? 93 then close_container JSMN_ARRAY
  else if c =? 34 then then_count jsmn_parse_string
  else if is_blank c || (c =? 58) || (c =? 44) then mret JSMN_SUCCESS
  else then_count jsmn_parse_primitive.

(** The loop over the text. *)
Fixpoint parse_loop (fuel : nat) : M jsmn_parser jsmnerr_t :=
  c ← here;
  if c =? 0 then mret JSMN_SUCCESS
  else
    r ← step c;
    if bool_decide (r = JSMN_SUCCESS) then
      match fuel with
      | O => throw (undefined_behaviour "does not return")
      | S fuel => next_char;; parse_loop fuel
      end
    else mret r.

(** The tokens from [toknext] on are reset, they could be reallocated. *)
Definition reset_tokens (s : jsmn_parser) : jsmn_parser :=
  let n := Z.to_nat (toknext s) in
  set_tokens (take n (tokens s) ++ replicate (length (tokens s) - n) fresh_token) s.

Definition jsmn_parse : M jsmn_parser jsmnerr_t :=
  modify reset_tokens;;
  r ← parse_loop (length js);
  if bool_decide (r = JSMN_SUCCESS) then
    n ← gets toknext;
    i ← find_open (Z.to_nat n);
    match i with Some _ => mret JSMN_ERROR_PART | None => mret JSMN_SUCCESS end
  else mret r.
End parser.

Definition jsmn_init (s : jsmn_parser) : jsmn_parser := Parser 0 0 (-1) (tokens s).


(** ** The reference tokeniser

    The same tokens, with no limit to their number and no array: what has been
    read, the innermost open container and the tokens so far. *)

Record ref_state := Ref { r_pos : nat; r_super : option nat; r_toks : list jsmntok_t }.

Definition ref_init : ref_state := Ref 0 None [].

(** How many characters belong to a primitive. *)
Fixpoint prim_scan (l : list Z) : option nat :=
  match l with
  | [] => Some 0%nat
  | c :: l =>
      if ends_primitive c then Some 0%nat
      else if (to_signed 8 c <? 32) || (127 <=? to_signed 8 c) then None
      else S <$> prim_scan l
  end.

(** How a string ends, and where. *)
Fixpoint str_scan (l : list Z) : string_end * nat :=
  match l with
  | [] => (NoQuote, 0%nat)
  | c :: l =>
      if c =? 34 then (AtQuote, 0%nat)
      else if c =? 92 then
        match l with
        | [] => (BadEscape, 1%nat)
        | d :: l => if is_escape d then prod_map id (λ n, S (S n)) (str_scan l) else (BadEscape, 1%nat)
        end
      else prod_map id S (str_scan l)
  end.

Definition bump (super : option nat) (ts : list jsmntok_t) : list jsmntok_t :=
  match super with
  | Some i => alter (λ t, Tok (type t) (start t) (end_ t) (size t + 1)) i ts
  | None => ts
  end.

Fixpoint last_open (n : nat) (ts : list jsmntok_t) : option nat :=
  match n with
  | O => None
  | S i => match ts !! i with Some t => if is_open t then Some i else last_open i ts | None => last_open i ts end
  end.

Definition ref_open (ty : jsmntype_t) (t : ref_state) : ref_state :=
  Ref (r_pos t) (Some (length (r_toks t))) (bump (r_super t) (r_toks t) ++ [Tok ty (Z.of_nat (r_pos t)) (-1) 0]).

Definition ref_close (ty : jsmntype_t) (t : ref_state) : jsmnerr_t * ref_state :=
  match last_open (length (r_toks t)) (r_toks t) with
  | Some i =>
      if bool_decide (type <$> r_toks t !! i = Some ty) then
        let ts := alter (λ t', Tok (type t') (start t') (Z.of_nat (S (r_pos t))) (size t')) i (r_toks t) in
        (JSMN_SUCCESS, Ref (r_pos t) (last_open i ts) ts)
      else (JSMN_ERROR_INVAL, t)
  | None => (JSMN_ERROR_INVAL, t)
  end.

Definition ref_leaf (ty : jsmntype_t) (st en pos : nat) (t : ref_state) : ref_state :=
  Ref pos (r_super t) (bump (r_super t) (r_toks t) ++ [Tok ty (Z.of_nat st) (Z.of_nat en) 0]).

(** One character [c], before [l]. *)
Definition ref_step (c : Z) (l : list Z) (t : ref_state) : jsmnerr_t * ref_state :=
  let p := r_pos t in
  if c =? 123 then (JSMN_SUCCESS, ref_open JSMN_OBJECT t)
  else if c =? 91 then (JSMN_SUCCESS, ref_open JSMN_ARRAY t)
  else if c =? 125 then ref_close JSMN_OBJECT t
  else if c =? 93 then ref_close JSMN_ARRAY t
  else if c =? 34 then
    match str_scan l with
    | (AtQuote, n) => (JSMN_SUCCESS, ref_leaf JSMN_STRING (S p) (S p + n) (S p + n) t)
    | (BadEscape, _) => (JSMN_ERROR_INVAL, t)
    | (NoQuote, _) => (JSMN_ERROR_PART, t)
    end
  else if is_blank c || (c =? 58) || (c =? 44) then (JSMN_SUCCESS, t)
  else
    match prim_scan (c :: l) with
    | Some n => (JSMN_SUCCESS, ref_leaf JSMN_PRIMITIVE p (p + n) (p + n - 1) t)
    | None => (JSMN_ERROR_INVAL, t)
    end.

Definition ref_next (t : ref_state) : ref_state := Ref (S (r_pos t)) (r_super t) (r_toks t).

Fixpoint ref_loop (js : list Z) (fuel : nat) (t : ref_state) : jsmnerr_t * ref_state :=
  match drop (r_pos t) js with
  | [] => (JSMN_SUCCESS, t)
  | c :: l =>
      match ref_step c l t with
      | (JSMN_SUCCESS, t) =>
          match fuel with
          | O => (JSMN_SUCCESS, t)
          | S fuel => ref_loop js fuel (ref_next t)
          end
      | r => r
      end
  end.

Definition ref_finish (r : jsmnerr_t * ref_state) : jsmnerr_t * ref_state :=
  match r with
  | (JSMN_SUCCESS, t) =>
      (match last_open (length (r_toks t)) (r_toks t) with Some _ => JSMN_ERROR_PART | None => JSMN_SUCCESS end, t)
  | _ => r
  end.

(** ** The array holds the reference's tokens *)

Definition super_of (super : option nat) : Z := match super with Some i => Z.of_nat i | None => -1 end.

(** The parser that has read what [t] has, with [k] tokens left. *)
Definition conc (t : ref_state) (k : nat) : jsmn_parser :=
  Parser (Z.of_nat (r_pos t)) (Z.of_nat (length (r_toks t))) (super_of (r_super t)) (r_toks t ++ replicate k fresh_token).

Section refinement.
Context (js : list Z) (Hjs : 0 ∉ js) (Hlen : Z.of_nat (length js) < 2 ^ 31).

(** Tokens lie in the text, containers contain. *)
Definition token_ok (p : nat) (t : jsmntok_t) : Prop :=
  0 ≤ start t ≤ Z.of_nat p ∧ (end_ t = -1 ∨ start t ≤ end_ t ≤ Z.of_nat p) ∧ 0 ≤ size t.

Record ref_ok (t : ref_state) : Prop := RefOk {
  ok_pos : (r_pos t ≤ length js)%nat;
  ok_super : ∀ i, r_super t = Some i → (i < length (r_toks t))%nat;
  ok_toks : Forall (token_ok (r_pos t)) (r_toks t);
  ok_count : (length (r_toks t) ≤ r_pos t)%nat
}.

Lemma set_pos_id p s : pos s = p → set_pos p s = s.
Proof. intros <-. by destruct s. Qed.

Lemma drop_cons_at p c l : drop p js = c :: l → (p < length js)%nat ∧ drop (S p) js = l ∧ c ≠ 0.
Proof.
  intros E. assert (length (drop p js) = S (length l)) as El by by rewrite E. rewrite length_drop in El. split; [lia|].
  split; [rewrite <- (Nat.add_1_r p), <- drop_drop, E; done|]. intros ->. apply Hjs. apply (list_elem_of_lookup_2 _ p).
  by rewrite <- (Nat.add_0_r p), <- lookup_drop, E.
Qed.

Lemma here_at s p : pos s = Z.of_nat p → (p ≤ length js)%nat → here js s = (Ret (match drop p js with c :: _ => c | [] => 0 end), s).
Proof.
  intros Es Hp. unfold here. rewrite (bind_Ret (gets id) _ s s s eq_refl). rewrite Es, Nat2Z.id.
  destruct (drop p js) as [|c l] eqn:E.
  - apply (f_equal length) in E. rewrite length_drop in E. cbn in E. replace p with (length js) by lia.
    by rewrite list_lookup_middle.
  - destruct (drop_cons_at p c l E) as (Hlt & _). rewrite lookup_app_l by done.
    by rewrite <- (Nat.add_0_r p), <- lookup_drop, E.
Qed.

Lemma next_char_at s p : pos s = Z.of_nat p → (p < length js)%nat → next_char s = (Ret tt, set_pos (Z.of_nat (S p)) s).
Proof.
  intros Es Hp. unfold next_char, modify. do 2 f_equal. rewrite Es, u32_small by (change (2 ^ 32) with 4294967296; lia). lia.
Qed.

Lemma scan_primitive_spec fuel p s : (p ≤ length js)%nat → (length js - p ≤ fuel)%nat → pos s = Z.of_nat p →
  match prim_scan (drop p js) with
  | Some n => (p + n ≤ length js)%nat ∧ scan_primitive js fuel s = (Ret true, set_pos (Z.of_nat (p + n)) s)
  | None => ∃ q, scan_primitive js fuel s = (Ret false, set_pos q s)
  end.
Proof.
  revert p s. induction fuel as [|fuel IH]; intros p s Hp Hf Es; destruct (drop p js) as [|c l] eqn:E; cbn [prim_scan scan_primitive];
    rewrite (bind_Ret _ _ _ _ _ (here_at s p Es Hp)), E.
  1, 3: rewrite Z.eqb_refl, Nat.add_0_r; split; [done|]; by rewrite set_pos_id.
  1: { apply drop_cons_at in E as (Hlt & _). lia. }
  destruct (drop_cons_at p c l E) as (Hlt & El & Hc). rewrite (proj2 (Z.eqb_neq _ _)) by done. cbn [orb].
  destruct (ends_primitive c).
  { rewrite Nat.add_0_r. split; [done|]. by rewrite set_pos_id. }
  destruct ((to_signed 8 c <? 32) || (127 <=? to_signed 8 c)). { exists (pos s). by rewrite set_pos_id. }
  rewrite (bind_Ret _ _ _ _ _ (next_char_at s p Es Hlt)). specialize (IH (S p) (set_pos (Z.of_nat (S p)) s) ltac:(lia) ltac:(lia) eq_refl).
  rewrite El in IH. destruct (prim_scan l) as [n|]; cbn [fmap option_fmap option_map].
  - destruct IH as (Hn & ->). split; [lia|]. rewrite Nat.add_succ_r. done.
  - destruct IH as (q & ->). by exists q.
Qed.

Lemma scan_string_spec fuel p s : (p ≤ length js)%nat → (length js - p ≤ fuel)%nat → pos s = Z.of_nat p →
  ∃ q, scan_string js fuel s = (Ret (str_scan (drop p js)).1, set_pos q s) ∧
    ((str_scan (drop p js)).1 = AtQuote → q = Z.of_nat (p + (str_scan (drop p js)).2) ∧ (p + (str_scan (drop p js)).2 < length js)%nat).
Proof.
  revert p s. induction fuel as [fuel IH] using lt_wf_ind. intros p s Hp Hf Es.
  destruct (drop p js) as [|c l] eqn:E; destruct fuel as [|fuel]; cbn [str_scan scan_string];
    rewrite (bind_Ret _ _ _ _ _ (here_at s p Es Hp)), E.
  1, 2: exists (pos s); split; [by rewrite set_pos_id|done].
  1: { apply drop_cons_at in E as (Hlt & _). lia. }
  destruct (drop_cons_at p c l E) as (Hlt & El & Hc). rewrite (proj2 (Z.eqb_neq _ _)) by done.
  destruct (c =? 34). { exists (pos s). split; [by rewrite set_pos_id|]. intros _. rewrite Nat.add_0_r. done. }
  destruct (c =? 92); rewrite (bind_Ret _ _ _ _ _ (next_char_at s p Es Hlt)).
  2:{ destruct (IH fuel ltac:(lia) (S p) (set_pos (Z.of_nat (S p)) s) ltac:(lia) ltac:(lia) eq_refl) as (q & -> & Hq).
      rewrite El in *. exists q. destruct (str_scan l) as [e n]. cbn in *. split; [done|]. intros He. destruct (Hq He). split; lia. }
  rewrite (bind_Ret _ _ _ _ _ (here_at (set_pos (Z.of_nat (S p)) s) (S p) eq_refl ltac:(lia))), El.
  destruct l as [|d l].
  { exists (Z.of_nat (S p)). by split. }
  destruct (is_escape d); [|exists (Z.of_nat (S p)); by split].
  destruct (drop_cons_at (S p) d l El) as (Hlt' & El' & _).
  rewrite (bind_Ret _ _ _ _ _ (next_char_at (set_pos (Z.of_nat (S p)) s) (S p) eq_refl Hlt')).
  destruct (IH fuel ltac:(lia) (S (S p)) (set_pos (Z.of_nat (S (S p))) s) ltac:(lia) ltac:(lia) eq_refl) as (q & E' & Hq).
  change (set_pos (Z.of_nat (S (S p))) (set_pos (Z.of_nat (S p)) s)) with (set_pos (Z.of_nat (S (S p))) s). rewrite E'. rewrite El' in *. exists q.
  destruct (str_scan l) as [e n]. cbn in *. split; [done|]. intros He. destruct (Hq He). split; lia.
Qed.

(** *** Tokens *)

Lemma token_at_spec i s t : tokens s !! i = Some t → token_at (Z.of_nat i) s = (Ret t, s).
Proof.
  intros E. unfold token_at. rewrite (bind_Ret (gets id) _ s s s eq_refl), Nat2Z.id, E.
  by rewrite (proj2 (Z.leb_le _ _)) by lia.
Qed.

Lemma change_token_spec i f s t :
  tokens s !! i = Some t → change_token (Z.of_nat i) f s = (Ret tt, set_tokens (<[i := f t]> (tokens s)) s).
Proof. intros E. unfold change_token. rewrite (bind_Ret _ _ _ _ _ (token_at_spec i s t E)). by rewrite Nat2Z.id. Qed.

Definition array (ts : list jsmntok_t) (k : nat) : list jsmntok_t := ts ++ replicate k fresh_token.

Lemma alloc_spec p sup ts k :
  jsmn_alloc_token (Parser p (Z.of_nat (length ts)) sup (array ts k)) =
  match k with
  | O => (Ret None, Parser p (Z.of_nat (length ts)) sup (array ts k))
  | S _ => (Ret (Some (Z.of_nat (length ts))), Parser p (Z.of_nat (S (length ts))) sup (array ts k))
  end.
Proof.
  unfold jsmn_alloc_token. rewrite (bind_Ret (gets id) _ _ _ _ eq_refl). unfold id. cbn [tokens toknext].
  unfold array. rewrite length_app, length_replicate, Nat2Z.id. destruct k as [|k].
  - by replace (length ts + 0 - length ts)%nat with 0%nat by lia.
  - replace (length ts + S k - length ts)%nat with (S k) by lia. cbn [alloc_loop].
    erewrite bind_Ret; [|apply token_at_spec; by apply (list_lookup_middle ts _ fresh_token)].
    cbn [start end_ fresh_token Z.eqb andb Pos.eqb]. unfold set_toknext. run_m. cbn [pos toksuper tokens]. do 2 f_equal. lia.
Qed.

Lemma alloc_none p sup ts :
  jsmn_alloc_token (Parser p (Z.of_nat (length ts)) sup (array ts 0)) =
  (Ret None, Parser p (Z.of_nat (length ts)) sup (array ts 0)).
Proof. apply alloc_spec. Qed.

Lemma alloc_some p sup ts k :
  jsmn_alloc_token (Parser p (Z.of_nat (length ts)) sup (array ts (S k))) =
  (Ret (Some (Z.of_nat (length ts))), Parser p (Z.of_nat (S (length ts))) sup (array ts (S k))).
Proof. apply alloc_spec. Qed.

Lemma array_insert ts k x : <[length ts := x]> (array ts (S k)) = array (ts ++ [x]) k.
Proof. unfold array. rewrite insert_app_r_alt, Nat.sub_diag by done. cbn. by rewrite <- app_assoc. Qed.

Lemma array_bump sup ts k : (∀ i, sup = Some i → (i < length ts)%nat) →
  ∀ p n, count_child (Parser p n (super_of sup) (array ts k)) = (Ret tt, Parser p n (super_of sup) (array (bump sup ts) k)).
Proof.
  intros Hs p n. unfold count_child. rewrite (bind_Ret (gets id) _ _ _ _ eq_refl). unfold id. cbn [toksuper].
  destruct sup as [i|]; cbn [super_of bump]; [|done]. rewrite (proj2 (Z.eqb_neq _ _)) by lia.
  destruct (lookup_lt_is_Some_2 ts i (Hs i eq_refl)) as [t Et].
  erewrite change_token_spec; [|cbn [tokens]; unfold array; by apply lookup_app_l_Some].
  unfold set_tokens. cbn. unfold array. rewrite insert_app_l by (by apply Hs). do 4 f_equal.
  apply list_eq. intros j. destruct (decide (i = j)) as [<-|Hj].
  - rewrite list_lookup_insert_eq by (by apply Hs). by rewrite list_lookup_alter_eq, Et.
  - by rewrite list_lookup_insert_ne, list_lookup_alter_ne.
Qed.

Lemma length_bump sup ts : length (bump sup ts) = length ts.
Proof. destruct sup; [apply length_alter|done]. Qed.

Lemma bump_app sup ts x : (∀ i, sup = Some i → (i < length ts)%nat) → bump sup (ts ++ [x]) = bump sup ts ++ [x].
Proof. intros Hs. destruct sup as [i|]; [|done]. cbn. apply alter_app_l. by apply Hs. Qed.

Lemma last_open_lt n ts i : last_open n ts = Some i → (i < n)%nat ∧ ∃ t, ts !! i = Some t ∧ is_open t = true.
Proof.
  induction n as [|n IH]; [done|]. cbn. destruct (ts !! n) as [t|] eqn:Et.
  - destruct (is_open t) eqn:Eo; [intros [= <-]; eauto|]. intros [? ?]%IH. split; [lia|done].
  - intros [? ?]%IH. split; [lia|done].
Qed.

Lemma find_open_spec n ts k p m sup : (n ≤ length ts)%nat →
  find_open n (Parser p m sup (array ts k)) = (Ret (Z.of_nat <$> last_open n ts), Parser p m sup (array ts k)).
Proof.
  induction n as [|n IH]; [done|]. intros Hn. cbn [find_open last_open].
  destruct (lookup_lt_is_Some_2 ts n ltac:(lia)) as [t Et]. rewrite Et.
  erewrite bind_Ret; [|apply token_at_spec; cbn [tokens]; unfold array; by apply lookup_app_l_Some].
  cbv beta. destruct (is_open t); [done|]. apply IH. lia.
Qed.

(** *** One character *)

(** The reference's answer, if [k] more tokens are enough for it. *)
Definition limited (t : ref_state) (k : nat) (r : jsmnerr_t * ref_state) : outcome jsmnerr_t * jsmn_parser :=
  let d := (length (r_toks r.2) - length (r_toks t))%nat in
  if (d <=? k)%nat then (Ret r.1, conc r.2 (k - d)) else (Ret JSMN_ERROR_NOMEM, conc t 0).

Lemma limited_same t k r : limited t k (r, t) = (Ret r, conc t k).
Proof. unfold limited. cbn [fst snd]. rewrite Nat.sub_diag. cbn. by rewrite Nat.sub_0_r. Qed.

(** One token more. *)
Lemma limited_one t k p sup ts x : length ts = length (r_toks t) →
  limited t k (JSMN_SUCCESS, Ref p sup (ts ++ [x])) =
  match k with
  | O => (Ret JSMN_ERROR_NOMEM, conc t 0)
  | S k => (Ret JSMN_SUCCESS, conc (Ref p sup (ts ++ [x])) k)
  end.
Proof.
  intros E. unfold limited. cbn [fst snd r_toks]. rewrite length_app, E. cbn [length].
  replace (length (r_toks t) + 1 - length (r_toks t))%nat with 1%nat by lia. destruct k as [|k]; [done|].
  cbn. by rewrite Nat.sub_0_r.
Qed.

Lemma s32_pos p : (p ≤ length js)%nat → s32 (Z.of_nat p) = Z.of_nat p.
Proof. intros Hp. apply to_signed_id; [lia|]. change (2 ^ (32 - 1)) with (2 ^ 31). lia. Qed.

Lemma u32_pos p : (p ≤ length js)%nat → u32 (Z.of_nat p) = Z.of_nat p.
Proof. intros Hp. apply u32_small. change (2 ^ 32) with 4294967296. change (2 ^ 31) with 2147483648 in Hlen. lia. Qed.

Lemma open_spec ty t k : ref_ok t → open_container ty (conc t k) = limited t k (JSMN_SUCCESS, ref_open ty t).
Proof.
  intros [Hpos Hsup _ _]. unfold ref_open. rewrite limited_one by (by rewrite length_bump). unfold open_container, conc.
  destruct t as [p sup ts]. cbn [r_pos r_super r_toks] in *. fold (array ts k).
  destruct k as [|k]; [by rewrite (bind_Ret _ _ _ _ _ (alloc_none _ _ ts))|].
  rewrite (bind_Ret _ _ _ _ _ (alloc_some _ _ ts k)).
  rewrite (bind_Ret _ _ _ _ _ (array_bump sup ts (S k) Hsup _ _)).
  erewrite bind_Ret; [|reflexivity]. cbn [pos]. rewrite s32_pos by done.
  erewrite bind_Ret; [|apply change_token_spec; cbn [tokens]; unfold array; apply list_lookup_middle; by rewrite length_bump].
  unfold set_tokens. cbn [pos toknext toksuper tokens type start end_ size fresh_token].
  rewrite <- (length_bump sup ts) at 2. rewrite array_insert.
  run_m. unfold set_toksuper. cbn [pos toknext toksuper tokens]. rewrite length_app, length_bump. cbn [length].
  do 2 f_equal; cbn [super_of]; lia.
Qed.

Lemma close_spec ty t k : ref_ok t → (r_pos t < length js)%nat → close_container ty (conc t k) = limited t k (ref_close ty t).
Proof.
  intros [_ Hsup _ _] Hpos. destruct t as [p sup ts]. unfold ref_close, close_container, conc. cbn [r_pos r_super r_toks] in *.
  fold (array ts k). erewrite bind_Ret; [|reflexivity]. cbn [toknext]. rewrite Nat2Z.id.
  erewrite bind_Ret; [|by apply find_open_spec]. destruct (last_open (length ts) ts) as [i|] eqn:Ei;
    cbn [fmap option_fmap option_map]; [|by rewrite limited_same].
  destruct (last_open_lt _ _ _ Ei) as (Hi & u & Eu & _). rewrite Eu. cbn [fmap option_fmap option_map].
  erewrite bind_Ret; [|apply token_at_spec; cbn [tokens]; unfold array; by apply lookup_app_l_Some].
  destruct (decide (type u = ty)) as [Ety|Ety].
  2:{ rewrite !bool_decide_eq_false_2 by (done || congruence). by rewrite limited_same. }
  rewrite !bool_decide_eq_true_2 by (done || congruence). erewrite bind_Ret; [|reflexivity]. erewrite bind_Ret; [|reflexivity].
  erewrite bind_Ret; [|apply change_token_spec; cbn [tokens set_toksuper]; unfold array; by apply lookup_app_l_Some].
  unfold set_tokens, set_toksuper. cbn [pos toknext toksuper tokens]. unfold array. rewrite insert_app_l by done.
  set (v := Tok (type u) (start u) (Z.of_nat (S p)) (size u)).
  replace (s32 (u32 (Z.of_nat p + 1))) with (Z.of_nat (S p)).
  2:{ replace (Z.of_nat p + 1) with (Z.of_nat (S p)) by lia. by rewrite u32_pos, s32_pos by lia. }
  fold v. assert (alter (λ t', Tok (type t') (start t') (Z.of_nat (S p)) (size t')) i ts = <[i := v]> ts) as ->.
  { apply list_eq. intros j. destruct (decide (i = j)) as [<-|Hj].
    - by rewrite list_lookup_insert_eq, list_lookup_alter_eq, Eu by done.
    - by rewrite list_lookup_insert_ne, list_lookup_alter_ne by done. }
  fold (array (<[i:=v]> ts) k). replace (Z.to_nat (Z.of_nat i + 1)) with (S i) by lia.
  erewrite bind_Ret; [|apply find_open_spec; rewrite length_insert; lia].
  assert (last_open (S i) (<[i := v]> ts) = last_open i (<[i := v]> ts)) as ->.
  { cbn [last_open]. rewrite list_lookup_insert_eq by done. unfold is_open, v. cbn [end_].
    replace (Z.of_nat (S p) =? -1) with false by (symmetry; apply Z.eqb_neq; lia). by rewrite andb_false_r. }
  unfold limited. cbn [fst snd r_toks]. rewrite length_insert, Nat.sub_diag. cbn [Nat.leb]. rewrite Nat.sub_0_r.
  unfold conc. cbn [r_pos r_super r_toks]. rewrite length_insert. fold (array (<[i:=v]> ts) k).
  by destruct (last_open i (<[i:=v]> ts)).
Qed.

(** A token for a string or a primitive that has been scanned to [q]. *)
Definition leaf_at (ty : jsmntype_t) (st en : nat) (q : Z) (t : ref_state) (k : nat) : outcome jsmnerr_t * jsmn_parser :=
  match k with
  | O => (Ret JSMN_ERROR_NOMEM, conc t 0)
  | S k => (Ret JSMN_SUCCESS, Parser q (Z.of_nat (S (length (r_toks t)))) (super_of (r_super t))
      (array (r_toks t ++ [Tok ty (Z.of_nat st) (Z.of_nat en) 0]) k))
  end.

Lemma leaf_counted ty st en p q t k m : ref_ok t → m (conc t k) = leaf_at ty st en (Z.of_nat q) t k → p = q →
  then_count m (conc t k) = limited t k (JSMN_SUCCESS, ref_leaf ty st en p t).
Proof.
  intros [_ Hsup _ _] E ->. unfold ref_leaf. rewrite limited_one by (by rewrite length_bump). unfold then_count.
  destruct k as [|k]; cbn [leaf_at] in E; rewrite (bind_Ret _ _ _ _ _ E); [done|].
  rewrite bool_decide_eq_true_2 by done.
  rewrite (bind_Ret _ _ _ _ _ (array_bump (r_super t) (r_toks t ++ [Tok ty (Z.of_nat st) (Z.of_nat en) 0]) k
    ltac:(intros i Hi; rewrite length_app; specialize (Hsup i Hi); lia) _ _)).
  rewrite bump_app by done. unfold conc. cbn [r_pos r_super r_toks]. rewrite length_app, length_bump, Nat.add_1_r. done.
Qed.

Lemma then_count_error m s r s' : r ≠ JSMN_SUCCESS → m s = (Ret r, s') → then_count m s = (Ret r, s').
Proof. intros Hr E. unfold then_count. rewrite (bind_Ret _ _ _ _ _ E). by rewrite bool_decide_eq_false_2. Qed.

Lemma conc_pos t k q : set_pos (Z.of_nat (r_pos t)) (set_pos q (conc t k)) = conc t k.
Proof. done. Qed.

Lemma prim_scan_length l n : prim_scan l = Some n → (n ≤ length l)%nat.
Proof.
  revert n. induction l as [|c l IH]; intros n; cbn; [intros [= <-]; done|].
  destruct (ends_primitive c); [intros [= <-]; lia|]. destruct (_ || _); [done|].
  destruct (prim_scan l) as [m|]; [|done]. cbn. intros [= <-]. specialize (IH m eq_refl). lia.
Qed.

Lemma prim_scan_bounds c l n : prim_scan (c :: l) = Some n → ends_primitive c = false → (1 ≤ n ≤ S (length l))%nat.
Proof.
  intros E Hc. pose proof (prim_scan_length _ _ E) as Hn. cbn [length] in Hn. split; [|done].
  cbn [prim_scan] in E. rewrite Hc in E. destruct (_ || _); [done|]. destruct (prim_scan l); [|done]. injection E as <-. lia.
Qed.

Lemma string_spec t k c l : ref_ok t → drop (r_pos t) js = c :: l →
  jsmn_parse_string js (conc t k) =
  match str_scan l with
  | (AtQuote, n) => leaf_at JSMN_STRING (S (r_pos t)) (S (r_pos t) + n) (Z.of_nat (S (r_pos t) + n)) t k
  | (BadEscape, _) => (Ret JSMN_ERROR_INVAL, conc t k)
  | (NoQuote, _) => (Ret JSMN_ERROR_PART, conc t k)
  end.
Proof.
  intros Hok E. destruct (drop_cons_at _ _ _ E) as (Hlt & El & _). set (p := r_pos t) in *.
  unfold jsmn_parse_string. erewrite bind_Ret; [|reflexivity]. cbn [conc pos]. fold p. rewrite s32_pos, u32_pos by lia.
  rewrite (bind_Ret _ _ _ _ _ (next_char_at (conc t k) p eq_refl Hlt)).
  destruct (scan_string_spec (length js) (S p) (set_pos (Z.of_nat (S p)) (conc t k)) ltac:(lia) ltac:(lia) eq_refl) as (q & Es & Hq).
  rewrite (bind_Ret _ _ _ _ _ Es). rewrite El in *. destruct (str_scan l) as [[] n]; [|done..]. cbn [fst snd] in *.
  destruct (Hq eq_refl) as (-> & Hn). unfold conc, set_pos. cbn [pos toknext toksuper tokens]. fold (array (r_toks t) k).
  destruct k as [|k]; [by rewrite (bind_Ret _ _ _ _ _ (alloc_none _ _ _))|].
  rewrite (bind_Ret _ _ _ _ _ (alloc_some _ _ _ k)). erewrite bind_Ret; [|reflexivity]. cbn [pos]. rewrite s32_pos by lia.
  unfold jsmn_fill_token.
  erewrite bind_Ret; [|apply change_token_spec; cbn [tokens]; unfold array; by apply list_lookup_middle].
  unfold set_tokens. cbn [tokens pos toknext toksuper]. rewrite array_insert. unfold leaf_at.
  by replace (Z.of_nat p + 1) with (Z.of_nat (S p)) by lia.
Qed.

Lemma primitive_spec t k c l : ref_ok t → drop (r_pos t) js = c :: l → ends_primitive c = false →
  jsmn_parse_primitive js (conc t k) =
  match prim_scan (c :: l) with
  | Some n => leaf_at JSMN_PRIMITIVE (r_pos t) (r_pos t + n) (Z.of_nat (r_pos t + n - 1)) t k
  | None => (Ret JSMN_ERROR_INVAL, conc t k)
  end.
Proof.
  intros Hok E Hc. destruct (drop_cons_at _ _ _ E) as (Hlt & El & _). set (p := r_pos t) in *.
  unfold jsmn_parse_primitive. erewrite bind_Ret; [|reflexivity]. cbn [conc pos]. fold p. rewrite s32_pos, u32_pos by lia.
  pose proof (scan_primitive_spec (length js) p (conc t k) ltac:(lia) ltac:(lia) eq_refl) as Hscan. rewrite E in Hscan.
  destruct (prim_scan (c :: l)) as [n|] eqn:En.
  2:{ destruct Hscan as (q & Es). by rewrite (bind_Ret _ _ _ _ _ Es). }
  destruct Hscan as (Hn & Es). rewrite (bind_Ret _ _ _ _ _ Es). cbn [negb].
  pose proof (prim_scan_bounds _ _ _ En Hc) as Hn0.
  unfold conc, set_pos. cbn [pos toknext toksuper tokens]. fold (array (r_toks t) k).
  destruct k as [|k]; [by rewrite (bind_Ret _ _ _ _ _ (alloc_none _ _ _))|].
  rewrite (bind_Ret _ _ _ _ _ (alloc_some _ _ _ k)). erewrite bind_Ret; [|reflexivity]. cbn [pos]. rewrite s32_pos by lia.
  unfold jsmn_fill_token.
  erewrite bind_Ret; [|apply change_token_spec; cbn [tokens]; unfold array; by apply list_lookup_middle].
  unfold set_tokens. cbn [tokens pos toknext toksuper]. rewrite array_insert. unfold leaf_at. run_m.
  cbn [pos toknext toksuper tokens]. replace (Z.of_nat (p + n) - 1) with (Z.of_nat (p + n - 1)) by lia. by rewrite u32_pos by lia.
Qed.

Lemma step_spec t k c l : ref_ok t → drop (r_pos t) js = c :: l → step js c (conc t k) = limited t k (ref_step c l t).
Proof.
  intros Hok E. destruct (drop_cons_at _ _ _ E) as (Hlt & _). unfold step, ref_step.
  destruct (c =? 123) eqn:E1; [by apply open_spec|]. destruct (c =? 91) eqn:E2; [by apply open_spec|].
  destruct (c =? 125) eqn:E3; [by apply close_spec|]. destruct (c =? 93) eqn:E4; [by apply close_spec|].
  destruct (c =? 34) eqn:E5.
  { pose proof (string_spec t k c l Hok E) as Es. destruct (str_scan l) as [[] n].
    - eapply leaf_counted; [done|exact Es|done].
    - rewrite limited_same. by eapply then_count_error.
    - rewrite limited_same. by eapply then_count_error. }
  destruct (is_blank c || (c =? 58) || (c =? 44)) eqn:E6; [by rewrite limited_same|].
  pose proof (primitive_spec t k c l Hok E) as Ep. destruct (prim_scan (c :: l)) as [n|].
  - eapply leaf_counted; [done|apply Ep|done]. unfold ends_primitive. by rewrite E6, E3, E4.
  - rewrite limited_same. eapply then_count_error; [done|apply Ep]. unfold ends_primitive. by rewrite E6, E3, E4.
Qed.

(** *** The reference's invariant *)

Lemma token_ok_mono p q t : (p ≤ q)%nat → token_ok p t → token_ok q t.
Proof. unfold token_ok. intros ? (? & ? & ?). repeat split; lia. Qed.

Lemma bump_ok p sup ts : Forall (token_ok p) ts → Forall (token_ok p) (bump sup ts).
Proof.
  intros H. destruct sup as [i|]; [|done]. apply Forall_alter; [done|]. unfold token_ok. cbn. intros x _ (? & ? & ?). repeat split; lia.
Qed.

(** A step that succeeds: where it goes on. *)
Definition stepped (t t' : ref_state) : Prop :=
  (r_pos t ≤ r_pos t' < length js)%nat ∧ ref_ok (ref_next t') ∧
  (length (r_toks t) ≤ length (r_toks t') ≤ S (length (r_toks t)))%nat.

Lemma leaf_stepped ty st en p t :
  ref_ok t → (r_pos t ≤ p < length js)%nat → (st ≤ en ≤ S p)%nat → stepped t (ref_leaf ty st en p t).
Proof.
  intros [Hpos Hsup Htoks Hcount] Hp Hst. unfold stepped, ref_leaf. cbn [r_pos r_toks]. rewrite length_app, length_bump. cbn [length].
  split; [done|]. split; [|lia]. split; cbn [ref_next r_pos r_super r_toks].
  - lia.
  - intros i Hi. rewrite length_app, length_bump. specialize (Hsup i Hi). lia.
  - apply Forall_app. split.
    + apply bump_ok. eapply Forall_impl; [exact Htoks|]. intros x. apply token_ok_mono. lia.
    + constructor; [|done]. unfold token_ok. cbn. repeat split; lia.
  - rewrite length_app, length_bump. cbn [length]. lia.
Qed.

Lemma open_stepped ty t : ref_ok t → (r_pos t < length js)%nat → stepped t (ref_open ty t).
Proof.
  intros [Hpos Hsup Htoks Hcount] Hp. unfold stepped, ref_open. cbn [r_pos r_toks]. rewrite length_app, length_bump. cbn [length].
  split; [lia|]. split; [|lia]. split; cbn [ref_next r_pos r_super r_toks].
  - lia.
  - intros i [= <-]. rewrite length_app, length_bump. cbn. lia.
  - apply Forall_app. split.
    + apply bump_ok. eapply Forall_impl; [exact Htoks|]. intros x. apply token_ok_mono. lia.
    + constructor; [|done]. unfold token_ok. cbn. repeat split; lia.
  - rewrite length_app, length_bump. cbn [length]. lia.
Qed.

Lemma close_stepped ty t t' : ref_ok t → (r_pos t < length js)%nat → ref_close ty t = (JSMN_SUCCESS, t') → stepped t t'.
Proof.
  intros [Hpos Hsup Htoks Hcount] Hp. unfold ref_close. destruct (last_open _ _) as [i|] eqn:Ei; [|done].
  case_bool_decide as Ety; [|done]. intros [= <-]. unfold stepped. cbn [r_pos r_toks]. rewrite length_alter.
  split; [lia|]. split; [|lia]. split; cbn [ref_next r_pos r_super r_toks].
  - lia.
  - intros j Hj%last_open_lt. rewrite length_alter. apply last_open_lt in Ei. lia.
  - apply Forall_alter.
    + eapply Forall_impl; [exact Htoks|]. intros x. apply token_ok_mono. lia.
    + intros x _. unfold token_ok. cbn. intros (? & ? & ?). repeat split; lia.
  - rewrite length_alter. lia.
Qed.

Lemma str_scan_length l n : str_scan l = (AtQuote, n) → (n < length l)%nat.
Proof.
  revert n. induction l as [l IH] using (induction_ltof1 _ (@length Z)). unfold ltof in IH. intros n.
  destruct l as [|c l]; cbn; [done|]. destruct (c =? 34); [intros [= <-]; lia|]. destruct (c =? 92).
  - destruct l as [|d l]; [done|]. destruct (is_escape d); [|done]. destruct (str_scan l) as [e m] eqn:E. cbn.
    intros [= -> <-]. specialize (IH l ltac:(cbn; lia) m E). cbn. lia.
  - destruct (str_scan l) as [e m] eqn:E. cbn. intros [= -> <-]. specialize (IH l ltac:(cbn; lia) m E). lia.
Qed.

Lemma ref_step_ok c l t t' : ref_ok t → drop (r_pos t) js = c :: l → ref_step c l t = (JSMN_SUCCESS, t') → stepped t t'.
Proof.
  intros Hok E. destruct (drop_cons_at _ _ _ E) as (Hlt & El & _).
  assert (length l = length js - S (r_pos t))%nat as Hl by (by rewrite <- El, length_drop).
  unfold ref_step. repeat case_match; try done; try (intros [= <-]).
  - by apply open_stepped.
  - by apply open_stepped.
  - by apply close_stepped.
  - by apply close_stepped.
  - match goal with H : str_scan l = _ |- _ => apply str_scan_length in H end. apply leaf_stepped; [done|lia..].
  - destruct Hok as [? Hsup Htoks ?]. split; [lia|]. split; [|lia]. split; cbn [ref_next r_pos r_super r_toks]; [lia|done| |lia].
    eapply Forall_impl; [exact Htoks|]. intros x. apply token_ok_mono. lia.
  - match goal with H : prim_scan (c :: l) = _ |- _ => apply prim_scan_bounds in H; [apply leaf_stepped; [done|lia..]|] end.
    unfold ends_primitive. repeat match goal with H : _ = false |- _ => rewrite H; clear H end. done.
Qed.

(** *** The whole text *)

Lemma ref_step_error c l t r t' : ref_step c l t = (r, t') → r ≠ JSMN_SUCCESS → t' = t.
Proof.
  unfold ref_step, ref_close. repeat case_match; intros [= <- <-]; done.
Qed.

Lemma ref_loop_fuel t m n : ref_ok t → (length js - r_pos t ≤ m)%nat → (length js - r_pos t ≤ n)%nat →
  ref_loop js m t = ref_loop js n t.
Proof.
  revert t n. induction m as [|m IH]; intros t n Hok Hm Hn; destruct n as [|n]; cbn [ref_loop];
    (destruct (drop (r_pos t) js) as [|c l] eqn:E; [done|]); destruct (drop_cons_at _ _ _ E) as (Hlt & _); try lia.
  destruct (ref_step c l t) as [[] t'] eqn:Es; try done.
  destruct (ref_step_ok _ _ _ _ Hok E Es) as (Hp & Hok' & _). apply IH; cbn [ref_next r_pos]; (done || lia).
Qed.

(** The tokeniser's result from a state on. *)
Definition ref_run (t : ref_state) : jsmnerr_t * ref_state := ref_loop js (length js) t.

Lemma ref_run_step t c l : ref_ok t → drop (r_pos t) js = c :: l →
  ref_run t = match ref_step c l t with (JSMN_SUCCESS, t') => ref_run (ref_next t') | r => r end.
Proof.
  intros Hok E. destruct (drop_cons_at _ _ _ E) as (Hlt & _). unfold ref_run.
  rewrite (ref_loop_fuel t _ (S (length js)) Hok) by lia. cbn [ref_loop]. rewrite E.
  by destruct (ref_step c l t) as [[] t'].
Qed.

Lemma ref_run_end t : drop (r_pos t) js = [] → ref_run t = (JSMN_SUCCESS, t).
Proof. intros E. unfold ref_run. destruct (length js); cbn [ref_loop]; by rewrite E. Qed.

Lemma ref_run_grows t : ref_ok t → (length (r_toks t) ≤ length (r_toks (ref_run t).2))%nat ∧
  (length (r_toks (ref_run t).2) ≤ length js)%nat.
Proof.
  remember (length js - r_pos t)%nat as n eqn:En. revert t En. induction n as [n IH] using lt_wf_ind. intros t En Hok.
  destruct (drop (r_pos t) js) as [|c l] eqn:E.
  { rewrite ref_run_end by done. destruct Hok. cbn. lia. }
  destruct (drop_cons_at _ _ _ E) as (Hlt & _). rewrite (ref_run_step t c l Hok E). destruct (ref_step c l t) as [r t'] eqn:Es.
  destruct (decide (r = JSMN_SUCCESS)) as [->|Hr].
  - destruct (ref_step_ok _ _ _ _ Hok E Es) as (Hp & Hok' & Hg). destruct (IH (length js - S (r_pos t'))%nat ltac:(lia) (ref_next t') eq_refl Hok') as [H1 H2].
    cbn [ref_next r_toks] in *. lia.
  - rewrite (ref_step_error _ _ _ _ _ Es Hr). destruct Hok. destruct r; cbn; (done || lia).
Qed.

Lemma ref_run_ok t : ref_ok t → ref_ok (ref_run t).2.
Proof.
  remember (length js - r_pos t)%nat as n eqn:En. revert t En. induction n as [n IH] using lt_wf_ind. intros t En Hok.
  destruct (drop (r_pos t) js) as [|c l] eqn:E; [by rewrite ref_run_end|].
  destruct (drop_cons_at _ _ _ E) as (Hlt & _). rewrite (ref_run_step t c l Hok E). destruct (ref_step c l t) as [r t'] eqn:Es.
  destruct (decide (r = JSMN_SUCCESS)) as [->|Hr].
  - destruct (ref_step_ok _ _ _ _ Hok E Es) as (Hp & Hok' & Hg). by apply (IH (length js - S (r_pos t'))%nat); [lia| |].
  - rewrite (ref_step_error _ _ _ _ _ Es Hr). by destruct r.
Qed.

(** What an array with room for [room] tokens makes of the rest of the text. *)
Definition answers_ref (room : nat) (t : ref_state) (r : jsmnerr_t * ref_state) (o : outcome jsmnerr_t * jsmn_parser) : Prop :=
  if (length (r_toks r.2) <=? room)%nat then o = (Ret r.1, conc r.2 (room - length (r_toks r.2)))
  else ∃ u, o = (Ret JSMN_ERROR_NOMEM, conc u 0) ∧ ref_ok u ∧ length (r_toks u) = room ∧ ref_run u = ref_run t.

Lemma parse_loop_spec fuel t k : ref_ok t → (length js - r_pos t ≤ fuel)%nat →
  answers_ref (length (r_toks t) + k) t (ref_run t) (parse_loop js fuel (conc t k)).
Proof.
  revert t k. induction fuel as [|fuel IH]; intros t k Hok Hf; cbn [parse_loop];
    rewrite (bind_Ret _ _ _ _ _ (here_at (conc t k) (r_pos t) eq_refl (ok_pos t Hok)));
    destruct (drop (r_pos t) js) as [|c l] eqn:E.
  1, 3: rewrite ref_run_end by done; unfold answers_ref; cbn [fst snd]; rewrite (proj2 (Nat.leb_le _ _)) by lia;
    rewrite Z.eqb_refl; cbn; do 2 f_equal; lia.
  1: { destruct (drop_cons_at _ _ _ E). lia. }
  destruct (drop_cons_at _ _ _ E) as (Hlt & _ & Hc). rewrite (proj2 (Z.eqb_neq _ _)) by done.
  pose proof (step_spec t k c l Hok E) as Estep. pose proof (ref_run_step t c l Hok E) as Erun.
  destruct (ref_step c l t) as [r t'] eqn:Es. destruct (decide (r = JSMN_SUCCESS)) as [->|Hr].
  2:{ rewrite (ref_step_error _ _ _ _ _ Es Hr) in *. rewrite limited_same in Estep. rewrite (bind_Ret _ _ _ _ _ Estep).
      rewrite bool_decide_eq_false_2 by done. assert (ref_run t = (r, t)) as -> by (rewrite Erun; by destruct r).
      unfold answers_ref. cbn [fst snd]. rewrite (proj2 (Nat.leb_le _ _)) by lia. cbn. do 2 f_equal. lia. }
  destruct (ref_step_ok _ _ _ _ Hok E Es) as ([Hp Hp'] & Hok' & Hg).
  unfold limited in Estep. cbn [fst snd] in Estep. destruct (Nat.leb_spec (length (r_toks t') - length (r_toks t)) k) as [Hk|Hk].
  - rewrite (bind_Ret _ _ _ _ _ Estep). rewrite bool_decide_eq_true_2 by done.
    rewrite (bind_Ret _ _ _ _ _ (next_char_at (conc t' _) (r_pos t') eq_refl Hp')).
    specialize (IH (ref_next t') (k - (length (r_toks t') - length (r_toks t)))%nat Hok' ltac:(cbn [ref_next r_pos]; lia)).
    unfold answers_ref in *. rewrite Erun. cbn [ref_next r_toks] in IH.
    replace (length (r_toks t') + (k - (length (r_toks t') - length (r_toks t))))%nat with (length (r_toks t) + k)%nat in IH by lia.
    exact IH.
  - rewrite (bind_Ret _ _ _ _ _ Estep). rewrite bool_decide_eq_false_2 by done. unfold answers_ref.
    pose proof (ref_run_grows (ref_next t') Hok') as [Hgrow _]. cbn [ref_next r_toks] in Hgrow.
    assert (length (r_toks (ref_run t).2) <=? length (r_toks t) + k = false)%nat as -> by (apply Nat.leb_gt; rewrite Erun; lia).
    exists t. split; [done|]. split; [done|]. split; [lia|done].
Qed.

(** A parser at [t], in an array with room for the tokens [junk]. *)
Definition parser_at (t : ref_state) (junk : list jsmntok_t) : jsmn_parser :=
  Parser (Z.of_nat (r_pos t)) (Z.of_nat (length (r_toks t))) (super_of (r_super t)) (r_toks t ++ junk).

Lemma reset_parser_at t junk : reset_tokens (parser_at t junk) = conc t (length junk).
Proof.
  unfold reset_tokens, conc, parser_at, set_tokens. cbn [pos toknext toksuper tokens]. rewrite Nat2Z.id, take_app_length, length_app.
  by replace (length (r_toks t) + length junk - length (r_toks t))%nat with (length junk) by lia.
Qed.

Lemma jsmn_parse_spec t junk : ref_ok t →
  answers_ref (length (r_toks t) + length junk) t (ref_finish (ref_run t)) (jsmn_parse js (parser_at t junk)).
Proof.
  intros Hok. unfold jsmn_parse. erewrite bind_Ret; [|reflexivity]. rewrite reset_parser_at.
  pose proof (parse_loop_spec (length js) t (length junk) Hok ltac:(lia)) as H. unfold answers_ref in *.
  assert ((ref_finish (ref_run t)).2 = (ref_run t).2) as -> by (by destruct (ref_run t) as [[] ?]).
  destruct (_ <=? _)%nat.
  2:{ destruct H as (u & E & Hu). exists u. split; [|done]. by rewrite (bind_Ret _ _ _ _ _ E). }
  rewrite (bind_Ret _ _ _ _ _ H). destruct (ref_run t) as [r t']. cbn [fst snd].
  destruct (decide (r = JSMN_SUCCESS)) as [->|Hr]; [|rewrite bool_decide_eq_false_2 by done; by destruct r].
  rewrite bool_decide_eq_true_2 by done. erewrite bind_Ret; [|reflexivity]. cbn [conc toknext]. rewrite Nat2Z.id.
  erewrite bind_Ret; [|by apply find_open_spec]. cbn [ref_finish fst]. by destruct (last_open _ _).
Qed.
End refinement.

Lemma ref_init_ok js : ref_ok js ref_init.
Proof. split; cbn; [lia|done|constructor|lia]. Qed.

Lemma ref_finish_state r : (ref_finish r).2 = r.2.
Proof. by destruct r as [[] ?]. Qed.

Lemma last_open_none n ts : last_open n ts = None → (n ≤ length ts)%nat → Forall (λ t, is_open t = false) (take n ts).
Proof.
  induction n as [|n IH]; intros E Hn; [done|]. cbn [last_open] in E. destruct (lookup_lt_is_Some_2 ts n ltac:(lia)) as [t Et].
  rewrite Et in E. destruct (is_open t) eqn:Eo; [done|]. rewrite (take_S_r _ _ _ Et). apply Forall_app. split; [apply IH; [done|lia]|].
  by constructor.
Qed.

(** C16: called on a text and an array in any state an earlier call can have left,
    the tokeniser neither reads outside the text nor writes outside the array, and
    ends.  If the tokens of the text fit the array it gives the result and the
    tokens of the reference, which lie in the text, are all closed on success and
    are not more than the characters; else it fills the array, says so, and leaves a
    state from which a call with a larger array gives what that array would have
    given at first. *)
Theorem jsmn_parse_refines (js : list Z) (t : ref_state) (junk : list jsmntok_t) :
  0 ∉ js → Z.of_nat (length js) < 2 ^ 31 → ref_ok js t →
  let r := ref_finish (ref_run js t) in
  let room := (length (r_toks t) + length junk)%nat in
  ((length (r_toks r.2) ≤ room)%nat →
    jsmn_parse js (parser_at t junk) = (Ret r.1, parser_at r.2 (replicate (room - length (r_toks r.2)) fresh_token)) ∧
    (length (r_toks r.2) ≤ length js)%nat ∧ Forall (token_ok (length js)) (r_toks r.2) ∧
    (r.1 = JSMN_SUCCESS → Forall (λ t, is_open t = false) (r_toks r.2))) ∧
  ((room < length (r_toks r.2))%nat →
    ∃ u, jsmn_parse js (parser_at t junk) = (Ret JSMN_ERROR_NOMEM, parser_at u []) ∧ ref_ok js u ∧ length (r_toks u) = room ∧
      ref_run js u = ref_run js t).
Proof.
  intros Hjs Hlen Hok r room. pose proof (jsmn_parse_spec js Hjs Hlen t junk Hok) as H. unfold answers_ref in H. fold r room in H.
  pose proof (ref_run_ok js Hjs Hlen t Hok) as Hrun. pose proof (ref_run_grows js Hjs Hlen t Hok) as [_ Hcount].
  assert (r.2 = (ref_run js t).2) as Er by apply ref_finish_state. rewrite <- Er in *. split; intros Hroom.
  - rewrite (proj2 (Nat.leb_le _ _) Hroom) in H. split; [exact H|]. split; [done|]. split.
    + eapply Forall_impl; [apply (ok_toks _ _ Hrun)|]. intros x. apply token_ok_mono; [done..|]. apply (ok_pos _ _ Hrun).
    + unfold r, ref_finish in *. destruct (ref_run js t) as [[] u]; cbn [fst snd] in *; try done.
      destruct (last_open _ _) eqn:E; [done|]. intros _. pose proof (last_open_none _ _ E (le_n _)) as Hall.
      by rewrite take_ge in Hall.
  - rewrite (proj2 (Nat.leb_gt _ _) Hroom) in H. destruct H as (u & E & Hu & Hlu & Hrunu). exists u. split; [exact E|done].
Qed.

(** ** Witnesses *)

(** The text {a:[1,2 in an array of two tokens, and with four more. *)
Definition demo_text : list Z := [123; 97; 58; 91; 49; 44; 50].

Lemma jsmn_parse_refines_witness :
  ∃ u, jsmn_parse demo_text (Parser 0 0 (-1) [fresh_token; fresh_token]) = (Ret JSMN_ERROR_NOMEM, parser_at u []) ∧
    jsmn_parse demo_text (parser_at u (replicate 4 fresh_token)) =
      (Ret JSMN_ERROR_PART, parser_at (ref_run demo_text ref_init).2 [fresh_token]).
Proof.
  destruct (jsmn_parse_refines demo_text ref_init [fresh_token; fresh_token] ltac:(by apply (bool_decide_unpack _))
    ltac:(by vm_compute) (ref_init_ok _)) as [_ H].
  destruct H as (u & E & Hok & Hlu & Erun); [vm_compute; lia|]. exists u. split; [exact E|].
  destruct (jsmn_parse_refines demo_text u (replicate 4 fresh_token) ltac:(by apply (bool_decide_unpack _))
    ltac:(by vm_compute) Hok) as [H _].
  rewrite Erun, Hlu in H. apply H. by vm_compute; lia.
Defined.
