(* ===== verification/Json.v ===== *)
(** * Printed JSON, tokenised

    JSON values, how they are printed without spaces, and the tokens of a printed
    value: what [Jsmn]'s tokeniser must find in it. *)

From S2P Require Export Jsmn.

Inductive json :=
| JPrimitive (s : list Z)
| JString (s : list Z)
| JArray (l : list json)
| JObject (l : list (list Z * json)).

Section json_ind.
Context (P : json → Prop).
Context (Hprim : ∀ s, P (JPrimitive s)) (Hstr : ∀ s, P (JString s)).
Context (Harr : ∀ l, Forall P l → P (JArray l)) (Hobj : ∀ l, Forall (λ m, P m.2) l → P (JObject l)).

Fixpoint json_rect_nested (v : json) : P v :=
  match v with
  | JPrimitive s => Hprim s
  | JString s => Hstr s
  | JArray l => Harr l ((fix go l := match l return Forall P l with
      | [] => Forall_nil_2 _
      | v :: l => Forall_cons_2 _ _ _ (json_rect_nested v) (go l)
      end) l)
  | JObject l => Hobj l ((fix go l := match l return Forall (λ m, P m.2) l with
      | [] => Forall_nil_2 _
      | m :: l => Forall_cons_2 _ _ _ (json_rect_nested m.2) (go l)
      end) l)
  end.
End json_ind.

Definition quote (s : list Z) : list Z := 34 :: s ++ [34].

(** Pieces with the character behind each, but for the last. *)
Fixpoint join (l : list (list Z * Z)) : list Z :=
  match l with
  | [] => []
  | [x] => x.1
  | x :: l => x.1 ++ x.2 :: join l
  end.

Fixpoint print (v : json) : list Z :=
  match v with
  | JPrimitive s => s
  | JString s => quote s
  | JArray l => 91 :: join ((λ v, (print v, 44)) <$> l) ++ [93]
  | JObject l => 123 :: join (concat ((λ m, [(quote m.1, 58); (print m.2, 44)]) <$> l)) ++ [125]
  end.

(** The tokens of pieces printed from position [p] on, by the tokens and the text
    of each. *)
Fixpoint place (p : nat) (l : list ((nat → list jsmntok_t) * list Z)) : list jsmntok_t :=
  match l with
  | [] => []
  | x :: l => x.1 p ++ place (p + length x.2 + 1) l
  end.

Definition leaf (ty : jsmntype_t) (st en : nat) : jsmntok_t := Tok ty (Z.of_nat st) (Z.of_nat en) 0.
Definition string_tokens (s : list Z) (p : nat) : list jsmntok_t := [leaf JSMN_STRING (S p) (S p + length s)].

(** The tokens of a value printed from [p] on. *)
Fixpoint tokens_of (v : json) (p : nat) : list jsmntok_t :=
  match v with
  | JPrimitive s => [leaf JSMN_PRIMITIVE p (p + length s)]
  | JString s => string_tokens s p
  | JArray l =>
      Tok JSMN_ARRAY (Z.of_nat p) (Z.of_nat (p + length (print v))) (Z.of_nat (length l)) ::
      place (S p) ((λ v, (tokens_of v, print v)) <$> l)
  | JObject l =>
      Tok JSMN_OBJECT (Z.of_nat p) (Z.of_nat (p + length (print v))) (Z.of_nat (2 * length l)) ::
      place (S p) (concat ((λ m, [(string_tokens m.1, quote m.1); (tokens_of m.2, print m.2)]) <$> l))
  end.

(** What may stand between quotes, and what is a primitive. *)
Fixpoint body_ok (s : list Z) : bool :=
  match s with
  | [] => true
  | c :: s =>
      if c =? 92 then match s with d :: s => is_escape d && body_ok s | [] => false end
      else negb (c =? 34) && negb (c =? 0) && body_ok s
  end.

Definition plain (c : Z) : bool := (32 <=? c) && (c <? 127) && negb (ends_primitive c).

Definition primitive_ok (s : list Z) : bool :=
  match s with c :: _ => negb ((c =? 123) || (c =? 91) || (c =? 34)) && forallb plain s | [] => false end.

Fixpoint json_ok (v : json) : bool :=
  match v with
  | JPrimitive s => primitive_ok s
  | JString s => body_ok s
  | JArray l => forallb json_ok l
  | JObject l => forallb (λ m, body_ok m.1 && json_ok m.2) l
  end.

(** ** Scanning what was printed *)

Lemma str_scan_body s l : body_ok s = true → str_scan (s ++ 34 :: l) = (AtQuote, length s).
Proof.
  induction s as [s IH] using (induction_ltof1 _ (@length Z)). unfold ltof in IH. destruct s as [|c s]; [done|].
  cbn [body_ok app str_scan length]. destruct (c =? 92) eqn:E92.
  - apply Z.eqb_eq in E92 as ->. destruct s as [|d s]; [done|]. intros [Hd Hs]%andb_prop. cbn -[is_escape str_scan].
    rewrite Hd. by rewrite (IH s) by (cbn; lia || done).
  - intros [[H34 _]%andb_prop Hs]%andb_prop. apply negb_true_iff in H34 as ->. by rewrite (IH s) by (cbn; lia || done).
Qed.

(** What follows ends a primitive. *)
Definition stops (l : list Z) : bool := match l with c :: _ => ends_primitive c | [] => true end.

Lemma prim_scan_plain s l : forallb plain s = true → stops l = true → prim_scan (s ++ l) = Some (length s).
Proof.
  intros Hs Hl. induction s as [|c s IH]; cbn [app prim_scan length].
  - destruct l as [|c l]; [done|]. cbn in Hl |- *. by rewrite Hl.
  - cbn in Hs. apply andb_prop in Hs as [Hc Hs]. unfold plain in Hc. apply andb_prop in Hc as [[H1 H2]%andb_prop H3].
    apply negb_true_iff in H3 as ->. rewrite (to_signed_id 8 c) by (change (2 ^ (8 - 1)) with 128; lia).
    rewrite (proj2 (Z.ltb_ge c 32)), (proj2 (Z.leb_gt 127 c)) by lia. cbn [orb]. by rewrite IH.
Qed.

(** ** The run of the tokeniser over printed text *)

Definition closed (t : jsmntok_t) : Prop := is_open t = false.

Lemma closed_token ty p q n : closed (Tok ty (Z.of_nat p) (Z.of_nat q) n).
Proof. unfold closed, is_open. cbn. rewrite (proj2 (Z.eqb_neq (Z.of_nat q) _)) by lia. apply andb_false_r. Qed.

(** A separator. *)
Definition separator (c : Z) : Prop := c = 44 ∨ c = 58.

Lemma last_open_app_closed n ts done : (n ≤ length ts)%nat → last_open n (ts ++ done) = last_open n ts.
Proof.
  induction n as [|n IH]; intros Hn; [done|]. cbn [last_open]. rewrite lookup_app_l by lia. rewrite IH by lia. done.
Qed.

Lemma last_open_closed ts done : Forall closed done →
  last_open (length (ts ++ done)) (ts ++ done) = last_open (length ts) ts.
Proof.
  intros Hd. induction done as [|x done IH] using rev_ind; [by rewrite app_nil_r|].
  apply Forall_app in Hd as [Hd Hx]. apply Forall_cons in Hx as [Hx _].
  rewrite app_assoc, length_app, Nat.add_1_r. cbn [last_open]. rewrite list_lookup_middle by done. rewrite Hx.
  rewrite last_open_app_closed by done. by apply IH.
Qed.

(** The tokens in a container that is open: what was before it, it, its children. *)
Definition inside (pre : list jsmntok_t) (ty : jsmntype_t) (p : nat) (n : nat) (children : list jsmntok_t) : list jsmntok_t :=
  pre ++ Tok ty (Z.of_nat p) (-1) (Z.of_nat n) :: children.

Lemma bump_inside pre ty p n children : bump (Some (length pre)) (inside pre ty p n children) = inside pre ty p (S n) children.
Proof. unfold inside. cbn [bump]. rewrite alter_app_r_alt, Nat.sub_diag by done. cbn. do 3 f_equal. lia. Qed.

Lemma inside_super pre ty p n children : Forall closed children →
  last_open (length (inside pre ty p n children)) (inside pre ty p n children) = Some (length pre).
Proof.
  intros Hc. unfold inside. rewrite cons_middle, app_assoc, last_open_closed by done. rewrite length_app, Nat.add_1_r.
  cbn [last_open]. rewrite list_lookup_middle by done. unfold is_open. cbn. by rewrite (proj2 (Z.eqb_neq _ _)) by lia.
Qed.

Lemma inside_app pre ty p n children more : inside pre ty p n children ++ more = inside pre ty p n (children ++ more).
Proof. unfold inside. by rewrite <- app_assoc. Qed.

Lemma place_closed (l : list ((nat → list jsmntok_t) * list Z)) p : Forall (λ x, ∀ p, Forall closed (x.1 p)) l → Forall closed (place p l).
Proof. intros H. revert p. induction H as [|x l Hx _ IH]; intros p; cbn [place]; [constructor|]. apply Forall_app. auto. Qed.

Lemma last_open_bump n sup ts : last_open n (bump sup ts) = last_open n ts.
Proof.
  destruct sup as [i|]; [|done]. induction n as [|n IH]; [done|]. cbn [last_open bump]. cbn [bump] in IH. rewrite IH.
  destruct (decide (i = n)) as [<-|Hne]; [|by rewrite list_lookup_alter_ne].
  rewrite list_lookup_alter_eq. by destruct (ts !! i).
Qed.

Definition brackets (c : Z) (ty : jsmntype_t) (d : Z) : Prop :=
  (c = 123 ∧ ty = JSMN_OBJECT ∧ d = 125) ∨ (c = 91 ∧ ty = JSMN_ARRAY ∧ d = 93).

(** The end of a container: it is the innermost that is open. *)
Lemma close_inside pre ty p n children q :
  Forall closed children → ref_close ty (Ref q (Some (length pre)) (inside pre ty p n children)) =
  (JSMN_SUCCESS, Ref q (last_open (length pre) pre) (pre ++ Tok ty (Z.of_nat p) (Z.of_nat (S q)) (Z.of_nat n) :: children)).
Proof.
  intros Hc. unfold ref_close. cbn [r_pos r_super r_toks]. rewrite inside_super by done.
  unfold inside. rewrite list_lookup_middle by done. cbn [fmap option_fmap option_map type].
  rewrite bool_decide_eq_true_2 by done. rewrite alter_app_r_alt, Nat.sub_diag by done. cbn.
  by rewrite last_open_app_closed.
Qed.

(** The members of an object, as pieces. *)
Definition member_pieces (m : list Z * json) : list ((nat → list jsmntok_t) * list Z * Z) :=
  [(string_tokens m.1, quote m.1, 58); (tokens_of m.2, print m.2, 44)].

Lemma print_object l :
  print (JObject l) = 123 :: join ((λ x, (x.1.2, x.2)) <$> concat (member_pieces <$> l)) ++ [125].
Proof.
  cbn [print]. do 3 f_equal. induction l as [|m l IH]; [done|]. cbn [fmap list_fmap concat]. rewrite fmap_app. by rewrite <- IH.
Qed.

Lemma tokens_of_object l p :
  tokens_of (JObject l) p = Tok JSMN_OBJECT (Z.of_nat p) (Z.of_nat (p + length (print (JObject l))))
    (Z.of_nat (length (concat (member_pieces <$> l)))) :: place (S p) (fst <$> concat (member_pieces <$> l)).
Proof.
  cbn [tokens_of]. f_equal.
  - f_equal. f_equal. induction l as [|m l IH]; [done|]. cbn [fmap list_fmap concat]. rewrite length_app, <- IH. cbn. lia.
  - f_equal. induction l as [|m l IH]; [done|]. cbn [fmap list_fmap concat]. rewrite fmap_app. by rewrite <- IH.
Qed.

Section run.
Context (js : list Z) (Hjs : 0 ∉ js) (Hlen : Z.of_nat (length js) < 2 ^ 31).

(** The tokeniser comes from one state to the other. *)
Definition comes_to (t t' : ref_state) : Prop := ref_ok js t → ref_ok js t' ∧ ref_run js t = ref_run js t'.

Lemma comes_to_trans t1 t2 t3 : comes_to t1 t2 → comes_to t2 t3 → comes_to t1 t3.
Proof. intros H1 H2 Hok. destruct (H1 Hok) as [Hok2 ->]. by apply H2. Qed.

Lemma comes_to_step t c l t' : drop (r_pos t) js = c :: l → ref_step c l t = (JSMN_SUCCESS, t') → comes_to t (ref_next t').
Proof.
  intros E Es Hok. destruct (ref_step_ok js Hjs c l t t' Hok E Es) as (_ & Hok' & _). split; [done|].
  rewrite (ref_run_step js Hjs t c l Hok E). by rewrite Es.
Qed.

Lemma drop_after p s rest : drop p js = s ++ rest → drop (p + length s) js = rest.
Proof. intros E. by rewrite <- drop_drop, E, drop_app_length. Qed.

Definition after (s : list Z) (tok : nat → list jsmntok_t) (t : ref_state) : ref_state :=
  Ref (r_pos t + length s) (r_super t) (bump (r_super t) (r_toks t) ++ tok (r_pos t)).

Definition super_ok (t : ref_state) : Prop := r_super t = last_open (length (r_toks t)) (r_toks t).

(** The text [s] is read as the tokens [tok], one child of what is around it. *)
Definition reads (s : list Z) (tok : nat → list jsmntok_t) : Prop :=
  (∀ p, Forall closed (tok p)) ∧
  ∀ t rest, drop (r_pos t) js = s ++ rest → stops rest = true → super_ok t → comes_to t (after s tok t).

Lemma reads_string s : body_ok s = true → reads (quote s) (string_tokens s).
Proof.
  intros Hs. split; [intros p; constructor; [apply closed_token|done]|]. intros t rest E _ _.
  assert (drop (r_pos t) js = 34 :: (s ++ 34 :: rest)) as E' by (rewrite E; unfold quote; cbn; by rewrite <- app_assoc).
  assert (ref_step 34 (s ++ 34 :: rest) t =
    (JSMN_SUCCESS, ref_leaf JSMN_STRING (S (r_pos t)) (S (r_pos t) + length s) (S (r_pos t) + length s) t)) as Es
    by (unfold ref_step; cbn [Z.eqb Pos.eqb]; by rewrite str_scan_body).
  pose proof (comes_to_step t _ _ _ E' Es) as H.
  replace (after (quote s) (string_tokens s) t) with (ref_next
    (ref_leaf JSMN_STRING (S (r_pos t)) (S (r_pos t) + length s) (S (r_pos t) + length s) t)); [done|].
  unfold after, ref_next, ref_leaf, quote. cbn [r_pos r_super r_toks length]. rewrite length_app. cbn [length]. f_equal. lia.
Qed.

Lemma reads_primitive s : primitive_ok s = true → reads s (λ p, [leaf JSMN_PRIMITIVE p (p + length s)]).
Proof.
  intros Hs. split; [intros p; constructor; [apply closed_token|done]|]. intros t rest E Hrest _.
  destruct s as [|c s]; [done|]. cbn [primitive_ok] in Hs. apply andb_prop in Hs as [Hc Hs]. apply negb_true_iff in Hc.
  apply orb_false_iff in Hc as [Hc H34]. apply orb_false_iff in Hc as [H123 H91].
  pose proof (prim_scan_plain (c :: s) rest Hs Hrest) as Hscan.
  assert (ref_step c (s ++ rest) t =
    (JSMN_SUCCESS, ref_leaf JSMN_PRIMITIVE (r_pos t) (r_pos t + length (c :: s)) (r_pos t + length (c :: s) - 1) t)) as Es.
  { cbn in Hs. apply andb_prop in Hs as [Hp _]. unfold plain in Hp. apply andb_prop in Hp as [_ Hp]. apply negb_true_iff in Hp.
    unfold ends_primitive in Hp. apply orb_false_iff in Hp as [Hp H125]. apply orb_false_iff in Hp as [Hp H93].
    unfold ref_step. rewrite H123, H91, H34, H125, H93, Hp.
    change (c :: s ++ rest) with ((c :: s) ++ rest). by rewrite Hscan. }
  pose proof (comes_to_step t _ _ _ E Es) as H.
  replace (after (c :: s) _ t) with (ref_next
    (ref_leaf JSMN_PRIMITIVE (r_pos t) (r_pos t + length (c :: s)) (r_pos t + length (c :: s) - 1) t)); [done|].
  unfold after, ref_next, ref_leaf. cbn [r_pos r_super r_toks length]. f_equal. lia.
Qed.

Lemma reads_ext s f g : reads s f → (∀ p, f p = g p) → reads s g.
Proof.
  intros [Hc H] E. split; [intros p; rewrite <- E; apply Hc|]. intros t rest Et Hrest Hsup. unfold after. rewrite <- E.
  by apply (H t rest).
Qed.

Lemma comes_over_separator t c l : drop (r_pos t) js = c :: l → separator c → comes_to t (ref_next t).
Proof. intros E Hc. eapply comes_to_step; [done|]. by destruct Hc as [-> | ->]. Qed.

(** The pieces of a container, one after the other. *)
Lemma reads_pieces (items : list ((nat → list jsmntok_t) * list Z * Z)) :
  Forall (λ x, reads x.1.2 x.1.1 ∧ separator x.2) items →
  ∀ pre ty p n children q rest, drop q js = join ((λ x, (x.1.2, x.2)) <$> items) ++ rest → stops rest = true →
  Forall closed children →
  comes_to (Ref q (Some (length pre)) (inside pre ty p n children))
    (Ref (q + length (join ((λ x, (x.1.2, x.2)) <$> items))) (Some (length pre))
      (inside pre ty p (n + length items) (children ++ place q (fst <$> items)))).
Proof.
  induction 1 as [|[[tok s] sep] items [[Hclosed Hreads] Hsep] _ IH]; intros pre ty p n children q rest E Hrest Hch.
  { cbn. rewrite !Nat.add_0_r, app_nil_r. intros Hok. by split. }
  cbn [fst snd] in Hclosed, Hreads, Hsep.
  assert (∀ rest', drop q js = s ++ rest' → stops rest' = true →
    comes_to (Ref q (Some (length pre)) (inside pre ty p n children))
      (Ref (q + length s) (Some (length pre)) (inside pre ty p (S n) (children ++ tok q)))) as H1.
  { intros rest' E' Hstop. pose proof (Hreads (Ref q (Some (length pre)) (inside pre ty p n children)) rest' E' Hstop
      ltac:(by apply symmetry, inside_super)) as H1.
    unfold after in H1. cbn [r_pos r_super r_toks] in H1. by rewrite bump_inside, inside_app in H1. }
  destruct items as [|y items].
  { cbn [fmap list_fmap join fst snd place length] in *. rewrite app_nil_r, Nat.add_1_r. by apply (H1 rest). }
  remember (y :: items) as items' eqn:Eitems.
  assert (join ((λ x, (x.1.2, x.2)) <$> (tok, s, sep) :: items') = s ++ sep :: join ((λ x, (x.1.2, x.2)) <$> items')) as Ejoin
    by (by rewrite Eitems).
  rewrite Ejoin in *. rewrite <- app_assoc in E. cbn [app] in E.
  assert (drop (S (q + length s)) js = join ((λ x, (x.1.2, x.2)) <$> items') ++ rest) as E3.
  { rewrite <- Nat.add_1_r. change 1%nat with (length [sep]). apply drop_after. by rewrite (drop_after _ _ _ E). }
  pose proof (IH pre ty p (S n) (children ++ tok q) (S (q + length s)) rest E3 Hrest ltac:(by apply Forall_app)) as H3.
  cbn [place fmap list_fmap fst snd]. replace (q + length s + 1)%nat with (S (q + length s)) by lia.
  eapply comes_to_trans; [apply (H1 _ E); by destruct Hsep as [-> | ->]|].
  eapply comes_to_trans; [eapply comes_over_separator; [exact (drop_after _ _ _ E)|exact Hsep]|].
  unfold ref_next. cbn [r_pos r_super r_toks]. rewrite length_app. cbn [length].
  replace (q + (length s + S (length (join ((λ x, (x.1.2, x.2)) <$> items')))))%nat with
    (S (q + length s) + length (join ((λ x, (x.1.2, x.2)) <$> items')))%nat by lia.
  rewrite Nat.add_succ_r. by rewrite <- app_assoc in H3.
Qed.

Lemma reads_container c ty d (items : list ((nat → list jsmntok_t) * list Z * Z)) :
  brackets c ty d → Forall (λ x, reads x.1.2 x.1.1 ∧ separator x.2) items →
  let text := c :: join ((λ x, (x.1.2, x.2)) <$> items) ++ [d] in
  reads text (λ p, Tok ty (Z.of_nat p) (Z.of_nat (p + length text)) (Z.of_nat (length items)) :: place (S p) (fst <$> items)).
Proof.
  intros Hb Hitems text. set (body := join _) in text.
  assert (∀ p, Forall closed (place p (fst <$> items))) as Hclosed.
  { intros p. apply place_closed. apply Forall_fmap. eapply Forall_impl; [exact Hitems|]. by intros x [[Hx _] _]. }
  split. { intros p. constructor; [apply closed_token|apply Hclosed]. }
  intros t rest E Hrest Hsup. set (pre := bump (r_super t) (r_toks t)). set (p := r_pos t) in *.
  assert (drop p js = c :: body ++ d :: rest) as E1 by (rewrite E; unfold text; cbn; by rewrite <- app_assoc).
  assert (ref_step c (body ++ d :: rest) t = (JSMN_SUCCESS, ref_open ty t)) as Eopen by (by destruct Hb as [(-> & -> & _)|(-> & -> & _)]).
  pose proof (comes_to_step t _ _ _ E1 Eopen) as H1. unfold ref_next, ref_open in H1. cbn [r_pos r_super r_toks] in H1.
  rewrite <- (length_bump (r_super t) (r_toks t)) in H1. fold pre p in H1.
  assert (drop (S p) js = body ++ d :: rest) as E2
    by (rewrite <- Nat.add_1_r; change 1%nat with (length [c]); by apply drop_after).
  pose proof (reads_pieces items Hitems pre ty p 0 [] (S p) (d :: rest) E2
    ltac:(by destruct Hb as [(_ & _ & ->)|(_ & _ & ->)]) ltac:(constructor)) as H2. fold body in H2.
  assert (ref_step d rest (Ref (S p + length body) (Some (length pre)) (inside pre ty p (0 + length items) (place (S p) (fst <$> items)))) =
    ref_close ty (Ref (S p + length body) (Some (length pre)) (inside pre ty p (0 + length items) (place (S p) (fst <$> items)))))
    as Eclose by (by destruct Hb as [(_ & -> & ->)|(_ & -> & ->)]).
  rewrite close_inside in Eclose by apply Hclosed.
  pose proof (comes_to_step (Ref (S p + length body) _ _) _ _ _ (drop_after _ _ _ E2) Eclose) as H3.
  assert (last_open (length pre) pre = r_super t) as Epre by (unfold pre; rewrite length_bump, last_open_bump; done).
  rewrite Epre in H3. unfold ref_next in H3. cbn [r_pos r_super r_toks] in H3.
  eapply comes_to_trans; [exact H1|]. eapply comes_to_trans; [exact H2|]. unfold after. fold p pre.
  replace (p + length text)%nat with (S (S p + length body)); [exact H3|].
  unfold text. cbn [length]. rewrite length_app. cbn. lia.
Qed.

Lemma reads_print v : json_ok v = true → reads (print v) (tokens_of v).
Proof.
  induction v as [s|s|l IH|l IH] using json_rect_nested; intros Hok.
  - by apply reads_primitive.
  - by apply reads_string.
  - pose proof (reads_container 91 JSMN_ARRAY 93 ((λ v, (tokens_of v, print v, 44)) <$> l) ltac:(by right)) as H. cbv zeta in H.
    rewrite <- !list_fmap_compose, length_fmap in H. apply H. apply Forall_fmap. cbn in Hok.
    rewrite forallb_forall in Hok. rewrite Forall_forall in IH |- *. intros v Hv. cbn. split; [|by left].
    apply IH; [done|]. apply Hok. by apply list_elem_of_In.
  - pose proof (reads_container 123 JSMN_OBJECT 125 (concat (member_pieces <$> l)) ltac:(by left)) as H. cbv zeta in H.
    rewrite <- print_object in H. eapply reads_ext; [|intros p; symmetry; apply tokens_of_object].
    apply H. apply Forall_concat. apply Forall_fmap. cbn in Hok. rewrite forallb_forall in Hok. rewrite Forall_forall in IH |- *.
    intros m Hm. specialize (IH m Hm). specialize (Hok m (proj1 (list_elem_of_In _ _) Hm)). apply andb_prop in Hok as [Hk Hv].
    constructor; [split; [by apply reads_string|by right]|]. constructor; [split; [by apply IH|by left]|constructor].
Qed.
End run.

(** ** A printed value has no zero byte *)

Lemma body_nonzero s : body_ok s = true → 0 ∉ s.
Proof.
  induction s as [s IH] using (induction_ltof1 _ (@length Z)). unfold ltof in IH. destruct s as [|c s]; [by intros _ ?%not_elem_of_nil|].
  cbn [body_ok]. destruct (c =? 92) eqn:E92.
  - apply Z.eqb_eq in E92 as ->. destruct s as [|d s]; [done|]. intros [Hd Hs]%andb_prop.
    apply not_elem_of_cons. split; [done|]. apply not_elem_of_cons. split; [by intros <-|]. by apply IH; [cbn; lia|].
  - intros [[_ H0]%andb_prop Hs]%andb_prop. apply negb_true_iff, Z.eqb_neq in H0.
    apply not_elem_of_cons. split; [congruence|]. by apply IH; [cbn; lia|].
Qed.

Lemma primitive_nonzero s : primitive_ok s = true → 0 ∉ s.
Proof.
  destruct s as [|c s]; [done|]. intros [_ Hs]%andb_prop. intros H0%list_elem_of_In.
  rewrite forallb_forall in Hs. by apply Hs in H0.
Qed.

Lemma join_elem x l : x ∈ join l → (∃ y, y ∈ l ∧ x ∈ y.1) ∨ ∃ y, y ∈ l ∧ x = y.2.
Proof.
  induction l as [|y l IH]; [by intros ?%not_elem_of_nil|]. destruct l as [|z l].
  - cbn [join]. intros Hx. left. exists y. split; [by left|done].
  - change (join (y :: z :: l)) with (y.1 ++ y.2 :: join (z :: l)). intros [Hx|[->|Hx]%elem_of_cons]%elem_of_app.
    + left. exists y. split; [by left|done].
    + right. exists y. split; [by left|done].
    + destruct (IH Hx) as [(u & Hu & Hxu)|(u & Hu & Hxu)]; [left|right]; exists u; (split; [by right|done]).
Qed.

Lemma quote_nonzero s : body_ok s = true → 0 ∉ quote s.
Proof.
  intros Hs. unfold quote. apply not_elem_of_cons. split; [done|]. apply not_elem_of_app. split; [by apply body_nonzero|].
  by intros [?|?%not_elem_of_nil]%elem_of_cons.
Qed.

Lemma container_nonzero c l d : c ≠ 0 → d ≠ 0 → Forall (λ x, 0 ∉ x.1 ∧ x.2 ≠ 0) l → 0 ∉ c :: join l ++ [d].
Proof.
  intros Hc Hd Hl. apply not_elem_of_cons. split; [congruence|]. apply not_elem_of_app. split.
  - rewrite Forall_forall in Hl. intros [(y & Hy & H0)|(y & Hy & H0)]%join_elem; destruct (Hl y Hy); congruence.
  - by intros [?|?%not_elem_of_nil]%elem_of_cons.
Qed.

Lemma print_nonzero v : json_ok v = true → 0 ∉ print v.
Proof.
  induction v as [s|s|l IH|l IH] using json_rect_nested; cbn [json_ok print]; intros Hok.
  - by apply primitive_nonzero.
  - by apply quote_nonzero.
  - apply container_nonzero; [done..|]. apply Forall_fmap. rewrite forallb_forall in Hok. rewrite Forall_forall in IH |- *.
    intros v Hv. cbn. split; [|done]. apply IH; [done|]. by apply Hok, list_elem_of_In.
  - apply container_nonzero; [done..|]. apply Forall_concat, Forall_fmap. rewrite forallb_forall in Hok. rewrite Forall_forall in IH |- *.
    intros m Hm. specialize (Hok m (proj1 (list_elem_of_In _ _) Hm)). apply andb_prop in Hok as [Hk Hv].
    constructor; [split; [by apply quote_nonzero|done]|]. constructor; [split; [by apply IH|done]|constructor].
Qed.

(** What the reference makes of a printed value. *)
Lemma ref_run_print (v : json) : json_ok v = true → Z.of_nat (length (print v)) < 2 ^ 31 →
  ref_finish (ref_run (print v) ref_init) = (JSMN_SUCCESS, Ref (length (print v)) None (tokens_of v 0)).
Proof.
  intros Hok Hlen. pose proof (print_nonzero v Hok) as Hnz.
  destruct (reads_print (print v) Hnz v Hok) as [Hclosed Hreads].
  destruct (Hreads ref_init [] (eq_sym (app_nil_r _)) eq_refl eq_refl (ref_init_ok _)) as [_ Erun].
  unfold after in Erun. cbn [ref_init r_pos r_super r_toks bump app] in Erun. rewrite Nat.add_0_l in Erun.
  rewrite (ref_run_end _ Hlen (Ref (length (print v)) None (tokens_of v 0))) in Erun by apply drop_all.
  rewrite Erun. unfold ref_finish. cbn [r_toks].
  change (tokens_of v 0) with ([] ++ tokens_of v 0) at 1 2. by rewrite last_open_closed by auto.
Qed.

(** C17: the text of any JSON value, arrays and objects nested in any way, with
    escaped characters in strings, is tokenised to the tokens of its parts in the
    order they are printed, each with its kind, where it starts and ends, and how
    many children it has, when the array has room for them. *)
Theorem jsmn_parses_printed (v : json) (junk : list jsmntok_t) :
  json_ok v = true → Z.of_nat (length (print v)) < 2 ^ 31 → (length (tokens_of v 0) ≤ length junk)%nat →
  jsmn_parse (print v) (Parser 0 0 (-1) junk) =
  (Ret JSMN_SUCCESS, Parser (Z.of_nat (length (print v))) (Z.of_nat (length (tokens_of v 0))) (-1)
    (tokens_of v 0 ++ replicate (length junk - length (tokens_of v 0)) fresh_token)).
Proof.
  intros Hok Hlen Hroom.
  pose proof (jsmn_parse_spec (print v) (print_nonzero v Hok) Hlen ref_init junk (ref_init_ok _)) as H. unfold answers_ref in H.
  rewrite (ref_run_print v Hok Hlen) in H. cbn [length fst snd r_toks ref_init Nat.add] in H.
  by rewrite (proj2 (Nat.leb_le _ _) Hroom) in H.
Qed.

(** An object with an array, an escaped quote and an empty object in it. *)
Definition demo_json : json :=
  JObject [([97], JArray [JPrimitive [49]; JString [120; 92; 34; 121]; JObject []]); ([98], JPrimitive [50])].

Lemma jsmn_parses_printed_witness :
  (jsmn_parse (print demo_json) (Parser 0 0 (-1) (replicate 9 fresh_token))).1 = Ret JSMN_SUCCESS ∧
  length (tokens_of demo_json 0) = 8%nat.
Proof.
  split; [|reflexivity]. by rewrite (jsmn_parses_printed demo_json (replicate 9 fresh_token) eq_refl ltac:(by vm_compute) ltac:(vm_compute; lia)).
Defined.
