(* ===== verification/Trending.v ===== *)
(** * Twitter trends

    Models the application [usr/app_twittertrending]: [TweetReader.cpp], which reads
    tweets from a file, [TweetFinder.cpp], which looks for the first hashtag in the
    text of each and sends hashtags on in batches, by their hash, and
    [WordCounter.cpp], which counts them.

    A text is the list of its bytes.  [std::hash] is an argument, and so is what
    [realloc] leaves in tokens that were not there before.  [buf] is taken to be the
    text of the message, as with the reference-counted strings of the time; by the
    standard it is the text of a copy that is gone ([TweetFinder.cpp:162]).
    [f_sent] and [r_sent] list what left through the output gates.  The counters
    that are only for show and not initialised are left out. *)

From S2P Require Export SerStream Json.
From S2P Require Import StdMap.

#[local] Instance outcome_ret : MRet outcome := λ A, Ret.
#[local] Instance outcome_bind : MBind outcome := λ A B f o,
  match o with Ret a => f a | Throw e => Throw e end.

(** ** [TweetReader] *)

Module TweetReader.

(** The file: what is left of it, and [eof()]. *)
Record reader := Reader {
  file : list Z; eof : bool; num_gates : Z; next_out_port : Z; m_msg_sent : Z; r_sent : list (Z * tweet)
}.

(** [getline]: up to the newline, which is taken; the flag is set at the end. *)
Fixpoint split_line (l : list Z) : list Z * list Z * bool :=
  match l with
  | [] => ([], [], true)
  | c :: l => if c =? 10 then ([], l, false) else let '(line, rest, e) := split_line l in (c :: line, rest, e)
  end.

Definition getline : M reader (list Z) := λ s,
  if eof s then (Ret [], s)
  else
    let '(line, rest, e) := split_line (file s) in
    (Ret line, Reader rest e (num_gates s) (next_out_port s) (m_msg_sent s) (r_sent s)).

Definition configure {N} `{XmlNode N} (open_file : string → option (list Z)) (n : N) : outcome reader :=
  match child n "source", child n "gates" with
  | Some source, Some gates_node =>
      let gates_s := attribute_value gates_node "number" in
      let type := attribute_value source "type" in
      let file_name := attribute_value source "name" in
      if bool_decide (type = "") || bool_decide (file_name = "") || bool_decide (gates_s = "") then
        Throw (runtime_error "TweetReader: missing attribute")
      else if negb (bool_decide (type = "offline")) then Throw (runtime_error "TweetReader: invalid type parameter")
      else
        gates ← atoi gates_s;
        match open_file file_name with
        | None => Throw (runtime_error "TweetReader: cannot open source file")
        | Some text => if gates <? 0 then Throw (runtime_error "bad_array_new_length") else Ret (Reader text false gates 0 0 [])
        end
  | _, _ => Throw (runtime_error "TweetReader: missing parameter")
  end.

(** The gate is looked up, then the next one computed. *)
Definition do_async : M reader unit :=
  json_tweet ← getline;
  s ← gets id;
  if (0 <=? next_out_port s) && (next_out_port s <? num_gates s) then
    modify (λ s, Reader (file s) (eof s) (num_gates s) ((next_out_port s + 1) `mod` num_gates s) (s32 (m_msg_sent s + 1))
      (r_sent s ++ [(next_out_port s, Tweet json_tweet)]))
  else throw (undefined_behaviour "no output gate").

Fixpoint rounds (n : nat) : M reader unit :=
  match n with O => mret tt | S n => do_async;; rounds n end.
End TweetReader.

(** ** [TweetFinder] *)

Module TweetFinder.

Record finder := Finder {
  f_tokens : list jsmntok_t;       (** [tokens], of [allocated_tokens] *)
  num_gates : Z;
  hashtag_batch : list word_record;
  receivedTweets : Z; tweet_found : Z; hashtag_found : Z;
  f_sent : list (Z * word_record)
}.

Definition ALLOC_TOKEN : nat := 10.
Definition BATH_SIZE : nat := 200.
Definition TMPBUF : Z := 16384.

Definition finder_new (gates : Z) : finder := Finder [] gates (replicate (Z.to_nat gates) []) 0 0 0 [].

Definition configure {N} `{XmlNode N} (n : N) : outcome finder :=
  match child n "gates" with
  | None => Throw (runtime_error "TweetFinder: missing node gates")
  | Some gates_node =>
      let gates_s := attribute_value gates_node "number" in
      if bool_decide (gates_s = "") then Throw (runtime_error "TweetFinder: missing attribute number")
      else
        gates ← atoi gates_s;
        if gates <? 0 then Throw (runtime_error "bad_array_new_length") else Ret (finder_new gates)
  end.

(** [c_str()]: the text ends at its first zero. *)
Fixpoint c_str (l : list Z) : list Z :=
  match l with c :: l => if c =? 0 then [] else c :: c_str l | [] => [] end.

Definition token (tokens : list jsmntok_t) (i : Z) : outcome jsmntok_t :=
  if i <? 0 then Throw past_tokens
  else match tokens !! Z.to_nat i with Some t => Ret t | None => Throw past_tokens end.

(** [isalnum]; a [char] that is negative is not in its domain. *)
Definition isalnum (c : Z) : outcome bool :=
  if 128 <=? c then Throw (undefined_behaviour "isalnum of a negative char")
  else Ret (((48 <=? c) && (c <=? 57)) || ((65 <=? c) && (c <=? 90)) || ((97 <=? c) && (c <=? 122))).

(** The characters after the number sign that belong to the hashtag. *)
Fixpoint tag_length (l : list Z) : outcome nat :=
  match l with
  | [] => Ret 0%nat
  | c :: l => b ← isalnum c; if b : bool then n ← tag_length l; Ret (S n) else Ret 0%nat
  end.

(** The text from the first number sign on. *)
Fixpoint from_sign (l : list Z) : list Z :=
  match l with
  | [] => []
  | c :: l' => if c =? 35 then l else from_sign l'
  end.

(** [buf[start..end)] *)
Definition substring (buf : list Z) (t : jsmntok_t) : list Z :=
  take (Z.to_nat (end_ t) - Z.to_nat (start t)) (drop (Z.to_nat (start t)) buf).

(** The first hashtag in the value of a string token, the copy in [tmpbuf]. *)
Definition hashtag_in (value : list Z) : outcome (option (list Z)) :=
  match from_sign value with
  | [] => Ret None
  | sign :: l =>
      n ← tag_length l;
      if TMPBUF <=? Z.of_nat (S n) then Throw (undefined_behaviour "write past tmpbuf") else Ret (Some (sign :: take n l))
  end.

Definition key_text : list Z := [116; 101; 120; 116].

(** The loop over the tokens, one out of two: the value of the first string whose
    key starts with ["text"]. *)
Fixpoint find_text (buf : list Z) (tokens : list jsmntok_t) (fuel : nat) (jj size : Z) : outcome (option (list Z)) :=
  if jj <? size then
    key ← token tokens (1 + jj);
    is_pair ← (if bool_decide (type key = JSMN_STRING) then
        value ← token tokens (2 + jj); Ret (bool_decide (type value = JSMN_STRING))
      else Ret false);
    if is_pair && bool_decide (take 4 (drop (Z.to_nat (start key)) buf) = key_text) then
      value ← token tokens (2 + jj); Ret (Some (substring buf value))
    else match fuel with
         | O => Throw (undefined_behaviour "does not return")
         | S fuel => find_text buf tokens fuel (jj + 2) size
         end
  else Ret None.

Section finder.
Context (hash_fn : list Z → Z) (garbage : jsmntok_t).

(** The [while(1)] up to the tokens: tokens are added until they are enough. *)
Fixpoint tokenize (fuel : nat) (buf : list Z) (p : jsmn_parser) : outcome jsmnerr_t * jsmn_parser :=
  match jsmn_parse buf p with
  | (Ret JSMN_ERROR_NOMEM, p) =>
      match fuel with
      | O => (Throw (undefined_behaviour "does not return"), p)
      | S fuel => tokenize fuel buf (set_tokens (tokens p ++ replicate ALLOC_TOKEN garbage) p)
      end
  | r => r
  end.

Definition set_f_tokens (ts : list jsmntok_t) (f : finder) : finder :=
  Finder ts (num_gates f) (hashtag_batch f) (receivedTweets f) (tweet_found f) (hashtag_found f) (f_sent f).
Definition count_tweet (f : finder) : finder :=
  Finder (f_tokens f) (num_gates f) (hashtag_batch f) (receivedTweets f) (s64 (tweet_found f + 1)) (hashtag_found f) (f_sent f).
Definition count_hashtag (f : finder) : finder :=
  Finder (f_tokens f) (num_gates f) (hashtag_batch f) (receivedTweets f) (tweet_found f) (s64 (hashtag_found f + 1)) (f_sent f).
Definition count_received (f : finder) : finder :=
  Finder (f_tokens f) (num_gates f) (hashtag_batch f) (s64 (receivedTweets f + 1)) (tweet_found f) (hashtag_found f) (f_sent f).
Definition set_batch (g : nat) (w : word_record) (f : finder) : finder :=
  Finder (f_tokens f) (num_gates f) (<[g := w]> (hashtag_batch f)) (receivedTweets f) (tweet_found f) (hashtag_found f) (f_sent f).
Definition send_batch (g : nat) (w : word_record) (f : finder) : finder :=
  Finder (f_tokens f) (num_gates f) (hashtag_batch f) (receivedTweets f) (tweet_found f) (hashtag_found f)
    (f_sent f ++ [(Z.of_nat g, w)]).

Definition answer {A} (o : outcome A) : M finder A := λ f, (o, f).

(** The batch of the hashtag's gate; a full one is sent and a new one begun. *)
Definition add_hashtag (tag : list Z) : M finder unit :=
  modify count_hashtag;;
  f ← gets id;
  if num_gates f =? 0 then throw (undefined_behaviour "division by zero")
  else
    let ogate := Z.to_nat (hash_fn tag `mod` u64 (num_gates f)) in
    match hashtag_batch f !! ogate with
    | None => throw (undefined_behaviour "no batch")
    | Some w =>
        let w := add_word tag w in
        if (BATH_SIZE <=? length w)%nat then modify (send_batch ogate w);; modify (set_batch ogate [])
        else modify (set_batch ogate w)
    end.

Definition look_into (buf : list Z) : M finder unit :=
  f ← gets id;
  top ← answer (token (f_tokens f) 0);
  if negb (bool_decide (type top = JSMN_OBJECT)) then mret tt
  else
    value ← answer (find_text buf (f_tokens f) (length (f_tokens f)) 0 (Jsmn.size top));
    match value with
    | None => mret tt
    | Some value =>
        modify count_tweet;;
        tag ← answer (hashtag_in value);
        match tag with Some tag => add_hashtag tag | None => mret tt end
    end.

Inductive message := FTweet (t : tweet) | FOther.

Definition receive_msg (m : message) : M finder unit :=
  match m with
  | FOther => throw (runtime_error "TweetFinder::wrong message type")
  | FTweet t =>
      let buf := c_str (text t) in
      f ← gets id;
      let '(r, p) := tokenize (S (length buf / ALLOC_TOKEN)) buf (jsmn_init (Parser 0 0 0 (f_tokens f))) in
      modify (set_f_tokens (tokens p));;
      r ← answer r;
      (if bool_decide (r = JSMN_SUCCESS) then look_into buf else mret tt);;
      modify count_received
  end.

Fixpoint receive_tweets (ts : list tweet) : M finder unit :=
  match ts with [] => mret tt | t :: ts => receive_msg (FTweet t);; receive_tweets ts end.
End finder.
End TweetFinder.

(** ** [WordCounter] *)

Module WordCounter.

(** [words[0]], the one map of the ten that is used. *)
Record counter := Counter { words : gmap (list Z) Z; receivedMessages : Z; receivedTuple : Z }.

Definition counter_new : counter := Counter ∅ 0 0.

Definition count_word (w : list Z) (s : counter) : counter :=
  Counter
    (match words s !! w with
     | Some n => <[w := u64 (n + 1)]> (words s)
     | None => <[w := 1]> (words s)
     end) (s64 (receivedMessages s + 1)) (receivedTuple s).

Inductive message := FWords (w : word_record) | FOther.

Definition receive_msg (m : message) : M counter unit :=
  modify (λ s, Counter (words s) (receivedMessages s) (s64 (receivedTuple s + 1)));;
  match m with
  | FOther => throw (runtime_error "WordCounter::wrong message type")
  | FWords w => modify (λ s, foldl (λ s w, count_word w s) s w)
  end.

Fixpoint receive_records (ws : list word_record) : M counter unit :=
  match ws with [] => mret tt | w :: ws => receive_msg (FWords w);; receive_records ws end.

(** *** Counting *)

Definition occurrences (w : list Z) (l : list (list Z)) : nat := length (filter (λ x, x = w) l).

Definition holds_counts (l : list (list Z)) (s : counter) : Prop :=
  ∀ w, words s !! w = if decide (w ∈ l) then Some (u64 (Z.of_nat (occurrences w l))) else None.

Lemma occurrences_app w l1 l2 : occurrences w (l1 ++ l2) = (occurrences w l1 + occurrences w l2)%nat.
Proof. unfold occurrences. by rewrite filter_app, length_app. Qed.

Lemma occurrences_0 w l : w ∉ l → occurrences w l = 0%nat.
Proof. intros Hw. unfold occurrences. rewrite list_filter_none; [done|]. apply Forall_forall. intros x Hx ->. done. Qed.

Lemma count_word_spec w l s : holds_counts l s → holds_counts (l ++ [w]) (count_word w s).
Proof.
  intros H v. rewrite occurrences_app. unfold occurrences at 2. cbn [filter list_filter].
  assert (words (count_word w s) = <[w := u64 (Z.of_nat (S (occurrences w l)))]> (words s)) as ->.
  { unfold count_word. cbn [words]. rewrite (H w). case_decide as Hw.
    - f_equal. rewrite Nat2Z.inj_succ. unfold u64. by rewrite Zplus_mod_idemp_l.
    - by rewrite occurrences_0. }
  destruct (decide (w = v)) as [<-|Hv].
  - rewrite lookup_insert_eq, decide_True by (apply elem_of_app; right; by left). cbn [length]. do 3 f_equal. lia.
  - rewrite lookup_insert_ne by done. rewrite (H v). cbn [length]. rewrite Nat.add_0_r.
    destruct (decide (v ∈ l)) as [Hin|Hin]; [rewrite decide_True by (apply elem_of_app; by left); done|].
    rewrite decide_False; [done|]. intros [?|[?|?%not_elem_of_nil]%elem_of_cons]%elem_of_app; congruence.
Qed.

Lemma count_words_spec ws l s : holds_counts l s → holds_counts (l ++ ws) (foldl (λ s w, count_word w s) s ws).
Proof.
  revert l s. induction ws as [|w ws IH]; intros l s H; cbn [foldl]; [by rewrite app_nil_r|].
  rewrite cons_middle, app_assoc. apply IH. by apply count_word_spec.
Qed.

Lemma receive_records_spec ws l s : holds_counts l s →
  ∃ s', receive_records ws s = (Ret tt, s') ∧ holds_counts (l ++ concat ws) s'.
Proof.
  revert l s. induction ws as [|w ws IH]; intros l s H; cbn [receive_records concat]; [exists s; by rewrite app_nil_r|].
  destruct (IH (l ++ w) (foldl (λ s w, count_word w s) (Counter (words s) (receivedMessages s) (s64 (receivedTuple s + 1))) w))
    as (s' & E & Hs'); [by apply count_words_spec|]. exists s'. rewrite app_assoc. split; [|done]. rewrite <- E. reflexivity.
Qed.
End WordCounter.

(** ** Tokens enough *)

Section tokenize.
Context (garbage : jsmntok_t) (buf : list Z) (Hbuf : 0 ∉ buf) (Hlen : Z.of_nat (length buf) < 2 ^ 31).

Lemma ref_loop_not_nomem fuel t : (ref_loop buf fuel t).1 ≠ JSMN_ERROR_NOMEM.
Proof.
  revert t. induction fuel as [|fuel IH]; intros t; cbn [ref_loop]; (destruct (drop _ _) as [|c l]; [done|]);
    destruct (ref_step c l t) as [[] t'] eqn:E; try done; exfalso;
    unfold ref_step, ref_close in E; repeat case_match; discriminate.
Qed.

Lemma ref_finish_not_nomem t : (ref_finish (ref_run buf t)).1 ≠ JSMN_ERROR_NOMEM.
Proof.
  pose proof (ref_loop_not_nomem (length buf) t) as H. unfold ref_run.
  destruct (ref_loop buf (length buf) t) as [[] u]; try done. cbn. by destruct (last_open _ _).
Qed.

(** Whatever tokens are there from the tweets before, tweets are tokenised as by
    the reference. *)
Lemma tokenize_spec fuel t junk : ref_ok buf t → (length buf < length (r_toks t) + length junk + 10 * fuel)%nat →
  let r := ref_finish (ref_run buf t) in
  ∃ k, TweetFinder.tokenize garbage fuel buf (parser_at t junk) = (Ret r.1, parser_at r.2 (replicate k fresh_token)).
Proof.
  revert t junk. induction fuel as [|fuel IH]; intros t junk Hok Hfuel r; cbn [TweetFinder.tokenize];
    pose proof (jsmn_parse_spec buf Hbuf Hlen t junk Hok) as H; unfold answers_ref in H; fold r in H;
    pose proof (ref_run_grows buf Hbuf Hlen t Hok) as [_ Hcount]; assert (r.2 = (ref_run buf t).2) as Er by apply ref_finish_state;
    rewrite <- Er in Hcount; pose proof (ref_finish_not_nomem t) as Hne; fold r in Hne.
  all: destruct (Nat.leb_spec (length (r_toks r.2)) (length (r_toks t) + length junk)) as [Hroom|Hroom]; [|try lia].
  1, 2: rewrite H; eexists; by destruct (r.1).
  destruct H as (u & -> & Hu & Hlu & Hrun). destruct (IH u (replicate TweetFinder.ALLOC_TOKEN garbage) Hu) as (k & E).
  { rewrite length_replicate. unfold TweetFinder.ALLOC_TOKEN. lia. }
  exists k. unfold r. rewrite <- Hrun, <- E. cbn [conc tokens set_tokens pos toknext toksuper]. unfold parser_at, set_tokens. cbn [pos toknext toksuper replicate].
  by rewrite app_nil_r.
Qed.

Lemma tokenize_tweet f : let r := ref_finish (ref_run buf ref_init) in
  ∃ k, TweetFinder.tokenize garbage (S (length buf / TweetFinder.ALLOC_TOKEN)) buf (jsmn_init (Parser 0 0 0 f)) =
    (Ret r.1, parser_at r.2 (replicate k fresh_token)).
Proof.
  apply (tokenize_spec _ ref_init f (ref_init_ok _)). cbn [ref_init r_toks length].
  unfold TweetFinder.ALLOC_TOKEN. pose proof (Nat.div_mod_eq (length buf) 10). pose proof (Nat.mod_upper_bound (length buf) 10). lia.
Qed.
End tokenize.

(** ** Tweets that are objects *)

(** The first member whose key starts with ["text"], its value a string.  The finder
    takes tokens two by two, so it is at a loss behind a value with parts of its own
    ([nested_object_hides_text]): such a value may only come after the text. *)
Fixpoint first_text (l : list (list Z * json)) : option (option (list Z)) :=
  match l with
  | [] => Some None
  | (k, v) :: l =>
      match v with
      | JString s => if bool_decide (take 4 k = TweetFinder.key_text) then Some (Some s) else first_text l
      | JPrimitive _ | JArray [] | JObject [] => first_text l
      | JArray (_ :: _) | JObject (_ :: _) => None
      end
  end.

(** The first hashtag of a text, the first number sign and the
    ASCII letters and digits behind it. *)
Definition alphanumeric (c : Z) : Prop := 48 ≤ c ≤ 57 ∨ 65 ≤ c ≤ 90 ∨ 97 ≤ c ≤ 122.

Inductive first_hashtag : list Z → option (list Z) → Prop :=
| no_hashtag v : 35 ∉ v → first_hashtag v None
| a_hashtag before body behind :
    35 ∉ before → Forall alphanumeric body → Z.of_nat (S (length body)) < 16384 →
    match behind with c :: _ => c < 128 ∧ ¬ alphanumeric c | [] => True end →
    first_hashtag (before ++ 35 :: body ++ behind) (Some (35 :: body)).

Lemma isalnum_spec c : c < 128 → ∃ b, TweetFinder.isalnum c = Ret b ∧ (b = true ↔ alphanumeric c).
Proof.
  intros Hc. unfold TweetFinder.isalnum, alphanumeric. rewrite (proj2 (Z.leb_gt _ _)) by done. eexists. split; [done|].
  rewrite !orb_true_iff, !andb_true_iff, !Z.leb_le. tauto.
Qed.

Lemma tag_length_spec body behind : Forall alphanumeric body →
  match behind with c :: _ => c < 128 ∧ ¬ alphanumeric c | [] => True end →
  TweetFinder.tag_length (body ++ behind) = Ret (length body).
Proof.
  intros Hbody Hbehind. induction Hbody as [|c body Hc _ IH]; cbn [app TweetFinder.tag_length length].
  - destruct behind as [|c behind]; [done|]. destruct Hbehind as [Hc Hn]. cbn [TweetFinder.tag_length].
    destruct (isalnum_spec c Hc) as ([] & -> & Hb); [by destruct Hn; apply Hb|done].
  - destruct (isalnum_spec c ltac:(unfold alphanumeric in Hc; lia)) as (b & -> & Hb). rewrite (proj2 Hb Hc).
    cbn [mbind outcome_bind]. by rewrite IH.
Qed.

Lemma from_sign_none v : 35 ∉ v → TweetFinder.from_sign v = [].
Proof.
  induction v as [|c v IH]; [done|]. intros [Hc Hv]%not_elem_of_cons. cbn. by rewrite (proj2 (Z.eqb_neq c 35)) by congruence; apply IH.
Qed.

Lemma from_sign_some before v : 35 ∉ before → TweetFinder.from_sign (before ++ 35 :: v) = 35 :: v.
Proof.
  induction before as [|c before IH]; [done|]. intros [Hc Hv]%not_elem_of_cons. cbn.
  by rewrite (proj2 (Z.eqb_neq c 35)) by congruence; apply IH.
Qed.

Lemma hashtag_in_spec v tag : first_hashtag v tag → TweetFinder.hashtag_in v = Ret tag.
Proof.
  destruct 1 as [v Hv|before body behind Hbefore Hbody Hlen Hbehind]; unfold TweetFinder.hashtag_in; [by rewrite from_sign_none|].
  rewrite from_sign_some, tag_length_spec by done. cbn [mbind outcome_bind]. unfold TweetFinder.TMPBUF.
  rewrite (proj2 (Z.leb_gt _ _)) by done. by rewrite take_app_length.
Qed.

Lemma take_key k more : take 4 (k ++ 34 :: more) = TweetFinder.key_text ↔ take 4 k = TweetFinder.key_text.
Proof.
  unfold TweetFinder.key_text. do 4 (destruct k as [|? k]; [cbn; split; intros E; simplify_eq|]). cbn. by rewrite !take_0.
Qed.

Section object.
Context (buf : list Z).

Lemma substring_quoted p s rest : drop p buf = quote s ++ rest →
  TweetFinder.substring buf (leaf JSMN_STRING (S p) (S p + length s)) = s.
Proof.
  intros E. unfold TweetFinder.substring, leaf. cbn [start end_]. rewrite !Nat2Z.id.
  replace (S p + length s - S p)%nat with (length s) by lia.
  assert (drop (S p) buf = s ++ 34 :: rest) as ->; [|by rewrite take_app_length].
  rewrite <- Nat.add_1_r, <- drop_drop, E. unfold quote. cbn. by rewrite <- app_assoc.
Qed.

Lemma token_app pre t post i : i = Z.of_nat (length pre) → TweetFinder.token (pre ++ t :: post) i = Ret t.
Proof. intros ->. unfold TweetFinder.token. rewrite (proj2 (Z.ltb_ge _ _)) by lia. by rewrite Nat2Z.id, list_lookup_middle. Qed.

Definition pieces_of (l : list (list Z * json)) : list ((nat → list jsmntok_t) * list Z * Z) := concat (member_pieces <$> l).
Definition text_of (ps : list ((nat → list jsmntok_t) * list Z * Z)) : list Z := Json.join ((λ x, (x.1.2, x.2)) <$> ps).

(** A first member and what is behind it. *)
Lemma first_member k v l q rest : drop q buf = text_of (pieces_of ((k, v) :: l)) ++ rest →
  let q1 := (q + length (quote k) + 1)%nat in
  (∃ tail, drop q buf = quote k ++ 58 :: print v ++ tail ∧ drop q1 buf = print v ++ tail) ∧
  ∃ rest', drop (q1 + length (print v) + 1) buf = text_of (pieces_of l) ++ rest'.
Proof.
  intros E q1. set (q2 := (q1 + length (print v) + 1)%nat).
  assert (∃ tail, drop q buf = quote k ++ 58 :: print v ++ tail ∧ ∃ rest', drop q2 buf = text_of (pieces_of l) ++ rest')
    as (tail & E1 & E2).
  { destruct l as [|m l].
    - exists rest. split; [rewrite E; cbn; by rewrite <- app_assoc|]. by exists (drop q2 buf).
    - exists (44 :: text_of (pieces_of (m :: l)) ++ rest).
      assert (drop q buf = quote k ++ 58 :: print v ++ 44 :: text_of (pieces_of (m :: l)) ++ rest) as Eq.
      { change (text_of (pieces_of ((k, v) :: m :: l))) with (quote k ++ 58 :: print v ++ 44 :: text_of (pieces_of (m :: l))) in E.
        by rewrite E, <- app_assoc, <- app_comm_cons, <- app_assoc. }
      split; [done|]. exists rest. unfold q2, q1. rewrite <- !drop_drop, Eq, drop_app_length. cbn [drop].
      by rewrite drop_0, drop_app_length. }
  split; [|done]. exists tail. split; [done|]. unfold q1. by rewrite <- !drop_drop, E1, drop_app_length.
Qed.

(** A value without parts has one token. *)
Definition lone (v : json) : bool :=
  match v with JPrimitive _ | JString _ | JArray [] | JObject [] => true | _ => false end.

Lemma lone_token v p : lone v = true → ∃ t, tokens_of v p = [t] ∧ (type t = JSMN_STRING ↔ ∃ s, v = JString s).
Proof.
  destruct v as [s|s|[|]|[|]]; [| | |done| |done]; intros _; eexists; (split; [reflexivity|]); cbn; split;
    first [done|by intros [? [=]]|eauto].
Qed.

Lemma find_text_object (l : list (list Z * json)) r : first_text l = Some r → ∀ fuel pre post q jj rest,
  jj + 1 = Z.of_nat (length pre) → drop q buf = text_of (pieces_of l) ++ rest → (length l ≤ fuel)%nat →
  TweetFinder.find_text buf (pre ++ place q (fst <$> pieces_of l) ++ post) fuel jj (jj + 2 * Z.of_nat (length l)) = Ret r.
Proof.
  induction l as [|[k v] l IH]; intros Hr fuel pre post q jj rest Hpre E Hfuel.
  { injection Hr as <-. destruct fuel; cbn [TweetFinder.find_text length]; by rewrite (proj2 (Z.ltb_ge _ _)) by lia. }
  destruct fuel as [|fuel]; [cbn in Hfuel; lia|].
  destruct (first_member k v l q rest E) as ((tail & E1 & Ev) & rest' & E2).
  set (q1 := (q + length (quote k) + 1)%nat) in *. set (q2 := (q1 + length (print v) + 1)%nat) in *.
  assert (lone v = true) as Hlone by (by destruct v as [?|?|[|]|[|]]).
  destruct (lone_token v q1 Hlone) as (vt & Evt & Hvt). set (kt := leaf JSMN_STRING (S q) (S q + length k)).
  assert (pre ++ place q (fst <$> pieces_of ((k, v) :: l)) ++ post =
    pre ++ kt :: vt :: place q2 (fst <$> pieces_of l) ++ post) as ->.
  { change (place q (fst <$> pieces_of ((k, v) :: l))) with (kt :: tokens_of v q1 ++ place q2 (fst <$> pieces_of l)). by rewrite Evt. }
  cbn [TweetFinder.find_text]. rewrite (proj2 (Z.ltb_lt _ _)) by (cbn [length]; lia).
  set (ts := pre ++ kt :: vt :: _).
  assert (TweetFinder.token ts (1 + jj) = Ret kt) as -> by (apply token_app; lia).
  assert (TweetFinder.token ts (2 + jj) = Ret vt) as ->.
  { unfold ts. rewrite (cons_middle kt), (app_assoc pre [kt]). apply token_app. rewrite length_app. cbn. lia. }
  cbn [mbind outcome_bind]. change (type kt) with JSMN_STRING.
  change (start kt) with (Z.of_nat (S q)). rewrite (bool_decide_eq_true_2 (JSMN_STRING = JSMN_STRING)) by done.
  cbn [mbind outcome_bind andb].
  rewrite Nat2Z.id. assert (drop (S q) buf = k ++ 34 :: 58 :: print v ++ tail) as Ek.
  { rewrite <- Nat.add_1_r, <- drop_drop, E1. unfold quote at 1. cbn. by rewrite <- app_assoc. }
  rewrite Ek, (bool_decide_ext _ _ (take_key k _)).
  assert (first_text l = Some r → TweetFinder.find_text buf ts fuel (jj + 2) (jj + 2 * Z.of_nat (length ((k, v) :: l))) = Ret r) as Hnext.
  { intros Hr'. rewrite <- (IH Hr' fuel (pre ++ [kt; vt]) post q2 (jj + 2) rest' ltac:(rewrite length_app; cbn; lia) E2
      ltac:(cbn in Hfuel; lia)). cbn [length].
    replace (jj + 2 + 2 * Z.of_nat (length l)) with (jj + 2 * Z.of_nat (S (length l))) by lia. unfold ts. by rewrite <- !app_assoc. }
  destruct v as [s|s|l'|l'].
  2: { rewrite bool_decide_eq_true_2 by (apply Hvt; eauto). cbn [andb]. cbn [first_text] in Hr. case_bool_decide; [|by apply Hnext].
    assert (vt = leaf JSMN_STRING (S q1) (S q1 + length s)) as -> by (by injection Evt).
    injection Hr as <-. by rewrite (substring_quoted _ _ _ Ev). }
  all: rewrite bool_decide_eq_false_2 by (intros Ht; apply Hvt in Ht as [? ?]; done); cbn [andb]; apply Hnext; cbn [first_text] in Hr;
    by try destruct l'.
Qed.
End object.

(** ** From tweets to counts *)

(** What the finder gets out of a text: nothing, if it is not JSON or not an object;
    for an object the first hashtag in its text, if there is one. *)
Inductive yields : list Z → option (list Z) → Prop :=
| yields_nothing buf :
    0 ∉ buf → Z.of_nat (length buf) < 2 ^ 31 → (ref_finish (ref_run buf ref_init)).1 ≠ JSMN_SUCCESS → yields buf None
| yields_value v :
    json_ok v = true → Z.of_nat (length (print v)) < 2 ^ 31 → (∀ l, v ≠ JObject l) → yields (print v) None
| yields_object l v tag :
    json_ok (JObject l) = true → Z.of_nat (length (print (JObject l))) < 2 ^ 31 → first_text l = Some v →
    match v with Some v => first_hashtag v tag | None => tag = None end → yields (print (JObject l)) tag.

Lemma c_str_id l : 0 ∉ l → TweetFinder.c_str l = l.
Proof.
  induction l as [|c l IH]; [done|]. intros [Hc Hl]%not_elem_of_cons. cbn. rewrite (proj2 (Z.eqb_neq _ _)) by done.
  by rewrite IH.
Qed.

Lemma length_place l : ∀ p, (length l ≤ length (place p (fst <$> pieces_of l)))%nat.
Proof.
  induction l as [|m l IH]; intros p; [done|]. unfold pieces_of in *. cbn. rewrite length_app.
  match goal with |- context [length (place ?p _)] => specialize (IH p) end. lia.
Qed.

Lemma look_for_text l r k : first_text l = Some r →
  let tokens := tokens_of (JObject l) 0 ++ replicate k fresh_token in
  TweetFinder.token tokens 0 = Ret (Tok JSMN_OBJECT 0 (Z.of_nat (length (print (JObject l)))) (2 * Z.of_nat (length l))) ∧
  TweetFinder.find_text (print (JObject l)) tokens (length tokens) 0 (2 * Z.of_nat (length l)) = Ret r.
Proof.
  intros Hr. rewrite tokens_of_object. cbn zeta. split.
  - cbn. do 2 f_equal. clear. induction l as [|m l IH]; [done|]. cbn. cbn in IH. lia.
  - set (top := Tok JSMN_OBJECT _ _ _). fold (pieces_of l).
    apply (find_text_object (print (JObject l)) l r Hr (length ((top :: place 1 (fst <$> pieces_of l)) ++ replicate k fresh_token))
      [top] (replicate k fresh_token) 1 0 [125]); [done| |].
    + by rewrite print_object.
    + cbn [app length]. rewrite length_app. pose proof (length_place l 1). lia.
Qed.

(** The first token of a value that is not an object. *)
Lemma not_an_object v k : (∀ l, v ≠ JObject l) → ∃ t, TweetFinder.token (tokens_of v 0 ++ replicate k fresh_token) 0 = Ret t ∧
  type t ≠ JSMN_OBJECT.
Proof. intros Hv. destruct v as [s|s|l|l]; [..|by destruct (Hv l)]; by eexists. Qed.

Section trending.
Context (hash_fn : list Z → Z) (garbage : jsmntok_t).

Definition gate_of (gates : Z) (tag : list Z) : nat := Z.to_nat (hash_fn tag `mod` u64 gates).

Definition option_list {A} (o : option A) : list A := match o with Some x => [x] | None => [] end.

Lemma bind_same {S A B} (m1 m2 : M S A) (k : A → M S B) s1 s2 : m1 s1 = m2 s2 → (m1 ≫= k) s1 = (m2 ≫= k) s2.
Proof. intros E. unfold mbind, M_bind. by rewrite E. Qed.

(** What a text that yields this does to the state. *)
Lemma receive_yields t tag f : yields (text t) tag →
  ∃ f1, TweetFinder.receive_msg hash_fn garbage (TweetFinder.FTweet t) f =
      ((match tag with Some tag => TweetFinder.add_hashtag hash_fn tag | None => mret tt end);; modify TweetFinder.count_received) f1 ∧
    TweetFinder.num_gates f1 = TweetFinder.num_gates f ∧ TweetFinder.hashtag_batch f1 = TweetFinder.hashtag_batch f ∧
    TweetFinder.hashtag_found f1 = TweetFinder.hashtag_found f ∧ TweetFinder.f_sent f1 = TweetFinder.f_sent f.
Proof.
  intros Hy. unfold TweetFinder.receive_msg. rewrite (bind_Ret (gets id) _ f f f eq_refl). cbv beta.
  destruct Hy as [buf Hnz Hlen Hbad|v Hv Hlen Hno|l v tag Hl Hlen Hv Htag].
  - rewrite c_str_id by done. destruct (tokenize_tweet garbage buf Hnz Hlen (TweetFinder.f_tokens f)) as (k & ->).
    erewrite bind_Ret; [|reflexivity]. eexists. erewrite bind_Ret; [|reflexivity]. rewrite bool_decide_eq_false_2 by done. done.
  - pose proof (print_nonzero v Hv) as Hnz. rewrite c_str_id by done.
    destruct (tokenize_tweet garbage (print v) Hnz Hlen (TweetFinder.f_tokens f)) as (k & E).
    rewrite ref_run_print in E by done. rewrite E. cbn [fst snd].
    erewrite bind_Ret; [|reflexivity]. erewrite bind_Ret; [|reflexivity]. rewrite bool_decide_eq_true_2 by done.
    destruct (not_an_object v k Hno) as (top & Et & Hty). eexists. split; [apply bind_same|].
    unfold TweetFinder.look_into. erewrite bind_Ret; [|reflexivity]. cbn [TweetFinder.set_f_tokens TweetFinder.f_tokens tokens parser_at r_toks].
    cbn [id TweetFinder.set_f_tokens TweetFinder.f_tokens]. unfold TweetFinder.answer. rewrite Et.
    erewrite bind_Ret; [|reflexivity]. rewrite bool_decide_eq_false_2 by done. reflexivity. done.
  - pose proof (print_nonzero (JObject l) Hl) as Hnz. rewrite c_str_id by done.
    destruct (tokenize_tweet garbage (print (JObject l)) Hnz Hlen (TweetFinder.f_tokens f)) as (k & E).
    rewrite ref_run_print in E by done. rewrite E. cbn [fst snd].
    erewrite bind_Ret; [|reflexivity]. erewrite bind_Ret; [|reflexivity]. rewrite bool_decide_eq_true_2 by done.
    destruct (look_for_text l v k Hv) as [Etop Efind].
    assert (∀ g, TweetFinder.f_tokens g = tokens_of (JObject l) 0 ++ replicate k fresh_token →
      TweetFinder.look_into hash_fn (print (JObject l)) g =
      match v with
      | None => (Ret tt, g)
      | Some _ => (match tag with Some tag => TweetFinder.add_hashtag hash_fn tag | None => mret tt end) (TweetFinder.count_tweet g)
      end) as Hlook.
    { intros g Eg. unfold TweetFinder.look_into. rewrite (bind_Ret (gets id) _ g g g eq_refl). cbv beta. rewrite Eg.
      unfold TweetFinder.answer. rewrite Etop. erewrite bind_Ret; [|reflexivity]. cbn [type Jsmn.size].
      rewrite bool_decide_eq_true_2 by done. cbn [negb]. rewrite Efind. erewrite bind_Ret; [|reflexivity].
      destruct v as [v|]; [|done]. erewrite bind_Ret; [|reflexivity]. rewrite (hashtag_in_spec _ _ Htag). by erewrite bind_Ret. }
    destruct v as [v|]; [|subst tag]; (eexists; split; [apply bind_same; by apply Hlook|done]).
Qed.

(** *** Every hashtag is in one batch *)

Definition sent_to (g : nat) (f : TweetFinder.finder) : list word_record :=
  snd <$> filter (λ p, p.1 = Z.of_nat g) (TweetFinder.f_sent f).

Definition of_gate (gates : Z) (g : nat) (tags : list (list Z)) : list (list Z) := filter (λ t, gate_of gates t = g) tags.

Record holds_tags (gates : Z) (tags : list (list Z)) (f : TweetFinder.finder) : Prop := HoldsTags {
  ht_gates : TweetFinder.num_gates f = gates;
  ht_batches : length (TweetFinder.hashtag_batch f) = Z.to_nat gates;
  ht_tags g w : TweetFinder.hashtag_batch f !! g = Some w →
    (length w < TweetFinder.BATH_SIZE)%nat ∧ concat (sent_to g f) ++ w = of_gate gates g tags;
  ht_full : Forall (λ p, length p.2 = TweetFinder.BATH_SIZE) (TweetFinder.f_sent f)
}.

Lemma gate_of_range gates tag : 0 < gates < 2 ^ 31 → (gate_of gates tag < Z.to_nat gates)%nat.
Proof.
  intros Hg. unfold gate_of. rewrite u64_small by (change (2 ^ 64) with 18446744073709551616; change (2 ^ 31) with 2147483648 in Hg; lia).
  pose proof (Z.mod_pos_bound (hash_fn tag) gates). lia.
Qed.

Lemma of_gate_app gates g tags tag :
  of_gate gates g (tags ++ [tag]) = of_gate gates g tags ++ (if decide (gate_of gates tag = g) then [tag] else []).
Proof. unfold of_gate. by rewrite filter_app. Qed.

Lemma sent_to_app g h w sent f : TweetFinder.f_sent f = sent ++ [(Z.of_nat h, w)] →
  sent_to g f = (snd <$> filter (λ p, p.1 = Z.of_nat g) sent) ++ (if decide (h = g) then [w] else []).
Proof.
  intros E. unfold sent_to. rewrite E, filter_app, fmap_app. f_equal. destruct (decide (h = g)) as [->|Hne].
  - by rewrite filter_cons_True.
  - rewrite filter_cons_False; [done|]. cbn. lia.
Qed.

Lemma add_hashtag_spec gates tags tag f : 0 < gates < 2 ^ 31 → holds_tags gates tags f →
  ∃ f', TweetFinder.add_hashtag hash_fn tag f = (Ret tt, f') ∧ holds_tags gates (tags ++ [tag]) f'.
Proof.
  intros Hg [Hgates Hbatches Htags Hfull]. unfold TweetFinder.add_hashtag. erewrite bind_Ret; [|reflexivity].
  rewrite (bind_Ret (gets id) _ _ (TweetFinder.count_hashtag f) _ eq_refl). cbn [TweetFinder.count_hashtag TweetFinder.num_gates TweetFinder.hashtag_batch].
  rewrite Hgates. rewrite (proj2 (Z.eqb_neq _ _)) by lia. fold (gate_of gates tag). set (o := gate_of gates tag).
  pose proof (gate_of_range gates tag Hg) as Ho. fold o in Ho. rewrite <- Hbatches in Ho.
  destruct (lookup_lt_is_Some_2 _ _ Ho) as [w Ew]. rewrite Ew. destruct (Htags o w Ew) as [Hw Ew'].
  unfold add_word. rewrite length_app. cbn [length].
  destruct (Nat.leb_spec TweetFinder.BATH_SIZE (length w + 1)) as [Hle|Hlt].
  - erewrite bind_Ret; [|reflexivity]. eexists. split; [reflexivity|]. split.
    + done.
    + cbn. by rewrite length_insert.
    + intros g v. cbn [TweetFinder.set_batch TweetFinder.send_batch TweetFinder.count_hashtag TweetFinder.hashtag_batch].
      erewrite sent_to_app by reflexivity. cbn [TweetFinder.f_sent TweetFinder.count_hashtag]. fold (sent_to g f). rewrite of_gate_app. fold o.
      destruct (decide (o = g)) as [<-|Hne].
      * rewrite list_lookup_insert_eq by done. intros [= <-]. split; [cbn; unfold TweetFinder.BATH_SIZE; lia|].
        rewrite concat_app. cbn [concat]. rewrite !app_nil_r. rewrite <- Ew'. by rewrite app_assoc.
      * rewrite list_lookup_insert_ne by done. intros Ev. rewrite !app_nil_r. by apply Htags.
    + cbn. apply Forall_app. split; [done|]. constructor; [|done]. cbn. rewrite length_app. cbn. lia.
  - eexists. split; [reflexivity|]. split.
    + done.
    + cbn. by rewrite length_insert.
    + intros g v. cbn [TweetFinder.set_batch TweetFinder.count_hashtag TweetFinder.hashtag_batch]. change (sent_to g _) with (sent_to g f).
      rewrite of_gate_app. fold o. destruct (decide (o = g)) as [<-|Hne].
      * rewrite list_lookup_insert_eq by done. intros [= <-]. split; [rewrite length_app; cbn; lia|]. rewrite <- Ew'. by rewrite app_assoc.
      * rewrite list_lookup_insert_ne by done. intros Ev. rewrite app_nil_r. by apply Htags.
    + done.
Qed.

Lemma receive_tweets_spec gates ts os tags f : 0 < gates < 2 ^ 31 → Forall2 (λ t o, yields (text t) o) ts os → holds_tags gates tags f →
  ∃ f', TweetFinder.receive_tweets hash_fn garbage ts f = (Ret tt, f') ∧ holds_tags gates (tags ++ omap id os) f'.
Proof.
  intros Hg Hall. revert tags f. induction Hall as [|t o ts os Hy _ IH]; intros tags f Hf; cbn [TweetFinder.receive_tweets].
  { exists f. by rewrite app_nil_r. }
  destruct (receive_yields t o f Hy) as (f1 & E1 & Hgates & Hbatch & _ & Hsent).
  assert (holds_tags gates tags f1) as Hf1.
  { destruct Hf as [H1 H2 H3 H4]. split; [congruence|congruence| |congruence]. intros g w. rewrite Hbatch. unfold sent_to. rewrite Hsent. apply H3. }
  assert (∃ f2, TweetFinder.receive_msg hash_fn garbage (TweetFinder.FTweet t) f = (Ret tt, f2) ∧ holds_tags gates (tags ++ option_list o) f2) as (f2 & E2 & Hf2).
  { rewrite E1. destruct o as [tag|]; cbn [option_list].
    - destruct (add_hashtag_spec gates tags tag f1 Hg Hf1) as (f2 & E2 & [H1 H2 H3 H4]). erewrite bind_Ret by exact E2.
      eexists. split; [reflexivity|]. by split.
    - erewrite bind_Ret; [|reflexivity]. eexists. split; [reflexivity|]. rewrite app_nil_r. destruct Hf1. by split. }
  rewrite (bind_Ret _ _ _ _ _ E2). destruct (IH _ f2 Hf2) as (f' & E & Hf'). exists f'. split; [done|].
  rewrite <- app_assoc in Hf'. by destruct o.
Qed.

Lemma finder_new_holds gates : 0 < gates → holds_tags gates [] (TweetFinder.finder_new gates).
Proof.
  intros Hg. split; [done|by cbn; rewrite length_replicate| |constructor].
  intros g w [-> _]%lookup_replicate_1. split; [cbn; unfold TweetFinder.BATH_SIZE; lia|done].
Qed.
End trending.


(** ** The reader *)

(** The lines of a text: one more than its newlines. *)
Fixpoint lines_of (l : list Z) : list (list Z) :=
  match l with
  | [] => [[]]
  | c :: l =>
      if c =? 10 then [] :: lines_of l
      else match lines_of l with line :: ls => (c :: line) :: ls | [] => [[c]] end
  end.

Lemma split_lines l :
  let '(line, rest, e) := TweetReader.split_line l in lines_of l = line :: (if e : bool then [] else lines_of rest).
Proof.
  induction l as [|c l IH]; [done|]. cbn. destruct (c =? 10); [done|].
  destruct (TweetReader.split_line l) as [[line rest] e]. cbn. by rewrite IH.
Qed.

(** What is still to come: the lines, then empty tweets for ever. *)
Definition to_come (s : TweetReader.reader) (n : nat) : list (list Z) :=
  take n ((if TweetReader.eof s then [] else lines_of (TweetReader.file s)) ++ replicate n []).

Lemma to_come_step l n : take (S n) (l ++ replicate (S n) []) =
  match l with x :: l => x | [] => [] end :: take n (match l with x :: l => l | [] => [] end ++ replicate n ([] : list Z)).
Proof.
  destruct l as [|x l]; [done|]. change (take (S n) ((x :: l) ++ replicate (S n) [])) with (x :: take n (l ++ replicate (S n) [])).
  f_equal. rewrite replicate_S_end, app_assoc, take_app_le; [done|].
  rewrite length_app, length_replicate. lia.
Qed.

Lemma getline_spec s :
  ∃ line s1, TweetReader.getline s = (Ret line, s1) ∧ TweetReader.num_gates s1 = TweetReader.num_gates s ∧
    TweetReader.next_out_port s1 = TweetReader.next_out_port s ∧ TweetReader.r_sent s1 = TweetReader.r_sent s ∧
    ∀ n, to_come s (S n) = line :: to_come s1 n.
Proof.
  unfold TweetReader.getline, to_come. setoid_rewrite to_come_step. pose proof (split_lines (TweetReader.file s)) as Hl.
  destruct (TweetReader.eof s) eqn:Eeof.
  - exists [], s. repeat split. intros n. by rewrite Eeof.
  - destruct (TweetReader.split_line (TweetReader.file s)) as [[line rest] e]. do 2 eexists. split; [reflexivity|].
    repeat split. intros n. rewrite Hl. cbn. by destruct e.
Qed.

(** Line by line, gate by gate; at the end of the file an empty tweet every round. *)
Lemma reader_round_robin n s gates :
  TweetReader.num_gates s = gates → 0 < gates → 0 ≤ TweetReader.next_out_port s < gates →
  ∃ s', TweetReader.rounds n s = (Ret tt, s') ∧ TweetReader.r_sent s' = TweetReader.r_sent s ++
    imap (λ i line, ((TweetReader.next_out_port s + Z.of_nat i) `mod` gates, Tweet line)) (to_come s n).
Proof.
  revert s. induction n as [|n IH]; intros s Hgates Hpos Hport; cbn [TweetReader.rounds].
  { exists s. unfold to_come. cbn. by rewrite app_nil_r. }
  assert (∃ line s1, TweetReader.do_async s = (Ret tt, s1) ∧ TweetReader.num_gates s1 = gates ∧
    TweetReader.next_out_port s1 = (TweetReader.next_out_port s + 1) `mod` gates ∧
    TweetReader.r_sent s1 = TweetReader.r_sent s ++ [(TweetReader.next_out_port s, Tweet line)] ∧
    to_come s (S n) = line :: to_come s1 n) as (line & s1 & E & Hg1 & Hp1 & Hs1 & Hc).
  { destruct (getline_spec s) as (line & s1 & E & E1 & E2 & E3 & Hc). exists line. eexists. unfold TweetReader.do_async.
    rewrite (bind_Ret _ _ _ _ _ E), (bind_Ret (gets id) _ s1 s1 s1 eq_refl), E1, E2, Hgates.
    rewrite (proj2 (Z.leb_le _ _)), (proj2 (Z.ltb_lt _ _)) by lia. cbn [andb]. split; [reflexivity|]. cbn.
    rewrite E1, E2, E3, Hgates. repeat split. apply Hc. }
  rewrite (bind_Ret _ _ _ _ _ E). destruct (IH s1 Hg1 Hpos) as (s' & E' & Hs').
  { rewrite Hp1. apply Z.mod_pos_bound. lia. }
  exists s'. split; [done|]. rewrite Hs', Hs1, Hc, imap_cons, <- app_assoc. cbn [app]. f_equal. f_equal.
  - f_equal. rewrite Z.add_0_r. symmetry. by apply Z.mod_small.
  - apply imap_ext. intros i x _. cbn. f_equal. rewrite Hp1, Zplus_mod_idemp_l. f_equal. lia.
Qed.

(** ** Findings *)

Section findings.
Let garbage := fresh_token.
Let receive := TweetFinder.receive_msg (λ _, 0) garbage.

(** The reader's empty tweet at the end of the file, if it is the finder's first:
    no token was ever allocated, and the first is looked at. *)
Lemma empty_tweet_reads_no_token :
  (receive (TweetFinder.FTweet (Tweet [])) (TweetFinder.finder_new 1)).1 = Throw past_tokens.
Proof. by vm_compute. Qed.

(** A value that is not a string but has parts shifts the pairs: the text behind it
    is not found. *)
Definition nested_tweet : json :=
  JObject [([97], JObject [([98], JPrimitive [49])]); (TweetFinder.key_text, JString [35; 120])].

Lemma nested_object_hides_text :
  let r := receive (TweetFinder.FTweet (Tweet (print nested_tweet))) (TweetFinder.finder_new 1) in
  r.1 = Ret tt ∧ TweetFinder.tweet_found r.2 = 0 ∧ TweetFinder.hashtag_found r.2 = 0.
Proof. by vm_compute. Qed.

(** An object with an odd number of parts, which the tokeniser takes, is read past
    the end of the tokens. *)
Lemma odd_object_reads_past_tokens :
  (receive (TweetFinder.FTweet (Tweet (123 :: Json.join (replicate 9 (quote [97], 44)) ++ [125]))) (TweetFinder.finder_new 1)).1 =
  Throw past_tokens.
Proof. by vm_compute. Qed.

(** A hashtag with a letter that is not ASCII. *)
Lemma negative_char_in_isalnum :
  (receive (TweetFinder.FTweet (Tweet (print (JObject [(TweetFinder.key_text, JString [35; 195; 169])])))) (TweetFinder.finder_new 1)).1 =
  Throw (undefined_behaviour "isalnum of a negative char").
Proof. by vm_compute. Qed.

(** No gates: a configuration with [number] 0 is accepted. *)
Lemma no_gates_divides_by_zero :
  (receive (TweetFinder.FTweet (Tweet (print (JObject [(TweetFinder.key_text, JString [35; 120])])))) (TweetFinder.finder_new 0)).1 =
  Throw (undefined_behaviour "division by zero").
Proof. by vm_compute. Qed.
End findings.

(** ** Witnesses *)

(** The first of them has a number before and an object behind its text. *)
Definition demo_tweets : list (list (list Z * json)) :=
  [[([105], JPrimitive [49]); (TweetFinder.key_text, JString [104; 105; 32; 35; 97; 98; 46]); ([117], JObject [([105], JPrimitive [50])])];
   [(TweetFinder.key_text, JString [35; 99])]; [([105], JString [50])]].

