(* ===== verification/Dns.v ===== *)
(** * DNS packets

    Models [messages/DNSPacket.cpp] and [messages/DNSPacket.hpp]: a packet whose
    payload is parsed as a DNS message when it is constructed.  Printing is left out.

    The buffer is the list of the packet's bytes, pointers into it are offsets, and
    reading outside it is undefined behaviour: the parser has no checks of its own.
    Names are read by a recursive function; [stack] is the number of calls the stack
    has room for, and a name that needs more of them overflows it.  The strings and
    records that the parser allocates are values here; it never frees them. *)

From S2P Require Export Packet.

#[local] Ltac Zify.zify_post_hook ::= Z.to_euclidean_division_equations.

#[local] Instance outcome_ret : MRet outcome := λ A, Ret.
#[local] Instance outcome_bind : MBind outcome := λ A B f o,
  match o with Ret a => f a | Throw e => Throw e end.

(** ** The records *)

Record q_record := QRecord { q_qname : list Z; q_rtype : Z; q_dclass : Z }.
Record a_record := ARecord { a_ttl : Z; a_rtype : Z; a_dclass : Z; a_ip_addr : Z; a_qname : list Z }.
Record cname_record := CnameRecord { c_ttl : Z; c_rtype : Z; c_dclass : Z; c_qname : list Z; c_cname : list Z }.

Record dns := Dns {
  transaction_id : Z;
  QR_flag : Z; op_code : Z; AA_flag : Z; TC_flag : Z; RD_flag : Z; RA_flag : Z; AD_flag : Z; ND_flag : Z; re_code : Z;
  n_questions : Z; n_answer : Z; n_ns : Z; n_additional : Z;
  queries : list q_record;
  a_recs : list a_record;
  c_names : list cname_record
}.

#[export] Instance q_record_eq_dec : EqDecision q_record.
Proof. solve_decision. Defined.
#[export] Instance a_record_eq_dec : EqDecision a_record.
Proof. solve_decision. Defined.
#[export] Instance cname_record_eq_dec : EqDecision cname_record.
Proof. solve_decision. Defined.

(** ** Parsing *)

Section dns.
Context (buf : list Z).

(** [*(m_buffer + o)] *)
Definition rd (o : Z) : outcome Z :=
  match (if 0 <=? o then buf !! Z.to_nat o else None) with
  | Some b => Ret b
  | None => Throw (undefined_behaviour "read outside the packet")
  end.

Definition load_BE_u16 (o : Z) : outcome Z :=
  a ← rd o;
  b ← rd (o + 1);
  mret (Z.shiftl a 8 + b).

Definition load_BE_u32 (o : Z) : outcome Z :=
  a ← load_BE_u16 o;
  b ← load_BE_u16 (o + 2);
  mret (Z.shiftl a 16 + b).

(** [std::string(data + i, j)] *)
Definition rd_string (o j : Z) : outcome (list Z) :=
  if (0 <=? o) && (o + j <=? Z.of_nat (length buf)) then Ret (take (Z.to_nat j) (drop (Z.to_nat o) buf))
  else Throw (undefined_behaviour "read outside the packet").

(** The loop over the labels: the count of bytes, the byte it stopped at and the
    name so far. *)
Fixpoint labels_loop (fuel : nat) (data i j : Z) (ret : list Z) : outcome (Z * Z * list Z) :=
  if negb (j =? 0) && (j <? 0xC0) then
    match fuel with
    | O => Throw (undefined_behaviour "out of fuel")
    | S fuel =>
        let i := u32 (i + 1) in
        tmp ← rd_string (data + i) j;
        let ret := (if i =? 1 then ret else ret ++ [46]) ++ tmp in
        let i := u32 (i + Z.of_nat (length tmp)) in
        j ← rd (data + i);
        labels_loop fuel data i j ret
    end
  else Ret (i, j, ret).

(** The name, and [*consumed] afterwards. *)
Fixpoint read_dns_name (stack : nat) (consumed data dns_start : Z) : outcome (list Z * Z) :=
  match stack with
  | O => Throw (undefined_behaviour "stack overflow")
  | S stack =>
      d ← rd data;
      if d <? 0xC0 then
        '(i, j, ret) ← labels_loop (S (length buf)) data 0 d [];
        if negb (j =? 0) then
          w ← load_BE_u16 (data + i);
          let jump := Z.land w 0x3FFF in
          let consumed := u16 (consumed + (i + 2)) in
          '(tmp, _) ← read_dns_name stack 0 (dns_start + jump) dns_start;
          mret ((ret ++ [46]) ++ tmp, consumed)
        else mret (ret, u16 (consumed + (i + 1)))
      else
        w ← load_BE_u16 data;
        let jump := Z.land w 0x3FFF in
        '(ret, _) ← read_dns_name stack 0 (dns_start + jump) dns_start;
        mret (ret, u16 (consumed + 2))
  end.

(** The two loops of [parse_dns]: the records and the size of those read. *)
Fixpoint parse_questions (stack : nat) (n : nat) (dns_offset q_offset q_size : Z) (queries : list q_record) :
    outcome (list q_record * Z) :=
  match n with
  | O => mret (queries, q_size)
  | S n =>
      '(qname, consumed) ← read_dns_name stack 0 (q_offset + q_size) dns_offset;
      let q_size := u16 (q_size + consumed) in
      rtype ← load_BE_u16 (q_offset + q_size);
      let q_size := u16 (q_size + 2) in
      dclass ← load_BE_u16 (q_offset + q_size);
      let q_size := u16 (q_size + 2) in
      parse_questions stack n dns_offset q_offset q_size (queries ++ [QRecord qname (u16 rtype) (u16 dclass)])
  end.

Fixpoint parse_answers (stack : nat) (n : nat) (dns_offset a_offset a_size : Z) (recs : list a_record * list cname_record) :
    outcome (list a_record * list cname_record) :=
  match n with
  | O => mret recs
  | S n =>
      '(tmp, consumed) ← read_dns_name stack 0 (a_offset + a_size) dns_offset;
      let a_size := u16 (a_size + consumed) in
      type ← load_BE_u16 (a_offset + a_size);
      let type := u16 type in
      let a_size := u16 (a_size + 2) in
      dclass ← load_BE_u16 (a_offset + a_size);
      let dclass := u16 dclass in
      let a_size := u16 (a_size + 2) in
      ttl ← load_BE_u32 (a_offset + a_size);
      let ttl := u32 ttl in
      let a_size := u16 (a_size + 4) in
      let a_size := u16 (a_size + 2) in
      '(recs, a_size) ←
        (if type =? 1 then
           ip_addr ← load_BE_u32 (a_offset + a_size);
           mret ((recs.1 ++ [ARecord ttl type dclass (u32 ip_addr) tmp], recs.2), u16 (a_size + 4))
         else if type =? 5 then
           '(cname, consumed) ← read_dns_name stack 0 (a_offset + a_size) dns_offset;
           mret ((recs.1, recs.2 ++ [CnameRecord ttl type dclass tmp cname]), u16 (a_size + consumed))
         else mret (recs, a_size));
      parse_answers stack n dns_offset a_offset a_size recs
  end.

(** [payload] is the offset of the L4 payload; there may be none. *)
Definition parse_dns (stack : nat) (payload : option Z) : outcome dns :=
  match payload with
  | None => Throw (undefined_behaviour "difference of a null pointer")
  | Some p =>
      let dns_offset := u8 p in
      transaction_id ← load_BE_u16 dns_offset;
      f2 ← rd (dns_offset + 2);
      f3 ← rd (dns_offset + 3);
      n_questions ← load_BE_u16 (dns_offset + 4);
      n_answer ← load_BE_u16 (dns_offset + 6);
      n_ns ← load_BE_u16 (dns_offset + 8);
      n_additional ← load_BE_u16 (dns_offset + 10);
      let q_offset := u16 (dns_offset + 12) in
      '(queries, q_size) ← parse_questions stack (Z.to_nat (u16 n_questions)) dns_offset q_offset 0 [];
      let a_offset := u16 (q_offset + q_size) in
      '(a_recs, c_names) ← parse_answers stack (Z.to_nat (u16 n_answer)) dns_offset a_offset 0 ([], []);
      mret (Dns (u16 transaction_id)
        (Z.shiftr f2 7) (Z.land (Z.shiftr f2 3) 0xF) (Z.land (Z.shiftr f2 2) 1) (Z.land (Z.shiftr f2 1) 1) (Z.land f2 1)
        (Z.shiftr f3 7) (Z.land (Z.shiftr f3 5) 1) (Z.land (Z.shiftr f3 4) 1) (Z.land f3 0xF)
        (u16 n_questions) (u16 n_answer) (u16 n_ns) (u16 n_additional) queries a_recs c_names)
  end.
End dns.

(** ** The packet

    The constructor copies [p.length()] bytes of [p]'s buffer; what it does not pass
    on has the default of [Packet]'s constructor. *)
Definition dns_packet (junk : Z * ip_fields * tcp_fields * Z) (stack : nat) (p : Packet.packet) : outcome (Packet.packet * dns) :=
  if packet_length p <=? m_caplen p then
    match access payload (packet_new junk (take (Z.to_nat (packet_length p)) (m_buffer p)) (0, 0) 0 kEthernet) with
    | (Ret o, q) => d ← parse_dns (m_buffer q) stack o; mret (q, d)
    | (Throw e, _) => Throw e
    end
  else Throw (undefined_behaviour "read outside the packet").

(** ** What a message is, after RFC 1035

    The labels of a name, closed by a zero byte or by a pointer to the rest of the
    name; [hops] bounds the number of pointers to follow. *)

Fixpoint dotted (ls : list (list Z)) : list Z :=
  match ls with
  | [] => []
  | [l] => l
  | l :: ls => l ++ 46 :: dotted ls
  end.

Record question := Question { qu_name : list (list Z); qu_type : Z; qu_class : Z }.
Inductive rdata := RdA (ip : Z) | RdCname (name : list (list Z)) | RdOther (type : Z) (data : list Z).
Record answer := Answer { an_name : list (list Z); an_class : Z; an_ttl : Z; an_data : rdata }.

Record message := Message {
  ms_id : Z; ms_qr : Z; ms_op : Z; ms_aa : Z; ms_tc : Z; ms_rd : Z; ms_ra : Z; ms_ad : Z; ms_cd : Z; ms_rcode : Z;
  ms_questions : list question;
  ms_answers : list answer;
  ms_nscount : Z;
  ms_arcount : Z
}.

Section rfc.
Context (buf : list Z).

Definition bytes_at (o : Z) (l : list Z) : Prop :=
  ∃ pre post, buf = pre ++ l ++ post ∧ o = Z.of_nat (length pre).
Definition word_at (o : Z) (n : nat) (v : Z) : Prop := 0 ≤ v < 2 ^ (8 * Z.of_nat n) ∧ bytes_at o (be n v).

Inductive labels_at : Z → list (list Z) → Z → Prop :=
| labels_nil o : labels_at o [] o
| labels_cons o l ls o' :
    (0 < length l < 64)%nat → bytes_at o (Z.of_nat (length l) :: l) → labels_at (o + 1 + Z.of_nat (length l)) ls o' →
    labels_at o (l :: ls) o'.

Inductive name_at (start : Z) : nat → Z → list (list Z) → Z → Prop :=
| name_end hops o ls o' : labels_at o ls o' → bytes_at o' [0] → name_at start hops o ls (o' + 1)
| name_pointer hops o ls o' target ls' next :
    labels_at o ls o' → 0 ≤ target < 2 ^ 14 → bytes_at o' (be 2 (0xC000 + target)) →
    name_at start hops (start + target) ls' next → ls' ≠ [] →
    name_at start (S hops) o (ls ++ ls') (o' + 2).

Inductive records_at {A} (rel : Z → A → Z → Prop) : Z → list A → Z → Prop :=
| records_nil o : records_at rel o [] o
| records_cons o a l o' next : rel o a o' → records_at rel o' l next → records_at rel o (a :: l) next.

Definition question_at (start : Z) (hops : nat) (o : Z) (q : question) (next : Z) : Prop :=
  ∃ o1, name_at start hops o (qu_name q) o1 ∧ word_at o1 2 (qu_type q) ∧ word_at (o1 + 2) 2 (qu_class q) ∧ next = o1 + 4.

Definition rdata_at (start : Z) (hops : nat) (o : Z) (d : rdata) (next : Z) : Prop :=
  match d with
  | RdA ip => word_at o 4 ip ∧ next = o + 4
  | RdCname name => name_at start hops o name next
  | RdOther type data => type ≠ 1 ∧ type ≠ 5 ∧ bytes_at o data ∧ next = o + Z.of_nat (length data)
  end.
Definition rdata_type (d : rdata) : Z := match d with RdA _ => 1 | RdCname _ => 5 | RdOther type _ => type end.

Definition answer_at (start : Z) (hops : nat) (o : Z) (a : answer) (next : Z) : Prop :=
  ∃ o1, name_at start hops o (an_name a) o1 ∧
    word_at o1 2 (rdata_type (an_data a)) ∧ word_at (o1 + 2) 2 (an_class a) ∧ word_at (o1 + 4) 4 (an_ttl a) ∧
    word_at (o1 + 8) 2 (next - (o1 + 10)) ∧ rdata_at start hops (o1 + 10) (an_data a) next.

Definition bits_ok (m : message) : Prop :=
  Forall (λ v, 0 ≤ v < 2) [ms_qr m; ms_aa m; ms_tc m; ms_rd m; ms_ra m; ms_ad m; ms_cd m] ∧
  Forall (λ v, 0 ≤ v < 16) [ms_op m; ms_rcode m].

Definition flag_bytes (m : message) : list Z :=
  [128 * ms_qr m + 8 * ms_op m + 4 * ms_aa m + 2 * ms_tc m + ms_rd m;
   128 * ms_ra m + 32 * ms_ad m + 16 * ms_cd m + ms_rcode m].

Definition message_at (start : Z) (hops : nat) (m : message) : Prop :=
  word_at start 2 (ms_id m) ∧ bits_ok m ∧ bytes_at (start + 2) (flag_bytes m) ∧
  word_at (start + 4) 2 (Z.of_nat (length (ms_questions m))) ∧ word_at (start + 6) 2 (Z.of_nat (length (ms_answers m))) ∧
  word_at (start + 8) 2 (ms_nscount m) ∧ word_at (start + 10) 2 (ms_arcount m) ∧
  ∃ o next, records_at (question_at start hops) (start + 12) (ms_questions m) o ∧
    records_at (answer_at start hops) o (ms_answers m) next.
End rfc.

(** The parser does not skip the data of a record that is neither A nor CNAME
    ([other_record_not_skipped]): such a record may have data only if it is the last
    answer. *)
Definition has_no_data (a : answer) : bool :=
  match an_data a with RdOther _ (_ :: _) => false | _ => true end.
Fixpoint other_data_last (l : list answer) : bool :=
  match l with [] | [_] => true | a :: l => has_no_data a && other_data_last l end.

(** What [parse_dns] makes of a message. *)
Definition q_record_of (q : question) : q_record := QRecord (dotted (qu_name q)) (qu_type q) (qu_class q).
Definition a_record_of (a : answer) : option a_record :=
  match an_data a with RdA ip => Some (ARecord (an_ttl a) 1 (an_class a) ip (dotted (an_name a))) | _ => None end.
Definition cname_record_of (a : answer) : option cname_record :=
  match an_data a with
  | RdCname n => Some (CnameRecord (an_ttl a) 5 (an_class a) (dotted (an_name a)) (dotted n))
  | _ => None
  end.

Definition dns_of (m : message) : dns :=
  Dns (ms_id m) (ms_qr m) (ms_op m) (ms_aa m) (ms_tc m) (ms_rd m) (ms_ra m) (ms_ad m) (ms_cd m) (ms_rcode m)
    (Z.of_nat (length (ms_questions m))) (Z.of_nat (length (ms_answers m))) (ms_nscount m) (ms_arcount m)
    (q_record_of <$> ms_questions m) (omap a_record_of (ms_answers m)) (omap cname_record_of (ms_answers m)).

(** ** Reading bytes, words and labels *)

Section reading.
Context (buf : list Z).

Lemma bytes_at_app o l1 l2 : bytes_at buf o (l1 ++ l2) → bytes_at buf o l1 ∧ bytes_at buf (o + Z.of_nat (length l1)) l2.
Proof.
  intros (pre & post & -> & ->). split; [exists pre, (l2 ++ post) | exists (pre ++ l1), post]; rewrite <- ?app_assoc; [done|].
  split; [done|]. rewrite length_app. lia.
Qed.

Lemma bytes_at_cons o b l : bytes_at buf o (b :: l) → bytes_at buf o [b] ∧ bytes_at buf (o + 1) l.
Proof. apply (bytes_at_app o [b] l). Qed.

Lemma bytes_at_inside o l : bytes_at buf o l → 0 ≤ o ∧ o + Z.of_nat (length l) ≤ Z.of_nat (length buf).
Proof. intros (pre & post & -> & ->). rewrite !length_app. lia. Qed.

Lemma rd_at o b : bytes_at buf o [b] → rd buf o = Ret b.
Proof.
  intros (pre & post & E & ->). unfold rd. rewrite (proj2 (Z.leb_le _ _)) by lia.
  rewrite Nat2Z.id, E, lookup_app_r, Nat.sub_diag by lia. done.
Qed.

Lemma rd_string_at o l : bytes_at buf o l → rd_string buf o (Z.of_nat (length l)) = Ret l.
Proof.
  intros H. pose proof (bytes_at_inside _ _ H). destruct H as (pre & post & E & ->).
  unfold rd_string. rewrite !(proj2 (Z.leb_le _ _)) by lia. cbn [andb].
  by rewrite !Nat2Z.id, E, drop_app_length, take_app_length.
Qed.

Lemma load_BE_u16_bytes o a b : bytes_at buf o [a; b] → load_BE_u16 buf o = Ret (a * 256 + b).
Proof.
  intros [H1 H2]%bytes_at_cons. unfold load_BE_u16. rewrite (rd_at _ _ H1). cbn [mbind outcome_bind].
  rewrite (rd_at _ _ H2). cbn. by rewrite Z.shiftl_mul_pow2.
Qed.

Lemma be_2 v : 0 ≤ v < 2 ^ 16 → be 2 v = [v / 256; v `mod` 256].
Proof. intros H. unfold be. cbn [le_bytes rev app]. rewrite (Z.mod_small (v / 256)); [done|]. lia. Qed.

Lemma be_4 v : be 4 v = be 2 (v / 65536) ++ be 2 v.
Proof. unfold be. cbn [le_bytes rev app]. by rewrite !Z.div_div by lia. Qed.

Lemma load_BE_u16_at o v : 0 ≤ v < 2 ^ 16 → bytes_at buf o (be 2 v) → load_BE_u16 buf o = Ret v.
Proof. intros Hv. rewrite be_2 by done. intros H. rewrite (load_BE_u16_bytes _ _ _ H). f_equal. lia. Qed.

Lemma word16_at o v : word_at buf o 2 v → load_BE_u16 buf o = Ret v ∧ u16 v = v ∧ o + 2 ≤ Z.of_nat (length buf).
Proof.
  intros [Hv Hb]. repeat split; [by apply load_BE_u16_at|by apply u16_small|].
  apply bytes_at_inside in Hb. rewrite length_be in Hb. lia.
Qed.

Lemma word32_at o v : word_at buf o 4 v → load_BE_u32 buf o = Ret v ∧ u32 v = v ∧ o + 4 ≤ Z.of_nat (length buf).
Proof.
  intros [Hv Hb]. change (8 * Z.of_nat 4) with 32 in Hv. pose proof (bytes_at_inside _ _ Hb) as Hi. rewrite length_be in Hi.
  rewrite be_4 in Hb. apply bytes_at_app in Hb as [H1 H2]. rewrite length_be in H2.
  repeat split; [|by apply u32_small|lia]. unfold load_BE_u32.
  assert (0 ≤ v / 65536 < 65536) as Hh by lia.
  rewrite (load_BE_u16_at _ (v / 65536) Hh H1). cbn [mbind outcome_bind].
  replace (be 2 v) with (be 2 (v `mod` 65536)) in H2.
  - rewrite (load_BE_u16_at _ (v `mod` 65536)) by (exact H2 || lia). cbn. rewrite Z.shiftl_mul_pow2 by lia. f_equal. lia.
  - unfold be. cbn [le_bytes rev app]. f_equal; [lia|]. f_equal. lia.
Qed.

(** The text that the labels of a name add to what comes before them. *)
Lemma dotted_cons l ls : dotted (l :: ls) = l ++ concat ((λ l, 46 :: l) <$> ls).
Proof.
  revert l. induction ls as [|l' ls IH]; intros l; [cbn; by rewrite app_nil_r|].
  change (dotted (l :: l' :: ls)) with (l ++ 46 :: dotted (l' :: ls)). by rewrite IH.
Qed.

Lemma dotted_app ls ls' : ls ≠ [] → ls' ≠ [] → dotted (ls ++ ls') = (dotted ls ++ [46]) ++ dotted ls'.
Proof.
  destruct ls as [|l ls]; [done|]. destruct ls' as [|l' ls']; [done|]. intros _ _. cbn [app].
  rewrite !dotted_cons, fmap_app, concat_app. cbn. by rewrite <- !app_assoc.
Qed.

Lemma labels_at_end o ls o' : labels_at buf o ls o' → o + Z.of_nat (length ls) ≤ o' ∧ (ls = [] → o' = o).
Proof. induction 1 as [o|o l ls o' Hl Hb H [IH _]]; cbn [length]; split; try done; lia. Qed.

(** The byte where a list of labels starts, if [j] is the one where it ends. *)
Definition head_byte (ls : list (list Z)) (j : Z) : Z := match ls with [] => j | l :: _ => Z.of_nat (length l) end.

Lemma head_byte_at o ls o' j : labels_at buf o ls o' → bytes_at buf o' [j] → bytes_at buf o [head_byte ls j].
Proof. destruct 1 as [o|o l ls o' Hl Hb H]; [done|]. intros _. by apply bytes_at_cons in Hb as [? _]. Qed.

Lemma labels_loop_at ls data : ∀ fuel i ret o' j, 0 ≤ data → 0 ≤ i → Z.of_nat (length buf) < 2 ^ 32 →
  labels_at buf (data + i) ls o' → bytes_at buf o' [j] → (j = 0 ∨ 0xC0 ≤ j) → (length ls < fuel)%nat →
  labels_loop buf fuel data i (head_byte ls j) ret =
  Ret (o' - data, j, ret ++ (if i =? 0 then dotted ls else concat ((λ l, 46 :: l) <$> ls))).
Proof.
  induction ls as [|l ls IH]; intros fuel i ret o' j Hd Hi Hbuf Hls Hj Ej Hf.
  - inversion_clear Hls. destruct fuel as [|fuel]; [cbn in Hf; lia|].
    assert (ret ++ (if i =? 0 then dotted [] else concat ((λ l : list Z, 46 :: l) <$> [])) = ret) as ->
      by (destruct (i =? 0); apply app_nil_r).
    replace (data + i - data) with i by lia. cbn [labels_loop head_byte].
    destruct Ej as [-> | Ej]; [done|]. by rewrite (proj2 (Z.ltb_ge _ _) Ej), andb_false_r.
  - inversion_clear Hls as [|? ? ? ? Hl Hb Hr]. destruct fuel as [|fuel]; cbn [length] in Hf; [lia|].
    pose proof (bytes_at_inside _ _ Hb) as Hin. cbn [length] in Hin. apply bytes_at_cons in Hb as [_ Hb].
    cbn [labels_loop head_byte]. rewrite (proj2 (Z.eqb_neq _ _)), (proj2 (Z.ltb_lt _ _)) by lia. cbn [negb andb].
    rewrite (u32_small (i + 1)) by lia. replace (data + (i + 1)) with (data + i + 1) by lia.
    rewrite (rd_string_at _ _ Hb). cbn [mbind outcome_bind].
    rewrite u32_small by lia. replace (data + (i + 1 + Z.of_nat (length l))) with (data + i + 1 + Z.of_nat (length l)) by lia.
    rewrite (rd_at _ _ (head_byte_at _ _ _ _ Hr Hj)). cbn [mbind outcome_bind].
    rewrite (IH fuel (i + 1 + Z.of_nat (length l)) _ o' j) by (done || lia || (by rewrite !Z.add_assoc)).
    rewrite (proj2 (Z.eqb_neq (i + 1 + _) 0)) by lia. f_equal. f_equal.
    destruct (Z.eqb_spec (i + 1) 1), (Z.eqb_spec i 0); try lia.
    + by rewrite dotted_cons, <- app_assoc.
    + cbn. by rewrite <- !app_assoc.
Qed.
End reading.

(** ** Names and records *)

Section records.
Context (buf : list Z) (Hbuf : Z.of_nat (length buf) < 2 ^ 16) (start : Z).

Lemma labels_loop_from o ls o' j : labels_at buf o ls o' → bytes_at buf o' [j] → j = 0 ∨ 0xC0 ≤ j →
  rd buf o = Ret (head_byte ls j) ∧ labels_loop buf (S (length buf)) o 0 (head_byte ls j) [] = Ret (o' - o, j, dotted ls).
Proof.
  intros Hls Hj Ej. pose proof (head_byte_at _ _ _ _ _ Hls Hj) as Hh. split; [by apply rd_at|].
  apply bytes_at_inside in Hh. pose proof (bytes_at_inside _ _ _ Hj). pose proof (labels_at_end _ _ _ _ Hls).
  rewrite (labels_loop_at buf ls o (S (length buf)) 0 [] o' j); [done| | | |by rewrite Z.add_0_r|done|done|]; cbn [length] in *; lia.
Qed.

Lemma head_byte_small o ls o' j : labels_at buf o ls o' → ls ≠ [] ∨ j = 0 → (head_byte ls j <? 0xC0) = true.
Proof. intros Hls Hl. apply Z.ltb_lt. destruct Hls; cbn [head_byte]; [destruct Hl; [done|lia] | lia]. Qed.

Lemma pointer_bits t : 0 ≤ t < 2 ^ 14 → Z.land (0xC000 + t) 0x3FFF = t.
Proof. intros Ht. change 0x3FFF with (Z.ones 14). rewrite Z.land_ones by lia. change (2 ^ 14) with 16384 in *. lia. Qed.

Lemma read_dns_name_at hops o ls next : name_at buf start hops o ls next → ∀ stack c, (hops < stack)%nat →
  read_dns_name buf stack c o start = Ret (dotted ls, u16 (c + (next - o))).
Proof.
  induction 1 as [hops o ls o' Hls Hz|hops o ls o' target ls' next Hls Ht Hp Hn IH Hne];
    intros [|stack] c Hs; try lia; cbn [read_dns_name].
  - destruct (labels_loop_from _ _ _ _ Hls Hz ltac:(auto)) as [Erd Eloop]. rewrite Erd.
    cbn [mbind outcome_bind]. rewrite (head_byte_small _ _ _ _ Hls), Eloop by auto. cbn.
    by replace (o' - o + 1) with (o' + 1 - o) by lia.
  - pose proof Hp as Hp'. rewrite be_2 in Hp' by lia. apply bytes_at_cons in Hp' as [Hj _].
    assert (0xC0 ≤ (0xC000 + target) / 256) as Hge by lia.
    destruct (labels_loop_from _ _ _ _ Hls Hj ltac:(auto)) as [Erd Eloop]. rewrite Erd. cbn [mbind outcome_bind].
    destruct (decide (ls = [])) as [-> | Hl].
    + cbn [head_byte]. rewrite (proj2 (Z.ltb_ge _ _)) by done.
      assert (o' = o) as -> by (by apply (labels_at_end _ _ _ _ Hls)).
      rewrite (load_BE_u16_at _ _ (0xC000 + target)) by (done || lia). cbn [mbind outcome_bind].
      rewrite pointer_bits, IH by (done || lia). cbn. by replace (o + 2 - o) with 2 by lia.
    + rewrite (head_byte_small _ _ _ _ Hls), Eloop by auto. cbn [mbind outcome_bind].
      rewrite (proj2 (Z.eqb_neq _ 0)) by lia. cbn [negb]. replace (o + (o' - o)) with o' by lia.
      rewrite (load_BE_u16_at _ _ (0xC000 + target)) by (done || lia). cbn [mbind outcome_bind].
      rewrite pointer_bits, IH by (done || lia). cbn [mbind outcome_bind mret outcome_ret].
      rewrite dotted_app by done. by replace (o' - o + 2) with (o' + 2 - o) by lia.
Qed.

Lemma name_at_inside hops o ls next : name_at buf start hops o ls next → 0 ≤ o < next ∧ next ≤ Z.of_nat (length buf).
Proof.
  induction 1 as [hops o ls o' Hls Hz|hops o ls o' target ls' next Hls Ht Hp Hn IH Hne].
  - pose proof (labels_at_end _ _ _ _ Hls). pose proof (bytes_at_inside _ _ _ (head_byte_at _ _ _ _ _ Hls Hz)).
    apply bytes_at_inside in Hz. cbn [length] in *. lia.
  - rewrite be_2 in Hp by lia. pose proof (bytes_at_inside _ _ _ Hp). apply bytes_at_cons in Hp as [Hp _].
    pose proof (labels_at_end _ _ _ _ Hls). pose proof (bytes_at_inside _ _ _ (head_byte_at _ _ _ _ _ Hls Hp)).
    cbn [length] in *. lia.
Qed.

Lemma parse_questions_at stack hops q_offset l : ∀ q_size acc next, (hops < stack)%nat → 0 ≤ q_offset → 0 ≤ q_size →
  records_at (question_at buf start hops) (q_offset + q_size) l next → q_offset + q_size ≤ Z.of_nat (length buf) →
  parse_questions buf stack (length l) start q_offset q_size acc = Ret (acc ++ (q_record_of <$> l), next - q_offset) ∧
  q_offset + q_size ≤ next ≤ Z.of_nat (length buf).
Proof.
  induction l as [|q l IH]; intros q_size acc next Hs Ho Hq Hl Hin; inversion_clear Hl as [|? ? ? ? ? Hq1 Hl1].
  - split; [|lia]. cbn. rewrite app_nil_r. do 2 f_equal. lia.
  - destruct Hq1 as (o1 & Hn & Ht & Hc & ->).
    pose proof (name_at_inside _ _ _ _ Hn) as Hni. apply word16_at in Ht as (Et & Ut & Hti). apply word16_at in Hc as (Ec & Uc & Hci).
    destruct (IH (o1 + 4 - q_offset) (acc ++ [q_record_of q]) next) as [E Hnext]; [done|done|lia|by rewrite Z.add_sub_assoc, Z.add_simpl_l|lia|].
    split; [|lia]. cbn [length parse_questions fmap list_fmap]. rewrite (read_dns_name_at _ _ _ _ Hn) by done.
    cbn [mbind outcome_bind]. rewrite Z.add_0_l, !(u16_small (o1 - _)), !(u16_small (q_size + _)) by lia.
    replace (q_offset + (q_size + (o1 - (q_offset + q_size)))) with o1 by lia. rewrite Et. cbn [mbind outcome_bind].
    rewrite (u16_small (q_size + _ + 2)) by lia.
    replace (q_offset + (q_size + (o1 - (q_offset + q_size)) + 2)) with (o1 + 2) by lia. rewrite Ec. cbn [mbind outcome_bind].
    rewrite u16_small, Ut, Uc by lia. replace (q_size + _ + 2 + 2) with (o1 + 4 - q_offset) by lia.
    change (QRecord _ _ _) with (q_record_of q). rewrite E. by rewrite <- app_assoc.
Qed.

Lemma parse_answers_at stack hops a_offset l : ∀ a_size acc next, (hops < stack)%nat → 0 ≤ a_offset → 0 ≤ a_size →
  records_at (answer_at buf start hops) (a_offset + a_size) l next → other_data_last l = true →
  parse_answers buf stack (length l) start a_offset a_size acc =
    Ret (acc.1 ++ omap a_record_of l, acc.2 ++ omap cname_record_of l).
Proof.
  induction l as [|a l IH]; intros a_size acc next Hs Ho Ha Hl Hlast; inversion_clear Hl as [|? ? ? ? ? Ha1 Hl1].
  - cbn. rewrite !app_nil_r. by destruct acc.
  - destruct Ha1 as (o1 & Hn & Ht & Hc & Httl & Hlen & Hd).
    pose proof (name_at_inside _ _ _ _ Hn) as Hni.
    apply word16_at in Ht as (Et & Ut & _), Hc as (Ec & Uc & _). apply word32_at in Httl as (El & Ul & _).
    apply word16_at in Hlen as (_ & _ & Hli).
    cbn [length parse_answers]. rewrite (read_dns_name_at _ _ _ _ Hn) by done. cbn [mbind outcome_bind].
    rewrite Z.add_0_l. set (d := o1 - (a_offset + a_size)).
    rewrite (u16_small d), (u16_small (a_size + d)) by (unfold d; lia).
    replace (a_offset + (a_size + d)) with o1 by (unfold d; lia). rewrite Et. cbn [mbind outcome_bind].
    rewrite (u16_small (a_size + d + 2)) by (unfold d; lia).
    replace (a_offset + (a_size + d + 2)) with (o1 + 2) by (unfold d; lia). rewrite Ec. cbn [mbind outcome_bind].
    rewrite (u16_small (a_size + d + 2 + 2)) by (unfold d; lia).
    replace (a_offset + (a_size + d + 2 + 2)) with (o1 + 4) by (unfold d; lia). rewrite El. cbn [mbind outcome_bind].
    rewrite (u16_small (a_size + d + 2 + 2 + 4)), (u16_small (a_size + d + 2 + 2 + 4 + 2)), Ut, Uc, Ul by (unfold d; lia).
    replace (a_offset + (a_size + d + 2 + 2 + 4 + 2)) with (o1 + 10) by (unfold d; lia).
    assert (other_data_last l = true) as Hlast'
      by (destruct l; [done|]; cbn [other_data_last] in Hlast; by apply andb_prop in Hlast as [_ ?]).
    destruct a as [name class ttl [ip|cname|type data]]; cbn [an_name an_class an_ttl an_data rdata_type rdata_at] in *.
    + destruct Hd as [Hip ->]. apply word32_at in Hip as (Eip & Uip & Hipi). cbn [Z.eqb Pos.eqb].
      rewrite Eip. cbn [mbind outcome_bind mret outcome_ret]. rewrite Uip, u16_small by (unfold d; lia).
      erewrite IH; [|done|done| |by replace (a_offset + (a_size + d + 2 + 2 + 4 + 2 + 4)) with (o1 + 10 + 4) by (unfold d; lia)|done].
      * cbn. by rewrite <- app_assoc.
      * unfold d; lia.
    + pose proof (name_at_inside _ _ _ _ Hd) as Hdi. cbn [Z.eqb Pos.eqb].
      rewrite (read_dns_name_at _ _ _ _ Hd) by done. cbn [mbind outcome_bind mret outcome_ret]. rewrite Z.add_0_l.
      rewrite (u16_small (o' - _)), u16_small by (unfold d; lia).
      erewrite IH; [|done|done| |by replace (a_offset + (a_size + d + 2 + 2 + 4 + 2 + (o' - (o1 + 10)))) with o' by (unfold d; lia)|done].
      * cbn. by rewrite <- app_assoc.
      * unfold d; lia.
    + destruct Hd as (H1 & H5 & _ & ->). rewrite (proj2 (Z.eqb_neq type 1)), (proj2 (Z.eqb_neq type 5)) by done.
      cbn [mbind outcome_bind mret outcome_ret].
      destruct l as [|a' l]; [cbn; rewrite !app_nil_r; by destruct acc|].
      destruct data; cbn [other_data_last has_no_data an_data andb] in Hlast; [|done].
      erewrite IH; [done|done|done| | |done]; [unfold d; lia|].
      replace (a_offset + (a_size + d + 2 + 2 + 4 + 2)) with (o1 + 10 + Z.of_nat (@length Z [])) by (unfold d; cbn; lia). done.
Qed.

Lemma flag_bits m : bits_ok m → ∃ f2 f3, flag_bytes m = [f2; f3] ∧
  Z.shiftr f2 7 = ms_qr m ∧ Z.land (Z.shiftr f2 3) 0xF = ms_op m ∧ Z.land (Z.shiftr f2 2) 1 = ms_aa m ∧
  Z.land (Z.shiftr f2 1) 1 = ms_tc m ∧ Z.land f2 1 = ms_rd m ∧ Z.shiftr f3 7 = ms_ra m ∧
  Z.land (Z.shiftr f3 5) 1 = ms_ad m ∧ Z.land (Z.shiftr f3 4) 1 = ms_cd m ∧ Z.land f3 0xF = ms_rcode m.
Proof.
  intros [H2 H16]. decompose_Forall_hyps. do 2 eexists. split; [done|]. rewrite !Z.shiftr_div_pow2 by lia.
  change 15 with (Z.ones 4). assert (∀ x, Z.land x 1 = x `mod` 2) as E1 by (intros; apply (Z.land_ones x 1); lia).
  rewrite !E1, !Z.land_ones by lia. change (2 ^ 7) with 128. change (2 ^ 3) with 8. change (2 ^ 2) with 4.
  change (2 ^ 1) with 2.
  change (2 ^ 4) with 16. change (2 ^ 5) with 32. repeat split; lia.
Qed.

Lemma parse_dns_at stack hops m : start < 256 → message_at buf start hops m → other_data_last (ms_answers m) = true → (hops < stack)%nat →
  parse_dns buf stack (Some start) = Ret (dns_of m).
Proof.
  intros H256 (Hid & Hbits & Hf & Hnq & Hna & Hns & Har & o & next & Hq & Ha) Hlast Hs.
  apply word16_at in Hnq as (Enq & Unq & _), Hna as (Ena & Una & _), Hns as (Ens & Uns & _), Har as (Ear & Uar & Hin).
  pose proof Hid as [_ Hb]. apply bytes_at_inside in Hb as [H0 _]. apply word16_at in Hid as (Eid & Uid & _).
  destruct (flag_bits m Hbits) as (f2 & f3 & Ef & HF). rewrite Ef in Hf. apply bytes_at_cons in Hf as [Hf2 Hf3]. apply rd_at in Hf2, Hf3.
  replace (start + 2 + 1) with (start + 3) in Hf3 by lia.
  destruct (parse_questions_at stack hops (start + 12) (ms_questions m) 0 [] o) as [Eq Ho];
    [done|lia|done|by rewrite Z.add_0_r|lia|].
  pose proof (parse_answers_at stack hops o (ms_answers m) 0 ([], []) next Hs ltac:(lia) ltac:(lia)) as Eans.
  rewrite Z.add_0_r in Eans. specialize (Eans Ha Hlast).
  unfold parse_dns. rewrite (u8_small start) by lia. cbn zeta.
  rewrite Eid. cbn [mbind outcome_bind]. rewrite Hf2. cbn [mbind outcome_bind]. rewrite Hf3. cbn [mbind outcome_bind].
  rewrite Enq. cbn [mbind outcome_bind]. rewrite Ena. cbn [mbind outcome_bind]. rewrite Ens. cbn [mbind outcome_bind].
  rewrite Ear. cbn [mbind outcome_bind]. rewrite Unq, Una, Uns, Uar, Uid, !Nat2Z.id, (u16_small (start + 12)) by lia.
  rewrite Eq. cbn [mbind outcome_bind]. replace (start + 12 + (o - (start + 12))) with o by lia.
  rewrite (u16_small o) by lia. rewrite Eans. cbn [mbind outcome_bind mret outcome_ret app fst snd].
  destruct HF as (-> & -> & -> & -> & -> & -> & -> & -> & ->). reflexivity.
Qed.
End records.

(** ** Properties *)

Lemma access_buffer a p : m_buffer (access a p).2 = m_buffer p.
Proof. unfold access, on_cache. run_m. by destruct (access_parse _ _ _ _) as [[[]|] c]. Qed.

(** C12: a UDP packet over IPv4, captured whole and shorter than 2^16 bytes, its payload
    starting below byte 256, that carries a DNS message is decoded to that message: its
    identifier, flags and counts, its questions, and its answers of type A and CNAME in
    their order, each name with its labels joined by dots.  The message is laid out as
    RFC 1035 says, its names compressed in any way with pointers nested less deep than
    the stack and not to the root name, its labels shorter than 64 bytes.  Its answers
    may be of any type, but one that is neither A nor CNAME has data only if it is the
    last: the parser does not skip that data (finding [other_record_not_skipped]).  The
    authority and additional records are counted and not read. *)
Theorem dns_packet_decodes junk junk' macs tags w sp dp udp ts stack hops m :
  let buf := frame macs tags w sp dp udp in
  let start := 14 + 4 * Z.of_nat (length tags) + (20 + Z.of_nat (length (w_options w))) + 8 in
  Z.of_nat (length buf) < 2 ^ 16 → length macs = 12%nat → ip_view_ok w → w_proto w = kUDP → (4 ≤ length udp)%nat →
  start < 256 → message_at buf start hops m → other_data_last (ms_answers m) = true → (hops < stack)%nat →
  ∃ q, dns_packet junk' stack (packet_new junk buf ts 0 kEthernet) = Ret (q, dns_of m) ∧ m_buffer q = buf.
Proof.
  intros buf start Hb Hmacs Hw Hp Hudp Hstart Hm Hlast Hs. unfold dns_packet.
  assert (packet_length (packet_new junk buf ts 0 kEthernet) = Z.of_nat (length buf) ∧ m_buffer (packet_new junk buf ts 0 kEthernet) = buf)
    as [-> Eb] by (by destruct junk as [[[? ?] ?] ?]).
  unfold m_caplen. rewrite Eb, Z.leb_refl, Nat2Z.id, take_ge by lia.
  pose proof (frame_udp_payload junk' macs tags w sp dp udp (0, 0) 0 ltac:(fold buf; lia) Hmacs Hw Hp Hudp) as Hpay.
  fold buf start in Hpay. pose proof (access_buffer payload (packet_new junk' buf (0, 0) 0 kEthernet)) as Ebuf.
  destruct (access payload _) as [r q]. cbn [fst snd] in *. subst r.
  assert (m_buffer q = buf) as -> by (rewrite Ebuf; by destruct junk' as [[[? ?] ?] ?]).
  rewrite (parse_dns_at buf Hb start stack hops m Hstart Hm Hlast Hs).
  exists q. split; [done|]. rewrite Ebuf. by destruct junk' as [[[? ?] ?] ?].
Qed.

(** A response with two questions' worth of names: the first name whole, the second
    a label and a pointer, the other ones pointers only; the last answer is a TXT
    record. *)
Definition response_udp : list Z :=
  be 2 99 ++ be 2 0 ++
  be 2 0x1234 ++ [0x81; 0x80] ++ be 2 1 ++ be 2 3 ++ be 2 0 ++ be 2 0 ++
  [1; 119; 1; 98; 2; 100; 101; 0] ++ be 2 1 ++ be 2 1 ++
  be 2 0xC00C ++ be 2 5 ++ be 2 1 ++ be 4 300 ++ be 2 4 ++ [1; 99] ++ be 2 0xC00E ++
  be 2 0xC024 ++ be 2 1 ++ be 2 1 ++ be 4 60 ++ be 2 4 ++ be 4 0x0A000001 ++
  be 2 0xC024 ++ be 2 16 ++ be 2 1 ++ be 4 60 ++ be 2 3 ++ [2; 104; 105].

Definition response : message :=
  Message 0x1234 1 0 0 0 1 1 0 0 0 [Question [[119]; [98]; [100; 101]] 1 1]
    [Answer [[119]; [98]; [100; 101]] 1 300 (RdCname [[99]; [98]; [100; 101]]);
     Answer [[99]; [98]; [100; 101]] 1 60 (RdA 0x0A000001);
     Answer [[99]; [98]; [100; 101]] 1 60 (RdOther 16 [2; 104; 105])] 0 0.

Definition response_ip : ip_view := IpView 0 119 0 0 64 kUDP 0 0x0A000001 0x0A000002 [].
Definition response_frame : list Z := frame (replicate 12 0) [] response_ip 53 1024 response_udp.

(** Bytes of a concrete buffer at a concrete offset. *)
Ltac bytes_here :=
  lazymatch goal with
  | |- bytes_at ?buf ?o ?l =>
      exists (take (Z.to_nat o) buf), (drop (Z.to_nat o + length l) buf); split; vm_compute; reflexivity
  end.
Ltac word_here := split; [cbn; lia | bytes_here].
Ltac name_here :=
  lazymatch goal with
  | |- labels_at _ _ [] _ => apply labels_nil
  | |- labels_at _ _ (_ :: _) _ => eapply labels_cons; [cbn; lia | bytes_here | cbn; name_here]
  end.

Lemma response_at : message_at response_frame 42 2 response.
Proof.
  assert (∀ h, name_at response_frame 42 h 54 [[119]; [98]; [100; 101]] 62) as N1
    by (intros h; apply (name_end _ _ _ _ _ 61); [name_here | bytes_here]).
  assert (∀ h, name_at response_frame 42 h 56 [[98]; [100; 101]] 62) as N2
    by (intros h; apply (name_end _ _ _ _ _ 61); [name_here | bytes_here]).
  assert (∀ h, name_at response_frame 42 (S h) 78 [[99]; [98]; [100; 101]] 82) as N3.
  { intros h. apply (name_pointer _ _ h _ [[99]] 80 14 _ 62); [name_here|lia|bytes_here|apply N2|done]. }
  split; [word_here|]. split; [split; repeat constructor; cbn; lia|]. split; [bytes_here|]. do 4 (split; [word_here|]).
  exists 66, 113. split.
  - eapply records_cons; [|apply records_nil]. exists 62. split_and!; [apply N1|word_here|word_here|done].
  - eapply (records_cons _ _ _ _ 82); [|eapply (records_cons _ _ _ _ 98); [|eapply (records_cons _ _ _ _ 113); [|apply records_nil]]].
    + exists 68. split_and!; [|word_here..|apply N3].
      apply (name_pointer _ _ 1 _ [] 66 12 [[119]; [98]; [100; 101]] 62); [apply labels_nil|lia|bytes_here|apply N1|done].
    + exists 84. split_and!; [|word_here..|split; [word_here|done]].
      apply (name_pointer _ _ 1 _ [] 82 36 [[99]; [98]; [100; 101]] 82); [apply labels_nil|lia|bytes_here|apply N3|done].
    + exists 100. split_and!; [|word_here..|split_and!; [done|done|bytes_here|done]].
      apply (name_pointer _ _ 1 _ [] 98 36 [[99]; [98]; [100; 101]] 82); [apply labels_nil|lia|bytes_here|apply N3|done].
Qed.

Lemma dns_packet_decodes_witness :
  ∃ q, dns_packet junk0 3 (packet_new junk0 response_frame (0, 0) 0 kEthernet) = Ret (q, dns_of response) ∧
    m_buffer q = response_frame.
Proof.
  apply (dns_packet_decodes junk0 junk0 (replicate 12 0) [] response_ip 53 1024 response_udp (0, 0) 3 2 response).
  - by vm_compute.
  - done.
  - split_and!; try (cbn; lia). exists 0%nat. split; [lia|done].
  - done.
  - cbn. lia.
  - cbn. lia.
  - exact response_at.
  - done.
  - lia.
Defined.

(** ** Findings *)

(** A pointer to itself is followed until the stack is full. *)
Lemma pointer_loop_overflows buf start t c stack : 0 ≤ t < 2 ^ 14 → bytes_at buf (start + t) (be 2 (0xC000 + t)) →
  read_dns_name buf stack c (start + t) start = Throw (undefined_behaviour "stack overflow").
Proof.
  intros Ht Hb. revert c. induction stack as [|stack IH]; intros c; [done|]. cbn [read_dns_name].
  pose proof Hb as Hb'. rewrite be_2 in Hb' by lia. apply bytes_at_cons in Hb' as [Hd _].
  rewrite (rd_at _ _ _ Hd). cbn [mbind outcome_bind]. rewrite (proj2 (Z.ltb_ge _ _)) by lia.
  rewrite (load_BE_u16_at _ _ (0xC000 + t)) by (done || lia). cbn [mbind outcome_bind].
  by rewrite pointer_bits, IH.
Qed.

(** A name whose pointer leads to the root gets a dot at its end. *)
Lemma pointer_to_root_adds_dot : read_dns_name [1; 97; 0xC0; 4; 0] 5 0 0 0 = Ret ([97; 46], 4).
Proof. by vm_compute. Qed.

(** A message with an answer of type AAAA before one of type A: the address is taken
    for the second answer, and the A record is missed. *)
Definition aaaa_message : list Z :=
  be 2 7 ++ be 2 0x8180 ++ be 2 0 ++ be 2 2 ++ be 2 0 ++ be 2 0 ++
  [1; 97; 0] ++ be 2 28 ++ be 2 1 ++ be 4 60 ++ be 2 16 ++ replicate 16 0 ++
  be 2 0xC00C ++ be 2 1 ++ be 2 1 ++ be 4 60 ++ be 2 4 ++ be 4 0x0A000001.

Lemma other_record_not_skipped : ∃ d, parse_dns aaaa_message 5 (Some 0) = Ret d ∧ n_answer d = 2 ∧ a_recs d = [].
Proof. eexists. split; [by vm_compute|done]. Qed.

(** A message that ends before its question. *)
Lemma truncated_message_read_past_end :
  parse_dns (be 2 7 ++ be 2 0x0100 ++ be 2 1 ++ be 2 0 ++ be 2 0 ++ be 2 0) 5 (Some 0) =
  Throw (undefined_behaviour "read outside the packet").
Proof. by vm_compute. Qed.

(** A packet that was not captured whole: its length on the wire is copied. *)
Lemma uncaptured_bytes_copied junk stack p : m_caplen p < packet_length p →
  dns_packet junk stack p = Throw (undefined_behaviour "read outside the packet").
Proof. intros H. unfold dns_packet. by rewrite (proj2 (Z.leb_gt _ _)). Qed.

(** Not UDP or TCP: there is no payload. *)
Lemma no_payload_undefined buf stack : parse_dns buf stack None = Throw (undefined_behaviour "difference of a null pointer").
Proof. done. Qed.
