(* ===== verification/UhPacket.v ===== *)
(** * Packets with a unified header

    Models [messages/UHPacket.cpp] and [messages/UHPacket.hpp]: a [Packet] without
    bytes whose fields come from the unified header of the COMBO card, and are never
    parsed.

    The header is the list of the bytes it has; reading behind them is undefined.
    Who owns memory matters for the destructor only: [heap] is the set of the
    allocated blocks. *)

From S2P Require Export Packet.

Definition kPktTypeIP6 : Z := 0x86FF.

(** A field of [n] bytes at offset [o], as it is in memory. *)
Definition uh_load (uh : list Z) (o n : nat) : outcome Z :=
  if (o + n <=? length uh)%nat then Ret (load uh (Z.of_nat o) n)
  else Throw (undefined_behaviour "read outside the header").

Definition uh_read {S} (uh : list Z) (o n : nat) : M S Z := λ s, (uh_load uh o n, s).

Definition uh_type (b : Z) : Z :=
  if b =? 0x40 then kPktTypeIP4 else if b =? 0x60 then kPktTypeIP6 else 0.

(** The members that [parse_uh] sets, one read after the other. *)
Definition parse_uh (uh : list Z) : M packet unit :=
  proto_ ← uh_read uh 0x0A 1;
  sp ← uh_read uh 0x1C 2;
  dp ← uh_read uh 0x1E 2;
  src ← uh_read uh 0x2C 4;
  dst ← uh_read uh 0x3C 4;
  len ← uh_read uh 0x0B 2;
  type ← uh_read uh 0x08 1;
  tos ← uh_read uh 0x1A 1;
  ttl ← uh_read uh 0x1B 1;
  modify (λ p,
    let c := m_cache p in
    let i := m_ip c in
    Packet [] (ntohs len) (m_tstamp p) (m_mactype p)
      (Cache (Parsed true true true true) (m_iphdr_ptr c) (m_l4hdr_ptr c) (m_l4payload_ptr c) (uh_type type)
        (MkFlowKey (ntohl src) (ntohl dst) (ntohs sp) (ntohs dp) proto_)
        (IpFields tos ttl (m_iplen i) (m_iphlen i)) (m_tcp c) (m_udplen c) (m_payload_len c))).

(** The constructors: they differ in who owns the empty buffer. *)
Definition uh_packet_new (junk : Z * ip_fields * tcp_fields * Z) (uh : list Z) : outcome packet * packet :=
  let '(r, p) := parse_uh uh (packet_new junk [] (0, 0) 0 0) in
  (match r with Ret _ => Ret p | Throw e => Throw e end, p).

(** [clone]: the constructor, given the packet's own buffer as header. *)
Definition uh_clone (junk : Z * ip_fields * tcp_fields * Z) (p : packet) : outcome packet * packet :=
  uh_packet_new junk (m_buffer p).

(** [delete], and the destructor: that of the class and then that of its base. *)
Definition delete_block (a : Z) : M (gset Z) unit :=
  heap ← gets id;
  if decide (a ∈ heap) then modify (λ h, h ∖ {[a]})
  else throw (undefined_behaviour "delete of a pointer that is not allocated").

Definition packet_destroy (m_buffer_owned : bool) (a : Z) : M (gset Z) unit :=
  if m_buffer_owned then delete_block a else mret tt.

Definition uh_destroy (m_buffer_owned : bool) (a : Z) : M (gset Z) unit :=
  (if m_buffer_owned then delete_block a else mret tt);;
  packet_destroy m_buffer_owned a.

(** ** Headers

    A header by its fields; the gaps are what it has besides. *)
Record uh_view := UhView {
  u_type : Z; u_proto : Z; u_len : Z; u_tos : Z; u_ttl : Z; u_sp : Z; u_dp : Z; u_src : Z; u_dst : Z;
  u_gap0 : list Z; u_gap1 : Z; u_gap2 : list Z; u_gap3 : list Z; u_gap4 : list Z; u_rest : list Z
}.

Definition uh_bytes (w : uh_view) : list Z :=
  u_gap0 w ++ [u_type w; u_gap1 w] ++ [u_proto w] ++ be 2 (u_len w) ++ u_gap2 w ++ [u_tos w; u_ttl w] ++
  be 2 (u_sp w) ++ be 2 (u_dp w) ++ u_gap3 w ++ be 4 (u_src w) ++ u_gap4 w ++ be 4 (u_dst w) ++ u_rest w.

Definition uh_view_ok (w : uh_view) : Prop :=
  length (u_gap0 w) = 8%nat ∧ length (u_gap2 w) = 13%nat ∧ length (u_gap3 w) = 12%nat ∧ length (u_gap4 w) = 12%nat ∧
  0 ≤ u_len w < 2 ^ 16 ∧ 0 ≤ u_sp w < 2 ^ 16 ∧ 0 ≤ u_dp w < 2 ^ 16 ∧ 0 ≤ u_src w < 2 ^ 32 ∧ 0 ≤ u_dst w < 2 ^ 32.

Lemma uh_load_at uh o n pre bs post : uh = pre ++ bs ++ post → o = length pre → length bs = n → uh_load uh o n = Ret (le_value bs).
Proof.
  intros E -> <-. unfold uh_load. rewrite (proj2 (Nat.leb_le _ _)) by (rewrite E, !length_app; lia).
  f_equal. by eapply load_at.
Qed.

Lemma ntohs_be v : 0 ≤ v < 2 ^ 16 → ntohs (le_value (be 2 v)) = v.
Proof. intros H. unfold ntohs. rewrite bswap_be. by apply Z.mod_small. Qed.
Lemma ntohl_be v : 0 ≤ v < 2 ^ 32 → ntohl (le_value (be 4 v)) = v.
Proof. intros H. unfold ntohl. rewrite bswap_be. by apply Z.mod_small. Qed.

Lemma le_value_1 b : le_value [b] = b.
Proof. cbn. lia. Qed.

(** A field, by the bytes before it. *)
Ltac field_at pre := eapply (uh_load_at _ _ _ pre); [unfold uh_bytes; by rewrite <- ?app_assoc | rewrite ?length_app, ?length_be; cbn; lia | apply length_be || done].

Lemma uh_fields w : uh_view_ok w → let uh := uh_bytes w in
  uh_load uh 0x0A 1 = Ret (u_proto w) ∧ uh_load uh 0x1C 2 = Ret (le_value (be 2 (u_sp w))) ∧
  uh_load uh 0x1E 2 = Ret (le_value (be 2 (u_dp w))) ∧ uh_load uh 0x2C 4 = Ret (le_value (be 4 (u_src w))) ∧
  uh_load uh 0x3C 4 = Ret (le_value (be 4 (u_dst w))) ∧ uh_load uh 0x0B 2 = Ret (le_value (be 2 (u_len w))) ∧
  uh_load uh 0x08 1 = Ret (u_type w) ∧ uh_load uh 0x1A 1 = Ret (u_tos w) ∧ uh_load uh 0x1B 1 = Ret (u_ttl w).
Proof.
  intros (G0 & G2 & G3 & G4 & _) uh.
  split_and!.
  - rewrite <- (le_value_1 (u_proto w)). field_at (u_gap0 w ++ [u_type w; u_gap1 w]).
  - field_at (u_gap0 w ++ [u_type w; u_gap1 w] ++ [u_proto w] ++ be 2 (u_len w) ++ u_gap2 w ++ [u_tos w; u_ttl w]).
  - field_at (u_gap0 w ++ [u_type w; u_gap1 w] ++ [u_proto w] ++ be 2 (u_len w) ++ u_gap2 w ++ [u_tos w; u_ttl w] ++ be 2 (u_sp w)).
  - field_at (u_gap0 w ++ [u_type w; u_gap1 w] ++ [u_proto w] ++ be 2 (u_len w) ++ u_gap2 w ++ [u_tos w; u_ttl w] ++
      be 2 (u_sp w) ++ be 2 (u_dp w) ++ u_gap3 w).
  - field_at (u_gap0 w ++ [u_type w; u_gap1 w] ++ [u_proto w] ++ be 2 (u_len w) ++ u_gap2 w ++ [u_tos w; u_ttl w] ++
      be 2 (u_sp w) ++ be 2 (u_dp w) ++ u_gap3 w ++ be 4 (u_src w) ++ u_gap4 w).
  - field_at (u_gap0 w ++ [u_type w; u_gap1 w] ++ [u_proto w]).
  - rewrite <- (le_value_1 (u_type w)). eapply (uh_load_at _ _ _ (u_gap0 w) [u_type w]); [done|done|done].
  - rewrite <- (le_value_1 (u_tos w)).
    eapply (uh_load_at _ _ _ (u_gap0 w ++ [u_type w; u_gap1 w] ++ [u_proto w] ++ be 2 (u_len w) ++ u_gap2 w) [u_tos w]);
      [unfold uh, uh_bytes; by rewrite <- !app_assoc|rewrite !length_app, length_be; cbn; lia|done].
  - rewrite <- (le_value_1 (u_ttl w)).
    eapply (uh_load_at _ _ _ (u_gap0 w ++ [u_type w; u_gap1 w] ++ [u_proto w] ++ be 2 (u_len w) ++ u_gap2 w ++ [u_tos w]) [u_ttl w]);
      [unfold uh, uh_bytes; by rewrite <- !app_assoc|rewrite !length_app, length_be; cbn; lia|done].
Qed.

Lemma uh_packet_new_at junk w : uh_view_ok w →
  ∃ p, uh_packet_new junk (uh_bytes w) = (Ret p, p) ∧ done_ (m_cache p) = Parsed true true true true ∧
    m_buffer p = [] ∧ m_length p = u_len w ∧ m_pkttype (m_cache p) = uh_type (u_type w) ∧
    m_key (m_cache p) = MkFlowKey (u_src w) (u_dst w) (u_sp w) (u_dp w) (u_proto w) ∧
    m_iptos (m_ip (m_cache p)) = u_tos w ∧ m_ipttl (m_ip (m_cache p)) = u_ttl w.
Proof.
  intros Hw. destruct (uh_fields w Hw) as (E1 & E2 & E3 & E4 & E5 & E6 & E7 & E8 & E9).
  destruct Hw as (_ & _ & _ & _ & Hlen & Hsp & Hdp & Hsrc & Hdst). destruct junk as [[[? ?] ?] ?].
  unfold uh_packet_new, parse_uh, uh_read. run_m. rewrite E1, E2, E3, E4, E5, E6, E7, E8, E9.
  cbn -[ntohs ntohl be]. rewrite !ntohs_be, !ntohl_be by done. by eexists.
Qed.

(** What is there is not parsed again, by no accessor. *)
Lemma parsed_access a p : done_ (m_cache p) = Parsed true true true true →
  access a p = (Ret (access_field a (m_cache p)), p).
Proof.
  intros Hd. unfold access, on_cache. run_m.
  assert (access_parse a (m_buffer p) (m_mactype p) (m_cache p) = (Ret tt, m_cache p)) as E.
  { destruct a; cbn [access_parse]; unfold parse_payload, parse_mac, parse_iphdr, parse_ports, parse_tcphdr; run_m;
      rewrite ?Hd; cbn; try done; case_match; by rewrite ?Hd. }
  rewrite E. by destruct p.
Qed.

(** ** The packet of a header

    A packet made from a unified header answers with the fields of that header,
    whatever was asked before, and looks at no byte. *)
Lemma uh_packet_answers junk w xs : uh_view_ok w →
  ∃ p, uh_packet_new junk (uh_bytes w) = (Ret p, p) ∧ packet_length p = u_len w ∧
    access_all xs p = (Ret tt, p) ∧ key p = (Ret (MkFlowKey (u_src w) (u_dst w) (u_sp w) (u_dp w) (u_proto w)), p) ∧
    Forall (λ '(a, v), access a p = (Ret (Some v), p))
      [(l3_protocol, uh_type (u_type w)); (ip_src, u_src w); (ip_dst, u_dst w); (l4_protocol, u_proto w);
       (src_port, u_sp w); (dst_port, u_dp w); (ip_tos, u_tos w); (ip_ttl, u_ttl w)].
Proof.
  intros Hw. destruct (uh_packet_new_at junk w Hw) as (p & E & Hd & Eb & El & Et & Ek & Etos & Ettl).
  exists p. split_and!; [done|done| | |].
  - induction xs as [|a xs IH]; [done|]. cbn [access_all]. by rewrite (bind_Ret _ _ _ _ _ (parsed_access a p Hd)).
  - unfold key, on_cache, parse_ports. run_m. rewrite Hd. cbn. rewrite Ek. by destruct p.
  - repeat constructor; rewrite (parsed_access _ p Hd); cbn [access_field]; rewrite ?Ek, ?Et, ?Etos, ?Ettl; done.
Qed.

(** ** Findings *)

(** The clone is given the packet's buffer as a header, and that is empty. *)
Lemma uh_clone_reads_nothing junk w p : uh_packet_new junk (uh_bytes w) = (Ret p, p) → uh_view_ok w →
  (uh_clone junk p).1 = Throw (undefined_behaviour "read outside the header").
Proof.
  intros E Hw. destruct (uh_packet_new_at junk w Hw) as (p' & E' & _ & Eb & _). rewrite E' in E. injection E as ->.
  unfold uh_clone, uh_packet_new, parse_uh, uh_read. rewrite Eb. by destruct junk as [[[? ?] ?] ?].
Qed.

(** The buffer is deleted by both destructors. *)
Lemma uh_destroy_deletes_twice a heap : a ∈ heap →
  (uh_destroy true a heap).1 = Throw (undefined_behaviour "delete of a pointer that is not allocated").
Proof.
  intros Ha. unfold uh_destroy, packet_destroy, delete_block. run_m. rewrite decide_True by done. cbn.
  by rewrite decide_False by set_solver.
Qed.
