(* ===== verification/NetTypes.v ===== *)
(** * Times and addresses

    Models [messages/NetTypes.cpp]: conversions between the representations of a time,
    and between an IPv4 address and its text.  [timespec_to_us] is in [Packet].

    Of Boost, [split] and [lexical_cast] are arguments; [BoostLaws] says what the code
    relies on. *)

From S2P Require Export Packet Binning.
From S2P Require Import BlockVariable.
From stdpp Require Import strings.
From Stdlib Require Import DecimalString DecimalN DecimalPos.

Open Scope Z_scope.

#[local] Ltac Zify.zify_post_hook ::= Z.to_euclidean_division_equations.

(** ** Times *)

Definition k10_3 : Z := 1000.
Definition k10_6 : Z := 1000000.
Definition k10_9 : Z := 1000000000.
Definition k2_32 : Z := Z.shiftl 2 32.

Record ntptime := NtpTime { nt_sec : Z; nt_frac : Z }.

Definition us_to_timespec (us : Z) : Z * Z := (us / k10_6, (us `mod` k10_6) * k10_3).
Definition timeval_to_us (tv : Z * Z) : Z := u64 (tv.1 * k10_6 + tv.2).

(** [static_cast<uint32_t>] of a double that is not negative. *)
Definition to_uint32 (x : double) : outcome Z :=
  match dfloor x with
  | Some z => if (0 <=? z) && (z <? 2 ^ 32) then Ret z else Throw (undefined_behaviour "uint32_t of a double")
  | None => Throw (undefined_behaviour "uint32_t of a double")
  end.

Definition scale (x unit_ scale_ : Z) : outcome Z :=
  to_uint32 (dmul (ddiv (double_of_Z x) (double_of_Z unit_)) (double_of_Z scale_)).
Definition unscale (x unit_ scale_ : Z) : outcome Z :=
  to_uint32 (ddiv (dmul (double_of_Z x) (double_of_Z unit_)) (double_of_Z scale_)).

Definition with_sec {A} (o : outcome Z) (f : Z → A) : outcome A :=
  match o with Ret z => Ret (f z) | Throw e => Throw e end.

Definition us_to_ntp (us : Z) : outcome ntptime :=
  with_sec (scale (us `mod` k10_6) k10_6 k2_32) (NtpTime (u32 (us / k10_6))).
Definition timespec_to_ntp (ts : Z * Z) : outcome ntptime :=
  with_sec (scale ts.2 k10_9 k2_32) (NtpTime (u32 ts.1)).
Definition ntp_to_us (nt : ntptime) : outcome Z :=
  with_sec (unscale (nt_frac nt) k10_6 k2_32) (λ f, u64 (nt_sec nt * k10_6 + f)).
Definition ntp_to_timespec (nt : ntptime) : outcome (Z * Z) :=
  with_sec (unscale (nt_frac nt) k10_9 k2_32) (λ f, (nt_sec nt, f)).

(** ** Addresses *)

Section addresses.
Context (split : string → list string) (lexical_cast : string → outcome Z).

Definition ipv4_to_string (ipv4 : Z) : string :=
  (show_ulong (Z.shiftr (Z.land ipv4 0xFF000000) 24) +:+ "." +:+ show_ulong (Z.shiftr (Z.land ipv4 0x00FF0000) 16) +:+ "." +:+
   show_ulong (Z.shiftr (Z.land ipv4 0x0000FF00) 8) +:+ "." +:+ show_ulong (Z.land ipv4 0x000000FF))%string.

(** [lexical_cast<uint32_t>(strvec[i])]: there may be no such part. *)
Definition cast_part (strvec : list string) (i : nat) : outcome Z :=
  match strvec !! i with
  | Some s => lexical_cast s
  | None => Throw (undefined_behaviour "index outside the vector")
  end.

Definition string_to_ipv4 (str : string) : outcome Z :=
  let strvec := split str in
  match cast_part strvec 0 with Throw e => Throw e | Ret p0 =>
  match cast_part strvec 1 with Throw e => Throw e | Ret p1 =>
  match cast_part strvec 2 with Throw e => Throw e | Ret p2 =>
  match cast_part strvec 3 with Throw e => Throw e | Ret p3 =>
    Ret (Z.lor (Z.lor (Z.lor (u32 (Z.shiftl p0 24)) (u32 (Z.shiftl p1 16))) (u32 (Z.shiftl p2 8))) p3)
  end end end end.

(** Four parts without dots are split as they were joined, and a number is read as it
    is printed. *)
Record BoostLaws : Prop := {
  split_join s0 s1 s2 s3 : Forall (λ s, ∀ a b, s ≠ (a +:+ "." +:+ b)%string) [s0; s1; s2; s3] →
    split (s0 +:+ "." +:+ s1 +:+ "." +:+ s2 +:+ "." +:+ s3)%string = [s0; s1; s2; s3];
  lexical_cast_shown n : 0 ≤ n < 2 ^ 32 → lexical_cast (show_ulong n) = Ret n
}.
End addresses.

(** ** The conversions are inverse *)

Lemma us_timespec_roundtrip us : 0 ≤ us < 2 ^ 64 → timespec_to_us (us_to_timespec us) = us.
Proof.
  intros H. unfold timespec_to_us, us_to_timespec, k10_6, k10_3, u64. cbn [fst snd].
  rewrite Z.div_mul, (Z.mul_comm _ 1000000), <- Z.div_mod by lia. apply Z.mod_small. lia.
Qed.

Lemma timespec_us_roundtrip s ns : 0 ≤ s < 2 ^ 40 → 0 ≤ ns < k10_9 →
  us_to_timespec (timespec_to_us (s, ns)) = (s, ns - ns `mod` k10_3).
Proof.
  unfold timespec_to_us, us_to_timespec, k10_9, k10_6, k10_3. intros Hs Hn. cbn [fst snd].
  rewrite u64_small by lia. f_equal; lia.
Qed.

Lemma digits_no_dot d a b : NilEmpty.string_of_uint d ≠ (a +:+ "." +:+ b)%string.
Proof.
  revert a. induction d as [|d IH|d IH|d IH|d IH|d IH|d IH|d IH|d IH|d IH|d IH]; intros [|c a]; cbn; try done;
    intros [= ? E]; by apply (IH a).
Qed.

Lemma show_ulong_no_dot n a b : show_ulong n ≠ (a +:+ "." +:+ b)%string.
Proof.
  unfold show_ulong. destruct (N.to_uint (Z.to_N n)); [|apply (digits_no_dot (_ u))..].
  destruct a as [|? [|]]; cbn; try done.
Qed.

Lemma octet_of_mask x k : 0 ≤ k → Z.shiftr (Z.land x (Z.shiftl 0xFF k)) k = (x / 2 ^ k) `mod` 256.
Proof.
  intros Hk. rewrite Z.shiftr_land, Z.shiftr_shiftl_l, Z.sub_diag, Z.shiftl_0_r, Z.shiftr_div_pow2 by lia.
  by rewrite (Z.land_ones _ 8).
Qed.

Lemma lor_disjoint x y k : 0 ≤ k → 0 ≤ y < 2 ^ k → Z.lor (Z.shiftl x k) y = x * 2 ^ k + y.
Proof.
  intros Hk Hy. assert (Z.land (Z.shiftl x k) y = 0) as E.
  { apply Z.bits_inj'. intros n Hn. rewrite Z.land_spec, Z.shiftl_spec, Z.bits_0 by done.
    destruct (Z.lt_ge_cases n k); [by rewrite Z.testbit_neg_r by lia|].
    rewrite <- (Z.mod_small y (2 ^ k)), Z.mod_pow2_bits_high by lia. apply andb_false_r. }
  by rewrite <- Z.lxor_lor, <- Z.add_nocarry_lxor, Z.shiftl_mul_pow2.
Qed.

Lemma bytes_or a b c d : 0 ≤ a < 256 → 0 ≤ b < 256 → 0 ≤ c < 256 → 0 ≤ d < 256 →
  Z.lor (Z.lor (Z.lor (Z.shiftl a 24) (Z.shiftl b 16)) (Z.shiftl c 8)) d = a * 2 ^ 24 + b * 2 ^ 16 + c * 2 ^ 8 + d.
Proof.
  intros Ha Hb Hc Hd.
  assert (∀ x y, 0 ≤ y < 256 → Z.lor (Z.shiftl x 8) y = x * 256 + y) as E8 by (intros; by rewrite lor_disjoint).
  assert (Z.shiftl a 24 = Z.shiftl (Z.shiftl (Z.shiftl a 8) 8) 8) as -> by (by rewrite !Z.shiftl_shiftl).
  assert (Z.shiftl b 16 = Z.shiftl (Z.shiftl b 8) 8) as -> by (by rewrite !Z.shiftl_shiftl).
  rewrite <- !Z.shiftl_lor, (E8 a b), (E8 _ c), (E8 _ d) by done. lia.
Qed.

(** Printing an address and reading the text gives the address. *)
Lemma ipv4_roundtrip split lexical_cast ip : BoostLaws split lexical_cast → 0 ≤ ip < 2 ^ 32 →
  string_to_ipv4 split lexical_cast (ipv4_to_string ip) = Ret ip.
Proof.
  intros [Hsplit Hcast] Hip. unfold string_to_ipv4, ipv4_to_string.
  change 0xFF000000 with (Z.shiftl 0xFF 24). change 0x00FF0000 with (Z.shiftl 0xFF 16). change 0x0000FF00 with (Z.shiftl 0xFF 8).
  rewrite !octet_of_mask, (Z.land_ones _ 8) by done. change (2 ^ 8) with 256.
  rewrite Hsplit by (repeat constructor; apply show_ulong_no_dot).
  unfold cast_part. cbn [lookup list_lookup]. change (2 ^ 24) with 16777216. change (2 ^ 16) with 65536.
  rewrite !Hcast by lia. rewrite !u32_small by (rewrite Z.shiftl_mul_pow2 by done; lia). f_equal.
  rewrite bytes_or by lia. lia.
Qed.

(** *** The laws hold of an implementation *)

Definition dot : Ascii.ascii := Ascii.ascii_of_nat 46.

Fixpoint split_dots (s : string) (part : string) : list string :=
  match s with
  | EmptyString => [part]
  | String c s => if Ascii.eqb c dot then part :: split_dots s EmptyString else split_dots s (part +:+ String c EmptyString)
  end.
Definition lexical_cast_uint (s : string) : outcome Z :=
  match digits_value s with Some n => if n <? 2 ^ 32 then Ret n else Throw (runtime_error "bad_lexical_cast")
  | None => Throw (runtime_error "bad_lexical_cast") end.

Lemma append_empty (s : string) : (s +:+ "")%string = s.
Proof. induction s as [|c s IH]; [done|]. change (String c (s +:+ "") = String c s). by rewrite IH. Qed.

Lemma append_middle (s : string) c t : ((s +:+ String c EmptyString) +:+ t)%string = (s +:+ String c t)%string.
Proof.
  induction s as [|d s IH]; [done|].
  change (String d ((s +:+ String c EmptyString) +:+ t) = String d (s +:+ String c t)). by rewrite IH.
Qed.

Lemma no_dot_tail c s : (∀ a b, String c s ≠ (a +:+ "." +:+ b)%string) →
  Ascii.eqb c dot = false ∧ ∀ a b, s ≠ (a +:+ "." +:+ b)%string.
Proof.
  intros H. split.
  - apply Ascii.eqb_neq. intros ->. by apply (H EmptyString s).
  - intros a b ->. by apply (H (String c a) b).
Qed.

Lemma split_dots_part s rest : ∀ part, (∀ a b, s ≠ (a +:+ "." +:+ b)%string) →
  split_dots (s +:+ "." +:+ rest) part = (part +:+ s)%string :: split_dots rest EmptyString.
Proof.
  induction s as [|c s IH]; intros part H; [cbn; by rewrite append_empty|].
  apply no_dot_tail in H as [E H]. change (String c s +:+ "." +:+ rest)%string with (String c (s +:+ "." +:+ rest)).
  cbn [split_dots]. rewrite E, IH by done. by rewrite append_middle.
Qed.

Lemma split_dots_last s : ∀ part, (∀ a b, s ≠ (a +:+ "." +:+ b)%string) → split_dots s part = [(part +:+ s)%string].
Proof.
  induction s as [|c s IH]; intros part H; [cbn; by rewrite append_empty|].
  apply no_dot_tail in H as [E H]. cbn [split_dots]. rewrite E, IH by done. by rewrite append_middle.
Qed.

Lemma digits_value_shown n : 0 ≤ n → digits_value (show_ulong n) = Some n.
Proof.
  intros Hn. unfold digits_value, show_ulong. rewrite digit_prefix_nil_zero, NilZero.usu.
  - by rewrite DecimalN.Unsigned.of_to, Z2N.id by lia.
  - destruct (Z.to_N n); [done|apply DecimalPos.Unsigned.to_uint_nonnil].
Qed.

Lemma boost_laws_hold : BoostLaws (λ s, split_dots s EmptyString) lexical_cast_uint.
Proof.
  split.
  - intros s0 s1 s2 s3 H. decompose_Forall_hyps. rewrite !split_dots_part, split_dots_last by done. done.
  - intros n Hn. unfold lexical_cast_uint. rewrite digits_value_shown by lia. by rewrite (proj2 (Z.ltb_lt _ _)) by lia.
Qed.

(** ** Findings *)

(** Three quarters of a second do not fit the fraction of an NTP time, and a quarter
    is half a second there: the scale is twice what it should be. *)
Lemma ntp_fraction_doubled :
  us_to_ntp 750000 = Throw (undefined_behaviour "uint32_t of a double") ∧ us_to_ntp 250000 = Ret (NtpTime 0 (2 ^ 31)).
Proof. by vm_compute. Qed.

(** A part that is not a byte runs into the parts before it. *)
Lemma address_parts_unchecked :
  string_to_ipv4 (λ s, split_dots s EmptyString) lexical_cast_uint "1.256.0.0" =
  string_to_ipv4 (λ s, split_dots s EmptyString) lexical_cast_uint "1.0.0.0".
Proof. by vm_compute. Qed.

Lemma short_address_undefined :
  string_to_ipv4 (λ s, split_dots s EmptyString) lexical_cast_uint "10.1" =
  Throw (undefined_behaviour "index outside the vector").
Proof. by vm_compute. Qed.
