(* ===== verification/Hashes.v ===== *)
(** * The hash library

    Models [lib/hash/hash.hpp] (what a hash function offers), [ACHash31.cpp] (a
    universal hash of the sum of a key's words) and [khash.hpp], [khash.cpp] (several
    short hashes cut out of the digests of one function).  The other hash functions
    of the library call vendored C code; hashing a file is left out.

    A key and a digest are lists of bytes.  Memory that was not written, and what
    [new] leaves in an array, are arguments. *)

From S2P Require Export MachineInt.

#[local] Ltac Zify.zify_post_hook ::= Z.to_euclidean_division_equations.

(** ** [HASH]: the length of the digest and the function of a key *)

Record HASH := Hash { getDigestLength : Z; hash_compute : list Z → list Z }.

(** What [KHASH] relies on. *)
Record HashLaws (h : HASH) : Prop := {
  digest_length key : Z.of_nat (length (hash_compute h key)) = getDigestLength h;
  digest_bytes key : Forall is_byte (hash_compute h key)
}.

(** ** [ACHash31] *)

Module ACHash31.

Definition dgstlenhsm : Z := 4.
Definition mod_ : Z := 0x2FFFFFFF.

Definition compute_ab (key a b : Z) : Z :=
  let result := u64 (a * key + b) in
  u32 (Z.land (u64 (Z.shiftr result 31 + result)) mod_).

(** The loop over the bytes of a key: the sum so far and the word that is built. *)
Fixpoint word_loop (i key_int key_int_temp : Z) (bytes : list Z) : Z * Z :=
  match bytes with
  | [] => (key_int, key_int_temp)
  | b :: bytes =>
      let '(key_int, key_int_temp) :=
        if Z.land i 3 =? 0 then (u32 (key_int + key_int_temp), 0) else (key_int, key_int_temp) in
      word_loop (i + 1) key_int (u32 (key_int_temp + Z.shiftl b (Z.shiftl (Z.land i 3) 3))) bytes
  end.

Definition add_words (key_int : Z) (bytes : list Z) : Z :=
  let '(key_int, key_int_temp) := word_loop 0 key_int 0 bytes in u32 (key_int + key_int_temp).

Fixpoint output_loop (n : nat) (out : Z) : list Z :=
  match n with
  | O => []
  | S n => Z.land out 0xFF :: output_loop n (Z.shiftr out 8)
  end.

Section hash.
Context (SMOD_A SMOD_B : Z).

Definition compute_int (key : Z) : Z := compute_ab key SMOD_A SMOD_B.
Definition compute (key : list Z) : list Z := output_loop (Z.to_nat dgstlenhsm) (compute_int (add_words 0 key)).
Definition compute_keyed (key input : list Z) : list Z :=
  output_loop (Z.to_nat dgstlenhsm) (compute_int (add_words (add_words 0 key) input)).
Definition hash : HASH := Hash dgstlenhsm compute.
End hash.

(** The words of a key, the last one perhaps short, and their sum. *)
Fixpoint words (fuel : nat) (bytes : list Z) : list Z :=
  match fuel, bytes with
  | S fuel, _ :: _ => le_value (take 4 bytes) :: words fuel (drop 4 bytes)
  | _, _ => []
  end.
Definition word_sum (bytes : list Z) : Z := foldr Z.add 0 (words (length bytes) bytes).

Lemma u32_add_l x y : u32 (u32 x + y) = u32 (x + y).
Proof. unfold u32. by rewrite Z.add_mod_idemp_l by lia. Qed.
Lemma u32_add_r x y : u32 (x + u32 y) = u32 (x + y).
Proof. unfold u32. by rewrite Z.add_mod_idemp_r by lia. Qed.

Lemma land_3 i : Z.land i 3 = i `mod` 4.
Proof. apply (Z.land_ones i 2). lia. Qed.

(** At most four bytes from a word's start on. *)
Lemma word_loop_word i k t rest bs : i `mod` 4 = 0 → bs ≠ [] → (length bs ≤ 4)%nat →
  word_loop i k t (bs ++ rest) = word_loop (i + Z.of_nat (length bs)) (u32 (k + t)) (u32 (le_value bs)) rest.
Proof.
  intros Hi Hne Hl. destruct bs as [|b0 [|b1 [|b2 [|b3 [|]]]]]; cbn [length] in Hl; try done; try lia;
    cbn [app word_loop]; rewrite !land_3;
    rewrite ?(proj2 (Z.eqb_eq (i `mod` 4) 0) Hi), ?(proj2 (Z.eqb_neq ((i + 1) `mod` 4) 0)),
      ?(proj2 (Z.eqb_neq ((i + 1 + 1) `mod` 4) 0)), ?(proj2 (Z.eqb_neq ((i + 1 + 1 + 1) `mod` 4) 0)) by lia;
    rewrite ?Hi; replace ((i + 1) `mod` 4) with 1 by lia; replace ((i + 1 + 1) `mod` 4) with 2 by lia;
    replace ((i + 1 + 1 + 1) `mod` 4) with 3 by lia; repeat (rewrite u32_add_l, <- ?Z.add_assoc);
    rewrite !Z.shiftl_mul_pow2 by done;
    cbn [le_value length]; f_equal; solve [lia | f_equal; lia].
Qed.

Lemma word_loop_words fuel : ∀ i k t bytes, (length bytes ≤ fuel)%nat → i `mod` 4 = 0 →
  let '(k', t') := word_loop i k t bytes in u32 (k' + t') = u32 (k + t + foldr Z.add 0 (words fuel bytes)).
Proof.
  induction fuel as [|fuel IH]; intros i k t bytes Hl Hi.
  - destruct bytes; [|cbn in Hl; lia]. cbn. f_equal. lia.
  - destruct (decide (bytes = [])) as [-> | Hne]; [cbn; f_equal; lia|].
    assert (word_loop i k t bytes = word_loop i k t (take 4 bytes ++ drop 4 bytes)) as -> by (by rewrite take_drop).
    assert (0 < length bytes)%nat by (destruct bytes; [done|cbn; lia]).
    rewrite word_loop_word; [|done|by rewrite <- length_zero_iff_nil, length_take; lia|rewrite length_take; lia].
    destruct (decide (length bytes ≤ 4)%nat) as [Hs|Hs].
    + rewrite drop_ge, take_ge by lia. cbn [word_loop]. rewrite u32_add_l, u32_add_r.
      destruct bytes as [|b bytes]; [done|]. cbn [words]. rewrite drop_ge, take_ge by lia.
      destruct fuel; cbn [words foldr]; f_equal; lia.
    + rewrite length_take, Nat.min_l by lia.
      specialize (IH (i + 4) (u32 (k + t)) (u32 (le_value (take 4 bytes))) (drop 4 bytes)).
      rewrite length_drop in IH. specialize (IH ltac:(lia) ltac:(lia)).
      change (Z.of_nat 4) with 4. destruct (word_loop _ _ _ _) as [k' t']. rewrite IH.
      destruct bytes as [|b bytes]; [done|]. cbn [words foldr].
      rewrite <- !Z.add_assoc, u32_add_l, !Z.add_assoc. rewrite <- (Z.add_assoc (k + t)).
      rewrite (Z.add_comm (k + t)), <- Z.add_assoc, u32_add_l. f_equal. lia.
Qed.

Lemma add_words_sum k bytes : add_words k bytes = u32 (k + word_sum bytes).
Proof.
  unfold add_words, word_sum. pose proof (word_loop_words (length bytes) 0 k 0 bytes (le_n _) eq_refl) as H.
  destruct (word_loop _ _ _ _) as [k' t']. rewrite H. f_equal. lia.
Qed.

Lemma output_loop_bytes n v : output_loop n v = le_bytes n v.
Proof.
  revert v. induction n as [|n IH]; intros v; [done|]. cbn. rewrite IH. f_equal; [apply (Z.land_ones v 8); lia|].
  by rewrite Z.shiftr_div_pow2.
Qed.

(** The digest of a key is the hash of the sum of its words; with a second key, of
    both sums. *)
Lemma affine_spec a b key : compute a b key = le_bytes 4 (compute_ab (u32 (word_sum key)) a b).
Proof. unfold compute, compute_int. by rewrite output_loop_bytes, add_words_sum. Qed.

Lemma compute_keyed_spec a b key input :
  compute_keyed a b key input = le_bytes 4 (compute_ab (u32 (word_sum key + word_sum input)) a b).
Proof. unfold compute_keyed, compute_int. by rewrite output_loop_bytes, !add_words_sum, u32_add_l. Qed.

Lemma hash_laws a b : HashLaws (hash a b).
Proof. split; intros key; cbn; rewrite affine_spec; [done|apply le_bytes_are_bytes]. Qed.

(** *** Findings *)

(** The modulus is not 2 ^ 31 - 1: bit 28 of a digest is never set, nor is bit 30. *)
Lemma bits_never_set key a b : Z.testbit (compute_ab key a b) 28 = false ∧ Z.testbit (compute_ab key a b) 30 = false.
Proof.
  unfold compute_ab, u32. rewrite !Z.mod_pow2_bits_low by lia. rewrite !Z.land_spec. split; apply andb_false_r.
Qed.

(** Keys with the same words in another order collide, whatever the parameters. *)
Lemma word_order_ignored a b x y :
  (length x = 4)%nat → (length y = 4)%nat → compute a b (x ++ y) = compute a b (y ++ x).
Proof.
  intros Hx Hy. rewrite !affine_spec. do 3 f_equal.
  destruct x as [|? [|? [|? [|? [|]]]]], y as [|? [|? [|? [|? [|]]]]]; try done. cbn. lia.
Qed.

End ACHash31.

(** ** [KHASH] *)

Record KHASH := KHash {
  hash_ : HASH;
  hashdiglen : Z;
  nhash : Z;
  shash : Z;
  norep : bool;
  res : list Z;
  hashtodo : Z;
  msgdig : list Z
}.

Definition set_res (r : list Z) (k : KHASH) : KHASH :=
  KHash (hash_ k) (hashdiglen k) (nhash k) (shash k) (norep k) r (hashtodo k) (msgdig k).
Definition set_msgdig (d : list Z) (k : KHASH) : KHASH :=
  KHash (hash_ k) (hashdiglen k) (nhash k) (shash k) (norep k) (res k) (hashtodo k) d.

(** [hashtodo] for so many bits. *)
Definition hashes_for (bitneeded hashdiglen : Z) : Z :=
  let per_hash := u32 (Z.shiftl hashdiglen 3) in
  let hashtodo := bitneeded / per_hash in
  if u32 (hashtodo * bitneeded) =? per_hash then hashtodo else u32 (hashtodo + 1).

Definition msgdig_size (hashtodo hashdiglen : Z) : Z := u32 (hashtodo * hashdiglen + 4).

(** The constructor, with its assertions; [junk] is what [new] leaves in [res]. *)
Definition khash_new (junk : Z) (_hash : HASH) (_nhash _shash : Z) (_norep : bool) : outcome KHASH :=
  let hashdiglen := getDigestLength _hash in
  if negb ((_shash <=? 32) && (_shash <=? u32 (hashdiglen * 8)) && negb (_shash =? 0)) then Throw (assert_failure "_shash")
  else if _norep && (31 <? _shash) then Throw (undefined_behaviour "shift by the width of unsigned")
  else if _norep && negb (_nhash <=? Z.shiftl 1 _shash) then Throw (assert_failure "_nhash <= (unsigned(1) << _shash)")
  else
    let hashtodo := hashes_for (u32 (_shash * _nhash)) hashdiglen in
    Ret (KHash _hash hashdiglen _nhash _shash _norep (replicate (Z.to_nat _nhash) junk) hashtodo
      (replicate (Z.to_nat (msgdig_size hashtodo hashdiglen)) 0)).

(** [msgdig + o], for [n] bytes. *)
Definition read_msgdig (o n : Z) : M KHASH (list Z) :=
  d ← gets msgdig;
  ensure ((0 <=? o) && (0 <=? n) && (o + n <=? Z.of_nat (length d))) (undefined_behaviour "msgdig");;
  mret (take (Z.to_nat n) (drop (Z.to_nat o) d)).

Definition write_at (o : nat) (bs d : list Z) : list Z := take o d ++ bs ++ drop (o + length bs) d.

Definition write_msgdig (o : Z) (bs : list Z) : M KHASH unit :=
  d ← gets msgdig;
  ensure ((0 <=? o) && (o + Z.of_nat (length bs) <=? Z.of_nat (length d))) (undefined_behaviour "msgdig");;
  modify (set_msgdig (write_at (Z.to_nat o) bs d)).

(** [for(unsigned int i = 1; i<hashtodo;i++) hash->compute(msgdig+(i-1)*hashdiglen,len,msgdig+i*hashdiglen)],
    for [n] rounds from [i] on. *)
Fixpoint digest_loop (n : nat) (i len : Z) : M KHASH unit :=
  match n with
  | O => mret tt
  | S n =>
      k ← gets id;
      bytes ← read_msgdig (u32 (u32 (i - 1) * hashdiglen k)) len;
      write_msgdig (u32 (i * hashdiglen k)) (hash_compute (hash_ k) bytes);;
      digest_loop n (i + 1) len
  end.

(** [res[i]] from the 32 bits at the bit [startoffset] and the byte behind them. *)
Definition cut_hash (startoffset endoffset : Z) : M KHASH Z :=
  k ← gets id;
  word ← read_msgdig (Z.shiftr startoffset 3) 4;
  let mask := Z.shiftr 0xFFFFFFFF (32 - shash k) in
  let bitoffset := Z.land startoffset 7 in
  let r := Z.shiftr (le_value word) bitoffset in
  if 32 <? shash k + bitoffset then
    byte ← read_msgdig (Z.shiftr endoffset 3) 1;
    mret (Z.land (Z.lor r (u32 (Z.shiftl (le_value byte) (shash k - Z.land endoffset 7)))) mask)
  else mret (Z.land r mask).

Definition write_res (i v : Z) : M KHASH unit :=
  r ← gets res;
  ensure ((0 <=? i) && (i <? Z.of_nat (length r))) (undefined_behaviour "res");;
  modify (set_res (<[Z.to_nat i := v]> r)).

Fixpoint cut_loop (n : nat) (i startoffset endoffset : Z) : M KHASH unit :=
  match n with
  | O => mret tt
  | S n =>
      k ← gets id;
      v ← cut_hash startoffset endoffset;
      write_res i v;;
      cut_loop n (i + 1) (u32 (startoffset + shash k)) (u32 (endoffset + shash k))
  end.

Definition compute (bytes : list Z) : M KHASH unit :=
  k ← gets id;
  write_msgdig 0 (hash_compute (hash_ k) bytes);;
  digest_loop (Z.to_nat (hashtodo k - 1)) 1 (Z.of_nat (length bytes));;
  cut_loop (Z.to_nat (nhash k)) 0 0 (shash k).

Definition H (i : Z) : M KHASH Z :=
  k ← gets id;
  ensure (i <? nhash k) (assert_failure "(k<nhash)");;
  mret (nth (Z.to_nat i) (res k) 0).

(** The number of hashes changed by one; [junk] as for the constructor. *)
Definition inc_nhash (junk : Z) (k : KHASH) : KHASH :=
  let n := u32 (nhash k + 1) in
  KHash (hash_ k) (hashdiglen k) n (shash k) (norep k) (replicate (Z.to_nat n) junk) (hashtodo k) (msgdig k).

Definition dec_nhash (junk : Z) (k : KHASH) : KHASH :=
  let n := u32 (nhash k - 1) in
  let hashtodo := hashes_for (u32 (Z.shiftl (u32 (shash k * n)) 3)) (hashdiglen k) in
  KHash (hash_ k) (hashdiglen k) n (shash k) (norep k) (replicate (Z.to_nat n) junk) hashtodo
    (replicate (Z.to_nat (msgdig_size hashtodo (hashdiglen k))) 0).

(** [memcpy(res,copy.res,nhash<<3)]: eight bytes for each hash of four. *)
Definition copy_res (r : list Z) (nhash : Z) : outcome (list Z) :=
  if u32 (Z.shiftl nhash 3) <=? 4 * Z.of_nat (length r) then Ret (take (Z.to_nat (u32 (Z.shiftl nhash 3) / 4)) r)
  else Throw (undefined_behaviour "res").

(** The copy constructor initialises [hashtodo] with itself. *)
Definition khash_copy (copy : KHASH) : outcome KHASH := Throw (undefined_behaviour "hashtodo is read before it is set").

Definition khash_assign (copy : KHASH) : outcome KHASH :=
  match copy_res (res copy) (nhash copy) with
  | Throw e => Throw e
  | Ret r => Ret (KHash (hash_ copy) (hashdiglen copy) (nhash copy) (shash copy) (norep copy) r (hashtodo copy) (msgdig copy))
  end.

(** ** Bits of a list of bytes *)

Lemma le_value_app l1 l2 : le_value (l1 ++ l2) = le_value l1 + 2 ^ (8 * Z.of_nat (length l1)) * le_value l2.
Proof.
  induction l1 as [|b l1 IH]; [cbn; lia|]. cbn [app le_value length]. rewrite IH.
  replace (8 * Z.of_nat (S (length l1))) with (8 + 8 * Z.of_nat (length l1)) by lia. rewrite Z.pow_add_r by lia. lia.
Qed.

Lemma testbit_le_value_low l1 l2 j : Forall is_byte l1 → 0 ≤ j < 8 * Z.of_nat (length l1) →
  Z.testbit (le_value (l1 ++ l2)) j = Z.testbit (le_value l1) j.
Proof.
  intros Hl Hj. rewrite <- (Z.mod_pow2_bits_low (le_value (l1 ++ l2)) (8 * Z.of_nat (length l1)) j) by lia.
  rewrite le_value_app, Z.mul_comm, Z.mod_add by lia. by rewrite Z.mod_small by (by apply le_value_range).
Qed.

Lemma testbit_le_value_high l1 l2 j : Forall is_byte l1 → 0 ≤ j →
  Z.testbit (le_value (l1 ++ l2)) (8 * Z.of_nat (length l1) + j) = Z.testbit (le_value l2) j.
Proof.
  intros Hl Hj. rewrite Z.add_comm, <- Z.div_pow2_bits by lia. f_equal.
  rewrite le_value_app, Z.mul_comm, Z.div_add by lia. by rewrite Z.div_small by (by apply le_value_range).
Qed.

(** The bits of some of the bytes, and none behind them. *)
Lemma testbit_slice l (k n : nat) j : Forall is_byte l → (k + n ≤ length l)%nat → 0 ≤ j →
  Z.testbit (le_value (take n (drop k l))) j = (j <? 8 * Z.of_nat n) && Z.testbit (le_value l) (8 * Z.of_nat k + j).
Proof.
  intros Hl Hk Hj. assert (length (take n (drop k l)) = n) as En by (rewrite length_take, length_drop; lia).
  assert (Forall is_byte (take n (drop k l))) as Hs by (by apply Forall_take, Forall_drop).
  destruct (Z.ltb_spec j (8 * Z.of_nat n)) as [Hlt|Hge]; cbn [andb].
  - assert (l = take k l ++ (take n (drop k l) ++ drop n (drop k l))) as E by (by rewrite !take_drop).
    rewrite E at 2. pose proof (testbit_le_value_high (take k l) (take n (drop k l) ++ drop n (drop k l)) j (Forall_take _ _ _ Hl) Hj) as Hh.
    rewrite length_take, Nat.min_l in Hh by lia. rewrite Hh. by rewrite testbit_le_value_low by (rewrite ?En; done).
  - pose proof (le_value_range _ Hs) as Hr. rewrite En in Hr.
    rewrite <- (Z.mod_small _ _ Hr). apply Z.mod_pow2_bits_high. lia.
Qed.

(** ** What [compute] finds

    The digests of a key: each one that of the beginning of the one before. *)
Fixpoint digest_at (h : HASH) (key : list Z) (i : nat) : list Z :=
  match i with
  | O => hash_compute h key
  | S i => hash_compute h (take (length key) (digest_at h key i))
  end.
Definition digests (h : HASH) (key : list Z) (n : nat) : list Z := concat (digest_at h key <$> seq 0 n).

(** The hashes: the [i]th group of [len] bits. *)
Definition bit_group (d : list Z) (len : Z) (i : nat) : Z := Z.land (Z.shiftr (le_value d) (Z.of_nat i * len)) (Z.ones len).

Record khash_ok (k : KHASH) : Prop := KHashOk {
  ok_laws : HashLaws (hash_ k);
  ok_diglen : 1 ≤ hashdiglen k ∧ hashdiglen k = getDigestLength (hash_ k);
  ok_shash : 1 ≤ shash k ≤ 32;
  ok_nhash : 0 ≤ nhash k;
  ok_res : Z.of_nat (length (res k)) = nhash k;
  ok_todo : 1 ≤ hashtodo k;
  ok_msgdig : Z.of_nat (length (msgdig k)) = hashtodo k * hashdiglen k + 4;
  ok_bytes : Forall is_byte (msgdig k);
  ok_enough : nhash k * shash k ≤ 8 * (hashtodo k * hashdiglen k);
  ok_small : hashtodo k * hashdiglen k < 2 ^ 28
}.

Lemma khash_made_ok junk h n len once k : HashLaws h → 0 ≤ n → 0 ≤ len → n * len < 2 ^ 16 → 0 ≤ getDigestLength h < 2 ^ 16 →
  khash_new junk h n len once = Ret k →
  khash_ok k ∧ hash_ k = h ∧ nhash k = n ∧ shash k = len.
Proof.
  intros Hh Hn Hlen Hsmall Hd. unfold khash_new. set (d := getDigestLength h) in *.
  destruct (len <=? 32) eqn:E1; [|done]. destruct (len <=? u32 (d * 8)) eqn:E2; [|done].
  destruct (Z.eqb_spec len 0) as [|E3]; [done|]. cbn [andb negb].
  destruct (once && (31 <? len)); [done|]. destruct (once && negb _); [done|]. intros [= <-].
  apply Z.leb_le in E1, E2. rewrite u32_small in E2 by lia.
  assert (let t := hashes_for (u32 (len * n)) d in 1 ≤ t ∧ n * len ≤ 8 * (t * d) ∧ t * d < 2 ^ 28) as (H1 & H2 & H3).
  { unfold hashes_for. rewrite Z.shiftl_mul_pow2, !(u32_small (len * n)), (u32_small (d * 2 ^ 3)) by lia.
    change (2 ^ 3) with 8. set (b := len * n). assert (0 ≤ b < 65536) by (unfold b; lia).
    set (q := b / (d * 8)). assert (0 ≤ q ∧ q * (d * 8) ≤ b < q * (d * 8) + d * 8) as (Q1 & Q2 & Q3)
      by (unfold q; pose proof (Z.div_mod b (d * 8) ltac:(lia)); pose proof (Z.mod_pos_bound b (d * 8) ltac:(lia)); nia).
    assert (q ≤ b) by nia. rewrite (u32_small (q * b)) by nia. replace (n * len) with b by (unfold b; lia).
    destruct (Z.eqb_spec (q * b) (d * 8)) as [Eq|_].
    - assert (1 ≤ q) by (destruct (decide (q = 0)) as [-> |]; lia).
      assert (1 * b ≤ q * b) by (apply Z.mul_le_mono_nonneg_r; lia).
      assert (1 * (d * 8) ≤ q * (d * 8)) by (apply Z.mul_le_mono_nonneg_r; lia).
      rewrite !Z.mul_assoc in *. lia.
    - rewrite u32_small, Z.mul_add_distr_r by lia. rewrite !Z.mul_assoc in *. lia. }
  split; [|done]. split; cbn [hash_ hashdiglen nhash shash res hashtodo msgdig]; try done; try lia.
  - rewrite length_replicate. lia.
  - unfold msgdig_size. rewrite u32_small by lia. rewrite length_replicate. lia.
  - apply Forall_replicate. done.
Qed.

Lemma read_msgdig_at d o m : (o + m ≤ length d)%nat → ∀ k, msgdig k = d →
  read_msgdig (Z.of_nat o) (Z.of_nat m) k = (Ret (take m (drop o d)), k).
Proof.
  intros Hom k <-. unfold read_msgdig. run_m. rewrite !(proj2 (Z.leb_le _ _)) by lia. cbn. by rewrite !Nat2Z.id.
Qed.

Section compute.
Context (k0 : KHASH) (Hk : khash_ok k0).
Let dl : nat := Z.to_nat (hashdiglen k0).
Let n : nat := Z.to_nat (hashtodo k0).

Lemma sizes : Z.of_nat dl = hashdiglen k0 ∧ Z.of_nat n = hashtodo k0 ∧ (1 ≤ n)%nat ∧ (1 ≤ dl)%nat ∧
  length (msgdig k0) = (n * dl + 4)%nat ∧ Z.of_nat n * Z.of_nat dl < 2 ^ 28.
Proof.
  destruct Hk as [Hl [Hd _] Hs Hn Hr Ht Hm Hb He Hsm]. subst dl n.
  rewrite !Z2Nat.id by lia. split_and!; try lia.
Qed.

Lemma length_digest_at key i : length (digest_at (hash_ k0) key i) = dl.
Proof.
  apply Nat2Z.inj. destruct sizes as [-> _]. destruct i; cbn [digest_at]; by rewrite (digest_length _ (ok_laws _ Hk)), (proj2 (ok_diglen _ Hk)).
Qed.

Lemma length_digests key i : length (digests (hash_ k0) key i) = (i * dl)%nat.
Proof.
  induction i as [|i IH]; [done|]. unfold digests in *. rewrite seq_S, fmap_app, concat_app, length_app, IH. cbn.
  rewrite app_nil_r, length_digest_at. lia.
Qed.

Lemma digests_bytes key i : Forall is_byte (digests (hash_ k0) key i).
Proof.
  unfold digests. apply Forall_concat, Forall_fmap, Forall_true. intros j.
  destruct j; apply (digest_bytes _ (ok_laws _ Hk)).
Qed.

Lemma digests_S key i : digests (hash_ k0) key (S i) = digests (hash_ k0) key i ++ digest_at (hash_ k0) key i.
Proof. unfold digests. rewrite seq_S, fmap_app, concat_app. cbn. by rewrite app_nil_r. Qed.

(** Digests are written behind one another. *)
Lemma write_digest key i rest : (S i ≤ n)%nat →
  msgdig (set_msgdig (digests (hash_ k0) key i ++ rest) k0) = digests (hash_ k0) key i ++ rest →
  length rest = (length (msgdig k0) - i * dl)%nat →
  write_msgdig (Z.of_nat (i * dl)) (digest_at (hash_ k0) key i) (set_msgdig (digests (hash_ k0) key i ++ rest) k0) =
  (Ret tt, set_msgdig (digests (hash_ k0) key (S i) ++ drop dl rest) k0).
Proof.
  intros Hi _ Hr. destruct sizes as (_ & _ & _ & _ & Hm & _). rewrite Hm in Hr. unfold write_msgdig. run_m. cbn [msgdig set_msgdig].
  pose proof (length_digests key i) as El. pose proof (length_digest_at key i) as Ed.
  assert (S i * dl ≤ n * dl)%nat by (apply Nat.mul_le_mono_r; lia).
  rewrite !(proj2 (Z.leb_le _ _)) by (rewrite ?length_app, ?El, ?Ed; lia). cbn [andb].
  rewrite Nat2Z.id. unfold write_at. rewrite Ed, digests_S, <- El, take_app_length, drop_app_add, <- app_assoc. done.
Qed.

Lemma digest_loop_at key : (length key ≤ dl)%nat ∨ n = 1%nat → ∀ m i rest, (S i + m = n)%nat →
  length rest = (length (msgdig k0) - S i * dl)%nat → ∃ rest',
  digest_loop m (Z.of_nat (S i)) (Z.of_nat (length key)) (set_msgdig (digests (hash_ k0) key (S i) ++ rest) k0) =
  (Ret tt, set_msgdig (digests (hash_ k0) key n ++ rest') k0) ∧ length rest' = 4%nat ∧ (Forall is_byte rest → Forall is_byte rest').
Proof.
  intros Hkey. destruct sizes as (Edl & En & Hn1 & Hd1 & Hm & Hsm). rewrite Hm.
  induction m as [|m IH]; intros i rest Hi Hrest; cbn [digest_loop].
  - exists rest. replace (S i) with n in * by lia. split_and!; [done|lia|done].
  - destruct Hkey as [Hkey | ?]; [|lia].
    assert (S (S i) * dl ≤ n * dl)%nat by (apply Nat.mul_le_mono_r; lia).
    run_m. cbn [hashdiglen hash_ set_msgdig]. rewrite (u32_small (Z.of_nat (S i) - 1)), <- Edl by lia.
    replace (u32 ((Z.of_nat (S i) - 1) * Z.of_nat dl)) with (Z.of_nat (i * dl)) by (rewrite u32_small; lia).
    rewrite (read_msgdig_at (digests (hash_ k0) key (S i) ++ rest)) by (done || rewrite length_app, length_digests; lia).
    assert (take (length key) (drop (i * dl) (digests (hash_ k0) key (S i) ++ rest)) =
      take (length key) (digest_at (hash_ k0) key i)) as ->.
    { rewrite digests_S, <- app_assoc, <- (length_digests key i), drop_app_length.
      by rewrite take_app_le by (rewrite length_digest_at; lia). }
    change (hash_compute _ _) with (digest_at (hash_ k0) key (S i)).
    replace (u32 (Z.of_nat (S i) * Z.of_nat dl)) with (Z.of_nat (S i * dl)) by (rewrite u32_small; lia).
    rewrite write_digest by (done || lia).
    replace (Z.of_nat (S i) + 1) with (Z.of_nat (S (S i))) by lia.
    destruct (IH (S i) (drop dl rest)) as (rest' & E & Hl & Hb); [lia|rewrite length_drop; lia|].
    exists rest'. split_and!; [exact E|done|]. intros Hr. by apply Hb, Forall_drop.
Qed.
End compute.

(** A hash is a group of the bits of the digests. *)
Lemma cut_hash_at k s : khash_ok k → 0 ≤ s → s + shash k ≤ 8 * (hashtodo k * hashdiglen k) →
  cut_hash s (s + shash k) k = (Ret (Z.land (Z.shiftr (le_value (msgdig k)) s) (Z.ones (shash k))), k).
Proof.
  intros [Hl Hd Hsh Hn Hr Ht Hm Hb He Hsm] Hs Hin. unfold cut_hash. run_m.
  assert (Z.land s 7 = s `mod` 8 ∧ Z.land (s + shash k) 7 = (s + shash k) `mod` 8) as [-> ->]
    by (split; apply (Z.land_ones _ 3); lia).
  rewrite !Z.shiftr_div_pow2 by lia. change (2 ^ 3) with 8.
  replace (0xFFFFFFFF / 2 ^ (32 - shash k)) with (Z.ones (shash k))
    by (change 0xFFFFFFFF with (Z.ones 32); rewrite Z.ones_div_pow2 by lia; f_equal; lia).
  set (q := Z.to_nat (s / 8)). assert (s / 8 = Z.of_nat q) as Eq by (unfold q; lia). rewrite Eq.
  change (read_msgdig (Z.of_nat q) 4) with (read_msgdig (Z.of_nat q) (Z.of_nat 4)).
  rewrite (read_msgdig_at (msgdig k) q 4) by (done || lia).
  rewrite <- !Z.shiftr_div_pow2 by lia.
  assert (∀ j, 0 ≤ j < 32 - s `mod` 8 → Z.testbit (Z.shiftr (le_value (take 4 (drop q (msgdig k)))) (s `mod` 8)) j =
    Z.testbit (le_value (msgdig k)) (s + j)) as Elow.
  { intros j Hj. rewrite Z.shiftr_spec, testbit_slice by (done || lia). rewrite (proj2 (Z.ltb_lt _ _)) by lia. cbn [andb]. f_equal. lia. }
  destruct (Z.ltb_spec 32 (shash k + s `mod` 8)) as [Hbig|Hsmall].
  - assert ((s + shash k) / 8 = Z.of_nat (q + 4)) as -> by lia.
    change (read_msgdig (Z.of_nat (q + 4)) 1) with (read_msgdig (Z.of_nat (q + 4)) (Z.of_nat 1)).
    rewrite (read_msgdig_at (msgdig k) (q + 4) 1) by (done || lia). do 2 f_equal.
    apply Z.bits_inj'. intros j Hj. rewrite !Z.land_spec, Z.testbit_ones_nonneg by lia.
    destruct (Z.ltb_spec j (shash k)); [|by rewrite !andb_false_r]. rewrite !andb_true_r, (Z.shiftr_spec _ s) by done.
    rewrite Z.lor_spec. unfold u32. rewrite Z.mod_pow2_bits_low, Z.shiftl_spec by lia.
    replace (j - (shash k - (s + shash k) `mod` 8)) with (j - (32 - s `mod` 8)) by lia.
    destruct (Z.lt_ge_cases j (32 - s `mod` 8)).
    + rewrite Elow, (Z.testbit_neg_r _ (j - _)), orb_false_r by lia. f_equal. lia.
    + rewrite Z.shiftr_spec, !testbit_slice by (done || lia).
      rewrite (proj2 (Z.ltb_ge _ _)), (proj2 (Z.ltb_lt (j - _) _)) by lia. cbn [andb orb]. f_equal. lia.
  - do 2 f_equal. apply Z.bits_inj'. intros j Hj. rewrite !Z.land_spec, Z.testbit_ones_nonneg by lia.
    destruct (Z.ltb_spec j (shash k)); [|by rewrite !andb_false_r]. rewrite !andb_true_r, Elow, (Z.shiftr_spec _ s) by lia.
    f_equal. lia.
Qed.

Lemma with_res_ok r k : khash_ok k → length r = length (res k) → khash_ok (set_res r k).
Proof. intros [] Hr. split; cbn; try done. by rewrite Hr. Qed.

Lemma cut_loop_at m : ∀ (i : nat) k, khash_ok k → Z.of_nat (i + m) = nhash k →
  cut_loop m (Z.of_nat i) (Z.of_nat i * shash k) (Z.of_nat i * shash k + shash k) k =
  (Ret tt, set_res (take i (res k) ++ (bit_group (msgdig k) (shash k) <$> seq i m)) k).
Proof.
  induction m as [|m IH]; intros i k Hk Hi; cbn [cut_loop].
  - cbn. rewrite app_nil_r, take_ge; [by destruct k|]. pose proof (ok_res _ Hk). lia.
  - pose proof Hk as [Hl Hd Hsh Hn Hr Ht Hm Hb He Hsm]. run_m.
    assert (Z.of_nat i * shash k + shash k ≤ nhash k * shash k).
    { rewrite <- Hi. assert ((Z.of_nat i + 1) * shash k ≤ Z.of_nat (i + S m) * shash k) by (apply Z.mul_le_mono_nonneg_r; lia). lia. }
    rewrite (cut_hash_at k (Z.of_nat i * shash k)) by (done || lia). unfold write_res. run_m.
    rewrite (proj2 (Z.leb_le _ _)), (proj2 (Z.ltb_lt _ _)) by lia. cbn [andb]. rewrite Nat2Z.id.
    change (Z.land _ _) with (bit_group (msgdig k) (shash k) i).
    set (k' := set_res (<[i:=bit_group (msgdig k) (shash k) i]> (res k)) k).
    assert (khash_ok k') as Hk' by (apply with_res_ok; [done|apply length_insert]).
    specialize (IH (S i) k' Hk' ltac:(cbn; lia)). cbn [shash nhash msgdig set_res k'] in IH.
    rewrite !u32_small by lia. replace (Z.of_nat i + 1) with (Z.of_nat (S i)) by lia.
    replace (Z.of_nat i * shash k + shash k) with (Z.of_nat (S i) * shash k) by lia. rewrite IH.
    unfold k', set_res. cbn. do 2 f_equal. rewrite (take_S_r _ i (bit_group (msgdig k) (shash k) i)).
    + by rewrite take_insert_ge, <- app_assoc by lia.
    + apply list_lookup_insert_eq. lia.
Qed.

(** [compute], for keys that are not longer than a digest, or when one digest is
    enough: the hashes are the groups of bits of the digests of the key. *)
Lemma compute_at k key : khash_ok k → Z.of_nat (length key) ≤ hashdiglen k ∨ hashtodo k = 1 →
  ∃ k', compute key k = (Ret tt, k') ∧ khash_ok k' ∧ hash_ k' = hash_ k ∧ nhash k' = nhash k ∧ shash k' = shash k ∧
    hashdiglen k' = hashdiglen k ∧ hashtodo k' = hashtodo k ∧
    res k' = bit_group (digests (hash_ k) key (Z.to_nat (hashtodo k))) (shash k) <$> seq 0 (Z.to_nat (nhash k)).
Proof.
  intros Hk Hkey. pose proof (sizes k Hk) as (Edl & En & Hn1 & Hd1 & Hm & Hsm).
  set (dl := Z.to_nat (hashdiglen k)) in *. set (n := Z.to_nat (hashtodo k)) in *.
  unfold compute. run_m.
  pose proof (write_digest k Hk key 0 (msgdig k) ltac:(lia) eq_refl ltac:(lia)) as E0.
  assert (set_msgdig (digests (hash_ k) key 0 ++ msgdig k) k = k) as Es by (by destruct k). rewrite Es in E0.
  change (Z.of_nat (0 * Z.to_nat (hashdiglen k))) with 0 in E0. cbn [digest_at] in E0. rewrite E0. fold dl.
  destruct (digest_loop_at k Hk key ltac:(fold dl n; lia) (n - 1) 0 (drop dl (msgdig k))) as (rest & E1 & Hrest & Hbytes);
    [fold n; lia|rewrite length_drop; fold dl; lia|].
  replace (Z.to_nat (hashtodo k - 1)) with (n - 1)%nat by (unfold n; lia). change (Z.of_nat 1) with 1 in E1. rewrite E1.
  fold n. set (k1 := set_msgdig (digests (hash_ k) key n ++ rest) k).
  assert (Forall is_byte (digests (hash_ k) key n)) as Hdb by (by apply digests_bytes).
  assert (khash_ok k1) as Hk1.
  { pose proof Hk as [Hl Hd Hsh Hn Hr Ht Hm' Hb He Hsm']. split; cbn [k1 set_msgdig hash_ hashdiglen nhash shash res hashtodo msgdig]; try done.
    - rewrite length_app, (length_digests k Hk). fold dl. lia.
    - apply Forall_app. split; [done|]. by apply Hbytes, Forall_drop. }
  pose proof (cut_loop_at (Z.to_nat (nhash k)) 0 k1 Hk1 ltac:(pose proof (ok_nhash _ Hk); cbn; lia)) as E2.
  change (Z.of_nat 0) with 0 in E2. change (shash k1) with (shash k) in E2. rewrite Z.mul_0_l, Z.add_0_l in E2. rewrite E2.
  eexists. split; [reflexivity|]. cbn [hash_ nhash shash set_res k1 set_msgdig hashdiglen hashtodo res take app msgdig].
  split_and!; try done.
  - apply with_res_ok; [done|]. rewrite take_0. cbn [app]. rewrite length_fmap, length_seq.
    pose proof (ok_res _ Hk1) as E. cbn [res nhash k1 set_msgdig] in E |- *. lia.
  - rewrite take_0. cbn [app]. apply list_fmap_ext. intros i j Hij. apply lookup_seq in Hij as [-> Hlt]. cbn [Nat.add].
    unfold bit_group. apply Z.bits_inj'. intros b Hb. rewrite !Z.land_spec, Z.testbit_ones_nonneg by (pose proof (ok_shash _ Hk); lia).
    destruct (Z.ltb_spec b (shash k)); [|by rewrite !andb_false_r]. rewrite !andb_true_r, !Z.shiftr_spec by done.
    apply testbit_le_value_low; [done|]. rewrite (length_digests k Hk). fold dl.
    pose proof (ok_enough _ Hk). pose proof (ok_shash _ Hk). pose proof (ok_nhash _ Hk).
    assert ((Z.of_nat i + 1) * shash k ≤ nhash k * shash k) by (apply Z.mul_le_mono_nonneg_r; lia). lia.
Qed.

(** ** Properties *)

Fixpoint compute_all (keys : list (list Z)) : M KHASH unit :=
  match keys with
  | [] => mret tt
  | key :: keys => compute key;; compute_all keys
  end.

(** C37: whatever keys were hashed before, keys no longer than a digest, a [KHASH] whose
    hashes may repeat ([_norep] false, the default) gives for a key as many hashes as it
    was made for, and the [i]th is the [i]th group of [len] bits of the key's digests,
    which are enough; the reads of 32 bits at a byte and of one byte more never leave the
    buffer.  With [_norep] the hashes were meant to differ, and may not
    ([norep_repeats]). *)
Theorem bit_groups_of_digests junk h n len k keys key i :
  HashLaws h → 0 ≤ len → n * len < 2 ^ 16 → getDigestLength h < 2 ^ 16 → khash_new junk h n len false = Ret k →
  Forall (λ key, Z.of_nat (length key) ≤ getDigestLength h) (keys ++ [key]) → 0 ≤ i < n →
  let t := hashes_for (u32 (len * n)) (getDigestLength h) in
  n * len ≤ 8 * (t * getDigestLength h) ∧
  ∃ k1 k2, compute_all keys k = (Ret tt, k1) ∧ compute key k1 = (Ret tt, k2) ∧
    H i k2 = (Ret (bit_group (digests h key (Z.to_nat t)) len (Z.to_nat i)), k2).
Proof.
  intros Hh Hlen Hsmall Hd Enew Hkeys Hi t.
  assert (0 ≤ getDigestLength h < 2 ^ 16) as Hd' by (rewrite <- (digest_length _ Hh []) in *; lia).
  destruct (khash_made_ok junk h n len false k Hh ltac:(lia) Hlen Hsmall Hd' Enew) as (Hk & Eh & En & Es).
  assert (hashtodo k = t ∧ hashdiglen k = getDigestLength h) as [Et Edl].
  { unfold khash_new in Enew. repeat (case_match; [done|]). by injection Enew as <-. }
  split; [by rewrite <- Et, <- Edl, <- En, <- Es; apply ok_enough|].
  apply Forall_app in Hkeys as [Hkeys Hkey]. apply Forall_inv in Hkey. cbn beta in Hkey.
  assert (∃ k1, compute_all keys k = (Ret tt, k1) ∧ khash_ok k1 ∧ hash_ k1 = h ∧ nhash k1 = n ∧ shash k1 = len ∧
    hashdiglen k1 = hashdiglen k ∧ hashtodo k1 = t) as (k1 & E1 & Hk1 & Eh1 & En1 & Es1 & Ed1 & Et1).
  { clear Enew. revert k Hk Eh En Es Et Edl. induction Hkeys as [|x xs Hx _ IH]; intros k Hk Eh En Es Et Edl; [by exists k|].
    destruct (compute_at k x Hk ltac:(lia)) as (k' & E & Hk' & Eh' & En' & Es' & Ed' & Et' & _).
    cbn [compute_all]. rewrite (bind_Ret _ _ _ _ _ E). rewrite <- Ed'. apply IH; congruence. }
  destruct (compute_at k1 key Hk1 ltac:(lia)) as (k2 & E2 & Hk2 & Eh2 & En2 & Es2 & _ & _ & Er2).
  exists k1, k2. split_and!; [done|done|]. unfold H. run_m. rewrite (proj2 (Z.ltb_lt _ _)) by lia. do 2 f_equal.
  rewrite Er2, Eh1, Es1, Et1, En1. apply nth_lookup_Some. rewrite list_lookup_fmap, lookup_seq_lt by lia. done.
Qed.

(** Three hashes of 20 bits, for which two digests of 4 bytes are needed. *)
Definition example_khash : KHASH := KHash (ACHash31.hash 3 5) 4 3 20 false [7; 7; 7] 2 (replicate 12 0).

Lemma bit_groups_of_digests_witness : ∃ k1 k2,
  compute_all [[9; 9]] example_khash = (Ret tt, k1) ∧ compute [1; 2; 3; 4] k1 = (Ret tt, k2) ∧
  H 1 k2 = (Ret (bit_group (digests (ACHash31.hash 3 5) [1; 2; 3; 4] 2) 20 1), k2).
Proof.
  destruct (bit_groups_of_digests 7 (ACHash31.hash 3 5) 3 20 example_khash [[9; 9]] [1; 2; 3; 4] 1) as [_ Hw].
  - apply ACHash31.hash_laws.
  - lia.
  - lia.
  - done.
  - reflexivity.
  - apply Forall_cons_2; [done|]. apply Forall_cons_2; [done|]. apply Forall_nil_2.
  - lia.
  - exact Hw.
Defined.

(** ** Findings *)

(** A key longer than a digest: of the buffer behind the first digest as much is
    hashed as the key is long, with what an earlier key left there. *)
Lemma khash_depends_on_history :
  (H 2 (compute [1; 2; 3; 4; 5; 6; 7; 8] example_khash).2).1 ≠
  (H 2 (compute [1; 2; 3; 4; 5; 6; 7; 8] (compute [9; 9] example_khash).2).2).1.
Proof. by vm_compute. Qed.

(** Made not to repeat a hash, with room for two different ones, it repeats it. *)
Definition norep_khash : KHASH := KHash (ACHash31.hash 3 5) 4 2 1 true [7; 7] 1 (replicate 8 0).

Lemma norep_repeats :
  khash_new 7 (ACHash31.hash 3 5) 2 1 true = Ret norep_khash ∧
  let '(r, k) := compute [2] norep_khash in r = Ret tt ∧ (H 0 k).1 = Ret 1 ∧ (H 1 k).1 = Ret 1.
Proof. split; [reflexivity|by vm_compute]. Qed.

(** A key of which so much does not fit the buffer. *)
Lemma khash_long_key_undefined :
  (compute (replicate 13 1) example_khash).1 = Throw (undefined_behaviour "msgdig").
Proof. by vm_compute. Qed.

(** [operator=] copies twice the size of [res]. *)
Lemma khash_assign_undefined k : khash_ok k → 0 < nhash k < 2 ^ 29 → khash_assign k = Throw (undefined_behaviour "res").
Proof.
  intros Hk Hn. unfold khash_assign, copy_res. rewrite Z.shiftl_mul_pow2, u32_small, (ok_res _ Hk) by lia.
  by rewrite (proj2 (Z.leb_gt _ _)) by lia.
Qed.

(** [inc_nhash] asks for no more digests: of one hash of 32 bits made three, the
    second is always 0 and the third is read behind the buffer. *)
Lemma inc_nhash_not_enough : let k := KHash (ACHash31.hash 3 5) 4 1 32 false [7] 1 (replicate 8 0) in
  (H 1 (compute [1; 2; 3; 4] (inc_nhash 7 k)).2).1 = Ret 0 ∧
  (compute [1; 2; 3; 4] (inc_nhash 7 (inc_nhash 7 k))).1 = Throw (undefined_behaviour "msgdig").
Proof. by vm_compute. Qed.
