(* ===== verification/MsgIds.v ===== *)
(** * Message identifiers and the registries keyed by them

    Models [core/message/ClassId.hpp] (the identifier of a message type is a hash of
    its name, computed once), [core/message/MsgRegistry.hpp] (a descriptor for each
    identifier) and [core/MarshFactory.hpp] (a marshalling module for each).

    A type is what [T] stands for in [type_to_id<T>]; its name, as the compiler's
    library demangles it, is an argument, and so are descriptors, messages and
    modules.  The mutexes, each taken for one operation, are not modelled. *)

From S2P Require Export MachineInt.
From stdpp Require Import gmap.

Open Scope Z_scope.

#[local] Instance outcome_ret : MRet outcome := λ A, Ret.
#[local] Instance outcome_bind : MBind outcome := λ A B f o,
  match o with Ret a => f a | Throw e => Throw e end.

(** ** [classid] *)

Section classid.
Context {T : Type} `{Countable T} (demangled : T → list Z).

(** [hash_]: a character is a signed [char]. *)
Definition hash_even (h c : Z) : Z :=
  Z.lxor h (Z.lxor (u32 (Z.shiftl h 7)) (u32 (u32 c * Z.shiftr h 3))).
Definition hash_odd (h c : Z) : Z :=
  Z.lxor h (u32 (Z.lnot (u32 (u32 (Z.shiftl h 11) + Z.lxor (u32 c) (Z.shiftr h 5))))).

Fixpoint hash_loop (h : Z) (b : list Z) : Z :=
  match b with
  | c0 :: c1 :: b => hash_loop (hash_odd (hash_even h c0) c1) b
  | [c] => hash_even h c
  | [] => h
  end.
Definition hash_ (b : list Z) : Z := hash_loop 0x66B566B5 b.

(** [m_ids], and the statics of [type_to_id<T>::id] that are initialised. *)
Record classid := ClassId { m_ids : gmap Z (list Z); statics : gmap T Z }.

Definition classid_new : classid := ClassId ∅ ∅.

Definition get_id (t : T) : M classid Z := λ s,
  let id := hash_ (demangled t) in
  match m_ids s !! id with
  | Some _ => (Throw (runtime_error "classid::get_id() error! Hash collision"), s)
  | None => (Ret (s32 id), ClassId (<[id := demangled t]> (m_ids s)) (statics s))
  end.

Definition get_name (id : Z) : M classid (list Z) := λ s,
  match m_ids s !! id with
  | Some name => (Ret name, s)
  | None => (Throw (runtime_error "classid::get_name() error! unknown id!"), s)
  end.

(** [type_to_id<T>::id]: the static is initialised by the first call that returns. *)
Definition type_to_id (t : T) : M classid Z := λ s,
  match statics s !! t with
  | Some i => (Ret i, s)
  | None =>
      match get_id t s with
      | (Ret i, s) => (Ret (u32 i), ClassId (m_ids s) (<[t := u32 i]> (statics s)))
      | (Throw e, s) => (Throw e, s)
      end
  end.

(** A program's uses of [MSG_ID], one after the other; an exception is caught. *)
Fixpoint ids (ts : list T) (s : classid) : classid :=
  match ts with
  | [] => s
  | t :: ts => ids ts (type_to_id t s).2
  end.

Lemma lxor_width w a b : 0 ≤ w → 0 ≤ a < 2 ^ w → 0 ≤ b < 2 ^ w → 0 ≤ Z.lxor a b < 2 ^ w.
Proof.
  intros Hw Ha Hb. assert (0 ≤ Z.lxor a b) as Hn by (apply Z.lxor_nonneg; lia). split; [done|].
  assert (Z.lxor a b = Z.lxor a b `mod` 2 ^ w) as ->; [|by apply Z.mod_pos_bound, Z.pow_pos_nonneg].
  apply Z.bits_inj'. intros n Hn'. destruct (Z.lt_ge_cases n w) as [Hlt|Hge].
  - by rewrite Z.mod_pow2_bits_low by lia.
  - rewrite Z.mod_pow2_bits_high, Z.lxor_spec by lia.
    by rewrite <- (Z.mod_small a (2 ^ w)), <- (Z.mod_small b (2 ^ w)), !Z.mod_pow2_bits_high by lia.
Qed.

Lemma hash_range b : 0 ≤ hash_ b < 2 ^ 32.
Proof.
  unfold hash_. assert (0 ≤ 0x66B566B5 < 2 ^ 32) as H0 by lia. revert H0. generalize 0x66B566B5.
  assert (∀ h c, 0 ≤ h < 2 ^ 32 → 0 ≤ hash_even h c < 2 ^ 32) as He
    by (intros h c Hh; apply lxor_width; [lia|done|]; apply lxor_width; [lia|apply u32_range..]).
  assert (∀ h c, 0 ≤ h < 2 ^ 32 → 0 ≤ hash_odd h c < 2 ^ 32) as Ho
    by (intros h c Hh; apply lxor_width; [lia|done|apply u32_range]).
  assert (∀ n b h, (length b ≤ n)%nat → 0 ≤ h < 2 ^ 32 → 0 ≤ hash_loop h b < 2 ^ 32) as Hn; [|intros; by eapply Hn].
  induction n as [|n IH]; intros [|c0 [|c1 b']] h Hl Hh; cbn [length hash_loop] in *; try lia; try (by auto).
  apply IH; [lia|]. by apply Ho, He.
Qed.

(** The hash of a name by its arithmetic: a byte at a time with the parity of its
    place, in numbers modulo 2^32. *)
Definition ap_step (i : nat) (h c : Z) : Z :=
  let W := 4294967296 in
  Z.lxor h
    (if Nat.even i then Z.lxor (h * 128 mod W) (c * (h / 8) mod W)
     else W - 1 - (h * 2048 + Z.lxor (c mod W) (h / 32)) mod W).
Fixpoint ap_from (i : nat) (h : Z) (name : list Z) : Z :=
  match name with [] => h | c :: name => ap_from (S i) (ap_step i h c) name end.
Definition ap_hash (name : list Z) : Z := ap_from 0 0x66B566B5 name.

Lemma ap_step_even i h c : Nat.even i = true → ap_step i h c = hash_even h c.
Proof.
  intros Hi. unfold ap_step, hash_even. rewrite Hi, Z.shiftl_mul_pow2, Z.shiftr_div_pow2 by lia.
  unfold u32. by rewrite Zmult_mod_idemp_l.
Qed.

Lemma ap_step_odd i h c : Nat.even i = false → ap_step i h c = hash_odd h c.
Proof.
  intros Hi. unfold ap_step, hash_odd. rewrite Hi, Z.shiftl_mul_pow2, Z.shiftr_div_pow2 by lia. f_equal.
  unfold u32. change (2 ^ 11) with 2048. change (2 ^ 5) with 32. change (2 ^ 32) with 4294967296.
  rewrite Zplus_mod_idemp_l. set (x := (h * 2048 + _) mod 4294967296).
  assert (0 ≤ x < 4294967296) by (by apply Z.mod_pos_bound). unfold Z.lnot.
  apply (Z.mod_unique_pos _ _ (-1)); lia.
Qed.

Lemma hash_is_ap_hash name : hash_ name = ap_hash name.
Proof.
  unfold hash_, ap_hash. generalize 0x66B566B5. intros h0.
  enough (∀ n i h b, (length b ≤ n)%nat → Nat.even i = true → hash_loop h b = ap_from i h b) as Hn by (by eapply Hn).
  induction n as [|n IH]; intros i h [|c0 [|c1 b]] Hl Hi; cbn [length hash_loop ap_from] in *; try lia; try done.
  - by rewrite ap_step_even.
  - rewrite (ap_step_even i), (ap_step_odd (S i)) by (done || by rewrite Nat.even_succ, <- Nat.negb_even, Hi).
    apply IH; [lia|done].
Qed.

(** "blockmon::Packet" *)
Lemma hash_of_packet : hash_ [98; 108; 111; 99; 107; 109; 111; 110; 58; 58; 80; 97; 99; 107; 101; 116] = 0xA58F28CD.
Proof. by vm_compute. Qed.

(** What the statics say is what the table says. *)
Definition ids_ok (s : classid) : Prop :=
  (∀ t i, statics s !! t = Some i → i = hash_ (demangled t) ∧ m_ids s !! i = Some (demangled t)) ∧
  (∀ i name, m_ids s !! i = Some name → ∃ t, statics s !! t = Some i ∧ demangled t = name) ∧
  (∀ t1 t2 i, statics s !! t1 = Some i → statics s !! t2 = Some i → t1 = t2).

Lemma type_to_id_ok t s : ids_ok s → ids_ok (type_to_id t s).2 ∧ statics s ⊆ statics (type_to_id t s).2 ∧
  (∀ i, (type_to_id t s).1 = Ret i → statics (type_to_id t s).2 !! t = Some i) ∧ (∀ e, (type_to_id t s).1 = Throw e → (type_to_id t s).2 = s).
Proof.
  intros (H1 & H2 & H3). unfold type_to_id. destruct (statics s !! t) as [i|] eqn:Et; cbn [fst snd].
  { split_and!; try done. by intros ? [= ->]. }
  unfold get_id. destruct (m_ids s !! hash_ (demangled t)) as [name|] eqn:Em; cbn [fst snd]; [done|].
  assert (u32 (s32 (hash_ (demangled t))) = hash_ (demangled t)) as ->.
  { unfold u32, s32. rewrite to_signed_mod by lia. apply Z.mod_small, hash_range. }
  cbn [m_ids statics]. split_and!; [split_and!| | |done]; cbn [m_ids statics].
  - intros t' i. destruct (decide (t' = t)) as [-> |].
    + rewrite lookup_insert_eq. intros [= <-]. by rewrite lookup_insert_eq.
    + rewrite lookup_insert_ne by done. intros E. destruct (H1 _ _ E) as [-> E']. split; [done|].
      rewrite lookup_insert_ne; [done|]. intros E''. rewrite E'' in Em. congruence.
  - intros i name. destruct (decide (i = hash_ (demangled t))) as [-> |].
    + rewrite lookup_insert_eq. intros [= <-]. exists t. by rewrite lookup_insert_eq.
    + rewrite lookup_insert_ne by done. intros E. destruct (H2 _ _ E) as (t' & E' & Ed). exists t'. split; [|done].
      rewrite lookup_insert_ne; [done|]. intros ->. congruence.
  - intros t1 t2 i E1 E2. rewrite lookup_insert_Some in E1, E2.
    destruct E1 as [[<- <-]|[Hne1 E1]], E2 as [[<- E2]|[Hne2 E2]]; try done.
    + destruct (H1 _ _ E2) as [_ E']. congruence.
    + subst. destruct (H1 _ _ E1) as [_ E']. congruence.
    + by eapply H3.
  - by apply insert_subseteq.
  - intros i [= <-]. by rewrite lookup_insert_eq.
Qed.

Lemma ids_preserves ts s : ids_ok s → ids_ok (ids ts s) ∧ statics s ⊆ statics (ids ts s).
Proof.
  revert s. induction ts as [|t ts IH]; intros s Hs; [done|]. cbn [ids].
  destruct (type_to_id_ok t s Hs) as (Hs' & Hsub & _). destruct (IH _ Hs') as [? ?]. split; [done|]. by etrans.
Qed.
End classid.

(** ** [MsgRegistry] *)

Section registry.
Context {D : Type} (post_register : D → D).

(** [register_message_class]: the first descriptor stays. *)
Definition register_message_class (msg_id : Z) (descriptor : D) (m_descriptors_map : gmap Z D) : gmap Z D :=
  match m_descriptors_map !! msg_id with
  | Some _ => m_descriptors_map
  | None => <[msg_id := post_register descriptor]> m_descriptors_map
  end.

Definition get_message_descriptor (msg_id : Z) (m_descriptors_map : gmap Z D) : outcome D :=
  match m_descriptors_map !! msg_id with
  | Some d => Ret d
  | None => Throw (runtime_error "Descriptor not registered")
  end.

(** The keys in the order of the map. *)
Definition available_msg_ids (m_descriptors_map : gmap Z D) : list Z :=
  merge_sort Z.le (map_to_list m_descriptors_map).*1.

Fixpoint register_all (ds : list (Z * D)) (m : gmap Z D) : gmap Z D :=
  match ds with
  | [] => m
  | d :: ds => register_all ds (register_message_class d.1 d.2 m)
  end.

(** Of the descriptors registered for an identifier the first is found. *)
Definition first_for (i : Z) (ds : list (Z * D)) : option D := snd <$> List.find (λ d, bool_decide (d.1 = i)) ds.

Lemma register_all_spec ds m i :
  register_all ds m !! i = match m !! i with Some d => Some d | None => post_register <$> first_for i ds end.
Proof.
  revert m. induction ds as [|[j d] ds IH]; intros m; cbn [register_all]; [by destruct (m !! i)|].
  rewrite IH. unfold register_message_class, first_for. cbn [fst snd List.find]. case_bool_decide as E; [subst j|].
  - destruct (m !! i) eqn:Em; [by rewrite Em|]. by rewrite lookup_insert_eq.
  - destruct (m !! j); [done|]. by rewrite lookup_insert_ne.
Qed.

Lemma available_spec m i : i ∈ available_msg_ids m ↔ is_Some (m !! i).
Proof.
  unfold available_msg_ids. rewrite merge_sort_Permutation, list_elem_of_fmap. split.
  - intros ([j d] & -> & Hin). apply elem_of_map_to_list in Hin. by eexists.
  - intros [d Hd]. exists (i, d). split; [done|]. by apply elem_of_map_to_list.
Qed.
End registry.

(** ** [MarshallFactory] *)

Section marshalling.
Context {Msg : Type} (type : Msg → Z).

(** A module: the bytes it writes into a buffer of so many, with the length it
    returns, and the message it reads from a buffer. *)
Record BaseMarshall := Marshall {
  mod_marshall : Msg → Z → outcome (list Z * Z);
  mod_unmarshall : list Z → outcome Msg
}.

Definition HEAD_SIZE : Z := 8.

Definition f_register (msg_code : Z) (inb : BaseMarshall) (m_map : gmap Z BaseMarshall) : gmap Z BaseMarshall :=
  match m_map !! s32 msg_code with Some _ => m_map | None => <[s32 msg_code := inb]> m_map end.

(** The buffer and what is written over its beginning. *)
Definition overwrite (bs inb : list Z) : list Z := bs ++ drop (length bs) inb.

(** The length returned and the buffer afterwards. *)
Definition marshall (m_map : gmap Z BaseMarshall) (inm : Msg) (inb : list Z) : outcome (Z * list Z) :=
  let newlen := s32 (Z.of_nat (length inb) - HEAD_SIZE) in
  if newlen <=? 0 then Throw (runtime_error "marshalling:: provided buffer is too small")
  else match m_map !! s32 (type inm) with
  | None => Throw (runtime_error "marshalling:: message type not supported")
  | Some module =>
      p ← mod_marshall module inm newlen;
      let '(bytes, m_len) := p : list Z * Z in
      mret (s32 (m_len + HEAD_SIZE),
        overwrite (le_bytes 4 (htonl (u32 (type inm))) ++ le_bytes 4 (htonl (u32 m_len)) ++ bytes) inb)
  end.

(** The part of the buffer that the header says is the message: it may not be there. *)
Definition unmarshall (m_map : gmap Z BaseMarshall) (inb : list Z) : outcome Msg :=
  if negb (HEAD_SIZE <=? Z.of_nat (length inb)) then Throw (undefined_behaviour "read outside the buffer")
  else
    let type := s32 (ntohl (le_value (take 4 inb))) in
    let len := ntohl (le_value (take 4 (drop 4 inb))) in
    match m_map !! type with
    | None => Throw (runtime_error "marshalling:: message type not supported")
    | Some module =>
        if HEAD_SIZE + len <=? Z.of_nat (length inb) then mod_unmarshall module (take (Z.to_nat len) (drop 8 inb))
        else Throw (undefined_behaviour "read outside the buffer")
    end.

(** What a module must do: keep to its buffer, return what it wrote, and read that. *)
Record MarshallLaws (m : BaseMarshall) : Prop := {
  marshall_fits msg n bytes l : mod_marshall m msg n = Ret (bytes, l) → l = Z.of_nat (length bytes) ∧ l ≤ n;
  unmarshall_marshall msg n bytes l : mod_marshall m msg n = Ret (bytes, l) → mod_unmarshall m bytes = Ret msg
}.

Lemma ntohl_htonl v : 0 ≤ v < 2 ^ 32 → ntohl (le_value (le_bytes 4 (htonl v))) = v.
Proof.
  intros Hv. pose proof (bswap_range 4 v) as Hr. unfold ntohl, htonl. rewrite le_value_le_bytes, Z.mod_small by done.
  rewrite bswap_bswap. by apply Z.mod_small.
Qed.
End marshalling.
Arguments BaseMarshall : clear implicits.

(** ** Properties *)

(** C20: however often and in whatever order a program asks for the identifiers of its
    message types, with exceptions caught: the identifier a type gets is the hash
    [ap_hash] of its name, as defined arithmetically; a type that once got one keeps it,
    two types that got one have different ones, the name registered for it is the
    type's, and a type that gets none has a name with the hash of another's. *)
Theorem ids_distinguish_types {T} `{Countable T} (demangled : T → list Z) (ts us : list T) (t1 t2 : T) (i1 i2 : Z) :
  let s := ids demangled ts classid_new in
  statics s !! t1 = Some i1 → statics s !! t2 = Some i2 →
  i1 = ap_hash (demangled t1) ∧ (i1 = i2 ↔ t1 = t2) ∧ get_name i1 s = (Ret (demangled t1), s) ∧
  (type_to_id demangled t1 (ids demangled us s)).1 = Ret i1 ∧
  (∀ t3 e, (type_to_id demangled t3 s).1 = Throw e →
    ∃ t, is_Some (statics s !! t) ∧ t ≠ t3 ∧ ap_hash (demangled t) = ap_hash (demangled t3)).
Proof.
  intros s E1 E2. assert (ids_ok demangled (classid_new (T:=T))) as H0
    by (split_and!; cbn [classid_new statics m_ids]; intros *; by rewrite lookup_empty).
  destruct (ids_preserves demangled ts _ H0) as [Hs _]. fold s in Hs. pose proof Hs as (H1 & H2 & H3).
  split_and!.
  - rewrite <- hash_is_ap_hash. by destruct (H1 _ _ E1) as [-> _].
  - split; [intros <-; by eapply H3|intros ->; congruence].
  - unfold get_name. by destruct (H1 _ _ E1) as [_ ->].
  - destruct (ids_preserves demangled us s Hs) as [_ Hsub]. unfold type_to_id.
    by rewrite (lookup_weaken _ _ _ _ E1 Hsub).
  - intros t3 e. unfold type_to_id, get_id. destruct (statics s !! t3) eqn:E3; [done|].
    destruct (m_ids s !! hash_ (demangled t3)) as [name|] eqn:Em; [|done]. intros _.
    destruct (H2 _ _ Em) as (t & Et & _). exists t. split_and!; [by eexists|congruence|].
    rewrite <- !hash_is_ap_hash. by destruct (H1 _ _ Et) as [<- _].
Qed.

(** Two types, one of them asked for twice. *)
Lemma ids_distinguish_types_witness :
  let s := ids (λ b : bool, if b then [80; 97] else [70; 108]) [true; false; true] classid_new in
  ∃ i1 i2, statics s !! true = Some i1 ∧ statics s !! false = Some i2 ∧ i1 = ap_hash [80; 97] ∧ (i1 = i2 ↔ true = false).
Proof.
  exists (hash_ [80; 97]), (hash_ [70; 108]). split; [by vm_compute|]. split; [by vm_compute|].
  destruct (ids_distinguish_types (λ b : bool, if b then [80; 97] else [70; 108]) [true; false; true] [] true false (hash_ [80; 97]) (hash_ [70; 108]))
    as (Eh & Ei & _); [by vm_compute..|]. by split.
Defined.

(** C21: a message that was marshalled into a buffer, by a module that keeps to its
    part of it, is read back from that buffer and from any longer one that begins with
    it, by whatever other modules are registered; the length returned is that of the
    bytes written. *)
Theorem marshall_roundtrip {Msg} (type : Msg → Z) (m_map : gmap Z (BaseMarshall Msg)) module inm inb len inb' rest :
  0 ≤ type inm < 2 ^ 32 → m_map !! s32 (type inm) = Some module → MarshallLaws module → Z.of_nat (length inb) < 2 ^ 31 →
  marshall type m_map inm inb = Ret (len, inb') →
  unmarshall m_map (take (Z.to_nat len) inb' ++ rest) = Ret inm ∧ length inb' = length inb ∧
  HEAD_SIZE ≤ len ≤ Z.of_nat (length inb) ∧ drop (Z.to_nat len) inb' = drop (Z.to_nat len) inb.
Proof.
  intros Ht Hm [Hfits Hread] Hlen. unfold marshall.
  assert (∀ x, - 8 ≤ x < 2 ^ 31 → s32 x = x) as Es by (intros; apply to_signed_id; lia). unfold HEAD_SIZE.
  rewrite (Es (_ - 8)) by lia. destruct (Z.leb_spec (Z.of_nat (length inb) - 8) 0) as [|Hpos]; [done|]. rewrite Hm.
  destruct (mod_marshall module inm _) as [[bytes l]|] eqn:E; [|done]. cbn [mbind outcome_bind mret outcome_ret].
  destruct (Hfits _ _ _ _ E) as [-> Hl]. set (l := Z.of_nat (length bytes)) in *.
  rewrite (Es (l + 8)), (u32_small (type inm)), (u32_small l) by lia. intros [= <- Eo].
  set (hdr := le_bytes 4 (htonl (type inm)) ++ le_bytes 4 (htonl l)).
  assert (length (hdr ++ bytes) = Z.to_nat (l + 8)) as Eh by (unfold hdr; rewrite !length_app, !length_le_bytes; lia).
  assert (inb' = overwrite (hdr ++ bytes) inb) as -> by (symmetry; exact Eo). clear Eo. unfold overwrite. rewrite Eh.
  split_and!; try lia.
  - rewrite take_app_le, take_ge by lia. unfold unmarshall, HEAD_SIZE.
    rewrite (proj2 (Z.leb_le 8 _)) by (rewrite length_app, Eh; lia). cbn [negb].
    assert (take 4 ((hdr ++ bytes) ++ rest) = le_bytes 4 (htonl (type inm))) as -> by done.
    assert (take 4 (drop 4 ((hdr ++ bytes) ++ rest)) = le_bytes 4 (htonl l)) as -> by done.
    rewrite !ntohl_htonl by lia. rewrite Hm.
    rewrite (proj2 (Z.leb_le _ _)) by (rewrite length_app, Eh; lia).
    assert (drop 8 ((hdr ++ bytes) ++ rest) = bytes ++ rest) as -> by done. unfold l. rewrite Nat2Z.id, take_app_length.
    by eapply Hread.
  - rewrite length_app, Eh, length_drop. lia.
  - rewrite drop_app_ge by lia. by rewrite Eh, Nat.sub_diag, drop_0.
Qed.

(** A module for messages that are lists of bytes. *)
Definition raw_module : BaseMarshall (list Z) :=
  Marshall (λ msg n, if Z.of_nat (length msg) <=? n then Ret (msg, Z.of_nat (length msg)) else Throw (runtime_error "too small")) Ret.

Lemma raw_module_laws : MarshallLaws raw_module.
Proof.
  split; intros msg n bytes l; cbn; destruct (Z.leb_spec (Z.of_nat (length msg)) n); try done; by intros [= <- <-].
Qed.

Lemma marshall_roundtrip_witness : ∃ inb',
  marshall (λ _, 0xC0000001) {[ s32 0xC0000001 := raw_module ]} [1; 2; 3] (replicate 16 0) = Ret (11, inb') ∧
  unmarshall {[ s32 0xC0000001 := raw_module ]} (take 11 inb' ++ [9]) = Ret [1; 2; 3].
Proof.
  eexists. split; [vm_compute; reflexivity|].
  apply (marshall_roundtrip (λ _ : list Z, 0xC0000001) {[ s32 0xC0000001 := raw_module ]} raw_module [1; 2; 3] (replicate 16 0) 11 _ [9]).
  - lia.
  - by vm_compute.
  - apply raw_module_laws.
  - by vm_compute.
  - by vm_compute.
Defined.

(** ** Findings *)

(** The length in the header is believed, and the header is read from any buffer. *)
Lemma unmarshall_trusts_length {Msg} (m_map : gmap Z (BaseMarshall Msg)) module inb :
  m_map !! s32 (ntohl (le_value (take 4 inb))) = Some module →
  Z.of_nat (length inb) < HEAD_SIZE + ntohl (le_value (take 4 (drop 4 inb))) →
  unmarshall m_map inb = Throw (undefined_behaviour "read outside the buffer").
Proof.
  intros Hm Hl. unfold unmarshall. destruct (HEAD_SIZE <=? Z.of_nat (length inb)); [|done]. cbn [negb].
  rewrite Hm. by rewrite (proj2 (Z.leb_gt _ _)).
Qed.
