(* ===== verification/Counters.v ===== *)
(** * The counters

    Models the whole of [blocks/Counter.hpp] and [Counter.cpp], whose counting is in
    [Filters], and [blocks/PassthroughPacketCounter.hpp] and its [.cpp]: counts of
    what a block receives, and their rates at each round of a timer.

    [now] is the system clock, in nanoseconds.  The handlers run one after the other.
    Members that the constructor leaves uninitialised are arguments. *)

From S2P Require Export Filters Double.

(** [(double)(cnt - prev) / ((double)d.count() / 1000000.0)] *)
Definition rate (cnt prev now last : Z) : double :=
  ddiv (double_of_Z (u64 (cnt - prev))) (ddiv (double_of_Z (Z.quot (now - last) 1000)) (double_of_Z 1000000)).

(** ** [Counter] *)

Module Counter.

Record counter := Counter {
  counts : counter_block;
  m_flow_rate : double; m_pkt_rate : double; m_byte_rate : double;
  m_flow_cnt_prev : Z; m_pkt_cnt_prev : Z; m_byte_cnt_prev : Z;
  m_last_t : Z
}.

Definition counter_new (junk_flows junk_prev : Z) (junk_rate : double) (now : Z) : counter :=
  Counter (CounterBlock junk_flows 0 0 0) junk_rate dzero dzero junk_prev 0 0 now.

Definition set_counts (b : counter_block) (c : counter) : counter :=
  Counter b (m_flow_rate c) (m_pkt_rate c) (m_byte_rate c) (m_flow_cnt_prev c) (m_pkt_cnt_prev c) (m_byte_cnt_prev c) (m_last_t c).

(** The timer is set unless [notimer] is configured. *)
Definition configure (notimer : bool) : list Z := if notimer then [] else [1000000].

(** With [m_reset] the rates are set back with the counts. *)
Definition receive_msg {P} `{PacketHeaderI P} (m : message P) : M counter unit :=
  c ← gets Datatypes.id;
  zoom counts set_counts (counter_receive m);;
  if m_reset (counts c) =? 1 then
    modify (λ c, Counter (counts c) dzero dzero dzero (m_flow_cnt_prev c) (m_pkt_cnt_prev c) (m_byte_cnt_prev c) (m_last_t c))
  else mret tt.

Definition handle_timer (now : Z) : M counter unit :=
  modify (λ c,
    let b := counts c in
    Counter b
      (rate (m_flow_cnt b) (m_flow_cnt_prev c) now (m_last_t c)) (rate (m_pkt_cnt b) (m_pkt_cnt_prev c) now (m_last_t c))
      (rate (m_byte_cnt b) (m_byte_cnt_prev c) now (m_last_t c))
      (m_flow_cnt b) (m_pkt_cnt b) (m_byte_cnt b) now).

(** The three counts; what a round of the timer finds new of one. *)
Inductive what := Flows | Packets | Bytes.
Definition cnt (w : what) (b : counter_block) : Z :=
  match w with Flows => m_flow_cnt b | Packets => m_pkt_cnt b | Bytes => m_byte_cnt b end.
Definition prev (w : what) (c : counter) : Z :=
  match w with Flows => m_flow_cnt_prev c | Packets => m_pkt_cnt_prev c | Bytes => m_byte_cnt_prev c end.
Definition fresh (w : what) (c : counter) : Z := u64 (cnt w (counts c) - prev w c).

Section facts.
Context {P} `{PacketHeaderI P}.
Implicit Types (m : message P) (c : counter).

Definition of_msg (w : what) m : Z :=
  match w with Flows => msg_flows m | Packets => msg_packets m | Bytes => msg_bytes m end.

Lemma u64_idem z : u64 (u64 z) = u64 z.
Proof. unfold u64. by rewrite Z.mod_mod. Qed.

Lemma receive_counts m c : m ≠ MOther → m_reset (counts c) ≠ 1 → ∃ b,
  receive_msg m c = (Ret tt, set_counts b c) ∧ m_reset b = m_reset (counts c) ∧
  ∀ w, u64 (cnt w b) = u64 (cnt w (counts c) + of_msg w m).
Proof.
  intros Hm Hr. unfold receive_msg, counter_receive.
  destruct m as [p|f|]; [| |done]; run_m; rewrite !(proj2 (Z.eqb_neq _ 1) Hr); eexists; (split; [reflexivity|]);
    (split; [done|]); intros []; cbn [m_flow_cnt m_pkt_cnt m_byte_cnt cnt of_msg msg_flows msg_packets msg_bytes];
    by rewrite ?u64_idem, ?Z.add_0_r.
Qed.

(** Messages and rounds of the timer, with the states the rounds find. *)
Fixpoint run (es : list (message P + Z)) (c : counter) : list counter * outcome unit * counter :=
  match es with
  | [] => ([], Ret tt, c)
  | inl m :: es =>
      match receive_msg m c with (Ret _, c) => run es c | (Throw e, c) => ([], Throw e, c) end
  | inr now :: es =>
      match handle_timer now c with
      | (Ret _, c') => let '(cs, r, c'') := run es c' in (c :: cs, r, c'')
      | (Throw e, c') => ([], Throw e, c')
      end
  end.

Definition messages (es : list (message P + Z)) : list (message P) := omap (λ e, match e with inl m => Some m | inr _ => None end) es.

Lemma timer_round now c : ∃ c1, handle_timer now c = (Ret tt, c1) ∧ counts c1 = counts c ∧ ∀ w, fresh w c1 = 0.
Proof.
  eexists. split; [reflexivity|]. split; [done|]. intros []; unfold fresh; cbn; by rewrite Z.sub_diag.
Qed.

(** Without a reset no message is lost between the rounds: what they find new and
    what is new at the end adds up to what was received and what was new before,
    modulo 2^64. *)
Lemma rounds_account w es : ∀ c, Forall (λ m, m ≠ MOther) (messages es) → m_reset (counts c) ≠ 1 →
  ∃ cs c', run es c = (cs, Ret tt, c') ∧
    u64 (sumZ (fresh w) cs + fresh w c') = u64 (fresh w c + sumZ (of_msg w) (messages es)).
Proof.
  induction es as [|[m|now] es IH]; intros c Hm Hr; cbn [run] in *.
  - exists [], c. split; [done|]. cbn. by rewrite Z.add_0_r.
  - change (messages (inl m :: es)) with (m :: messages es) in *. apply Forall_cons in Hm as [Hm1 Hm].
    destruct (receive_counts m c Hm1 Hr) as (b & -> & Er & E).
    destruct (IH (set_counts b c) Hm) as (cs & c' & Erun & Hsum); [cbn; by rewrite Er|].
    exists cs, c'. split; [done|]. rewrite Hsum, sumZ_cons. unfold fresh. cbn [counts set_counts].
    assert (prev w (set_counts b c) = prev w c) as -> by (by destruct w).
    rewrite (u64_add_cong (u64 _) (cnt w b - prev w c) _), (u64_add_cong (u64 _) (cnt w (counts c) - prev w c) (_ + _)) by apply u64_idem.
    rewrite <- !Z.add_opp_r, <- !Z.add_assoc, (u64_add_cong _ _ _ (E w)). f_equal. lia.
  - change (messages (inr now :: es)) with (messages es) in *. destruct (timer_round now c) as (c1 & -> & Ec & E0).
    destruct (IH c1 Hm) as (cs & c' & -> & Hsum); [by rewrite Ec|]. exists (c :: cs), c'. split; [done|].
    rewrite sumZ_cons, <- Z.add_assoc, Z.add_comm, (u64_add_cong _ _ _ Hsum), E0. f_equal. lia.
Qed.
End facts.

(** ** Findings *)

(** A reset sets the counts back and not what the last round saw: the next round
    finds 2^64 less that many. *)
Lemma rate_after_reset_wraps {P} `{PacketHeaderI P} (p : P) c now : m_reset (counts c) = 1 → 2 ≤ m_pkt_cnt_prev c < 2 ^ 64 →
  ∃ c', receive_msg (MPacket p) c = (Ret tt, c') ∧ fresh Packets c' = 2 ^ 64 + 1 - m_pkt_cnt_prev c ∧
    m_pkt_rate (handle_timer now c').2 =
      ddiv (double_of_Z (2 ^ 64 + 1 - m_pkt_cnt_prev c)) (ddiv (double_of_Z (Z.quot (now - m_last_t c) 1000)) (double_of_Z 1000000)).
Proof.
  intros Hr Hp. unfold receive_msg, counter_receive. run_m. cbn [m_reset counts set_counts]. rewrite Hr. change (1 =? 1) with true. cbn beta iota.
  eexists. split; [reflexivity|]. assert (u64 (1 - m_pkt_cnt_prev c) = 2 ^ 64 + 1 - m_pkt_cnt_prev c) as E.
  { unfold u64. replace (1 - m_pkt_cnt_prev c) with (2 ^ 64 + 1 - m_pkt_cnt_prev c + (-1) * 2 ^ 64) by lia.
    rewrite Z.mod_add by lia. apply Z.mod_small. lia. }
  split; [exact E|]. unfold rate, handle_timer, modify. cbn [snd m_pkt_rate m_pkt_cnt m_pkt_cnt_prev m_last_t counts set_counts].
  unfold rate. change (u64 (0 + 1)) with 1. by rewrite E.
Qed.
End Counter.

(** ** [PassthroughPacketCounter] *)

Module PassthroughPacketCounter.

Record counter := Counter {
  m_pkt_cnt : Z; m_byte_cnt : Z; m_pkt_rate : double; m_byte_rate : double; m_reset : Z;
  m_pkt_cnt_prev : Z; m_byte_cnt_prev : Z; m_last_t : Z
}.

Definition counter_new (now : Z) : counter := Counter 0 0 dzero dzero 0 0 0 now.

Definition configure (notimer : bool) : list Z := if notimer then [] else [1000000].

(** The packets sent on. *)
Definition receive_msg {P} `{PacketHeaderI P} (m : message P) : M counter (list (message P)) :=
  match m with
  | MPacket p =>
      modify (λ c,
        if m_reset c =? 1 then Counter 0 0 dzero dzero 0 (m_pkt_cnt_prev c) (m_byte_cnt_prev c) (m_last_t c) else c);;
      modify (λ c, Counter (u64 (m_pkt_cnt c + 1)) (u64 (m_byte_cnt c + p_length p)) (m_pkt_rate c) (m_byte_rate c) (m_reset c)
        (m_pkt_cnt_prev c) (m_byte_cnt_prev c) (m_last_t c));;
      mret [m]
  | _ => throw (runtime_error "wrong message type in pkt counter")
  end.

Definition handle_timer (now : Z) : M counter unit :=
  modify (λ c,
    Counter (m_pkt_cnt c) (m_byte_cnt c)
      (rate (m_pkt_cnt c) (m_pkt_cnt_prev c) now (m_last_t c)) (rate (m_byte_cnt c) (m_byte_cnt_prev c) now (m_last_t c))
      (m_reset c) (m_pkt_cnt c) (m_byte_cnt c) now).

Fixpoint run {P} `{PacketHeaderI P} (ps : list P) (c : counter) : outcome (list (message P)) * counter :=
  match ps with
  | [] => (Ret [], c)
  | p :: ps =>
      match receive_msg (MPacket p) c with
      | (Ret sent, c) => let '(r, c) := run ps c in (match r with Ret l => Ret (sent ++ l) | Throw e => Throw e end, c)
      | (Throw e, c) => (Throw e, c)
      end
  end.

(** Every packet goes on, in its order, and is counted. *)
Lemma passthrough_counts {P} `{PacketHeaderI P} (ps : list P) c : m_reset c ≠ 1 → 0 ≤ m_pkt_cnt c < 2 ^ 64 → 0 ≤ m_byte_cnt c < 2 ^ 64 →
  run ps c = (Ret (MPacket <$> ps),
    Counter (u64 (m_pkt_cnt c + Z.of_nat (length ps))) (u64 (m_byte_cnt c + sumZ p_length ps)) (m_pkt_rate c) (m_byte_rate c)
      (m_reset c) (m_pkt_cnt_prev c) (m_byte_cnt_prev c) (m_last_t c)).
Proof.
  revert c. induction ps as [|p ps IH]; intros c Hr Hp Hb; cbn [run].
  - cbn. rewrite !Z.add_0_r, !u64_small by done. by destruct c.
  - unfold receive_msg. run_m. rewrite (proj2 (Z.eqb_neq _ 1) Hr).
    rewrite IH; [|done|apply u64_range..]. cbn [fmap list_fmap app m_pkt_cnt m_byte_cnt m_pkt_rate m_byte_rate m_reset m_pkt_cnt_prev m_byte_cnt_prev m_last_t length].
    rewrite !sumZ_cons. do 2 f_equal; rewrite (u64_add_cong (u64 _) _ _ (Counter.u64_idem _)); f_equal; lia.
Qed.
End PassthroughPacketCounter.
