(* ===== verification/Cdf.v ===== *)
(** * The distribution of packet sizes

    Models [blocks/CDFGenerator.cpp] and [.hpp]: a block that counts packets by size
    and at each round of a timer logs the cumulative counts, with noise.

    [log] of the mathematical library and the numbers [rand] gives are arguments.  An
    [int] that overflows, and a double that no [int] is for, are undefined behaviour.
    Logs are returned as the numbers in them. *)

From S2P Require Export Packet Binning.

#[local] Instance outcome_ret : MRet outcome := λ A, Ret.
#[local] Instance outcome_bind : MBind outcome := λ A B f o,
  match o with Ret a => f a | Throw e => Throw e end.

(** ** Numbers *)

Definition float_of_Z (z : Z) : double := binary_normalize 24 128 z 0 false.
Definition fsub : double → double → double := SFsub 24 128.
Definition fdiv : double → double → double := SFdiv 24 128.

(** [round]: halves away from zero. *)
Definition dround (x : double) : double :=
  match x with
  | S754_finite s m e =>
      if 0 <=? e then x else double_of_Z (cond_Zopp s ((Zpos m + 2 ^ (- e - 1)) / 2 ^ (- e)))
  | _ => x
  end.

(** [(int)x] truncates. *)
Definition dtrunc (x : double) : option Z :=
  match x with
  | S754_zero _ => Some 0
  | S754_finite s m e => Some (cond_Zopp s (Z.shiftl (Zpos m) e))
  | _ => None
  end.

Definition int_add (a b : Z) : outcome Z :=
  if (-2 ^ 31 <=? a + b) && (a + b <? 2 ^ 31) then Ret (a + b) else Throw (undefined_behaviour "int overflow").

(** ** The block *)

Record cdf_generator := CDFGenerator {
  m_min : Z; m_max : Z; m_bin : Z; m_epsilon : double; m_histo : list Z; m_cdf : list Z
}.

Definition set_histo (h : list Z) (g : cdf_generator) : cdf_generator :=
  CDFGenerator (m_min g) (m_max g) (m_bin g) (m_epsilon g) h (m_cdf g).
Definition set_cdf (c : list Z) (g : cdf_generator) : cdf_generator :=
  CDFGenerator (m_min g) (m_max g) (m_bin g) (m_epsilon g) (m_histo g) c.

(** The constructor leaves [m_epsilon] as it is. *)
Definition cdf_new (junk : double) : cdf_generator := CDFGenerator 0 0 0 junk [] [].

Definition values_num (min max bin : Z) : outcome Z :=
  to_int (dfloor (fdiv (fsub (float_of_Z max) (float_of_Z min)) (float_of_Z bin))).

Definition histoSetZero (min max bin : Z) : outcome (list Z) :=
  n ← values_num min max bin;
  if n <? 0 then Throw (logic_error "vector::_M_fill_assign") else mret (replicate (Z.to_nat n) 0).

Definition lift {A} (o : outcome A) : M cdf_generator A := λ g, (o, g).

(** The attributes of the configuration; the period of the timer is returned. *)
Definition configure (interval min max bin : Z) (epsilon : double) : M cdf_generator Z :=
  modify (λ g, CDFGenerator (s32 min) (s32 max) (s32 bin) epsilon (m_histo g) (m_cdf g));;
  h ← lift (histoSetZero (s32 min) (s32 max) (s32 bin));
  modify (set_histo h);;
  modify (set_cdf h);;
  mret (u32 (interval * 1000)).

(** [m_histo\[i\]++] *)
Definition count_value (i : Z) : M cdf_generator unit :=
  h ← gets m_histo;
  match (if 0 <=? i then h !! Z.to_nat i else None) with
  | Some x => x' ← lift (int_add x 1); modify (set_histo (<[Z.to_nat i := x']> h))
  | None => throw (undefined_behaviour "m_histo")
  end.

Definition receive_msg {P} `{PacketHeaderI P} (m : message P) : M cdf_generator unit :=
  match m with
  | MPacket packet =>
      g ← gets id;
      let pkt_size := s32 (p_length packet) in
      if (m_min g <=? pkt_size) && (pkt_size <=? m_max g) then
        if m_bin g =? 0 then throw (undefined_behaviour "division by zero")
        else count_value (Z.quot (pkt_size - m_min g) (m_bin g))
      else mret tt
  | _ => throw (runtime_error "CDFGenerator: unexpected msg type")
  end.

Section noise.
Context (log : double → double).

Definition RAND_MAX : Z := 2147483647.

(** A sample of a Laplace distribution, from what [rand] returned. *)
Definition nextLaplace (rand : Z) (mu stddev : double) : double :=
  let num := ddiv (double_of_Z rand) (double_of_Z RAND_MAX) in
  let num :=
    if dle num (double_of_dyadic 1 (-1)) then log (dmul (double_of_Z 2) num)
    else SFopp (log (dmul (double_of_Z 2) (dsub (double_of_Z 1) num))) in
  dadd (dmul stddev num) mu.

(** [cdf\[i\] += round(nextLaplace(0,sqrt(2)/epsilon))] *)
Definition add_noise (epsilon : double) (rand : Z) (c : Z) : outcome Z :=
  to_int (dtrunc (dadd (double_of_Z c) (dround (nextLaplace rand dzero (ddiv (dsqrt (double_of_Z 2)) epsilon))))).

(** The loop over the histogram from the sum so far; [rands] are the next numbers. *)
Fixpoint cdf_loop (epsilon : double) (first : bool) (prev : Z) (histo rands : list Z) : outcome (list Z) :=
  match histo with
  | [] => mret []
  | h :: histo =>
      c ← (if first then mret h else int_add prev h);
      c ← (if dgt epsilon dzero then add_noise epsilon (hd 0 rands) c else mret c);
      cs ← cdf_loop epsilon false c histo (tl rands);
      mret (c :: cs)
  end.

Definition cdf_computation (histo cdf : list Z) (epsilon : double) (rands : list Z) : outcome (list Z) :=
  cs ← cdf_loop epsilon true 0 histo rands;
  mret (cs ++ drop (length histo) cdf).

(** A round: what it logs. *)
Definition handle_timer (rands : list Z) : M cdf_generator (list Z) :=
  g ← gets id;
  cdf ← lift (cdf_computation (m_histo g) (m_cdf g) (m_epsilon g) rands);
  modify (set_cdf cdf);;
  h ← lift (histoSetZero (m_min g) (m_max g) (m_bin g));
  modify (set_histo h);;
  mret (take (length (m_histo g)) cdf).
End noise.

(** ** Histograms *)

Section histogram.
Context {P} `{PacketHeaderI P} (min bin : Z) (n : nat) (Hbin : 0 < bin).

Definition size (p : P) : Z := s32 (p_length p).
Definition below (i : nat) (p : P) : bool := (min <=? size p) && (size p <? min + Z.of_nat i * bin).

(** The packets in the first [i] bins. *)
Definition cumulative (ps : list P) (i : nat) : Z := Z.of_nat (length (filter (λ p, below i p = true) ps)).
Definition histogram (ps : list P) : list Z := (λ i, cumulative ps (S i) - cumulative ps i) <$> seq 0 n.
Definition distribution (ps : list P) : list Z := (λ i, cumulative ps (S i)) <$> seq 0 n.

Lemma cumulative_snoc ps p i : cumulative (ps ++ [p]) i = cumulative ps i + (if below i p then 1 else 0).
Proof.
  unfold cumulative. rewrite filter_app, length_app. destruct (below i p) eqn:E.
  - rewrite filter_cons_True, filter_nil by done. cbn. lia.
  - rewrite filter_cons_False, filter_nil by congruence. cbn. lia.
Qed.

Lemma cumulative_bound ps i : 0 ≤ cumulative ps i ≤ Z.of_nat (length ps).
Proof. unfold cumulative. pose proof (length_filter (λ p, below i p = true) ps). lia. Qed.

Lemma below_mono i p : below i p = true → below (S i) p = true.
Proof. unfold below. rewrite !andb_true_iff, !Z.leb_le, !Z.ltb_lt. lia. Qed.

Lemma cumulative_mono ps i : cumulative ps i ≤ cumulative ps (S i).
Proof.
  induction ps as [|p ps IH] using rev_ind; [done|]. rewrite !cumulative_snoc.
  pose proof (below_mono i p). destruct (below i p), (below (S i) p); lia.
Qed.

Lemma cumulative_0 ps : cumulative ps 0 = 0.
Proof.
  induction ps as [|p ps IH] using rev_ind; [done|]. rewrite cumulative_snoc, IH. unfold below.
  destruct (Z.leb_spec min (size p)), (Z.ltb_spec (size p) (min + Z.of_nat 0 * bin)); cbn; lia.
Qed.

(** A packet inside goes to one bin, one outside to none. *)
Lemma below_bin p i : min ≤ size p → below i p = (Z.quot (size p - min) bin <? Z.of_nat i).
Proof.
  intros Hp. unfold below. rewrite (proj2 (Z.leb_le _ _)) by done. cbn [andb].
  rewrite Z.quot_div_nonneg by lia.
  destruct (Z.ltb_spec (size p) (min + Z.of_nat i * bin)), (Z.ltb_spec ((size p - min) / bin) (Z.of_nat i)); try done.
  - assert ((size p - min) / bin < Z.of_nat i) by (apply Z.div_lt_upper_bound; lia). lia.
  - assert (Z.of_nat i ≤ (size p - min) / bin) by (apply Z.div_le_lower_bound; lia). lia.
Qed.

Lemma histogram_snoc ps p j : min ≤ size p → Z.quot (size p - min) bin = Z.of_nat j → (j < n)%nat →
  histogram (ps ++ [p]) = <[j := cumulative ps (S j) - cumulative ps j + 1]> (histogram ps).
Proof.
  intros Hp Hj Hn. apply list_eq. intros i. unfold histogram at 1. rewrite list_lookup_fmap.
  destruct (decide (i < n)%nat) as [Hi|Hi].
  - rewrite lookup_seq_lt by done. cbn [fmap option_fmap option_map Nat.add]. rewrite !cumulative_snoc, !below_bin, Hj by done.
    destruct (decide (i = j)) as [-> | Hne].
    + rewrite list_lookup_insert_eq by (unfold histogram; by rewrite length_fmap, length_seq). f_equal.
      rewrite (proj2 (Z.ltb_lt _ _)), (proj2 (Z.ltb_ge _ _)) by lia. lia.
    + rewrite list_lookup_insert_ne by done. unfold histogram. rewrite list_lookup_fmap, lookup_seq_lt by done. cbn. f_equal.
      destruct (Z.ltb_spec (Z.of_nat j) (Z.of_nat (S i))), (Z.ltb_spec (Z.of_nat j) (Z.of_nat i)); lia.
  - rewrite lookup_seq_ge by lia. symmetry. apply lookup_ge_None. rewrite length_insert. unfold histogram.
    rewrite length_fmap, length_seq. lia.
Qed.

Lemma histogram_outside ps p : size p < min ∨ min + Z.of_nat n * bin ≤ size p → histogram (ps ++ [p]) = histogram ps.
Proof.
  intros Hp. unfold histogram. apply list_fmap_ext. intros k i Hi. apply lookup_seq in Hi as [-> Hk]. cbn [Nat.add].
  rewrite !cumulative_snoc. assert (∀ i, (i ≤ n)%nat → below i p = false) as Hb; [|rewrite !Hb by lia; lia].
  intros i Hi. unfold below. destruct (Z.leb_spec min (size p)); [|done]. cbn. apply Z.ltb_ge.
  assert (Z.of_nat i * bin ≤ Z.of_nat n * bin) by (apply Z.mul_le_mono_nonneg_r; lia). lia.
Qed.

(** The sums of a histogram, without noise. *)
Lemma cdf_loop_sums log eps ps : dgt eps dzero = false → Z.of_nat (length ps) < 2 ^ 31 → ∀ m k rs,
  cdf_loop log eps (bool_decide (k = 0%nat)) (cumulative ps k) ((λ i, cumulative ps (S i) - cumulative ps i) <$> seq k m) rs =
  Ret ((λ i, cumulative ps (S i)) <$> seq k m).
Proof.
  intros He Hps. induction m as [|m IH]; intros k rs; [done|].
  cbn [seq fmap list_fmap cdf_loop]. rewrite He.
  assert ((if bool_decide (k = 0%nat) then mret (cumulative ps (S k) - cumulative ps k)
    else int_add (cumulative ps k) (cumulative ps (S k) - cumulative ps k)) = Ret (cumulative ps (S k))) as ->.
  { case_bool_decide as E.
    - subst k. rewrite cumulative_0. cbn. f_equal. lia.
    - unfold int_add. replace (cumulative ps k + _) with (cumulative ps (S k)) by lia.
      pose proof (cumulative_bound ps (S k)). rewrite (proj2 (Z.leb_le _ _)), (proj2 (Z.ltb_lt _ _)) by lia. done. }
  cbn [mbind outcome_bind mret outcome_ret]. specialize (IH (S k) (tl rs)).
  rewrite bool_decide_eq_false_2 in IH by done. by rewrite IH.
Qed.
End histogram.

(** ** Rounds *)

Section rounds.
Context {P} `{PacketHeaderI P} (log : double → double).

Fixpoint receive_all (ps : list P) : M cdf_generator unit :=
  match ps with
  | [] => mret tt
  | p :: ps => receive_msg (MPacket p);; receive_all ps
  end.

(** Packets and then a round, again and again; what the rounds log. *)
Fixpoint rounds (pss : list (list P)) : M cdf_generator (list (list Z)) :=
  match pss with
  | [] => mret []
  | ps :: pss => receive_all ps;; l ← handle_timer log []; ls ← rounds pss; mret (l :: ls)
  end.

(** The sizes that the code counts without leaving the histogram. *)
Definition size_ok (min max bin : Z) (n : nat) (p : P) : Prop :=
  size p < min ∨ max < size p ∨ size p < min + Z.of_nat n * bin.

Lemma receive_all_histogram min max bin eps n cdf ps : ∀ seen, 0 < bin → min + Z.of_nat n * bin ≤ max + 1 →
  Forall (size_ok min max bin n) ps → Z.of_nat (length (seen ++ ps)) < 2 ^ 31 →
  receive_all ps (CDFGenerator min max bin eps (histogram min bin n seen) cdf) =
  (Ret tt, CDFGenerator min max bin eps (histogram min bin n (seen ++ ps)) cdf).
Proof.
  induction ps as [|p ps IH]; intros seen Hbin Hfit Hok Hlen; cbn [receive_all]; [by rewrite app_nil_r|].
  apply Forall_cons in Hok as [Hp Hok]. rewrite (cons_middle p), app_assoc in Hlen |- *.
  assert (receive_msg (MPacket p) (CDFGenerator min max bin eps (histogram min bin n seen) cdf) =
    (Ret tt, CDFGenerator min max bin eps (histogram min bin n (seen ++ [p])) cdf)) as E.
  { unfold receive_msg. run_m. cbn [m_min m_max m_bin]. fold (size p).
    destruct (Z.leb_spec min (size p)) as [Hmin|]; [|rewrite histogram_outside by (done || lia); done].
    destruct (Z.leb_spec (size p) max) as [Hmax|]; [|rewrite histogram_outside by (done || lia); done]. cbn [andb].
    rewrite (proj2 (Z.eqb_neq _ _)) by lia. destruct Hp as [?|[?|Hp]]; [lia|lia|].
    assert (0 ≤ Z.quot (size p - min) bin < Z.of_nat n) as [H0 Hn].
    { rewrite Z.quot_div_nonneg by lia. split; [apply Z.div_pos; lia|]. apply Z.div_lt_upper_bound; lia. }
    rewrite (histogram_snoc min bin n Hbin seen p (Z.to_nat (Z.quot (size p - min) bin))) by lia.
    unfold count_value, lift. run_m. cbn [m_histo]. rewrite (proj2 (Z.leb_le _ _)) by done.
    set (j := Z.to_nat (Z.quot (size p - min) bin)).
    assert (histogram min bin n seen !! j = Some (cumulative min bin seen (S j) - cumulative min bin seen j)) as ->.
    { unfold histogram. rewrite list_lookup_fmap, lookup_seq_lt by (unfold j; lia). done. }
    unfold int_add. pose proof (cumulative_bound min bin seen (S j)). pose proof (cumulative_bound min bin seen j).
    pose proof (cumulative_mono min bin Hbin seen j). rewrite !length_app in Hlen. cbn [length] in Hlen.
    rewrite (proj2 (Z.leb_le _ _)), (proj2 (Z.ltb_lt _ _)) by lia. done. }
  rewrite (bind_Ret _ _ _ _ _ E). by apply IH.
Qed.

Lemma rounds_log min max bin eps n pss : ∀ cdf, 0 < bin → min + Z.of_nat n * bin ≤ max + 1 → dgt eps dzero = false →
  values_num min max bin = Ret (Z.of_nat n) → length cdf = n →
  Forall (λ ps, Forall (size_ok min max bin n) ps ∧ Z.of_nat (length ps) < 2 ^ 31) pss → ∃ cdf',
  rounds pss (CDFGenerator min max bin eps (replicate n 0) cdf) =
  (Ret (distribution min bin n <$> pss), CDFGenerator min max bin eps (replicate n 0) cdf').
Proof.
  induction pss as [|ps pss IH]; intros cdf Hbin Hfit He Hn Hcdf Hok; cbn [rounds]; [by exists cdf|].
  apply Forall_cons in Hok as [[Hps Hlen] Hok].
  assert (replicate n 0 = histogram min bin n []) as E0.
  { apply list_eq. intros i. unfold histogram. rewrite list_lookup_fmap. destruct (decide (i < n)%nat).
    - by rewrite lookup_replicate_2, lookup_seq_lt by done.
    - rewrite lookup_seq_ge by lia. apply lookup_ge_None. rewrite length_replicate. lia. }
  rewrite E0. rewrite (bind_Ret _ _ _ _ _ (receive_all_histogram min max bin eps n cdf ps [] Hbin Hfit Hps Hlen)). cbn [app].
  assert (cdf_computation log (histogram min bin n ps) cdf eps [] = Ret (distribution min bin n ps)) as Ecdf.
  { unfold cdf_computation, histogram. pose proof (cdf_loop_sums min bin log eps ps He Hlen n 0 []) as E.
    rewrite cumulative_0 in E. change (bool_decide (0%nat = 0%nat)) with true in E. rewrite E.
    cbn [mbind outcome_bind mret outcome_ret]. rewrite length_fmap, length_seq, drop_ge, app_nil_r by lia. done. }
  assert (handle_timer log [] (CDFGenerator min max bin eps (histogram min bin n ps) cdf) =
    (Ret (distribution min bin n ps), CDFGenerator min max bin eps (replicate n 0) (distribution min bin n ps))) as Et.
  { unfold handle_timer, lift. run_m. cbn [m_histo m_cdf m_epsilon m_min m_max m_bin set_cdf]. rewrite Ecdf. cbn [m_histo m_cdf m_epsilon m_min m_max m_bin set_cdf].
    unfold histoSetZero. rewrite Hn. cbn [mbind outcome_bind]. rewrite (proj2 (Z.ltb_ge _ _)) by lia. cbn [mret outcome_ret].
    rewrite Nat2Z.id. do 2 f_equal. apply take_ge. unfold distribution, histogram. by rewrite !length_fmap. }
  rewrite (bind_Ret _ _ _ _ _ Et).
  destruct (IH (distribution min bin n ps) Hbin Hfit He Hn) as (cdf' & E); [unfold distribution; by rewrite length_fmap, length_seq|done|].
  exists cdf'. by rewrite (bind_Ret _ _ _ _ _ E), <- E0.
Qed.
End rounds.

(** ** Properties *)

(** A configured block without noise logs, at each round, for each bin how many of
    the packets since the round before are in that bin or one below it; packets
    outside the range are left out.  The number of bins is what the division in single
    precision gives, and no packet may be in the part of the range behind the last. *)
Theorem cdf_counts_packets {P} `{PacketHeaderI P} log junk interval min max bin eps n (pss : list (list P)) :
  0 ≤ min < 2 ^ 31 → 0 ≤ max < 2 ^ 31 → 0 < bin < 2 ^ 31 → dgt eps dzero = false →
  values_num min max bin = Ret (Z.of_nat n) → min + Z.of_nat n * bin ≤ max + 1 →
  Forall (λ ps, Forall (size_ok min max bin n) ps ∧ Z.of_nat (length ps) < 2 ^ 31) pss →
  ∃ g, configure interval min max bin eps (cdf_new junk) = (Ret (u32 (interval * 1000)), g) ∧
    (rounds log pss g).1 = Ret (distribution min bin n <$> pss).
Proof.
  intros Hmin Hmax Hbin He Hn Hfit Hok.
  assert (∀ x, 0 ≤ x < 2 ^ 31 → s32 x = x) as Es by (intros; apply to_signed_id; lia).
  eexists. split.
  - unfold configure, lift, histoSetZero. run_m. rewrite !Es by lia. rewrite Hn. cbn [mbind outcome_bind].
    rewrite (proj2 (Z.ltb_ge _ _)) by lia. cbn [mret outcome_ret]. rewrite Nat2Z.id. reflexivity.
  - destruct (rounds_log log min max bin eps n pss (replicate n 0) ltac:(lia) Hfit He Hn (length_replicate _ _) Hok) as (cdf' & E).
    unfold set_cdf, set_histo. cbn [m_min m_max m_bin m_epsilon m_histo m_cdf]. by rewrite E.
Qed.

(** Two rounds of packets, sizes 60 to 159 in bins of 25. *)
Definition sized (n : Z) : packet := packet_new junk0 [] (0, 0) n kEthernet.
Definition sized_rounds : list (list packet) := [sized <$> [60; 84; 85; 40]; sized <$> [159; 1500]].

Lemma cdf_counts_packets_witness :
  ∃ g, configure 5 60 160 25 dzero (cdf_new dnan) = (Ret 5000, g) ∧
    (rounds (λ x, x) sized_rounds g).1 = Ret [[2; 3; 3; 3]; [0; 0; 0; 1]].
Proof.
  destruct (cdf_counts_packets (λ x, x) dnan 5 60 160 25 dzero 4 sized_rounds) as (g & E1 & E2).
  - lia.
  - lia.
  - lia.
  - reflexivity.
  - vm_compute. reflexivity.
  - lia.
  - unfold sized_rounds. cbn [fmap list_fmap].
    repeat (apply Forall_cons_2; [split; [|done]; repeat (apply Forall_cons_2; [unfold size_ok; vm_compute; auto|]); apply Forall_nil_2|]).
    apply Forall_nil_2.
  - exists g. split; [exact E1|]. rewrite E2. by vm_compute.
Defined.

(** ** Findings *)

(** A packet of the greatest size has no bin when the bins fill the range. *)
Lemma greatest_size_has_no_bin {P} `{PacketHeaderI P} (p : P) g n :
  0 < m_bin g → m_max g = m_min g + Z.of_nat n * m_bin g → length (m_histo g) = n → s32 (p_length p) = m_max g →
  receive_msg (MPacket p) g = (Throw (undefined_behaviour "m_histo"), g).
Proof.
  intros Hb Hm Hl Hp. unfold receive_msg. run_m. rewrite Hp, !(proj2 (Z.leb_le _ _)) by lia. cbn [andb].
  rewrite (proj2 (Z.eqb_neq _ _)) by lia. unfold count_value. run_m.
  replace (m_max g - m_min g) with (Z.of_nat n * m_bin g) by lia. rewrite Z.quot_mul by lia.
  rewrite (proj2 (Z.leb_le _ _)), Nat2Z.id, lookup_ge_None_2 by lia. done.
Qed.

(** When [rand] gives 0 the noise is the logarithm of 0, for which there is no [int]. *)
Lemma noise_of_zero (log : double → double) epsilon c : log dzero = S754_infinity true →
  epsilon = double_of_Z 1 → c = 3 → add_noise log epsilon 0 c = Throw (undefined_behaviour "int of a double").
Proof.
  intros Hlog -> ->. unfold add_noise, nextLaplace.
  assert (ddiv (double_of_Z 0) (double_of_Z RAND_MAX) = dzero) as -> by (by vm_compute).
  assert (dle dzero (double_of_dyadic 1 (-1)) = true) as -> by (by vm_compute).
  assert (dmul (double_of_Z 2) dzero = dzero) as -> by (by vm_compute). rewrite Hlog. by vm_compute.
Qed.

(** A width of 0 asks for infinitely many bins. *)
Lemma no_bin_width : values_num 0 1500 0 = Throw (undefined_behaviour "int of a double").
Proof. by vm_compute. Qed.
