(* ===== verification/PacketBlocks.v ===== *)
(** * Blocks that look at a packet or make one

    Models [blocks/IPDumbAnonymizer.cpp] (addresses replaced by pseudonyms),
    [blocks/PacketOrFlowToObservation.cpp] (labels for packets and flows),
    [blocks/TouchPacket.cpp] (reads a packet's payload) and [blocks/SynthSource.cpp]
    (sends a packet made up once).

    The anonymiser of the crypto-PAn library, [inet_ntop] and [rand] are arguments.  A
    block's message handler returns the messages it sends. *)

From S2P Require Export Packet Double.
From S2P Require Import BlockVariable Binning Cdf.
From stdpp Require Import strings.

Open Scope Z_scope.
#[local] Ltac Zify.zify_post_hook ::= Z.to_euclidean_division_equations.

(** A message as the blocks see it. *)
Inductive msg := MPacket (p : packet) | MFlow (key : FlowKey) (start_time bytes : Z) | MOther.

(** ** [IPDumbAnonymizer] *)

Module IPDumbAnonymizer.

Record block := Block { anon_src : bool; anon_dst : bool }.
Definition block_new : block := Block false false.

(** The attributes; [None] without the element [anon]. *)
Definition configure (anon : option (string * string)) : M block unit :=
  match anon with
  | None => throw (runtime_error "Anonymizer: missing parameter anon")
  | Some (src, dst) =>
      if decide (src = ""%string ∨ dst = ""%string) then throw (runtime_error "IPDumbAnonymizer: missing attribute")
      else modify (λ b, Block (anon_src b || bool_decide (src = "True"%string)) (anon_dst b || bool_decide (dst = "True"%string)))
  end.

Section anonymize.
Context (anonymize : Z → Z).

(** The first loop sets [raw_addr] anew each time: the octet at 0 is the last. *)
Fixpoint raw_loop (offsets : list Z) (payload : list Z) (raw_addr : Z) : Z :=
  match offsets with
  | [] => raw_addr
  | i :: offsets => raw_loop offsets payload (u32 (Z.shiftl (s8 (nth (Z.to_nat i) payload 0)) (8 * i)))
  end.

(** The four bytes of an address, in memory. *)
Definition anonBuf (payload : list Z) : list Z :=
  let raw_addr := raw_loop [3; 2; 1; 0] payload 0 in
  let anonymized_addr := u32 (anonymize raw_addr) in
  (λ i, u8 (Z.shiftr (u32 (Z.shiftl anonymized_addr (8 * i))) 24)) <$> [0; 1; 2; 3].

(** The four bytes at [o] of a packet's buffer replaced. *)
Definition anon_at (o : Z) (buf : list Z) : outcome (list Z) :=
  if (0 <=? o) && (o + 4 <=? Z.of_nat (length buf)) then
    let n := Z.to_nat o in
    Ret (take n buf ++ anonBuf (take 4 (drop n buf)) ++ drop (n + 4) buf)
  else Throw (undefined_behaviour "address outside the packet").

Definition with_buffer (p : packet) (buf : list Z) : packet := Packet buf (m_length p) (m_tstamp p) (m_mactype p) (m_cache p).

(** The clone is changed in place; the fields that are parsed already stay. *)
Definition anon_packet (b : block) (p : packet) : outcome packet :=
  match access iphdr p with
  | (Throw e, _) => Throw e
  | (Ret None, _) => if anon_src b || anon_dst b then Throw (undefined_behaviour "header of a null pointer") else Ret p
  | (Ret (Some o), p) =>
      match (if anon_src b then anon_at (o + 12) (m_buffer p) else Ret (m_buffer p)) with
      | Throw e => Throw e
      | Ret buf =>
          match (if anon_dst b then anon_at (o + 16) buf else Ret buf) with
          | Throw e => Throw e
          | Ret buf => Ret (with_buffer p buf)
          end
      end
  end.

Definition receive_msg (junk : Z * ip_fields * tcp_fields * Z) (b : block) (m : msg) : outcome (list packet) :=
  match m with
  | MPacket p => match anon_packet b (clone junk p) with Ret q => Ret [q] | Throw e => Throw e end
  | _ => Throw (runtime_error "dumbanonimizer: unexpected msg type")
  end.

(** The pseudonym of an address depends on its first octet. *)
Definition pseudonym (addr : Z) : Z := u32 (anonymize (u32 (s8 (addr / 2 ^ 24)))).

Lemma anonBuf_be addr : 0 ≤ addr < 2 ^ 32 → anonBuf (be 4 addr) = be 4 (pseudonym addr).
Proof.
  intros Ha.
  assert (∀ x, 0 ≤ x < 2 ^ 32 → be 4 x = [x / 2 ^ 24; (x / 2 ^ 16) `mod` 256; (x / 2 ^ 8) `mod` 256; x `mod` 256]) as Eb.
  { intros x Hx. unfold be. cbn [le_bytes rev app]. rewrite !Z.div_div by done.
    by rewrite (Z.mod_small (x / (256 * (256 * 256)))) by lia. }
  assert (raw_loop [3; 2; 1; 0] (be 4 addr) 0 = u32 (s8 (addr / 2 ^ 24))) as Er.
  { cbn [raw_loop]. rewrite (Eb addr Ha). change (Z.to_nat 0) with 0%nat. cbn [nth]. by rewrite Z.mul_0_r, Z.shiftl_0_r. }
  unfold anonBuf. rewrite Er. fold (pseudonym addr). set (v := pseudonym addr).
  assert (0 ≤ v < 2 ^ 32) as Hv by apply u32_range. rewrite (Eb v Hv). cbn [fmap list_fmap].
  assert (∀ i, 0 ≤ i ≤ 3 → u8 (Z.shiftr (u32 (Z.shiftl v (8 * i))) 24) = (v / 2 ^ (24 - 8 * i)) `mod` 256) as E.
  { intros i Hi. unfold u8, u32. apply Z.bits_inj'. intros n Hn. change 256 with (2 ^ 8).
    destruct (Z.lt_ge_cases n 8); [|by rewrite !Z.mod_pow2_bits_high by lia].
    rewrite !Z.mod_pow2_bits_low, Z.shiftr_spec, Z.div_pow2_bits, Z.mod_pow2_bits_low, Z.shiftl_spec by lia. f_equal. lia. }
  rewrite !E by lia. change (24 - 8 * 0) with 24. change (24 - 8 * 1) with 16. change (24 - 8 * 2) with 8.
  change (24 - 8 * 3) with 0. rewrite Z.div_1_r. f_equal. apply Z.mod_small. lia.
Qed.

Lemma anon_at_be pre addr post o : o = Z.of_nat (length pre) → 0 ≤ addr < 2 ^ 32 →
  anon_at o (pre ++ be 4 addr ++ post) = Ret (pre ++ be 4 (pseudonym addr) ++ post).
Proof.
  intros -> Ha. unfold anon_at. rewrite !(proj2 (Z.leb_le _ _)) by (rewrite ?length_app, ?length_be; lia). cbn [andb].
  rewrite Nat2Z.id, take_app_length, drop_app_length, (take_app_length' _ _ 4) by (by rewrite length_be).
  rewrite anonBuf_be by done. do 3 f_equal. rewrite app_assoc. apply drop_app_length'. rewrite length_app, length_be. lia.
Qed.

(** The header with the addresses that are to be replaced replaced. *)
Definition anon_view (b : block) (w : ip_view) : ip_view :=
  IpView (w_tos w) (w_len w) (w_id w) (w_frag w) (w_ttl w) (w_proto w) (w_cksum w)
    (if anon_src b then pseudonym (w_src w) else w_src w) (if anon_dst b then pseudonym (w_dst w) else w_dst w) (w_options w).

Lemma anon_view_ok b w : ip_view_ok w → ip_view_ok (anon_view b w).
Proof.
  intros (H1 & H2 & H3 & H4). unfold anon_view, ip_view_ok, pseudonym. cbn. split_and!; [lia..| | | | |done];
    destruct (anon_src b), (anon_dst b); wrap_ranges; lia.
Qed.

Lemma anon_frame b macs tags w sp dp rest : length macs = 12%nat → ip_view_ok w →
  let o := 14 + 4 * Z.of_nat (length tags) in
  match (if anon_src b then anon_at (o + 12) (frame macs tags w sp dp rest) else Ret (frame macs tags w sp dp rest)) with
  | Throw e => Throw e
  | Ret buf => if anon_dst b then anon_at (o + 16) buf else Ret buf
  end = Ret (frame macs tags (anon_view b w) sp dp rest).
Proof.
  intros Hm (_ & Hs & Hd & _) o.
  set (pre := macs ++ vlan_bytes tags ++ be 2 kPktTypeIP4 ++ [0x45 + Z.of_nat (length (w_options w)) / 4] ++ [w_tos w] ++ be 2 (w_len w) ++
    be 2 (w_id w) ++ be 2 (w_frag w) ++ [w_ttl w] ++ [w_proto w] ++ be 2 (w_cksum w)).
  set (post := w_options w ++ be 2 sp ++ be 2 dp ++ rest).
  assert (∀ src dst, frame macs tags (IpView (w_tos w) (w_len w) (w_id w) (w_frag w) (w_ttl w) (w_proto w) (w_cksum w) src dst
    (w_options w)) sp dp rest = pre ++ be 4 src ++ (be 4 dst ++ post)) as Ef
    by (intros; unfold frame, ip_header_bytes, pre, post; cbn [w_tos w_len w_id w_frag w_ttl w_proto w_cksum w_src w_dst w_options];
        by rewrite <- !app_assoc).
  assert (Z.of_nat (length pre) = o + 12) as El.
  { unfold pre, o. rewrite !length_app, !length_be, length_vlan_bytes, Hm. cbn [length]. lia. }
  assert (frame macs tags w sp dp rest = pre ++ be 4 (w_src w) ++ (be 4 (w_dst w) ++ post)) as -> by (rewrite <- Ef; by destruct w).
  unfold anon_view. rewrite Ef.
  assert ((if anon_src b then anon_at (o + 12) (pre ++ be 4 (w_src w) ++ (be 4 (w_dst w) ++ post))
    else Ret (pre ++ be 4 (w_src w) ++ (be 4 (w_dst w) ++ post))) =
    Ret (pre ++ be 4 (if anon_src b then pseudonym (w_src w) else w_src w) ++ (be 4 (w_dst w) ++ post))) as ->
    by (destruct (anon_src b); [by apply anon_at_be|done]).
  destruct (anon_dst b); [|done]. set (src := be 4 (if anon_src b then _ else _)).
  rewrite (app_assoc pre src), anon_at_be; [by rewrite <- app_assoc| |done].
  rewrite length_app. unfold src. rewrite length_be. lia.
Qed.

Lemma access_stage_mac a tcp : access_stage a tcp SMac = access_stage a tcp S0.
Proof. by destruct a, tcp. Qed.

Lemma receive_frame junk' b macs tags w sp dp rest junk ts len :
  let buf := frame macs tags w sp dp rest in
  let buf' := frame macs tags (anon_view b w) sp dp rest in
  Z.of_nat (length buf) < 2 ^ 63 → length macs = 12%nat → ip_view_ok w →
  ∃ q, receive_msg junk' b (MPacket (packet_new junk buf ts len kEthernet)) = Ret [q] ∧
    m_buffer q = buf' ∧ m_tstamp q = ts ∧ packet_length q = packet_length (packet_new junk buf ts len kEthernet) ∧
    ∀ a, (access a q).1 = (access a (packet_new junk' buf' ts len kEthernet)).1.
Proof.
  intros buf buf' Hs Hm Hw. pose proof (anon_view_ok b w Hw) as Hw'.
  assert (length buf' = length buf) as El.
  { unfold buf, buf'. rewrite !length_of_frame, !length_ip_header by done. done. }
  set (len' := m_length (packet_new junk buf ts len kEthernet)).
  assert (clone junk' (packet_new junk buf ts len kEthernet) = packet_new junk' buf ts len' kEthernet) as Ec
    by (by destruct junk as [[[? ?] ?] ?]).
  set (p := packet_new junk' buf ts len' kEthernet) in *. set (p' := packet_new junk' buf' ts len kEthernet).
  set (o := 14 + 4 * Z.of_nat (length tags)). set (at_ := ip_at (m_cache p) o).
  assert (access iphdr p = (Ret (Some o), with_cache p at_)) as Ei.
  { pose proof (frame_stages junk' macs tags w sp dp rest ts len' Hs Hm Hw) as HS. cbn zeta in HS. fold buf o p in HS.
    pose proof (access_at iphdr p _ S0 HS) as Ha. cbn [access_stage advance_stage caches access_field] in Ha.
    by rewrite with_cache_id in Ha. }
  pose proof (anon_frame b macs tags w sp dp rest Hm Hw) as Ea. cbn zeta in Ea. fold buf o buf' in Ea.
  exists (with_buffer (with_cache p at_) buf'). unfold receive_msg, anon_packet. rewrite Ec, Ei.
  assert (m_buffer (with_cache p at_) = buf) as -> by (by destruct junk' as [[[? ?] ?] ?]).
  split_and!.
  - destruct (if anon_src b then _ else _) as [buf1|]; [|done]. by rewrite Ea.
  - done.
  - by destruct junk' as [[[? ?] ?] ?].
  - destruct junk' as [[[? ?] ?] ?]. unfold packet_length. cbn [m_length with_buffer with_cache p packet_new].
    unfold len'. destruct junk as [[[? ?] ?] ?]. cbn. destruct (Z.eqb_spec len 0); [by destruct (_ =? 0)|].
    by rewrite (proj2 (Z.eqb_neq len 0)).
  - intros a. rewrite (frame_access junk' macs tags (anon_view b w) sp dp rest ts len) by (fold buf'; rewrite ?El; done). fold buf' o p'.
    pose proof (frame_stages junk' macs tags (anon_view b w) sp dp rest ts len) as HS. cbn zeta in HS. fold buf' o p' in HS.
    rewrite El in HS. specialize (HS Hs Hm Hw'). pose proof (access_at a p' _ SMac HS) as Ha.
    rewrite access_stage_mac in Ha.
    match type of Ha with context [with_cache p' ?c] => assert (m_cache p' = m_cache p) as Ecache by (by destruct junk' as [[[? ?] ?] ?]) end.
    assert ((access a (with_buffer (with_cache p at_) buf')).1 = (access a (with_cache p' at_)).1) as ->.
    { unfold access, on_cache. run_m. cbn [m_buffer m_mactype m_cache with_buffer with_cache].
      assert (m_mactype p' = m_mactype p ∧ m_buffer p' = buf') as [-> ->] by (by destruct junk' as [[[? ?] ?] ?]).
      by destruct (access_parse a buf' _ at_) as [[[]|] c]. }
    unfold at_. rewrite <- Ecache. cbn [caches] in Ha. by rewrite Ha.
Qed.
End anonymize.

(** Addresses with the same first octet get the same pseudonym. *)
Lemma pseudonym_of_first_octet anonymize a a' : a / 2 ^ 24 = a' / 2 ^ 24 → pseudonym anonymize a = pseudonym anonymize a'.
Proof. unfold pseudonym. by intros ->. Qed.

(** The example of the documentation, which gives [src] only. *)
Lemma documented_example_refused :
  configure (Some ("True", "")%string) block_new = (Throw (runtime_error "IPDumbAnonymizer: missing attribute"), block_new).
Proof. done. Qed.
End IPDumbAnonymizer.

(** ** [PacketOrFlowToObservation] *)

Module PacketOrFlowToObservation.

(** [messages/Observation.hpp] *)
Record observation := Observation { m_otime : Z; m_label : string; m_value : Z }.

(** [clone] *)
Definition observation_clone (o : observation) : observation := Observation (m_otime o) (m_label o) (m_value o).

Definition flag (bits : Z) (letter : string) (p : packet) : string :=
  match tcp_has bits p with (Ret true, _) => letter | _ => "-"%string end.

(** The fields as the accessors answer, in whatever order they are asked. *)
Definition proto_label (p : packet) : string :=
  if value l4_protocol p =? kUDP then "UDP"%string
  else if value l4_protocol p =? kTCP then
    ("TCP:" +:+ flag kFIN "F" p +:+ flag kSYN "S" p +:+ flag kRST "R" p +:+ flag kPSH "P" p +:+ flag kACK "A" p +:+
     flag kURG "U" p)%string
  else "???"%string.

Section labels.
Context (inet_ntop : list Z → string).

(** [inet_ntop] is given the bytes of the number in memory. *)
Definition address_text (addr : Z) : string := inet_ntop (le_bytes 4 addr).

Definition pair_label (src sport dst dport : Z) : string :=
  (address_text src +:+ ":" +:+ show_ulong sport +:+ " > " +:+ address_text dst +:+ ":" +:+ show_ulong dport)%string.

(** What is sent; for a message of another type the exception is made and not thrown. *)
Definition receive_msg (m : msg) : outcome (list observation) :=
  match m with
  | MPacket p =>
      Ret [Observation (timestamp_us p)
        (pair_label (value ip_src p) (value src_port p) (value ip_dst p) (value dst_port p) +:+ " " +:+ proto_label p)%string 0]
  | MFlow key start_time bytes =>
      Ret [Observation start_time (pair_label (src_ip4 key) (Flow.src_port key) (dst_ip4 key) (Flow.dst_port key)) bytes]
  | MOther => Throw (assert_failure "m->type() == MSG_ID(Flow)")
  end.

Lemma string_append_assoc (a b c : string) : ((a +:+ b) +:+ c)%string = (a +:+ b +:+ c)%string.
Proof. induction a as [|x a IH]; [done|]. change (String x ((a +:+ b) +:+ c) = String x (a +:+ b +:+ c)). by rewrite IH. Qed.

(** The label of a frame: its addresses with their octets in reverse. *)
Lemma frame_label junk macs tags w sp dp rest ts len :
  Z.of_nat (length (frame macs tags w sp dp rest)) < 2 ^ 63 → length macs = 12%nat → ip_view_ok w → w_proto w = kUDP →
  0 ≤ sp < 2 ^ 16 → 0 ≤ dp < 2 ^ 16 →
  receive_msg (MPacket (packet_new junk (frame macs tags w sp dp rest) ts len kEthernet)) =
  Ret [Observation (timespec_to_us ts)
    (inet_ntop (rev (be 4 (w_src w))) +:+ ":" +:+ show_ulong sp +:+ " > " +:+ inet_ntop (rev (be 4 (w_dst w))) +:+ ":" +:+
     show_ulong dp +:+ " UDP")%string 0].
Proof.
  intros Hs Hm Hw Hu Hsp Hdp. set (p := packet_new junk _ ts len kEthernet).
  assert (∀ a v, (access a p).1 = Ret (Some v) → value a p = v) as Hv
    by (intros a v E; unfold value; by destruct (access a p) as [r c]; cbn in E; subst r).
  pose proof (frame_fields junk macs tags w sp dp rest ts len Hs Hm Hw (or_intror Hu) Hsp Hdp) as HF. cbn zeta in HF. fold p in HF.
  repeat (apply Forall_cons in HF as [?E HF]). cbn beta iota in *.
  assert (timestamp_us p = timespec_to_us ts) as Et by (by destruct junk as [[[? ?] ?] ?]).
  unfold receive_msg, pair_label, proto_label, address_text, be. rewrite !rev_involutive, Et.
  repeat (erewrite Hv; [|eassumption]). rewrite Hu. cbn [Z.eqb Pos.eqb kUDP].
  rewrite !string_append_assoc. reflexivity.
Qed.
End labels.
End PacketOrFlowToObservation.

(** ** [TouchPacket] *)

Module TouchPacket.

(** Every byte from the payload on, for the length of a packet behind 42 bytes of headers, goes
    through [ctr]. *)
Definition receive_msg (ctr : Z) (p : packet) : outcome Z :=
  let payload_len := s32 (packet_length p) - 42 in
  if payload_len <? - 2 ^ 31 then Throw (undefined_behaviour "signed overflow")
  else match access payload p with
  | (Throw e, _) => Throw e
  | (Ret ptr, _) =>
      if payload_len <=? 0 then Ret ctr
      else match ptr with
      | None => Throw (undefined_behaviour "payload of a null pointer")
      | Some o =>
          if o + payload_len <=? m_caplen p then Ret (nth (Z.to_nat (o + payload_len - 1)) (m_buffer p) 0)
          else Throw (undefined_behaviour "read outside the packet")
      end
  end.

(** A UDP packet without tags and options is read to its last byte. *)
Lemma receive_udp junk ctr macs w sp dp udp_rest data x ts :
  let buf := frame macs [] w sp dp (udp_rest ++ data ++ [x]) in
  Z.of_nat (length buf) < 2 ^ 31 → length macs = 12%nat → ip_view_ok w → w_options w = [] → w_proto w = kUDP →
  length udp_rest = 4%nat → receive_msg ctr (packet_new junk buf ts 0 kEthernet) = Ret x.
Proof.
  intros buf Hs Hm Hw Ho Hp Hu. set (p := packet_new junk buf ts 0 kEthernet).
  pose proof (frame_udp_payload junk macs [] w sp dp (udp_rest ++ data ++ [x]) ts 0) as Ep. cbn zeta in Ep. fold buf p in Ep.
  specialize (Ep ltac:(lia) Hm Hw Hp ltac:(rewrite length_app; lia)). rewrite Ho in Ep. cbn [length] in Ep.
  assert (length buf = 43 + length data)%nat as El.
  { unfold buf. rewrite length_of_frame, !length_app, length_ip_header, Ho by done. cbn [length]. lia. }
  assert (packet_length p = Z.of_nat (length buf) ∧ m_buffer p = buf ∧ m_caplen p = Z.of_nat (length buf)) as (E1 & E2 & E3)
    by (by destruct junk as [[[? ?] ?] ?]).
  unfold receive_msg. rewrite E1, E2, E3.
  assert (s32 (Z.of_nat (length buf)) = Z.of_nat (length buf)) as ->
    by (unfold s32, to_signed; rewrite Z.mod_small by lia; by rewrite (proj2 (Z.ltb_lt _ _)) by lia).
  rewrite (proj2 (Z.ltb_ge _ (- 2 ^ 31))) by lia. destruct (access payload p) as [r c]. cbn in Ep. subst r.
  rewrite (proj2 (Z.leb_gt _ 0)) by lia. change (Z.of_nat 0) with 0.
  rewrite (proj2 (Z.leb_le _ _)) by lia. f_equal.
  assert (buf = (macs ++ be 2 kPktTypeIP4 ++ ip_header_bytes w ++ be 2 sp ++ be 2 dp ++ udp_rest ++ data) ++ [x]) as Eb
    by (unfold buf, frame; cbn [vlan_bytes app]; by rewrite <- !app_assoc).
  replace (Z.to_nat _) with (length buf - 1)%nat by lia. rewrite Eb, length_app. cbn [length].
  rewrite app_nth2 by lia. by replace (_ - _)%nat with 0%nat by lia.
Qed.

(** The headers of a TCP packet are longer: it is read past its end. *)
Lemma touch_tcp_outside ctr : receive_msg ctr tcp_window_packet = Throw (undefined_behaviour "read outside the packet").
Proof. by vm_compute. Qed.
End TouchPacket.

(** ** [SynthSource] *)

Module SynthSource.

(** Members of a header written at their place in the array. *)
Definition store (o : nat) (bs : list Z) (m : list Z) : list Z := take o m ++ bs ++ drop (o + length bs) m.

(** The constructor: [r1 .. r4] are what [rand] returns. *)
Definition template (r1 r2 r3 r4 : Z) : list Z :=
  store 36 (le_bytes 2 r4) (store 34 (le_bytes 2 r3) (store 23 [kTCP] (store 30 (le_bytes 4 r2) (store 26 (le_bytes 4 r1)
    (store 16 (be 2 5) (store 14 [4] (store 12 (be 2 kPktTypeIP4) (replicate 1500 0)))))))).

Record source := Source { m_packet : list Z; m_period : Z }.
Definition source_new (r1 r2 r3 r4 : Z) : source := Source (template r1 r2 r3 r4) 1000000.

(** Nanoseconds between packets; [None] without the element [rate]. *)
Definition configure (pps : option Z) : M source unit :=
  match pps with
  | None => throw (runtime_error "packetgenerator: missing parameter rate")
  | Some rate =>
      match dtrunc (dmul (ddiv (double_of_Z 1) (double_of_Z rate)) (double_of_Z 1000000000)) with
      | Some z =>
          if (0 <=? z) && (z <? 2 ^ 32) then modify (λ s, Source (m_packet s) z)
          else throw (undefined_behaviour "number not representable")
      | None => throw (undefined_behaviour "number not representable")
      end
  end.

(** The packets sent, and how long it sleeps after each. *)
Definition do_async (junk : Z * ip_fields * tcp_fields * Z) (s : source) : list (packet * Z) :=
  replicate 1000 (packet_new junk (take 64 (m_packet s)) (0, 0) 0 kEthernet, m_period s).

Example period_of_1000 r1 r2 r3 r4 :
  configure (Some 1000) (source_new r1 r2 r3 r4) = (Ret tt, Source (template r1 r2 r3 r4) 1000000).
Proof. done. Qed.

Lemma rate_zero_undefined s : configure (Some 0) s = (Throw (undefined_behaviour "number not representable"), s).
Proof. done. Qed.

(** The packets are TCP over IP by their type and protocol, but of a header of sixteen bytes:
    the ports are read from the destination address, and the ports of the template are not. *)
Definition synthetic : packet := packet_new junk0 (take 64 (template 0x11223344 0x55667788 0x1234 0x5678)) (0, 0) 0 kEthernet.

Lemma synthetic_packet :
  (access l3_protocol synthetic).1 = Ret (Some kPktTypeIP4) ∧ (access l4_protocol synthetic).1 = Ret (Some kTCP) ∧
  (access ip_dst synthetic).1 = Ret (Some 0x88776655) ∧ (access ip_length synthetic).1 = Ret (Some 5) ∧
  (access ip_header_length synthetic).1 = Ret (Some 16) ∧
  (access src_port synthetic).1 = Ret (Some 0x8877) ∧ (access dst_port synthetic).1 = Ret (Some 0x6655) ∧
  packet_length synthetic = 64.
Proof. by vm_compute. Qed.
End SynthSource.

(** ** Correctness *)

(** C30: the anonymiser sends one packet for each frame: every accessor of it answers as that
    of a packet made from the frame with the chosen addresses replaced by their pseudonyms
    and every other byte of it as it was; its length and time are those received. *)
Theorem anonymizer_replaces_addresses anonymize junk junk' b macs tags w sp dp rest ts len :
  let buf := frame macs tags w sp dp rest in
  let buf' := frame macs tags (IPDumbAnonymizer.anon_view anonymize b w) sp dp rest in
  Z.of_nat (length buf) < 2 ^ 63 → length macs = 12%nat → ip_view_ok w →
  ∃ q, IPDumbAnonymizer.receive_msg anonymize junk' b (MPacket (packet_new junk buf ts len kEthernet)) = Ret [q] ∧
    m_buffer q = buf' ∧ m_tstamp q = ts ∧ packet_length q = packet_length (packet_new junk buf ts len kEthernet) ∧
    ∀ a, (access a q).1 = (access a (packet_new junk' buf' ts len kEthernet)).1.
Proof. apply IPDumbAnonymizer.receive_frame. Qed.

(** A tagged UDP packet, its source replaced by a table's first entry. *)
Lemma anonymizer_replaces_addresses_witness :
  let w := IpView 0 28 7 0 64 kUDP 0xBEEF 0x0A000001 0xC0A80001 [] in
  let b := IPDumbAnonymizer.Block true false in
  let buf := frame (replicate 12 0) [5] w 53 1024 [] in
  ∃ q, IPDumbAnonymizer.receive_msg (λ a, a + 0x01020304) junk0 b (MPacket (packet_new junk0 buf (9, 8) 0 kEthernet)) = Ret [q] ∧
    m_buffer q = frame (replicate 12 0) [5] (IpView 0 28 7 0 64 kUDP 0xBEEF 0x0102030E 0xC0A80001 []) 53 1024 [].
Proof.
  intros w b buf.
  destruct (anonymizer_replaces_addresses (λ a, a + 0x01020304) junk0 junk0 b (replicate 12 0) [5] w 53 1024 [] (9, 8) 0)
    as (q & E & Eb & _); [by vm_compute|done| |].
  { split_and!; try (cbn; lia). exists 0%nat. split; [lia|done]. }
  exists q. split; [exact E|exact Eb].
Defined.
