(* ===== verification/Tewma.v ===== *)
(** * The rate sketch

    Models [lib/bloom/tewma.h] and [tewma.cpp]: exponentially weighted moving
    averages of many keys in one array of counters, each with the time it was last
    touched.  A key has the counters its hashes name ([Bloom.khash]); its rate is at
    most the least of them.

    [pow] and [log] are arguments; [difftime] is the difference as a [double].  An
    array given out by [new] holds what it held before. *)

From S2P Require Export Bloom.
From S2P Require Import BlockVariable.

Open Scope Z_scope.

Record tewma := Tewma {
  base : khash;
  t : list Z;
  c : list double;
  beta : double;
  logbeta : double;
  W : double
}.

Definition set_base (h : khash) (s : tewma) : tewma := Tewma h (t s) (c s) (beta s) (logbeta s) (W s).
Definition set_t (l : list Z) (s : tewma) : tewma := Tewma (base s) l (c s) (beta s) (logbeta s) (W s).
Definition set_c (l : list double) (s : tewma) : tewma := Tewma (base s) (t s) l (beta s) (logbeta s) (W s).

Section tewma.
Context (pow : double → double → double) (log : double → double).

Definition difftime (a b : Z) : double := double_of_Z (a - b).
Definition dopp : double → double := SFopp.

(** [1.0e99] *)
Definition max_counter : double := double_of_Z (10 ^ 99).

Definition clear_at (timestamp_start : Z) (s : tewma) : tewma :=
  set_t (replicate (length (t s)) timestamp_start) (set_c (replicate (length (c s)) dzero) s).

Definition set_beta (b : double) : M tewma unit :=
  ensure (dlt dzero b && dlt b (double_of_Z 1)) (assert_failure "(b>0)&&(b<1)");;
  modify (λ s, Tewma (base s) (t s) (c s) b (dopp (log b)) (W s)).

(** The constructor; [junk] is what the new objects and arrays hold. *)
Definition tewma_new (junk_block : list Z) (junk_res junk_t : Z) (junk_c : double) (_nhash _shash : Z) (_beta _w : double) :
    outcome tewma :=
  match khash_new junk_block junk_res _nhash _shash 1 with
  | Throw e => Throw e
  | Ret h =>
      let n := Z.to_nat (maxdigest h) in
      if negb (dlt dzero _w) then Throw (assert_failure "_w>0")
      else match set_beta _beta (Tewma h (replicate n junk_t) (replicate n junk_c) junk_c junk_c _w) with
      | (Throw e, _) => Throw e
      | (Ret _, s) => Ret (clear_at 0 s)
      end
  end.

Definition H (k : Z) : M tewma Z := zoom base set_base (hash_at k).

Definition read_c (i : Z) : M tewma double :=
  l ← gets c;
  ensure ((0 <=? i) && (i <? Z.of_nat (length l))) (undefined_behaviour "c");;
  mret (nth (Z.to_nat i) l dzero).
Definition write_c (i : Z) (v : double) : M tewma unit :=
  l ← gets c;
  ensure ((0 <=? i) && (i <? Z.of_nat (length l))) (undefined_behaviour "c");;
  modify (set_c (<[Z.to_nat i := v]> l)).
Definition read_t (i : Z) : M tewma Z :=
  l ← gets t;
  ensure ((0 <=? i) && (i <? Z.of_nat (length l))) (undefined_behaviour "t");;
  mret (nth (Z.to_nat i) l 0).
Definition write_t (i v : Z) : M tewma unit :=
  l ← gets t;
  ensure ((0 <=? i) && (i <? Z.of_nat (length l))) (undefined_behaviour "t");;
  modify (set_t (<[Z.to_nat i := v]> l)).

(** [for(int i=1; i<=nhash; i++)]: the counters of the key as of now, and the least of them. *)
Fixpoint decay_loop (ks : list Z) (timestamp : Z) (minctr : double) : M tewma double :=
  match ks with
  | [] => mret minctr
  | k :: ks =>
      i ← H k;
      last ← read_t i;
      w ← gets W;
      let deltat := ddiv (difftime timestamp last) w in
      write_t i timestamp;;
      ensure (dge deltat dzero) (assert_failure "deltat>=0");;
      x ← read_c i;
      b ← gets beta;
      let x := dmul x (pow b deltat) in
      write_c i x;;
      decay_loop ks timestamp (if dlt x minctr then x else minctr)
  end.

(** [for(int i=1; i<=nhash; i++) if (c[H(i)]<newctr) c[H(i)]=newctr;] *)
Fixpoint fill_loop (ks : list Z) (newctr : double) : M tewma unit :=
  match ks with
  | [] => mret tt
  | k :: ks =>
      i ← H k;
      x ← read_c i;
      (if dlt x newctr then write_c i newctr else mret tt);;
      fill_loop ks newctr
  end.

(** What [add] and [check] begin with. *)
Definition current (fuel : nat) (bytes : list Z) (timestamp : Z) : M tewma double :=
  zoom base set_base (compute fuel bytes);;
  i ← H 1;
  minctr ← read_c i;
  n ← gets (λ s, nhash (base s));
  decay_loop (seqZ 1 n) timestamp minctr.

Definition add (fuel : nat) (bytes : list Z) (quantity : double) (timestamp : Z) : M tewma double :=
  minctr ← current fuel bytes timestamp;
  lb ← gets logbeta;
  let newctr := dadd minctr (dmul quantity lb) in
  ensure (dle newctr max_counter) (assert_failure "newctr<=1.0e99");;
  n ← gets (λ s, nhash (base s));
  fill_loop (seqZ 1 n) newctr;;
  mret newctr.

Definition check (fuel : nat) (bytes : list Z) (timestamp : Z) : M tewma double := current fuel bytes timestamp.

(** ** A table of cells

    What the arrays hold, as one cell for each hash: the counter and its time. *)
Definition cell : Type := double * Z.
Definition table : Type := Z → cell.

Definition elapsed (w : double) (timestamp : Z) (x : cell) : double := ddiv (difftime timestamp x.2) w.
Definition decayed (b w : double) (timestamp : Z) (x : cell) : double := dmul x.1 (pow b (elapsed w timestamp x)).

(** The least of a number and others. *)
Definition least (x : double) (l : list double) : double := foldl (λ a y, if dlt y a then y else a) x l.

Definition decay_cells (b w : double) (timestamp : Z) (l : list Z) (v : table) : table := λ i,
  if bool_decide (i ∈ l) then (decayed b w timestamp (v i), timestamp) else v i.
Definition fill_cells (x : double) (l : list Z) (v : table) : table := λ i,
  if bool_decide (i ∈ l) && dlt (v i).1 x then (x, (v i).2) else v i.

(** The rate of a key with the hashes [l]. *)
Definition key_rate (b w : double) (timestamp : Z) (l : list Z) (v : table) : double :=
  least (default dzero (fst <$> (v <$> head l))) (decayed b w timestamp <$> (v <$> l)).

(** Operations on the sketch, and on the table; [None] is a failed assertion. *)
Inductive sketch_op :=
| Add (key : list Z) (quantity : double) (timestamp : Z)
| Check (key : list Z) (timestamp : Z)
| ClearAt (timestamp : Z).

Definition op_keys (o : sketch_op) : list (list Z) :=
  match o with Add key _ _ | Check key _ => [key] | ClearAt _ => [] end.

Definition run_sketch_op (fuel : nat) (o : sketch_op) : M tewma double :=
  match o with
  | Add key q timestamp => add fuel key q timestamp
  | Check key timestamp => check fuel key timestamp
  | ClearAt timestamp => modify (clear_at timestamp);; mret dzero
  end.

Fixpoint run_sketch (fuel : nat) (os : list sketch_op) : M tewma (list double) :=
  match os with
  | [] => mret []
  | o :: os => r ← run_sketch_op fuel o; rs ← run_sketch fuel os; mret (r :: rs)
  end.

Section reference.
Context (b lb w : double) (hs : list Z → list Z).

Definition table_decay (timestamp : Z) (l : list Z) (v : table) : option (double * table) :=
  if forallb (λ i, dge (elapsed w timestamp (v i)) dzero) l then
    Some (key_rate b w timestamp l v, decay_cells b w timestamp l v)
  else None.

Definition table_op (o : sketch_op) (v : table) : option (double * table) :=
  match o with
  | Add key q timestamp =>
      '(r, v) ← table_decay timestamp (hs key) v;
      let x := dadd r (dmul q lb) in
      if dle x max_counter then Some (x, fill_cells x (hs key) v) else None
  | Check key timestamp => table_decay timestamp (hs key) v
  | ClearAt timestamp => Some (dzero, λ _, (dzero, timestamp))
  end.

Fixpoint table_ops (os : list sketch_op) (v : table) : option (list double * table) :=
  match os with
  | [] => Some ([], v)
  | o :: os => '(r, v) ← table_op o v; '(rs, v) ← table_ops os v; Some (r :: rs, v)
  end.
End reference.

(** ** The sketch holds the table *)

Record holds_table (s : tewma) (v : table) : Prop := HoldsTable {
  table_size : length (c s) = Z.to_nat (maxdigest (base s)) ∧ length (t s) = Z.to_nat (maxdigest (base s));
  table_cells i : 0 ≤ i < maxdigest (base s) → c s !! Z.to_nat i = Some (v i).1 ∧ t s !! Z.to_nat i = Some (v i).2
}.

Lemma holds_table_ext s v v' : holds_table s v → (∀ i, 0 ≤ i < maxdigest (base s) → v i = v' i) → holds_table s v'.
Proof. intros [Hs Hc] E. split; [done|]. intros i Hi. rewrite <- E by done. by apply Hc. Qed.

Lemma gets_bind {S A B} (f : S → A) (g : A → M S B) s : (gets f ≫= g) s = g (f s) s.
Proof. done. Qed.
Lemma ensure_bind {S B} (b : bool) e (g : unit → M S B) s : b = true → (ensure b e ≫= g) s = g tt s.
Proof. by intros ->. Qed.

Lemma read_c_at s v i : holds_table s v → 0 ≤ i < maxdigest (base s) → read_c i s = (Ret (v i).1, s).
Proof.
  intros [[Hl _] Hc] Hi. destruct (Hc i Hi) as [Ec _]. unfold read_c. run_m.
  rewrite (proj2 (Z.leb_le _ _)), (proj2 (Z.ltb_lt _ _)) by lia. cbn [andb]. by rewrite (nth_lookup_Some _ _ _ _ Ec).
Qed.
Lemma read_t_at s v i : holds_table s v → 0 ≤ i < maxdigest (base s) → read_t i s = (Ret (v i).2, s).
Proof.
  intros [[_ Hl] Hc] Hi. destruct (Hc i Hi) as [_ Et]. unfold read_t. run_m.
  rewrite (proj2 (Z.leb_le _ _)), (proj2 (Z.ltb_lt _ _)) by lia. cbn [andb]. by rewrite (nth_lookup_Some _ _ _ _ Et).
Qed.

(** One cell written. *)
Definition set_cell (i : Z) (x : cell) (v : table) : table := λ j, if bool_decide (j = i) then x else v j.

Lemma write_c_at s v i x : holds_table s v → 0 ≤ i < maxdigest (base s) →
  ∃ s', write_c i x s = (Ret tt, s') ∧ holds_table s' (set_cell i (x, (v i).2) v) ∧ s' = set_c (c s') s.
Proof.
  intros [[Hl Hl'] Hc] Hi. unfold write_c. run_m. rewrite (proj2 (Z.leb_le _ _)), (proj2 (Z.ltb_lt _ _)) by lia. cbn [andb].
  eexists. split; [reflexivity|]. split; [|done]. split; cbn [c t base set_c]; [by rewrite length_insert|].
  intros j Hj. destruct (Hc j Hj) as [Ec Et]. unfold set_cell. case_bool_decide as E; [subst j|].
  - by rewrite list_lookup_insert_eq by lia.
  - by rewrite list_lookup_insert_ne by lia.
Qed.
Lemma write_t_at s v i x : holds_table s v → 0 ≤ i < maxdigest (base s) →
  ∃ s', write_t i x s = (Ret tt, s') ∧ holds_table s' (set_cell i ((v i).1, x) v) ∧ s' = set_t (t s') s.
Proof.
  intros [[Hl Hl'] Hc] Hi. unfold write_t. run_m. rewrite (proj2 (Z.leb_le _ _)), (proj2 (Z.ltb_lt _ _)) by lia. cbn [andb].
  eexists. split; [reflexivity|]. split; [|done]. split; cbn [c t base set_t]; [by rewrite length_insert|].
  intros j Hj. destruct (Hc j Hj) as [Ec Et]. unfold set_cell. case_bool_decide as E; [subst j|].
  - by rewrite list_lookup_insert_eq by lia.
  - by rewrite list_lookup_insert_ne by lia.
Qed.

(** What the operations leave alone. *)
Definition same_sketch (s s' : tewma) : Prop := base s' = base s ∧ beta s' = beta s ∧ logbeta s' = logbeta s ∧ W s' = W s.

Lemma H_at s k i : hash_at k (base s) = (Ret i, base s) → H k s = (Ret i, s).
Proof. intros E. unfold H, zoom. rewrite E. by destruct s. Qed.

Lemma decay_loop_at ks l ts : ∀ s v a, named ks l (base s) → NoDup l → Forall (λ i, 0 ≤ i < maxdigest (base s)) l →
  holds_table s v → forallb (λ i, dge (elapsed (W s) ts (v i)) dzero) l = true →
  ∃ s', decay_loop ks ts a s = (Ret (least a (decayed (beta s) (W s) ts <$> (v <$> l))), s') ∧
    holds_table s' (decay_cells (beta s) (W s) ts l v) ∧ same_sketch s s'.
Proof.
  revert ks. induction l as [|i l IH]; intros ks s v a Hks Hd Hr Hv Hok; inversion Hks as [|k ? ks' ? Hk Hks']; subst; cbn [decay_loop].
  - exists s. split; [done|]. split; [|done]. eapply holds_table_ext; [done|]. intros j _. unfold decay_cells. by rewrite bool_decide_eq_false_2 by set_solver.
  - apply NoDup_cons in Hd as [Hi Hd]. apply Forall_cons in Hr as [Hri Hr]. cbn [forallb] in Hok. apply andb_true_iff in Hok as [Hoki Hok].
    rewrite (bind_Ret _ _ _ _ _ (H_at s k i Hk)), (bind_Ret _ _ _ _ _ (read_t_at s v i Hv Hri)).
    destruct (write_t_at s v i ts Hv Hri) as (s1 & E1 & Hv1 & Es1).
    rewrite gets_bind, (bind_Ret _ _ _ _ _ E1). fold (elapsed (W s) ts (v i)).
    rewrite ensure_bind by exact Hoki.
    assert (base s1 = base s ∧ beta s1 = beta s ∧ W s1 = W s ∧ logbeta s1 = logbeta s) as (Eb & Ebe & Ew & El) by (by rewrite Es1).
    rewrite (bind_Ret _ _ _ _ _ (read_c_at s1 _ i Hv1 ltac:(by rewrite Eb))). rewrite gets_bind.
    assert (set_cell i ((v i).1, ts) v i = ((v i).1, ts)) as Eself by (unfold set_cell; by rewrite bool_decide_eq_true_2). rewrite Eself. cbn [fst].
    set (x := dmul _ _). assert (x = decayed (beta s) (W s) ts (v i)) as Ex by (unfold x, decayed, elapsed; by rewrite Ebe).
    destruct (write_c_at s1 _ i x Hv1 ltac:(by rewrite Eb)) as (s2 & E2 & Hv2 & Es2). rewrite (bind_Ret _ _ _ _ _ E2). rewrite Eself in Hv2. cbn [snd] in Hv2.
    assert (base s2 = base s ∧ beta s2 = beta s ∧ W s2 = W s ∧ logbeta s2 = logbeta s) as (Eb2 & Ebe2 & Ew2 & El2) by (rewrite Es2; done).
    set (v2 := set_cell i (x, ts) _) in Hv2.
    assert (∀ j, j ∈ l → v2 j = v j) as Ev2 by (intros j Hj; unfold v2, set_cell; by rewrite !bool_decide_eq_false_2 by set_solver).
    destruct (IH ks' s2 v2 (if dlt x a then x else a)) as (s' & E' & Hv' & Hs').
    + by rewrite Eb2.
    + done.
    + by rewrite Eb2.
    + done.
    + rewrite Ew2. rewrite forallb_forall in Hok |- *. intros j Hj. rewrite Ev2 by (by apply list_elem_of_In). by apply Hok.
    + exists s'. rewrite Ebe2, Ew2 in E', Hv'. rewrite E'. split; [|split].
      * do 2 f_equal. unfold least. cbn [fmap list_fmap foldl]. rewrite Ex. f_equal. f_equal. apply list_fmap_ext.
        intros k0 j Hj. apply Ev2. by eapply list_elem_of_lookup_2.
      * eapply holds_table_ext; [done|]. intros j _. unfold decay_cells. destruct (decide (j = i)) as [-> |Hne].
        { rewrite bool_decide_eq_false_2, bool_decide_eq_true_2 by set_solver. unfold v2, set_cell. by rewrite bool_decide_eq_true_2, Ex. }
        { assert (v2 j = v j) as -> by (unfold v2, set_cell; by rewrite !bool_decide_eq_false_2). erewrite bool_decide_ext; [reflexivity|]. set_solver. }
      * destruct Hs' as (F1 & F2 & F3 & F4). split_and!; congruence.
Qed.

Lemma fill_loop_at ks l x : ∀ s v, named ks l (base s) → NoDup l → Forall (λ i, 0 ≤ i < maxdigest (base s)) l →
  holds_table s v → ∃ s', fill_loop ks x s = (Ret tt, s') ∧ holds_table s' (fill_cells x l v) ∧ same_sketch s s'.
Proof.
  revert ks. induction l as [|i l IH]; intros ks s v Hks Hd Hr Hv; inversion Hks as [|k ? ks' ? Hk Hks']; subst; cbn [fill_loop].
  - exists s. split; [done|]. split; [|done]. eapply holds_table_ext; [done|]. intros j _. unfold fill_cells. by rewrite bool_decide_eq_false_2 by set_solver.
  - apply NoDup_cons in Hd as [Hi Hd]. apply Forall_cons in Hr as [Hri Hr].
    rewrite (bind_Ret _ _ _ _ _ (H_at s k i Hk)), (bind_Ret _ _ _ _ _ (read_c_at s v i Hv Hri)).
    set (v2 := if dlt (v i).1 x then set_cell i (x, (v i).2) v else v).
    assert (∃ s2, (if dlt (v i).1 x then write_c i x else mret tt) s = (Ret tt, s2) ∧ holds_table s2 v2 ∧ same_sketch s s2)
      as (s2 & E2 & Hv2 & Hs2).
    { unfold v2. destruct (dlt (v i).1 x); [|by exists s].
      destruct (write_c_at s v i x Hv Hri) as (s2 & E2 & Hv2 & Es2). exists s2. split_and!; try done; by rewrite Es2. }
    rewrite (bind_Ret _ _ _ _ _ E2). pose proof Hs2 as (Eb & Ebe & El & Ew).
    destruct (IH ks' s2 v2) as (s' & E' & Hv' & Hs'); [by rewrite Eb|done|by rewrite Eb|done|].
    exists s'. split; [done|]. split; [|unfold same_sketch in *; intuition congruence].
    eapply holds_table_ext; [done|]. intros j _. unfold fill_cells. destruct (decide (j = i)) as [-> |Hne].
    + rewrite bool_decide_eq_false_2, bool_decide_eq_true_2 by set_solver. cbn [andb]. unfold v2.
      destruct (dlt (v i).1 x); [|done]. unfold set_cell. by rewrite bool_decide_eq_true_2.
    + assert (v2 j = v j) as ->.
      { unfold v2. destruct (dlt _ _); [|done]. unfold set_cell. by rewrite bool_decide_eq_false_2. }
      erewrite (bool_decide_ext (j ∈ i :: l) (j ∈ l)); [reflexivity|]. set_solver.
Qed.

(** ** A key's hashes, and the operations *)

Section history.
Context (h0 : khash) (n : nat) (Hnorep : norep h0 = true) (Hmax : maxdigest h0 = 2 ^ shash h0).

(** The sketch has the parameters of [h0] and holds the table. *)
Definition ready (b lb w : double) (s : tewma) (v : table) : Prop :=
  khash_ok (base s) ∧ same_shape h0 (base s) ∧ beta s = b ∧ logbeta s = lb ∧ W s = w ∧ holds_table s v.

Lemma current_at b lb w s v key ts r v' : ready b lb w s v → usable h0 n key →
  table_decay b w ts (hashes h0 n key) v = Some (r, v') →
  ∃ s', current n key ts s = (Ret r, s') ∧ ready b lb w s' v' ∧ named (seqZ 1 (nhash (base s'))) (hashes h0 n key) (base s') ∧
    NoDup (hashes h0 n key) ∧ Forall (λ i, 0 ≤ i < maxdigest (base s')) (hashes h0 n key).
Proof.
  intros (Hok & Hsh & Eb & El & Ew & Hv) [Hk Hen] Ed. unfold table_decay in Ed.
  destruct (forallb _ _) eqn:Ef; [|done]. injection Ed as <- <-.
  destruct (compute_spec n key (base s) Hok Hk (enough_same_shape _ _ _ _ Hsh Hen)) as (h1 & E1 & Hok1 & Hsh1 & Hh1).
  rewrite (hashes_same_shape _ _ _ _ Hsh) in Hh1. set (l := hashes h0 n key) in *.
  assert (same_shape h0 h1) as Hsh1' by (by eapply same_shape_trans).
  assert (Z.of_nat (length l) = nhash h1) as Hlen.
  { unfold l. rewrite length_hashes by done. destruct Hsh1' as (-> & _). pose proof (ok_nhash _ Hok). destruct Hsh as (E & _). lia. }
  pose proof (named_all l h1 Hok1 Hh1 Hlen) as Hnm.
  assert (NoDup l) as Hd.
  { unfold l, hashes. rewrite Hnorep. eapply sublist_NoDup; [apply candidates_NoDup|apply sublist_take]. }
  assert (maxdigest h1 = maxdigest h0 ∧ shash h1 = shash h0) as [Em Es] by (by destruct Hsh1' as (_ & ? & ? & _)).
  assert (Forall (λ i, 0 ≤ i < maxdigest h1) l) as Hr.
  { rewrite Em, Hmax, <- Es. unfold l. rewrite <- (hashes_same_shape h0 h1) by done. by apply hashes_range. }
  set (s1 := set_base h1 s).
  assert (zoom base set_base (compute n key) s = (Ret tt, s1)) as Ez by (unfold zoom; by rewrite E1).
  assert (holds_table s1 v) as Hv1.
  { destruct Hv as [Hvs Hvc]. destruct Hsh1 as (_ & _ & Emm & _). split; cbn [base s1 set_base c t]; rewrite Emm; done. }
  unfold current. rewrite (bind_Ret _ _ _ _ _ Ez).
  pose proof (ok_nhash _ Hok1). destruct l as [|i l'] eqn:Edl; [cbn in Hlen; lia|].
  pose proof Hnm as Hnm1. rewrite seqZ_cons in Hnm1 by lia. inversion Hnm1 as [|? ? ? ? Hi _]; subst.
  rewrite (bind_Ret _ _ _ _ _ (H_at s1 1 i Hi)). pose proof (Forall_inv Hr) as Hri.
  rewrite (bind_Ret _ _ _ _ _ (read_c_at s1 v i Hv1 Hri)), gets_bind.
  destruct (decay_loop_at (seqZ 1 (nhash h1)) (i :: l') ts s1 v (v i).1 Hnm Hd Hr Hv1 Ef) as (s' & E' & Hv' & Hs').
  exists s'. split; [exact E'|]. destruct Hs' as (F1 & F2 & F3 & F4). cbn [base s1 set_base beta logbeta W] in *.
  unfold ready. rewrite F1, F2, F3, F4. done.
Qed.

Lemma sketch_op_at b lb w o s v r v' : ready b lb w s v → Forall (usable h0 n) (op_keys o) →
  table_op b lb w (hashes h0 n) o v = Some (r, v') → ∃ s', run_sketch_op n o s = (Ret r, s') ∧ ready b lb w s' v'.
Proof.
  intros Hs Hu Eo. destruct o as [key q ts|key ts|ts]; cbn [run_sketch_op table_op op_keys] in *.
  - apply Forall_inv in Hu. destruct (table_decay _ _ _ _ _) as [[r1 v1]|] eqn:Ed; [|done].
    cbn [mbind option_bind] in Eo. destruct (dle _ _) eqn:El; [|done]. injection Eo as <- <-.
    destruct (current_at b lb w s v key ts r1 v1 Hs Hu Ed) as (s1 & E1 & Hs1 & Hnm & Hd & Hr).
    unfold add. rewrite (bind_Ret _ _ _ _ _ E1), gets_bind. destruct Hs1 as (Hok1 & Hsh1 & Eb & Elb & Ew & Hv1).
    rewrite Elb, ensure_bind by exact El. rewrite gets_bind.
    destruct (fill_loop_at _ _ (dadd r1 (dmul q lb)) s1 v1 Hnm Hd Hr Hv1) as (s' & E' & Hv' & F1 & F2 & F3 & F4).
    rewrite (bind_Ret _ _ _ _ _ E'). exists s'. split; [done|]. unfold ready. rewrite F1, F2, F3, F4. done.
  - apply Forall_inv in Hu. destruct (current_at b lb w s v key ts r v' Hs Hu Eo) as (s1 & E1 & Hs1 & _). by exists s1.
  - injection Eo as <- <-. eexists. split; [reflexivity|]. destruct Hs as (Hok & Hsh & Eb & Elb & Ew & [[Hc Ht] _]).
    do 5 (split; [done|]). split; cbn [c t base clear_at set_t set_c]; [by rewrite !length_replicate|].
    intros i Hi. by rewrite !lookup_replicate_2 by lia.
Qed.

Lemma sketch_ops_at b lb w os : ∀ s v rs v', ready b lb w s v → Forall (usable h0 n) (os ≫= op_keys) →
  table_ops b lb w (hashes h0 n) os v = Some (rs, v') → ∃ s', run_sketch n os s = (Ret rs, s') ∧ ready b lb w s' v'.
Proof.
  induction os as [|o os IH]; intros s v rs v' Hs Hu Eo; cbn [table_ops run_sketch] in *.
  - injection Eo as <- <-. by exists s.
  - cbn [mbind list_bind] in Hu. apply Forall_app in Hu as [Hu1 Hu2].
    destruct (table_op _ _ _ _ o v) as [[r v1]|] eqn:E1; [|done]. cbn [mbind option_bind] in Eo.
    destruct (table_ops _ _ _ _ os v1) as [[rs1 v2]|] eqn:E2; [|done]. injection Eo as <- <-.
    destruct (sketch_op_at b lb w o s v r v1 Hs Hu1 E1) as (s1 & F1 & Hs1).
    destruct (IH s1 v1 rs1 v2 Hs1 Hu2 E2) as (s' & F2 & Hs').
    rewrite (bind_Ret _ _ _ _ _ F1), (bind_Ret _ _ _ _ _ F2). by exists s'.
Qed.
End history.

Lemma tewma_new_ready junk_block junk_res junk_t junk_c n len b w s : length junk_block = 64%nat →
  tewma_new junk_block junk_res junk_t junk_c n len b w = Ret s →
  norep (base s) = true ∧ maxdigest (base s) = 2 ^ shash (base s) ∧
  ready (base s) b (dopp (log b)) w s (λ _, (dzero, 0)).
Proof.
  intros Hl E. unfold tewma_new in E. destruct (khash_new _ _ _ _ _) as [h|] eqn:Eh; [|done].
  apply khash_new_ok in Eh as (Hok & Em & En & Es & Eo); [|done].
  destruct (dlt dzero w); [|done]. cbn [negb] in E. unfold set_beta in E. revert E. run_m.
  destruct (_ && _); [|done]. intros [= <-]. cbn [base set_c set_t clear_at]. split; [done|]. split; [by rewrite Es|].
  do 5 (split; [done|]). split; cbn [c t base clear_at set_t set_c]; [by rewrite !length_replicate|].
  intros i Hi. by rewrite !length_replicate, !lookup_replicate_2 by lia.
Qed.
End tewma.

(** ** Properties *)

(** A sketch answers any history of additions, checks and clears, whose times do not go
    back and whose counters stay below 1e99 (else an assertion fails, and the table has no
    answer), as a table with one cell for each hash does: a key's rate is the least of its
    cells once these are decayed to the time of the question, and an addition raises the
    cells that are below the new rate to it. *)
Theorem tewma_refines_table pow log junk_block junk_res junk_t junk_c nhash shash beta w s rounds os rs v :
  length junk_block = 64%nat → tewma_new log junk_block junk_res junk_t junk_c nhash shash beta w = Ret s →
  Forall (usable (base s) rounds) (os ≫= op_keys) →
  table_ops pow beta (dopp (log beta)) w (hashes (base s) rounds) os (λ _, (dzero, 0)) = Some (rs, v) →
  ∃ s', run_sketch pow rounds os s = (Ret rs, s') ∧ holds_table s' v.
Proof.
  intros Hl E Hu Eo. destruct (tewma_new_ready log _ _ _ _ _ _ _ _ _ Hl E) as (Hn & Hm & Hs).
  destruct (sketch_ops_at pow log (base s) rounds Hn Hm _ _ _ os s _ rs v Hs Hu Eo) as (s' & E' & _ & _ & _ & _ & _ & Hv).
  by exists s'.
Qed.

(** After an addition none of the key's cells is below the rate returned. *)
Lemma filled_not_below x l v i : i ∈ l → dlt (fill_cells x l v i).1 x = false.
Proof.
  intros Hi. unfold fill_cells. rewrite bool_decide_eq_true_2 by done. cbn [andb]. destruct (dlt (v i).1 x) eqn:E; [|done].
  cbn [fst]. unfold dlt, SFltb, SFcompare. destruct x as [[]|[]| |[] m e]; try done;
    rewrite Z.compare_refl; unfold Pcompare; by rewrite Pos.compare_cont_refl.
Qed.

(** ** Witness *)

Lemma least_zeros (l : list cell) : least dzero ((λ _, dzero) <$> l) = dzero.
Proof. induction l as [|x l IH]; [done|exact IH]. Qed.

(** One of everything: a decay that is no decay, at the time of the last clear. *)
Lemma fresh_decay ts l : table_decay (λ _ _, double_of_Z 1) dzero (double_of_Z 1) ts l (λ _, (dzero, ts)) =
  Some (dzero, decay_cells (λ _ _, double_of_Z 1) dzero (double_of_Z 1) ts l (λ _, (dzero, ts))).
Proof.
  assert (∀ x : Z, elapsed (double_of_Z 1) x (dzero, x) = dzero) as Ee by (intros x; unfold elapsed, difftime; cbn [snd]; by rewrite Z.sub_diag).
  unfold table_decay. rewrite (proj2 (forallb_forall _ l)) by (intros x _; by rewrite Ee).
  do 2 f_equal. unfold key_rate. rewrite <- list_fmap_compose.
  replace (default dzero _) with dzero by (by destruct l).
  etrans; [|apply (least_zeros ((λ _, (dzero, ts)) <$> l))]. f_equal. by rewrite <- list_fmap_compose.
Qed.

Definition sketch_history : list sketch_op := [Add key1 (double_of_Z 3) 0; ClearAt 5; Add key2 (double_of_Z 4) 5].

Lemma tewma_refines_table_witness : ∃ s s',
  tewma_new (λ _, SFopp (double_of_Z 2)) block0 0 0 dnan 1 6 (ddiv (double_of_Z 1) (double_of_Z 2)) (double_of_Z 1) = Ret s ∧
  run_sketch (λ _ _, double_of_Z 1) 1 sketch_history s = (Ret [double_of_Z 6; dzero; double_of_Z 8], s').
Proof.
  destruct (tewma_new (λ _, SFopp (double_of_Z 2)) block0 0 0 dnan 1 6 (ddiv (double_of_Z 1) (double_of_Z 2)) (double_of_Z 1))
    as [s|] eqn:E; [|vm_compute in E; discriminate].
  assert (∀ key, is_key key → usable (base s) 1 key) as Hu.
  { intros key Hk. split; [done|]. injection E as <-. done. }
  assert (is_key key1 ∧ is_key key2) as [H1 H2] by (split; (split; [by repeat constructor|done])).
  assert (∃ v, table_ops (λ _ _, double_of_Z 1) (ddiv (double_of_Z 1) (double_of_Z 2)) (dopp (SFopp (double_of_Z 2)))
    (double_of_Z 1) (hashes (base s) 1) sketch_history (λ _, (dzero, 0)) = Some ([double_of_Z 6; dzero; double_of_Z 8], v)) as [v Ev].
  { unfold sketch_history. cbn [table_ops table_op]. eexists.
    assert (∀ ts l, table_decay (λ _ _, double_of_Z 1) (ddiv (double_of_Z 1) (double_of_Z 2)) (double_of_Z 1) ts l (λ _, (dzero, ts)) =
      table_decay (λ _ _, double_of_Z 1) dzero (double_of_Z 1) ts l (λ _, (dzero, ts))) as Eb by done.
    assert (dadd dzero (dmul (double_of_Z 3) (dopp (SFopp (double_of_Z 2)))) = double_of_Z 6) as E6 by (by vm_compute).
    assert (dadd dzero (dmul (double_of_Z 4) (dopp (SFopp (double_of_Z 2)))) = double_of_Z 8) as E8 by (by vm_compute).
    assert (dle (double_of_Z 6) max_counter = true ∧ dle (double_of_Z 8) max_counter = true) as [L6 L8] by (by vm_compute).
    rewrite !Eb, !fresh_decay. cbn [mbind option_bind fst snd]. rewrite E6, L6. cbn [mbind option_bind].
    rewrite Eb, fresh_decay. cbn [mbind option_bind fst snd]. rewrite E8, L8. cbn [mbind option_bind]. done. }
  destruct (tewma_refines_table (λ _ _, double_of_Z 1) (λ _, SFopp (double_of_Z 2)) block0 0 0 dnan 1 6
    (ddiv (double_of_Z 1) (double_of_Z 2)) (double_of_Z 1) s 1 sketch_history [double_of_Z 6; dzero; double_of_Z 8] v eq_refl E) as (s' & E' & _).
  - constructor; [by apply Hu|]. constructor; [by apply Hu|constructor].
  - exact Ev.
  - exists s, s'. split; [done|exact E'].
Defined.
